(* ===== verification/_CoqProject ===== *)
-Q . S2P

Prelude.v
Py.v
Redis.v
Prog.v
PageState.v
Streams.v
TokenBucket.v
Breaker.v
Adaptive.v
Retry.v
Client.v
Json.v
Results.v
Config.v
Splitter.v
Pipeline.v
Reaper.v
Worker.v
Progress.v
Concurrent.v
Completion.v
Text.v
Iou.v
Forests.v
Ted.v
Evaluate.v
Shapes.v
Draw.v
Payloads.v
MakePdf.v
Admission.v
Jobs.v
Sse.v
Closing.v
Metrics.v
Scrape.v
Fleet.v
Mock.v
MockRuns.v
MockOnce.v
MockStats.v
Trace.v
Shutdown.v
Environment.v
App.v
Wiring.v
Bench.v
Grading.v
