(* ===== verification/Prelude.v ===== *)
(** * OCR orchestrator: a verification library

    The program turns PDF documents into text, page by page.  The API accepts a
    job, writes its records and one queue entry per page to Redis, and streams
    results back; any number of worker processes take pages off the queue, call
    two rate-limited model services (layout, then VLM) and commit each stage by a
    compare-and-set on the page's record; a reaper in every worker takes over what
    dead workers left behind.  Everything the processes share is in Redis: hashes
    with expiries, counters, and streams with one consumer group.

    ** How it is modelled

    - [Redis.v]: the server is a parameter.  The class [Redis] lists the commands the
      source issues, [RedisLaws] their documented behaviour on a view of the server's
      state.  [rview] with the identity view is an instance; every witness runs on it.
      [Memory] adds to a world what one process keeps for itself.
    - [Prog.v]: a coroutine is a [prog]: atomic steps on a shared world, each of which
      may fail with or without its effect, between which the others move the world.
      [wp rely fault inv p Q w] is what holds of [p] under such interference and
      faults, with [inv] after every step, so also if the process dies there; [guar]
      bounds what a program does to the world, and composes over any number of
      programs ([pool_step]); [run], [run_faults] and [run_sched] execute it.
    - A Lua script is one atomic function on the server.  The breaker's, the bucket's
      and the controller's scripts are functions of the record they load, the time and
      their arguments; the page, publish and admission scripts issue commands.
    - Integers are unbounded, as in Python; Lua's numbers and Python's floats are exact
      rationals.  Strings are lists of bytes; [Text.v] works on code points.
    - Exceptions are the type [Py.exn]; [except Exception] is [is_Exception].

    ** Files

    - [Py.v] ([int], [str], [strip], exceptions), [Json.v] ([dumps] and [loads]): what is
      used of Python.
    - [PageState.v] ([app/queue/state.py]), [Streams.v] ([streams.py]), [Results.v]
      ([results.py]): page records, task queue, result stream.
    - [TokenBucket.v], [Breaker.v], [Adaptive.v], [Retry.v] ([app/ratelimit/]): the gates
      in front of a model service.
    - [Client.v], [Pipeline.v], [Reaper.v], [Worker.v] ([app/worker/]): one model call with
      its retries; the stages of a page; the recovery of orphans; the worker around them.
      [Client.Gates] is the interface of the gates; [Pipeline], [Reaper] and [Worker] take
      the model call as a parameter with a stated guarantee.
    - [Progress.v]: the deliveries of one page, over [Worker] and [Reaper].
      [Concurrent.v]: tokens, for what a program owes because of its own steps; with them
      [Completion.v]: the announcement of a job's completion by a fleet of workers.
    - [Splitter.v] ([app/pdf/splitter.py]), [Config.v] ([app/config.py]): documents on disk;
      the settings the other files read.  [Environment.v]: the fields of [Settings] with
      their ranges.  [Wiring.v]: what [main] of the worker and the lifespan of the API build
      from them.
    - [Admission.v], [Jobs.v], [Sse.v] ([app/api/admission.py], [jobs.py], [stream.py]): the
      admission gate; submitting and reading jobs; the event stream of a client.
      [Closing.v]: how the stream of a finished job ends.
    - [Text.v], [Iou.v], [Forests.v], [Ted.v] ([app/eval/]) and [Evaluate.v]
      ([app/api/evaluate.py]): the quality metrics and the endpoint that computes them.
      [Shapes.v]: what a comparison costs, on the documents [scripts/verify.py] probes it with.
    - [Metrics.v] ([common/metrics.py], [app/worker/metrics.py]), [Scrape.v]
      ([app/api/metrics.py]), [Fleet.v]: the metrics of a worker and their flushes, the
      scrape that puts the fleet's together, and the two composed for any number of workers.
    - [Trace.v] ([common/tracing.py], [middleware.py]): the trace id of a request, through
      the API, the queue of [Streams.v], the workers and the reaper.
    - [App.v] ([app/core/redis_client.py], [app/main.py]): the two connection pools, startup
      and shutdown.
    - [Shutdown.v]: the end of the worker's loop.
    - [Mock.v] ([mock_model/]), [MockRuns.v], [MockOnce.v], [MockStats.v]: the model server
      the program is tested against, as events in any order; what holds of its runs.
      [Draw.v]: drawing from a generator; [Payloads.v] ([mock_model/payloads.py]): what the
      mock invents; [Mock.v] takes it as a parameter.
    - [Bench.v], [Grading.v] ([bench/benchmark.py]): the client that reads the streams of
      [Sse.v]; the readings of memory and counters, the summary and the exit code.
      [MakePdf.v] ([bench/make_pdf.py]): the documents the benchmark uploads.

    Definitions keep the source's names; a record stands for each class or stored hash,
    one definition for each method or script.

    ** What is proved

    - No page is lost.  [Worker.handle_page_never_loses], [Reaper.recover_never_loses],
      [Streams.requeue_never_loses]: at every point of its handling a page is terminal or in
      the queue, whatever commands fail and wherever the process dies;
      [Jobs.work_has_state]: what is queued has its records.
    - Every page ends.  [Progress.page_ends]: after a bounded number of deliveries a queued
      page is terminal and settled.
    - Every job's end is announced, at most once, never early
      ([Completion.completion_announced], [completion_announced_once]), and its clients are
      told even when the announcement is lost ([Closing.finished_job_told]).
    - The records stay right.  [Pipeline.workers_keep_job] over any interleaving of any
      number of workers, [PageState.job_completes_once], [PageState.transition_cas],
      [PageState.active_job_stays_alive], [Pipeline.process_page_outcome].
    - Load is bounded.  [Admission.admission_refines] (the script implements an abstract
      gate), [gate_history], [Jobs.queue_within_mark], [Worker.dispatch_bounded],
      [TokenBucket.limiter_enforces_rate], [Wiring.published_rate_respected] (the controller
      and the bucket together), [Client.client_attempts_bounded],
      [Splitter.upload_bounded].
    - The gates behave.  [Breaker.breaker_moves] and [breaker_recovers],
      [Adaptive.aimd_moves], [Client.client_call_outcome].
    - Results reach the client.  [Results.published_event_delivered], [gap_check_safe],
      [sse_frame], [Sse.subscriber_gets_every_event], [stream_ends], [slot_given_back].
    - The metrics are what they claim.  [Text.levenshtein_optimal], [Ted.tree_score_optimal]
      against edit scripts, [Ted.parse_tree_total], [Iou.matching_stable],
      [Evaluate.evaluate_answers].  What is refused depends on size and shape as
      [Shapes.guard_by_shape] and [admitted_by_size] say.
    - Settings fit together: [Wiring.starts_from_settings].
    - What is reported is what happened.  [Fleet.scrape_counts] and [scrape_histogram]: a
      scrape and what is not flushed make up what the fleet recorded, under any
      interleaving of the workers' commands; [Metrics.series_round_trip],
      [exposition_round_trip], [totals_reach_redis]; [Bench.client_counts_events]: the
      benchmark's client counts the frames the server wrote, however they are cut;
      [Grading.counter_read], [size_in_its_unit], [pass_is_sound].
    - A request is followed: [Trace.trace_end_to_end].  A process closes what it opened:
      [App.lifespan_releases], [handles_current]; a worker finishes what it holds:
      [Shutdown.shutdown_drains].
    - The model server keeps its promises: [MockOnce.executes_once],
      [MockRuns.followers_released], [MockStats.requests_accounted], [Mock.mock_wait_exact],
      [mock_rate_enforced].
      What it invents is well formed: [Payloads.layout_is_a_page], [vlm_output_bounded],
      [replay_scores_perfectly]; so are the benchmark's documents: [MakePdf.build_readable].
    - Where the code falls short of what it says, a theorem or example shows it:
      [Pipeline.vlm_claim_fault_strands], [late_layout_commit_revokes],
      [Worker.store_error_drops_page], [parser_error_escapes], [Reaper.scan_skips_own],
      [Client.probe_slot_leaks], [Adaptive.latency_breach_raises],
      [Streams.read_can_exceed_count], [Breaker.late_failure_extends],
      [Results.gap_false_alarm], [Completion.final_lost_unannounced],
      [Ted.normalised_above_one],
      [Evaluate.box_type_error_escapes], [Mock.header_wait_short],
      [App.lifespan_releases] (its second half), [App.reinit_stale_handle],
      [Wiring.api_cannot_follow], [Bench.broken_stream_hides_loss],
      [Grading.nothing_measured_passes], [Payloads.layout_is_a_page].

    ** Bounds and fuel

    Recursion follows the data except here.  [Splitter.copy_loop] has the byte budget plus
    two rounds, enough since each round but the last writes a byte ([upload_bounded]).
    [Client.retry_loop] has one round per attempt allowed.  Every worker loop is one round
    at a time.  [Json.scan_value] has twice the length of its text ([loads_dumps]).
    [Bench.drain] has the length of the buffer, which a round shortens ([drain_cut]).
    [Ted.parse_loop] and [Evaluate]'s walk have a multiple of the document's size
    ([parse_tree_total]).  [Sse.tail_loop] is cut after any number of rounds; [stream_ends]
    gives one that is enough, [finished_job_told] one for a finished job.

    ** Not modelled

    Logging but for the ids it adds, timings, response headers and the bodies of errors;
    signal handling and task cancellation, except in [Mock.v]; the set-up of the logging
    library and of the FastAPI applications; threads (a blocking call handed to one is a
    step); floating-point rounding; directories and [fsync]; the PDF parser, the Unicode
    tables, [random] (the ranges it documents: [Draw.Random]), SHA-256, [repr] and [float],
    [uuid4], the HTTP client and its transport, Starlette's headers, which are parameters;
    command lines and printed reports; the response models of [app/models.py], which no
    code uses; the scripts but for the documents in [Shapes.v], which only drive a running
    system; the tests.  Redis is the behaviour of [RedisLaws]: replication, eviction and
    persistence are not considered, and an expiry matters only where a theorem speaks of
    time. *)

From Stdlib Require Import QArith Lqa Qround.
From stdpp Require Export base gmap sets list strings pretty.

(** ** Notation scope of the development *)

Declare Scope ocr_scope.
Delimit Scope ocr_scope with ocr.

(** ** Automation *)

Create HintDb ocr.
Create Rewrite HintDb ocr.
Create Rewrite HintDb run.

(** Split a [bool] condition into its proposition. *)
Ltac bool_prop :=
  repeat match goal with
  | H : andb _ _ = true |- _ => apply andb_true_iff in H; destruct H
  | H : andb _ _ = false |- _ => apply andb_false_iff in H
  | H : orb _ _ = false |- _ => apply orb_false_iff in H; destruct H
  | H : orb _ _ = true |- _ => apply orb_true_iff in H
  | H : negb _ = true |- _ => apply negb_true_iff in H
  | H : negb _ = false |- _ => apply negb_false_iff in H
  | H : (_ <=? _)%Z = true |- _ => apply Z.leb_le in H
  | H : (_ <=? _)%Z = false |- _ => apply Z.leb_gt in H
  | H : (_ <? _)%Z = true |- _ => apply Z.ltb_lt in H
  | H : (_ <? _)%Z = false |- _ => apply Z.ltb_ge in H
  | H : (_ =? _)%Z = true |- _ => apply Z.eqb_eq in H
  | H : (_ =? _)%Z = false |- _ => apply Z.eqb_neq in H
  | H : (_ <=? _)%N = true |- _ => apply N.leb_le in H
  | H : (_ <=? _)%N = false |- _ => apply N.leb_gt in H
  | H : (_ <=? _)%nat = true |- _ => apply Nat.leb_le in H
  | H : (_ <=? _)%nat = false |- _ => apply Nat.leb_gt in H
  | H : (_ <? _)%nat = true |- _ => apply Nat.ltb_lt in H
  | H : (_ <? _)%nat = false |- _ => apply Nat.ltb_ge in H
  | H : (_ =? _)%nat = true |- _ => apply Nat.eqb_eq in H
  | H : (_ =? _)%nat = false |- _ => apply Nat.eqb_neq in H
  | H : (_ =? _)%string = true |- _ => apply String.eqb_eq in H
  | H : (_ =? _)%string = false |- _ => apply String.eqb_neq in H
  | H : Qle_bool _ _ = true |- _ => apply Qle_bool_iff in H
  | H : bool_decide _ = true |- _ => apply bool_decide_eq_true in H
  | H : bool_decide _ = false |- _ => apply bool_decide_eq_false in H
  end.

(** Case analysis on the condition of the first [if]/[match] of the goal or of
    a hypothesis, keeping the equation. *)
Ltac case_cond :=
  match goal with
  | |- context [match ?c with _ => _ end] => destruct c eqn:?
  | H : context [match ?c with _ => _ end] |- _ => destruct c eqn:?
  end.

(** Membership in a concrete list. *)
Ltac in_list := repeat first [apply list_elem_of_here | apply list_elem_of_further].

(** ** Rationals *)

#[export] Instance Qle_decision : RelDecision Qle.
Proof.
  intros x y. destruct (Qle_bool x y) eqn:E; [left; by apply Qle_bool_iff|].
  right. intros H. apply Qle_bool_iff in H. congruence.
Defined.

(** ** Counting *)

(** Number of elements of [l] that satisfy [P]. *)
Fixpoint countb {A} (P : A -> bool) (l : list A) : nat :=
  match l with
  | [] => 0
  | x :: l' => (if P x then 1 else 0) + countb P l'
  end.

Section countb.
Context {A : Type}.
Implicit Types (P Q : A -> bool) (l : list A).

Lemma countb_ext P Q l : (forall x, x ∈ l -> P x = Q x) -> countb P l = countb Q l.
Proof.
  induction l as [|x l IH]; intros Hl; simpl; [done|].
  rewrite (Hl x) by apply list_elem_of_here. rewrite IH; [done|]. eauto using list_elem_of_further.
Qed.

Lemma countb_le P l : countb P l <= length l.
Proof. induction l as [|x l IH]; simpl; [done|]. destruct (P x); lia. Qed.

Lemma countb_app P l k : countb P (l ++ k) = countb P l + countb P k.
Proof. induction l as [|x l IH]; simpl; [done|]. rewrite IH. lia. Qed.

Lemma countb_full P l : countb P l = length l <-> forall x, x ∈ l -> P x = true.
Proof.
  induction l as [|x l IH]; simpl; [by split; [intros _ y ?%elem_of_nil|]|].
  pose proof (countb_le P l). split.
  - destruct (P x) eqn:E; [|lia]. intros Hc y [->|Hy]%elem_of_cons; [done|].
    apply IH; [lia|done].
  - intros Hl. rewrite (Hl x), (proj2 IH) by eauto using list_elem_of_here, list_elem_of_further. done.
Qed.

(** Changing the predicate at one point of a duplicate-free list. *)
Lemma countb_update P Q l x :
  NoDup l -> x ∈ l -> (forall y, y <> x -> P y = Q y) ->
  countb Q l + (if P x then 1 else 0) = countb P l + (if Q x then 1 else 0).
Proof.
  intros Hnd Hx HPQ. induction Hnd as [|y l Hy Hnd IH]; [by apply elem_of_nil in Hx|].
  simpl. apply elem_of_cons in Hx as [->|Hx].
  - rewrite (countb_ext P Q l); [lia|]. intros z Hz. apply HPQ. congruence.
  - rewrite (HPQ y) by congruence. specialize (IH Hx). lia.
Qed.
End countb.

(** ** Loops *)

(** [for i in range(1, n + 1)]: [P i] after round [i]. *)
Lemma fold_seq {S} (P : nat -> S -> Prop) (f : S -> nat -> S) (n : nat) (s : S) :
  P 0 s -> (forall i s, i < n -> P i s -> P (Datatypes.S i) (f s (Datatypes.S i))) ->
  P n (fold_left f (seq 1 n) s).
Proof.
  intros H0 Hs.
  assert (forall m, m <= n -> P m (fold_left f (seq 1 m) s)) as Hm; [|by apply Hm].
  induction m as [|m IH]; intros Hle; [done|].
  rewrite seq_S, fold_left_app. simpl. apply Hs; [lia|]. apply IH. lia.
Qed.

(** [for x in l]: [P done] after the rounds of [done]. *)
Lemma fold_prefix {A S} (P : list A -> S -> Prop) (f : S -> A -> S) (l : list A) (s : S) :
  P [] s -> (forall pre x suf s, l = pre ++ x :: suf -> P pre s -> P (pre ++ [x]) (f s x)) ->
  P l (fold_left f l s).
Proof.
  intros H0 Hs.
  assert (forall suf pre s, l = pre ++ suf -> P pre s -> P l (fold_left f suf s)) as Hm;
    [|by apply (Hm l [])].
  induction suf as [|x suf IH]; intros pre s' E HP; simpl; [by rewrite E, app_nil_r|].
  apply (IH (pre ++ [x])); [by rewrite <- app_assoc|]. by apply (Hs pre x suf).
Qed.

(** ** Sums *)

Lemma sum_fmap_cons {X} (f : X -> nat) (x : X) (l : list X) :
  sum_list (f <$> x :: l) = f x + sum_list (f <$> l).
Proof. done. Qed.

Lemma sum_list_in {X} (f : X -> nat) (l : list X) (x : X) : x ∈ l -> f x <= sum_list (f <$> l).
Proof.
  induction l as [|y l IH]; [by intros ?%elem_of_nil|]. rewrite sum_fmap_cons.
  intros [->|Hx]%elem_of_cons; [lia|]. specialize (IH Hx). lia.
Qed.

Lemma sum_list_app (l k : list nat) : sum_list (l ++ k) = sum_list l + sum_list k.
Proof. induction l as [|x l IH]; [done|]. change (x + sum_list (l ++ k) = x + sum_list l + sum_list k). lia. Qed.

(** ** Dicts in insertion order

    A Python dict whose order matters: an association list with distinct keys. *)

Section assoc.
Context {K V : Type} `{EqDecision K}.
Implicit Types m : list (K * V).

Fixpoint assoc_get (k : K) m : option V :=
  match m with
  | [] => None
  | (k', v) :: m' => if decide (k = k') then Some v else assoc_get k m'
  end.

(** [m[k] = v]: in place, or at the end. *)
Fixpoint assoc_put (k : K) (v : V) m : list (K * V) :=
  match m with
  | [] => [(k, v)]
  | (k', v') :: m' => if decide (k = k') then (k, v) :: m' else (k', v') :: assoc_put k v m'
  end.

(** [m.pop(k, None)] *)
Definition assoc_del (k : K) m : list (K * V) := filter (λ kv, kv.1 <> k) m.

Lemma assoc_get_put k k' v m :
  assoc_get k (assoc_put k' v m) = if decide (k = k') then Some v else assoc_get k m.
Proof.
  induction m as [|[k1 v1] m IH]; simpl; [done|]. destruct (decide (k' = k1)) as [->|Hne]; simpl.
  - by destruct (decide (k = k1)).
  - rewrite IH. destruct (decide (k = k1)) as [->|]; [|done]. by rewrite decide_False.
Qed.

Lemma assoc_get_in k v m : assoc_get k m = Some v -> (k, v) ∈ m.
Proof.
  induction m as [|[k1 v1] m IH]; simpl; [done|]. destruct (decide (k = k1)) as [->|Hne].
  - intros [= ->]. apply list_elem_of_here.
  - intros Hg. by apply list_elem_of_further, IH.
Qed.

Lemma assoc_get_None k m : assoc_get k m = None <-> k ∉ m.*1.
Proof.
  induction m as [|[k1 v1] m IH]; simpl; [split; [intros _; apply not_elem_of_nil|done]|].
  rewrite not_elem_of_cons. destruct (decide (k = k1)) as [->|Hne]; [split; [done|by intros []]|]. tauto.
Qed.

Lemma assoc_get_NoDup k v m : NoDup m.*1 -> (k, v) ∈ m -> assoc_get k m = Some v.
Proof.
  induction m as [|[k1 v1] m IH]; [by intros _ ?%elem_of_nil|]. rewrite fmap_cons, NoDup_cons. cbn [assoc_get fst].
  intros [Hk Hnd] [[= -> ->]|Hin]%elem_of_cons; [by rewrite decide_True|].
  rewrite decide_False; [by apply IH|]. intros ->. by apply Hk, (list_elem_of_fmap_2 fst _ _ Hin).
Qed.

Lemma assoc_put_keys k v m : (assoc_put k v m).*1 = if decide (k ∈ m.*1) then m.*1 else m.*1 ++ [k].
Proof.
  induction m as [|[k1 v1] m IH]; [done|]. cbn [assoc_put]. destruct (decide (k = k1)) as [->|Hne].
  - rewrite !fmap_cons. cbn [fst]. by rewrite decide_True by apply list_elem_of_here.
  - rewrite !fmap_cons, IH. cbn [fst]. destruct (decide (k ∈ m.*1)).
    + by rewrite decide_True by by apply list_elem_of_further.
    + by rewrite decide_False by by rewrite not_elem_of_cons.
Qed.

Lemma assoc_put_NoDup k v m : NoDup m.*1 -> NoDup (assoc_put k v m).*1.
Proof.
  rewrite assoc_put_keys. destruct (decide (k ∈ m.*1)) as [|Hk]; [done|]. intros Hm.
  apply NoDup_app. split_and!; [done| |apply NoDup_singleton]. intros x Hx ->%list_elem_of_singleton. done.
Qed.
End assoc.
