(* ===== verification/Py.v ===== *)
(** * Python and Lua scalars

    What the source uses of its languages: [int()] and [str()] on integers,
    [str.strip], [str.join], and the exception classes that
    cross a component's boundary.  Floats are modelled by exact rationals
    ([Q]); strings are byte strings. *)

From S2P Require Import Prelude.
From Stdlib Require Import Ascii QArith Qround Lqa.

(** ** Exceptions

    One constructor per exception class the modelled code raises or
    tests for with [isinstance]. *)

Inductive exn : Type :=
| ValueError (msg : string)
| KeyError (key : string)
| TypeError (msg : string)
| RuntimeError (msg : string)
| RedisError (msg : string)
| ResponseError (msg : string)
| RateLimitTimeout (endpoint : string) (retry_after_s waited_s : Q)
| CircuitOpen (endpoint : string) (retry_after_s : Q)
| HTTPStatusError (status_code : Z) (headers : gmap string string)
| TimeoutException
| TransportError
| InvalidPdf (msg : string)
| UploadTooLarge (limit_bytes : Z)
| HTTPException (status_code : Z)
| OtherException (name : string)
| CancelledError.

(** [except Exception] does not catch [asyncio.CancelledError], which derives
    from [BaseException]. *)
Definition is_Exception (e : exn) : bool :=
  match e with CancelledError => false | _ => true end.

(** ** Characters *)

Definition ascii_code (c : Ascii.ascii) : N := Ascii.N_of_ascii c.

Definition is_digit (c : Ascii.ascii) : bool :=
  ((48 <=? ascii_code c) && (ascii_code c <=? 57))%N.

(** The ASCII part of [str.isspace]. *)
Definition is_space (c : Ascii.ascii) : bool :=
  let n := ascii_code c in
  (((9 <=? n) && (n <=? 13)) || ((28 <=? n) && (n <=? 32)))%N.

Definition digit_value (c : Ascii.ascii) : N := (ascii_code c - 48)%N.

(** ** Strings *)

Fixpoint lstrip (s : string) : string :=
  match s with
  | EmptyString => EmptyString
  | String c s' => if is_space c then lstrip s' else s
  end.

Fixpoint rstrip (s : string) : string :=
  match s with
  | EmptyString => EmptyString
  | String c s' =>
      match rstrip s' with
      | EmptyString => if is_space c then EmptyString else String c EmptyString
      | t => String c t
      end
  end.

(** [str.strip()] *)
Definition strip (s : string) : string := lstrip (rstrip s).

Fixpoint str_forall (P : Ascii.ascii -> bool) (s : string) : bool :=
  match s with
  | EmptyString => true
  | String c s' => P c && str_forall P s'
  end.

(** [sub in s] *)
Definition str_contains (sub s : string) : bool :=
  match String.index 0 sub s with Some _ => true | None => false end.

(** ** Integers

    [int(s)]: surrounding whitespace, one sign, then decimal digits with
    single underscores between them. *)

Fixpoint int_digits (acc : N) (after_digit : bool) (s : string) : option N :=
  match s with
  | EmptyString => if after_digit then Some acc else None
  | String c s' =>
      if is_digit c then int_digits (10 * acc + digit_value c)%N true s'
      else if (Ascii.eqb c "_"%char && after_digit)%bool then int_digits acc false s'
      else None
  end.

Definition py_int (s : string) : option Z :=
  match strip s with
  | String "-"%char s' => Z.opp ∘ Z.of_N <$> int_digits 0 false s'
  | String "+"%char s' => Z.of_N <$> int_digits 0 false s'
  | s' => Z.of_N <$> int_digits 0 false s'
  end.

(** [str(n)] for an integer. *)
Definition py_str (n : Z) : string := pretty n.

(** ** Floats, as rationals *)

(** [int(x)] *)
Definition int_of_float (x : Q) : Z := Z.quot (Qnum x) (Z.pos (Qden x)).

Lemma int_of_float_nonneg x : (0 <= x)%Q -> int_of_float x = Qfloor x.
Proof.
  unfold int_of_float, Qfloor. destruct x as [n d]. unfold Qle. simpl. intros Hn.
  rewrite Z.quot_div_nonneg by lia. done.
Qed.

(** [a < b] *)
Definition Qltb (a b : Q) : bool := negb (Qle_bool b a).

(** [max(a, b)] and [min(a, b)]: the first of equals. *)
Definition Qmax_py (a b : Q) : Q := if Qle_bool b a then a else b.
Definition Qmin_py (a b : Q) : Q := if Qle_bool a b then a else b.

Lemma Qle_bool_false a b : Qle_bool a b = false <-> (b < a)%Q.
Proof.
  split.
  - intros E. apply Qnot_le_lt. intros Hle. apply Qle_bool_iff in Hle. congruence.
  - intros Hlt. apply not_true_is_false. intros Hle%Qle_bool_iff. by apply Qlt_not_le in Hlt.
Qed.

Lemma Qltb_true a b : Qltb a b = true <-> (a < b)%Q.
Proof. unfold Qltb. by rewrite negb_true_iff, Qle_bool_false. Qed.

Lemma Qltb_false a b : Qltb a b = false <-> (b <= a)%Q.
Proof. unfold Qltb. by rewrite negb_false_iff, Qle_bool_iff. Qed.

(** To the nearest integer, ties to even: [round(x)], and the digits of
    [f"{x:.0f}"]. *)
Definition round_half_even (x : Q) : Z :=
  let n := Qfloor x in
  match (x - inject_Z n ?= 1 # 2)%Q with
  | Lt => n
  | Gt => (n + 1)%Z
  | Eq => if Z.even n then n else (n + 1)%Z
  end.

(** Rounding stays between integers, and moves by a half at most. *)
Lemma round_between (a b : Z) (x : Q) :
  (inject_Z a <= x <= inject_Z b)%Q -> (a <= round_half_even x <= b)%Z.
Proof.
  intros [Ha Hb]. assert (a <= Qfloor x)%Z as H1 by (rewrite <- (Qfloor_Z a); by apply Qfloor_resp_le).
  assert (Qfloor x <= b)%Z as H2 by (rewrite <- (Qfloor_Z b); by apply Qfloor_resp_le).
  unfold round_half_even. pose proof (Qfloor_le x) as Hf.
  destruct (Z.eq_dec (Qfloor x) b) as [E|Hne].
  - rewrite E. assert ((x - inject_Z b ?= 1 # 2)%Q = Lt) as ->; [|lia]. apply (proj1 (Qlt_alt _ _)). lra.
  - destruct (_ ?= _)%Q; [destruct (Z.even _)| |]; lia.
Qed.

Lemma round_close (x : Q) :
  (x - (1 # 2) <= inject_Z (round_half_even x) <= x + (1 # 2))%Q.
Proof.
  unfold round_half_even. pose proof (Qfloor_le x) as Hf. pose proof (Qlt_floor x) as Hc.
  rewrite inject_Z_plus in Hc. change (inject_Z 1) with 1%Q in Hc.
  destruct (x - inject_Z (Qfloor x) ?= 1 # 2)%Q eqn:E.
  - apply Qeq_alt in E. destruct (Z.even _); [lra|]. rewrite inject_Z_plus. change (inject_Z 1) with 1%Q. lra.
  - apply Qlt_alt in E. lra.
  - apply Qgt_alt in E. rewrite inject_Z_plus. change (inject_Z 1) with 1%Q. lra.
Qed.

(** [round(x, digits)], for [scale] the power of ten. *)
Definition round_to (scale : positive) (x : Q) : Q := round_half_even (x * inject_Z (Z.pos scale)) # scale.

Lemma round_to_between (s : positive) (a b : Z) (x : Q) :
  ((a # s) <= x <= (b # s))%Q -> ((a # s) <= round_to s x <= (b # s))%Q.
Proof.
  intros [Ha Hb]. unfold round_to.
  assert (inject_Z a <= x * inject_Z (Z.pos s) <= inject_Z b)%Q as [H1 H2]%round_between.
  { destruct x as [p q]. unfold Qle, Qmult, inject_Z in *. simpl in *. split; nia. }
  unfold Qle. simpl. split; nia.
Qed.

Lemma round_to_close (s : positive) (x : Q) : (x - (1 # 2 * s) <= round_to s x <= x + (1 # 2 * s))%Q.
Proof.
  unfold round_to. destruct (round_close (x * inject_Z (Z.pos s))) as [H1 H2].
  revert H1 H2. generalize (round_half_even (x * inject_Z (Z.pos s))) as n. intros n H1 H2.
  destruct x as [p q]. unfold Qle, Qplus, Qminus, Qopp, Qmult, inject_Z in *. simpl in *. split; nia.
Qed.

(** ** Lemmas *)

Lemma int_digits_digit acc b c s :
  is_digit c = true ->
  int_digits acc b (String c s) = int_digits (10 * acc + digit_value c)%N true s.
Proof. intros H. simpl. by rewrite H. Qed.

Lemma pretty_N_char_digit (x : N) :
  (x < 10)%N -> is_digit (pretty_N_char x) = true /\ digit_value (pretty_N_char x) = x.
Proof.
  intros Hx.
  assert (x = 0 ∨ x = 1 ∨ x = 2 ∨ x = 3 ∨ x = 4 ∨ x = 5 ∨ x = 6 ∨ x = 7 ∨ x = 8 ∨ x = 9)%N
    as Hin by lia.
  destruct Hin as [->|[->|[->|[->|[->|[->|[->|[->|[->| ->]]]]]]]]]; split; reflexivity.
Qed.

Lemma int_digits_pretty_go (x : N) : forall b s,
  (0 < x)%N -> int_digits 0 b (pretty_N_go x s) = int_digits x true s.
Proof.
  induction (N.lt_wf_0 x) as [x _ IH]; intros b s Hx.
  rewrite pretty_N_go_step by done.
  destruct (pretty_N_char_digit (x mod 10)) as [Hd Hv]; [apply N.mod_lt; lia|].
  destruct (decide (x `div` 10 = 0)%N) as [Hz|Hnz].
  - rewrite Hz, pretty_N_go_0, int_digits_digit by done. rewrite Hv. f_equal.
    pose proof (N.div_mod x 10 ltac:(lia)). lia.
  - assert (x `div` 10 < x)%N by (apply N.div_lt; lia).
    assert (0 < x `div` 10)%N by (by apply N.neq_0_lt_0).
    rewrite IH by done.
    rewrite int_digits_digit by done. rewrite Hv. f_equal.
    pose proof (N.div_mod x 10 ltac:(lia)). lia.
Qed.

Lemma str_forall_pretty_go (x : N) : forall s,
  str_forall is_digit s = true -> str_forall is_digit (pretty_N_go x s) = true.
Proof.
  induction (N.lt_wf_0 x) as [x _ IH]; intros s Hs.
  destruct (decide (x = 0)%N) as [->|Hx]; [done|].
  rewrite pretty_N_go_step by lia. apply IH; [apply N.div_lt; lia|].
  simpl. by rewrite (proj1 (pretty_N_char_digit (x mod 10) (N.mod_lt x 10 ltac:(lia)))), Hs.
Qed.

Lemma pretty_N_digits (n : N) : str_forall is_digit (pretty n) = true.
Proof.
  unfold pretty, pretty_N. case_decide; [done|]. by apply str_forall_pretty_go.
Qed.

Lemma int_digits_pretty (n : N) : int_digits 0 false (pretty n) = Some n.
Proof.
  unfold pretty, pretty_N. case_decide; [by subst|].
  rewrite int_digits_pretty_go by lia. done.
Qed.

Lemma digit_not_space c : is_digit c = true -> is_space c = false.
Proof.
  unfold is_digit, is_space. intros H. apply not_true_is_false. intros Hs. bool_prop.
  destruct Hs; bool_prop; lia.
Qed.

Lemma rstrip_digits s : str_forall is_digit s = true -> rstrip s = s.
Proof.
  induction s as [|c s IH]; simpl; [done|]. intros [Hc Hs]%andb_true_iff.
  rewrite (IH Hs), (digit_not_space c Hc). by destruct s.
Qed.

Lemma lstrip_digits s : str_forall is_digit s = true -> lstrip s = s.
Proof.
  destruct s as [|c s]; simpl; [done|]. intros [Hc _]%andb_true_iff.
  by rewrite (digit_not_space c Hc).
Qed.

Lemma strip_digits s : str_forall is_digit s = true -> strip s = s.
Proof. intros H. unfold strip. by rewrite rstrip_digits, lstrip_digits. Qed.

Lemma py_int_digits s :
  str_forall is_digit s = true -> py_int s = Z.of_N <$> int_digits 0 false s.
Proof.
  intros H. unfold py_int. rewrite strip_digits by done.
  destruct s as [|c s]; [done|]. simpl in H. apply andb_true_iff in H as [Hc _].
  destruct c as [[] [] [] [] [] [] [] []]; first [reflexivity | discriminate].
Qed.

Lemma str_forall_app P a b : str_forall P (a +:+ b) = str_forall P a && str_forall P b.
Proof.
  induction a as [|c a IH]; [done|].
  change (String c a +:+ b) with (String c (a +:+ b)). simpl. rewrite IH. apply andb_assoc.
Qed.

(** [int(str(n)) == n] *)
Lemma py_int_str (n : Z) : py_int (py_str n) = Some n.
Proof.
  unfold py_str. destruct n as [|p|p]; [done| |].
  - change (pretty (Z.pos p)) with (pretty (N.pos p)).
    rewrite py_int_digits by apply pretty_N_digits. by rewrite int_digits_pretty.
  - change (pretty (Z.neg p)) with (String "-"%char (pretty (N.pos p))).
    pose proof (int_digits_pretty (N.pos p)) as Hp. pose proof (pretty_N_digits (N.pos p)) as Hd.
    revert Hp Hd. generalize (pretty (N.pos p)) as d. intros d Hp Hd.
    assert (strip (String "-"%char d) = String "-"%char d) as Hs.
    { unfold strip. simpl. rewrite (rstrip_digits d) by done. by destruct d. }
    unfold py_int. rewrite Hs. simpl. by rewrite Hp.
Qed.

Lemma py_str_inj n m : py_str n = py_str m -> n = m.
Proof. intros H. apply (f_equal py_int) in H. rewrite !py_int_str in H. by simplify_eq. Qed.

#[export] Hint Rewrite py_int_str : ocr.

(** ** Fallible computations *)

Abbreviation result A := (exn + A)%type.

Definition rbind {A B} (m : result A) (k : A -> result B) : result B :=
  match m with inl e => inl e | inr a => k a end.

Notation "'let*' x := m 'in' k" := (rbind m (λ x, k))
  (at level 10, x pattern, m at level 100, k at level 200) : ocr_scope.
Open Scope ocr_scope.

(** [int(s)] *)
Definition int (s : string) : result Z :=
  match py_int s with Some n => inr n | None => inl (ValueError ("invalid literal: " +:+ s)) end.

(** [int(x or 0)] for a value read from Redis. *)
Definition int_or_zero (o : option string) : result Z :=
  match o with
  | None => inr 0%Z
  | Some EmptyString => inr 0%Z
  | Some s => int s
  end.

Lemma int_str n : int (py_str n) = inr n.
Proof. unfold int. by rewrite py_int_str. Qed.

Lemma py_str_nonempty n : py_str n <> "".
Proof. intros H. pose proof (py_int_str n) as Hn. by rewrite H in Hn. Qed.

Lemma int_or_zero_str n : int_or_zero (Some (py_str n)) = inr n.
Proof.
  unfold int_or_zero. destruct (py_str n) eqn:E; [by destruct (py_str_nonempty n)|].
  by rewrite <- E, int_str.
Qed.

#[export] Hint Rewrite int_str int_or_zero_str : ocr.

Lemma string_app_id s t : s +:+ t = s -> t = "".
Proof. induction s as [|c s IH]; intros E; [done|]. apply IH. by injection E. Qed.

(** A way to write a rational down, and to read it, for the witnesses. *)
Definition show_code (q : Q) : string := py_str (Z.pos (encode (Qnum q, Qden q))).
Definition float_code (s : string) : result Q :=
  match py_int s with
  | Some (Z.pos p) => match decode p with Some (n, d) => inr (Qmake n d) | None => inl (ValueError s) end
  | _ => inl (ValueError s)
  end.

Lemma float_show_code q : float_code (show_code q) = inr q.
Proof. unfold float_code, show_code. rewrite py_int_str, countable.decode_encode. by destruct q. Qed.
