(* ===== verification/Redis.v ===== *)
(** * The Redis commands the orchestrator relies on

    Redis is not part of the repository, so it is a parameter of the model:
    [Redis R] lists the commands the source issues, on an abstract server state
    [R], and [RedisLaws R] states their documented behaviour as equations on a
    view of that state (hashes, expiries, counters, streams with one consumer
    group).  Every component is verified against the two classes.
    [RView] with the identity view is an instance, used to evaluate witnesses. *)

From S2P Require Import Prelude Py.

(** ** Stream ids and entries *)

Definition eid : Type := N * N.

Definition eid_ltb (a b : eid) : bool :=
  ((a.1 <? b.1) || ((a.1 =? b.1) && (a.2 <? b.2)))%N.

(** [<ms>-<seq>], as the server writes an id. *)
Definition eid_str (i : eid) : string := pretty i.1 +:+ "-" +:+ pretty i.2.

Abbreviation fields := (gmap string string).

Record sentry := SEntry { se_id : eid; se_fields : fields; se_new : bool }.

Record pel_row := PelRow {
  pel_id : eid; pel_consumer : string; pel_delivered_at : Z; pel_count : Z }.

Record sview := SView {
  sv_group : bool;
  sv_entries : list sentry;
  sv_pel : list pel_row }.

Definition sview_empty : sview := SView false [] [].

Record rview := RV {
  rv_now : Z;
  rv_hash : gmap string fields;
  rv_ttl : gmap string Z;
  rv_ctr : gmap string Z;
  rv_stream : gmap string sview }.

Definition vhash (k : string) (v : rview) : fields := default ∅ (rv_hash v !! k).
Definition vctr (k : string) (v : rview) : Z := default 0%Z (rv_ctr v !! k).
Definition vstream (k : string) (v : rview) : sview := default sview_empty (rv_stream v !! k).
Definition vexists (k : string) (v : rview) : bool :=
  bool_decide (is_Some (rv_hash v !! k)) || bool_decide (is_Some (rv_ctr v !! k))
  || bool_decide (is_Some (rv_stream v !! k)).

(** ** Documented effect of the write commands on the view *)

Definition vhset (k : string) (m : fields) (v : rview) : rview :=
  RV (rv_now v) (<[k := m ∪ vhash k v]> (rv_hash v)) (rv_ttl v) (rv_ctr v) (rv_stream v).

Definition vpexpire (k : string) (ms : Z) (v : rview) : rview :=
  if vexists k v
  then RV (rv_now v) (rv_hash v) (<[k := (rv_now v + ms)%Z]> (rv_ttl v)) (rv_ctr v) (rv_stream v)
  else v.

Definition vdel (k : string) (v : rview) : rview :=
  RV (rv_now v) (delete k (rv_hash v)) (delete k (rv_ttl v)) (delete k (rv_ctr v))
     (delete k (rv_stream v)).

Definition vincr (k : string) (v : rview) : rview :=
  RV (rv_now v) (rv_hash v) (rv_ttl v) (<[k := (vctr k v + 1)%Z]> (rv_ctr v)) (rv_stream v).

Definition vset_stream (k : string) (s : sview) (v : rview) : rview :=
  RV (rv_now v) (rv_hash v) (rv_ttl v) (rv_ctr v) (<[k := s]> (rv_stream v)).

Definition sadd (i : eid) (f : fields) (s : sview) : sview :=
  SView (sv_group s) (sv_entries s ++ [SEntry i f true]) (sv_pel s).

Definition sdel (i : eid) (s : sview) : sview :=
  SView (sv_group s) (filter (λ e, se_id e ≠ i) (sv_entries s)) (sv_pel s).

Definition sack (i : eid) (s : sview) : sview :=
  SView (sv_group s) (sv_entries s) (filter (λ p, pel_id p ≠ i) (sv_pel s)).

(** [XREADGROUP ... >]: the first [n] undelivered entries are delivered and
    recorded in the consumer's pending list. *)
Fixpoint stake (n : nat) (l : list sentry) : list sentry * list sentry :=
  match l with
  | [] => ([], [])
  | e :: l' =>
      match n with
      | O => ([], l)
      | S n' =>
          if se_new e
          then let '(t, k) := stake n' l' in
               (e :: t, SEntry (se_id e) (se_fields e) false :: k)
          else let '(t, k) := stake n l' in (t, e :: k)
      end
  end.

Definition sreadgroup (now : Z) (consumer : string) (n : nat) (s : sview)
  : sview * list (eid * fields) :=
  let '(t, k) := stake n (sv_entries s) in
  (SView (sv_group s) k
     (sv_pel s ++ map (λ e, PelRow (se_id e) consumer now 1) t),
   map (λ e, (se_id e, se_fields e)) t).

Definition sfind (i : eid) (s : sview) : option fields :=
  se_fields <$> head (filter (λ e, se_id e = i) (sv_entries s)).

(** [XREADGROUP ... 0]: the consumer's own pending entries, oldest first; a
    deleted entry is listed with no fields. *)
Definition sown (consumer : string) (n : nat) (s : sview) : list (eid * fields) :=
  take n (map (λ p, (pel_id p, default ∅ (sfind (pel_id p) s)))
            (filter (λ p, pel_consumer p = consumer) (sv_pel s))).

(** [XPENDING ... IDLE min_idle - + n] *)
Definition spending (now min_idle : Z) (n : nat) (s : sview) : list (eid * string) :=
  take n (map (λ p, (pel_id p, pel_consumer p))
            (filter (λ p, (min_idle <= now - pel_delivered_at p)%Z) (sv_pel s))).

(** [XCLAIM] of one id: conditional on the idle time, drops the row of a
    deleted entry, resets the idle clock otherwise. *)
Definition sclaim1 (now : Z) (consumer : string) (min_idle : Z) (justid : bool) (i : eid)
  (s : sview) : sview * list (eid * fields) :=
  match head (filter (λ p, pel_id p = i) (sv_pel s)) with
  | Some p =>
      if bool_decide (min_idle <= now - pel_delivered_at p)%Z then
        match sfind i s with
        | None => (sack i s, [])
        | Some f =>
            (SView (sv_group s) (sv_entries s)
               (map (λ q, if bool_decide (pel_id q = i)
                          then PelRow i consumer now (if justid then pel_count q else pel_count q + 1)
                          else q) (sv_pel s)),
             [(i, f)])
        end
      else (s, [])
  | None => (s, [])
  end.

Fixpoint sclaim (now : Z) (consumer : string) (min_idle : Z) (justid : bool) (ids : list eid)
  (s : sview) : sview * list (eid * fields) :=
  match ids with
  | [] => (s, [])
  | i :: ids' =>
      let '(s1, l1) := sclaim1 now consumer min_idle justid i s in
      let '(s2, l2) := sclaim now consumer min_idle justid ids' s1 in
      (s2, l1 ++ l2)
  end.

(** Ids already used by a stream, in its entries or in its pending list. *)
Definition sids (s : sview) : list eid := map se_id (sv_entries s) ++ map pel_id (sv_pel s).

(** ** The commands *)

Class Redis (R : Type) := {
  hgetall : string -> R -> fields;
  hset : string -> fields -> R -> R;
  hincrby : string -> string -> Z -> R -> R * Z;
  pexpire : string -> Z -> R -> R;
  del : string -> R -> R;
  incr : string -> R -> R * Z;
  get : string -> R -> option string;
  xadd : string -> fields -> R -> R * eid;
  xadd_maxlen : string -> Z -> fields -> R -> R * eid;
  xrange : string -> R -> list (eid * fields);
  xlen : string -> R -> Z;
  xdel : string -> eid -> R -> R;
  xack : string -> eid -> R -> R;
  xgroup_create : string -> R -> option R;
  xreadgroup_new : string -> string -> nat -> R -> option (R * list (eid * fields));
  xreadgroup_own : string -> string -> nat -> R -> option (list (eid * fields));
  xpending : string -> R -> option Z;
  xpending_range : string -> Z -> nat -> R -> option (list (eid * string));
  xclaim : string -> string -> Z -> bool -> list eid -> R -> option (R * list (eid * fields));
  xinfo_consumers : string -> R -> option (list (string * Z * Z))
}.

(** [time.time()] of the calling process, in milliseconds. *)
Class Clock (W : Type) := now_ms : W -> Z.

Definition hget `{Redis R} (k f : string) (r : R) : option string := hgetall k r !! f.

(** ** Their documented behaviour *)

Class RedisLaws (R : Type) `{Redis R} := {
  view : R -> rview;
  hgetall_view k r : hgetall k r = vhash k (view r);
  view_hset k m r : view (hset k m r) = vhset k m (view r);
  hincrby_view k f d n r :
    default (Some 0%Z) (py_int <$> vhash k (view r) !! f) = Some n ->
    (hincrby k f d r).2 = (n + d)%Z /\
    view (hincrby k f d r).1 = vhset k {[f := py_str (n + d)]} (view r);
  view_pexpire k ms r : view (pexpire k ms r) = vpexpire k ms (view r);
  view_del k r : view (del k r) = vdel k (view r);
  incr_view k r :
    (incr k r).2 = (vctr k (view r) + 1)%Z /\ view (incr k r).1 = vincr k (view r);
  get_view k r : get k r = py_str <$> rv_ctr (view r) !! k;
  xadd_view k f r :
    Forall (λ i, eid_ltb i (xadd k f r).2 = true) (sids (vstream k (view r))) /\
    view (xadd k f r).1 = vset_stream k (sadd (xadd k f r).2 f (vstream k (view r))) (view r);
  xadd_maxlen_view k n f r :
    Forall (λ i, eid_ltb i (xadd_maxlen k n f r).2 = true) (sids (vstream k (view r))) /\
    exists d,
      let s := sadd (xadd_maxlen k n f r).2 f (vstream k (view r)) in
      (d = 0%nat \/ (n <= Z.of_nat (length (drop d (sv_entries s))))%Z) /\
      view (xadd_maxlen k n f r).1 =
      vset_stream k (SView (sv_group s) (drop d (sv_entries s)) (sv_pel s)) (view r);
  xrange_view k r :
    xrange k r = map (λ e, (se_id e, se_fields e)) (sv_entries (vstream k (view r)));
  xlen_view k r : xlen k r = Z.of_nat (length (sv_entries (vstream k (view r))));
  view_xdel k i r : view (xdel k i r) = vset_stream k (sdel i (vstream k (view r))) (view r);
  view_xack k i r : view (xack k i r) = vset_stream k (sack i (vstream k (view r))) (view r);
  xgroup_create_view k r :
    if sv_group (vstream k (view r)) then xgroup_create k r = None
    else exists r', xgroup_create k r = Some r' /\
         view r' = vset_stream k (SView true (sv_entries (vstream k (view r)))
                                    (sv_pel (vstream k (view r)))) (view r);
  xreadgroup_new_view k c n r :
    let s := vstream k (view r) in
    if sv_group s
    then exists r', xreadgroup_new k c n r = Some (r', (sreadgroup (rv_now (view r)) c n s).2) /\
         view r' = vset_stream k (sreadgroup (rv_now (view r)) c n s).1 (view r)
    else xreadgroup_new k c n r = None;
  xreadgroup_own_view k c n r :
    xreadgroup_own k c n r =
    let s := vstream k (view r) in if sv_group s then Some (sown c n s) else None;
  xpending_view k r :
    xpending k r = let s := vstream k (view r) in
                   if sv_group s then Some (Z.of_nat (length (sv_pel s))) else None;
  xpending_range_view k min_idle n r :
    xpending_range k min_idle n r =
    let s := vstream k (view r) in
    if sv_group s then Some (spending (rv_now (view r)) min_idle n s) else None;
  xclaim_view k c min_idle justid ids r :
    let s := vstream k (view r) in
    let q := sclaim (rv_now (view r)) c min_idle justid ids s in
    if sv_group s
    then exists r', xclaim k c min_idle justid ids r = Some (r', q.2) /\
         view r' = vset_stream k q.1 (view r)
    else xclaim k c min_idle justid ids r = None
}.

#[export] Hint Rewrite @view_hset @view_pexpire @view_del @view_xdel @view_xack : ocr.

(** Time passing: the server drops the keys whose deadline is reached. *)
Definition alive (now : Z) (v : rview) (k : string) : Prop :=
  match rv_ttl v !! k with Some d => (now < d)%Z | None => True end.

#[export] Instance alive_dec now v k : Decision (alive now v k).
Proof. unfold alive. destruct (rv_ttl v !! k); apply _. Defined.

Definition vtick (now : Z) (v : rview) : rview :=
  RV now
    (filter (λ kx, alive now v kx.1) (rv_hash v)) (filter (λ kx, alive now v kx.1) (rv_ttl v))
    (filter (λ kx, alive now v kx.1) (rv_ctr v)) (filter (λ kx, alive now v kx.1) (rv_stream v)).

(** ** Lemmas on the view *)

Section view_lemmas.
Implicit Types (v : rview) (k : string).

Lemma vhash_vhset k k' m v :
  vhash k' (vhset k m v) = if decide (k = k') then m ∪ vhash k v else vhash k' v.
Proof.
  unfold vhset, vhash at 1. simpl. rewrite lookup_insert. by case_decide.
Qed.
Lemma vhash_vhset_eq k m v : vhash k (vhset k m v) = m ∪ vhash k v.
Proof. rewrite vhash_vhset. by rewrite decide_True. Qed.
Lemma vhash_vhset_ne k k' m v : k <> k' -> vhash k' (vhset k m v) = vhash k' v.
Proof. intros. rewrite vhash_vhset. by rewrite decide_False. Qed.

Lemma vhash_vpexpire k k' ms v : vhash k' (vpexpire k ms v) = vhash k' v.
Proof. unfold vpexpire. by destruct (vexists k v). Qed.
Lemma vhash_vset_stream k k' s v : vhash k' (vset_stream k s v) = vhash k' v.
Proof. done. Qed.
Lemma vstream_vhset k k' m v : vstream k' (vhset k m v) = vstream k' v.
Proof. done. Qed.
Lemma vstream_vpexpire k k' ms v : vstream k' (vpexpire k ms v) = vstream k' v.
Proof. unfold vpexpire. by destruct (vexists k v). Qed.

Lemma vstream_vset_stream k k' s v :
  vstream k' (vset_stream k s v) = if decide (k = k') then s else vstream k' v.
Proof. unfold vset_stream, vstream at 1. simpl. rewrite lookup_insert. by case_decide. Qed.
Lemma vstream_vset_stream_eq k s v : vstream k (vset_stream k s v) = s.
Proof. rewrite vstream_vset_stream. by rewrite decide_True. Qed.
Lemma vstream_vset_stream_ne k k' s v :
  k <> k' -> vstream k' (vset_stream k s v) = vstream k' v.
Proof. intros. rewrite vstream_vset_stream. by rewrite decide_False. Qed.

Lemma now_vhset k m v : rv_now (vhset k m v) = rv_now v.
Proof. done. Qed.
Lemma now_vpexpire k ms v : rv_now (vpexpire k ms v) = rv_now v.
Proof. unfold vpexpire. by destruct (vexists k v). Qed.

Lemma vexists_vhset k m v : vexists k (vhset k m v) = true.
Proof. unfold vexists. simpl. by rewrite lookup_insert_eq. Qed.
Lemma vexists_vhset_mono k k' m v : vexists k' v = true -> vexists k' (vhset k m v) = true.
Proof.
  unfold vexists. simpl. destruct (decide (k = k')) as [->|].
  - by rewrite lookup_insert_eq.
  - by rewrite lookup_insert_ne.
Qed.
Lemma vexists_vpexpire k k' ms v : vexists k' (vpexpire k ms v) = vexists k' v.
Proof. unfold vpexpire. by destruct (vexists k v) eqn:E. Qed.
Lemma vexists_hash k v : vhash k v <> ∅ -> vexists k v = true.
Proof.
  unfold vhash, vexists. intros H. destruct (rv_hash v !! k); [|done].
  by rewrite bool_decide_true.
Qed.

Lemma ttl_vhset k k' m v : rv_ttl (vhset k m v) !! k' = rv_ttl v !! k'.
Proof. done. Qed.
Lemma ttl_vpexpire_eq k ms v :
  vexists k v = true -> rv_ttl (vpexpire k ms v) !! k = Some (rv_now v + ms)%Z.
Proof. intros H. unfold vpexpire. rewrite H. simpl. by rewrite lookup_insert_eq. Qed.
Lemma ttl_vpexpire_ne k k' ms v :
  k <> k' -> rv_ttl (vpexpire k ms v) !! k' = rv_ttl v !! k'.
Proof. intros. unfold vpexpire. destruct (vexists k v); [simpl|done]. by rewrite lookup_insert_ne. Qed.

(** A key still before its deadline keeps its hash when time passes. *)
Lemma vhash_vtick_alive now k v : alive now v k -> vhash k (vtick now v) = vhash k v.
Proof.
  intros Ha. unfold vhash, vtick. simpl. destruct (rv_hash v !! k) as [h|] eqn:E.
  - erewrite map_lookup_filter_Some_2; [done|done|done].
  - by rewrite map_lookup_filter_None_2 by (left; done).
Qed.
Lemma ttl_vtick_alive now k v : alive now v k -> rv_ttl (vtick now v) !! k = rv_ttl v !! k.
Proof.
  intros Ha. unfold vtick. simpl. destruct (rv_ttl v !! k) as [h|] eqn:E.
  - erewrite map_lookup_filter_Some_2; [done|done|done].
  - by rewrite map_lookup_filter_None_2 by (left; done).
Qed.
End view_lemmas.

#[export] Hint Rewrite vhash_vhset_eq vhash_vpexpire vhash_vset_stream vstream_vhset
  vstream_vpexpire vstream_vset_stream_eq now_vhset now_vpexpire : ocr.

(** Move a goal about a Redis state to its view and simplify. *)
Ltac rview := autorewrite with ocr in *.

(** ** A concrete server, on which the witnesses evaluate *)

Definition fresh_id (s : sview) : eid := ((1 + foldr N.max 0 (map fst (sids s)))%N, 0%N).

#[export] Instance redis_view : Redis rview := {|
  hgetall := vhash;
  hset := vhset;
  hincrby := λ k f d v,
    match default (Some 0%Z) (py_int <$> vhash k v !! f) with
    | Some n => (vhset k {[f := py_str (n + d)]} v, (n + d)%Z)
    | None => (v, 0%Z)
    end;
  pexpire := vpexpire;
  del := vdel;
  incr := λ k v, (vincr k v, (vctr k v + 1)%Z);
  get := λ k v, py_str <$> rv_ctr v !! k;
  xadd := λ k f v,
    let i := fresh_id (vstream k v) in (vset_stream k (sadd i f (vstream k v)) v, i);
  xadd_maxlen := λ k n f v,
    let i := fresh_id (vstream k v) in
    let s := sadd i f (vstream k v) in
    let d := (length (sv_entries s) - Z.to_nat n)%nat in
    (vset_stream k (SView (sv_group s) (drop d (sv_entries s)) (sv_pel s)) v, i);
  xrange := λ k v, map (λ e, (se_id e, se_fields e)) (sv_entries (vstream k v));
  xlen := λ k v, Z.of_nat (length (sv_entries (vstream k v)));
  xdel := λ k i v, vset_stream k (sdel i (vstream k v)) v;
  xack := λ k i v, vset_stream k (sack i (vstream k v)) v;
  xgroup_create := λ k v,
    let s := vstream k v in
    if sv_group s then None
    else Some (vset_stream k (SView true (sv_entries s) (sv_pel s)) v);
  xreadgroup_new := λ k c n v,
    let s := vstream k v in
    if sv_group s
    then let q := sreadgroup (rv_now v) c n s in Some (vset_stream k q.1 v, q.2) else None;
  xreadgroup_own := λ k c n v,
    let s := vstream k v in if sv_group s then Some (sown c n s) else None;
  xpending := λ k v,
    let s := vstream k v in
    if sv_group s then Some (Z.of_nat (length (sv_pel s))) else None;
  xpending_range := λ k min_idle n v,
    let s := vstream k v in if sv_group s then Some (spending (rv_now v) min_idle n s) else None;
  xclaim := λ k c min_idle justid ids v,
    let s := vstream k v in
    if sv_group s
    then let q := sclaim (rv_now v) c min_idle justid ids s in Some (vset_stream k q.1 v, q.2)
    else None;
  xinfo_consumers := λ k v,
    let s := vstream k v in
    if sv_group s
    then Some (map (λ c, (c, Z.of_nat (length (filter (λ p, pel_consumer p = c) (sv_pel s))), 0%Z))
                 (remove_dups (map pel_consumer (sv_pel s))))
    else None
|}.

#[export] Instance clock_view : Clock rview := rv_now.

Lemma eid_ltb_irrefl i : eid_ltb i i = false.
Proof. unfold eid_ltb. rewrite !N.ltb_irrefl, N.eqb_refl. done. Qed.

Lemma eid_ltb_trans a b c : eid_ltb a b = true -> eid_ltb b c = true -> eid_ltb a c = true.
Proof.
  unfold eid_ltb. rewrite !orb_true_iff, !andb_true_iff, !N.ltb_lt, !N.eqb_eq. lia.
Qed.

Lemma fresh_id_fresh s : Forall (λ i, eid_ltb i (fresh_id s) = true) (sids s).
Proof.
  apply Forall_forall. intros i Hi. unfold eid_ltb, fresh_id. simpl.
  apply orb_true_iff. left. apply N.ltb_lt.
  assert (i.1 <= foldr N.max 0 (map fst (sids s)))%N; [|lia].
  induction (sids s) as [|j l IH]; [by apply elem_of_nil in Hi|].
  apply elem_of_cons in Hi as [->|Hi]; simpl; [lia|]. specialize (IH Hi). lia.
Qed.

#[export] Instance redis_view_laws : RedisLaws rview.
Proof.
  refine {| view := λ v, v |}; try done; intros; simpl.
  - by rewrite H.
  - split; [apply fresh_id_fresh|done].
  - split; [apply fresh_id_fresh|]. eexists. split; [|reflexivity].
    rewrite length_drop. lia.
  - destruct (sv_group _) eqn:E; [done|]. by eexists.
  - destruct (sv_group _) eqn:E; [|done]. by eexists.
  - destruct (sv_group _) eqn:E; [|done]. by eexists.
Defined.

Definition rview_init (now : Z) : rview := RV now ∅ ∅ ∅ ∅.

(** ** A process beside its server

    A component also keeps state of its own: counters, bookkeeping, the clock it
    reads.  [Memory M W]: a world with a piece of local state of type [M], which
    the server does not see. *)

Class Memory (M W : Type) := { mem : W -> M; set_mem : M -> W -> W }.
Arguments mem {M W _} w.
Arguments set_mem {M W _} m w.

Class MemoryLaws (M W : Type) `{Memory M W, RedisLaws W, Clock W} := {
  mem_set_mem m w : mem (set_mem m w) = m;
  view_set_mem m w : view (set_mem m w) = view w;
  now_set_mem m w : now_ms (set_mem m w) = now_ms w }.

#[export] Hint Rewrite @mem_set_mem @view_set_mem @now_set_mem : ocr.

(** The server with such a piece of state. *)
Definition on_server {R M X : Type} (f : R -> R * X) (w : R * M) : (R * M) * X :=
  let '(r, x) := f w.1 in ((r, w.2), x).

Definition on_server_opt {R M X : Type} (f : R -> option (R * X)) (w : R * M)
  : option ((R * M) * X) :=
  (λ q, ((q.1, w.2), q.2)) <$> f w.1.

#[export] Instance redis_beside {R M} `{Redis R} : Redis (R * M) | 100 := {|
  hgetall := λ k w, hgetall k w.1;
  hset := λ k m w, (hset k m w.1, w.2);
  hincrby := λ k f d, on_server (hincrby k f d);
  pexpire := λ k ms w, (pexpire k ms w.1, w.2);
  del := λ k w, (del k w.1, w.2);
  incr := λ k, on_server (incr k);
  get := λ k w, get k w.1;
  xadd := λ k f, on_server (xadd k f);
  xadd_maxlen := λ k n f, on_server (xadd_maxlen k n f);
  xrange := λ k w, xrange k w.1;
  xlen := λ k w, xlen k w.1;
  xdel := λ k i w, (xdel k i w.1, w.2);
  xack := λ k i w, (xack k i w.1, w.2);
  xgroup_create := λ k w, (λ r, (r, w.2)) <$> xgroup_create k w.1;
  xreadgroup_new := λ k c n, on_server_opt (xreadgroup_new k c n);
  xreadgroup_own := λ k c n w, xreadgroup_own k c n w.1;
  xpending := λ k w, xpending k w.1;
  xpending_range := λ k i n w, xpending_range k i n w.1;
  xclaim := λ k c i justid ids, on_server_opt (xclaim k c i justid ids);
  xinfo_consumers := λ k w, xinfo_consumers k w.1
|}.

#[export] Instance clock_beside {R M} `{Clock R} : Clock (R * M) | 100 := λ w, now_ms w.1.
#[export] Instance memory_beside {R M} : Memory M (R * M) := {|
  mem := snd; set_mem := λ m w, (w.1, m) |}.

#[export] Instance redis_beside_laws {R M} `{RedisLaws R} : RedisLaws (R * M) | 100.
Proof.
  refine {| view := λ w, view w.1 |}; intros; cbn; unfold on_server, on_server_opt;
    try first [apply hgetall_view|apply view_hset|apply view_pexpire|apply view_del|apply get_view
      |apply xrange_view|apply xlen_view|apply view_xdel|apply view_xack|apply xreadgroup_own_view
      |apply xpending_view|apply xpending_range_view].
  - pose proof (hincrby_view k f d n r.1 H1) as Hv. by destruct (hincrby k f d r.1).
  - pose proof (incr_view k r.1) as Hv. by destruct (incr k r.1).
  - pose proof (xadd_view k f r.1) as Hv. by destruct (xadd k f r.1).
  - pose proof (xadd_maxlen_view k n f r.1) as Hv. by destruct (xadd_maxlen k n f r.1).
  - pose proof (xgroup_create_view k r.1) as Hv. destruct (sv_group _); [by rewrite Hv|].
    destruct Hv as (r' & -> & Hv). by exists (r', r.2).
  - pose proof (xreadgroup_new_view k c n r.1) as Hv. cbn zeta in Hv.
    destruct (sv_group _); [|by rewrite Hv]. destruct Hv as (r' & -> & Hv). by exists (r', r.2).
  - pose proof (xclaim_view k c min_idle justid ids r.1) as Hv. cbn zeta in Hv.
    destruct (sv_group _); [|by rewrite Hv]. destruct Hv as (r' & -> & Hv). by exists (r', r.2).
Defined.

#[export] Instance memory_beside_laws {R M} `{RedisLaws R, Clock R} : MemoryLaws M (R * M).
Proof. by split. Qed.

(** A second piece of state, beside the first. *)
#[export] Instance memory_under {R M N} `{Memory M R} : Memory M (R * N) | 100 := {|
  mem := λ w, mem w.1; set_mem := λ m w, (set_mem m w.1, w.2) |}.

#[export] Instance memory_under_laws {R M N} `{MemoryLaws M R} : MemoryLaws M (R * N) | 100.
Proof.
  split; intros m w; cbn; [apply mem_set_mem|apply view_set_mem|].
  unfold now_ms, clock_beside. cbn. apply now_set_mem.
Qed.
