(* ===== verification/Prog.v ===== *)
(** * Programs that take atomic steps on a shared world

    The source's coroutines issue commands, each atomic on its server, and
    anything may happen in between: another worker acts, the process dies, the
    command's reply is lost.  [prog W A] is such a coroutine over a world [W]:
    it returns, raises, or performs one atomic step and continues with the
    step's outcome; between two steps it may also act on what is its own.
    [run] executes it alone; [wp] is what holds of it under
    interference [rely], the faults [fault], and at every crash point [inv]. *)

From S2P Require Import Prelude Py.

Inductive prog (W A : Type) : Type :=
| Ret (a : A)
| Raise (e : exn)
| Step {X : Type} (f : W -> result X * W) (k : result X -> prog W A)
| Local {X : Type} (f : W -> W * X) (k : X -> prog W A).
Arguments Ret {W A} a.
Arguments Raise {W A} e.
Arguments Step {W A X} f k.
Arguments Local {W A X} f k.

Section prog.
Context {W : Type}.

Fixpoint pbind {A B} (p : prog W A) (c : A -> prog W B) : prog W B :=
  match p with
  | Ret a => c a
  | Raise e => Raise e
  | Step f k => Step f (λ x, pbind (k x) c)
  | Local f k => Local f (λ x, pbind (k x) c)
  end.

(** [try: p  except e: h(e)]; [h] re-raises what it does not catch. *)
Fixpoint catch {A} (p : prog W A) (h : exn -> prog W A) : prog W A :=
  match p with
  | Ret a => Ret a
  | Raise e => h e
  | Step f k => Step f (λ x, catch (k x) h)
  | Local f k => Local f (λ x, catch (k x) h)
  end.

Definition of_result {A} (x : result A) : prog W A :=
  match x with inl e => Raise e | inr a => Ret a end.

(** One command; its error reply is raised. *)
Definition step {X} (f : W -> result X * W) : prog W X := Step f of_result.

(** A command that always replies. *)
Definition call {X} (f : W -> W * X) : prog W X := step (λ w, let '(w', x) := f w in (inr x, w')).
Definition act (f : W -> W) : prog W unit := call (λ w, (f w, tt)).
Definition ask {X} (f : W -> X) : prog W X := call (λ w, (w, f w)).

(** What the coroutine does on its own, without awaiting: no step of the others
    and no fault in the middle. *)
Definition own {X} (f : W -> W * X) : prog W X := Local f Ret.
Definition note (f : W -> W) : prog W unit := own (λ w, (f w, tt)).
Definition sample {X} (f : W -> X) : prog W X := own (λ w, (w, f w)).

(** [for x in l: body(x)] *)
Fixpoint for_each {X} (l : list X) (body : X -> prog W unit) : prog W unit :=
  match l with
  | [] => Ret tt
  | x :: l' => pbind (body x) (λ _, for_each l' body)
  end.

(** A loop that accumulates. *)
Fixpoint fold_prog {X S} (l : list X) (s : S) (body : X -> S -> prog W S) : prog W S :=
  match l with
  | [] => Ret s
  | x :: l' => pbind (body x s) (λ s', fold_prog l' s' body)
  end.

(** ** Running alone *)

Fixpoint run {A} (p : prog W A) (w : W) : result A * W :=
  match p with
  | Ret a => (inr a, w)
  | Raise e => (inl e, w)
  | Step f k => let '(x, w') := f w in run (k x) w'
  | Local f k => let '(w', x) := f w in run (k x) w'
  end.

(** Running alone with given faults: at each command, none, or an exception and
    whether the command took effect. *)
Fixpoint run_faults {A} (faults : list (option (exn * bool))) (p : prog W A) (w : W)
  : result A * W :=
  match p with
  | Ret a => (inr a, w)
  | Raise e => (inl e, w)
  | Step f k =>
      match head faults with
      | Some (Some (e, applied)) =>
          run_faults (tail faults) (k (inl e)) (if applied : bool then (f w).2 else w)
      | _ => let '(x, w') := f w in run_faults (tail faults) (k x) w'
      end
  | Local f k => let '(w', x) := f w in run_faults faults (k x) w'
  end.

(** Running with given moves of the others, one before each step. *)
Fixpoint run_sched {A} (moves : list (W -> W)) (p : prog W A) (w : W) : result A * W :=
  match p with
  | Ret a => (inr a, w)
  | Raise e => (inl e, w)
  | Step f k => let '(x, w') := f (default id (head moves) w) in run_sched (tail moves) (k x) w'
  | Local f k => let '(w', x) := f w in run_sched moves (k x) w'
  end.

(** ** Running among others

    Before each step the others move the world along [rely]; a step may also
    fail with a [fault], its effect applied (reply lost) or not (request
    lost).  [inv] holds after every step, so at every point the process can
    die. *)

Section wp.
Context (rely : W -> W -> Prop) (fault : exn -> Prop) (inv : W -> Prop).

Fixpoint wp {A} (p : prog W A) (Q : result A -> W -> Prop) (w : W) : Prop :=
  match p with
  | Ret a => Q (inr a) w
  | Raise e => Q (inl e) w
  | Step f k => forall w1, rely w w1 ->
      inv (f w1).2 /\ wp (k (f w1).1) Q (f w1).2 /\
      (forall e, fault e -> inv w1 /\ wp (k (inl e)) Q w1 /\ wp (k (inl e)) Q (f w1).2)
  | Local f k => wp (k (f w).2) Q (f w).1
  end.

Lemma wp_mono {A} (p : prog W A) (Q Q' : result A -> W -> Prop) : forall w,
  (forall x w, Q x w -> Q' x w) -> wp p Q w -> wp p Q' w.
Proof.
  induction p as [a|e|X f k IH|X f k IH]; intros w HQ; simpl; [auto..| |by apply IH].
  intros Hw w1 Hr. destruct (Hw w1 Hr) as (Hi & Hk & Hf). split_and!; [done|by apply IH|].
  intros e He. destruct (Hf e He) as (H1 & H2 & H3). split_and!; [done|by apply IH..].
Qed.

Lemma wp_bind {A B} (p : prog W A) (c : A -> prog W B) (Q : result B -> W -> Prop) : forall w,
  wp p (λ x, match x with inl e => Q (inl e) | inr a => wp (c a) Q end) w ->
  wp (pbind p c) Q w.
Proof.
  induction p as [a|e|X f k IH|X f k IH]; intros w; simpl; [done..| |by apply IH].
  intros Hw w1 Hr. destruct (Hw w1 Hr) as (Hi & Hk & Hf). split_and!; [done|by apply IH|].
  intros e He. destruct (Hf e He) as (H1 & H2 & H3). split_and!; [done|by apply IH..].
Qed.

Lemma wp_catch {A} (p : prog W A) (h : exn -> prog W A) (Q : result A -> W -> Prop) : forall w,
  wp p (λ x, match x with inl e => wp (h e) Q | inr a => Q (inr a) end) w ->
  wp (catch p h) Q w.
Proof.
  induction p as [a|e|X f k IH|X f k IH]; intros w; simpl; [done..| |by apply IH].
  intros Hw w1 Hr. destruct (Hw w1 Hr) as (Hi & Hk & Hf). split_and!; [done|by apply IH|].
  intros e He. destruct (Hf e He) as (H1 & H2 & H3). split_and!; [done|by apply IH..].
Qed.

Lemma wp_trivial {A} (p : prog W A) (Q : result A -> W -> Prop) : forall w,
  (forall w, inv w) -> (forall x w, Q x w) -> wp p Q w.
Proof.
  induction p as [a|e|X f k IH|X f k IH]; intros w Hi HQ; simpl; [auto..| |by apply IH].
  intros w1 _. split_and!; [done|by apply IH|]. intros e _. split_and!; [done|by apply IH..].
Qed.

(** A loop: [J rest s] before each round, [rest] being the items left. *)
Lemma wp_fold {X S} (body : X -> S -> prog W S) (J : list X -> S -> W -> Prop)
  (E : exn -> W -> Prop) (l : list X) : forall s w,
  (forall x rest s w, J (x :: rest) s w ->
     wp (body x s) (λ o w', match o with inl e => E e w' | inr s' => J rest s' w' end) w) ->
  J l s w ->
  wp (fold_prog l s body) (λ o w', match o with inl e => E e w' | inr s' => J [] s' w' end) w.
Proof.
  induction l as [|x l IH]; intros s w Hb HJ; simpl; [done|].
  apply wp_bind. eapply wp_mono; [|by apply Hb]. intros [e|s'] w'; [done|]. intros HJ'. by apply IH.
Qed.
End wp.

Lemma wp_weaken {A} (rely : W -> W -> Prop) fault (inv inv' : W -> Prop) (p : prog W A) Q : forall w,
  (forall w, inv w -> inv' w) -> wp rely fault inv p Q w -> wp rely fault inv' p Q w.
Proof.
  induction p as [a|e|X f k IH|X f k IH]; intros w Hi; simpl; [done..| |by apply IH].
  intros Hw w1 Hr. destruct (Hw w1 Hr) as (H1 & H2 & H3). split_and!; [auto|by apply IH|].
  intros e He. destruct (H3 e He) as (H4 & H5 & H6). split_and!; [auto|by apply IH..].
Qed.

(** *** Preservation

    A program made of steps that keep [P] keeps [P], however it ends. *)
Section keeps.
Context (rely : W -> W -> Prop) (fault : exn -> Prop) (inv P : W -> Prop).
Context (P_rely : forall w w', rely w w' -> P w -> P w') (P_inv : forall w, P w -> inv w).

Definition keeps {A} (p : prog W A) : Prop :=
  forall w, P w -> wp rely fault inv p (λ _ w', P w') w.

Lemma keeps_ret {A} (a : A) : keeps (Ret a).
Proof. by intros w. Qed.

Lemma keeps_raise {A} e : keeps (@Raise W A e).
Proof. by intros w. Qed.

Lemma keeps_of_result {A} (x : result A) : keeps (of_result x).
Proof. by destruct x; intros w. Qed.

Lemma keeps_step {X} (f : W -> result X * W) : (forall w, P w -> P (f w).2) -> keeps (step f).
Proof.
  intros Hf w HP w1 Hr. apply (P_rely _ _ Hr) in HP. specialize (Hf _ HP).
  split_and!; [by apply P_inv|by destruct (f w1) as [[e|x] r2]|].
  intros e _. split_and!; [by apply P_inv|done..].
Qed.

Lemma keeps_call {X} (f : W -> W * X) : (forall w, P w -> P (f w).1) -> keeps (call f).
Proof. intros Hf. apply keeps_step. intros w HP. specialize (Hf w HP). by destruct (f w). Qed.

Lemma keeps_act (f : W -> W) : (forall w, P w -> P (f w)) -> keeps (act f).
Proof. intros Hf. by apply keeps_call. Qed.

Lemma keeps_own {X} (f : W -> W * X) : (forall w, P w -> P (f w).1) -> keeps (own f).
Proof. intros Hf w HP. simpl. auto. Qed.

Lemma keeps_note (f : W -> W) : (forall w, P w -> P (f w)) -> keeps (note f).
Proof. intros Hf w HP. simpl. auto. Qed.

Lemma keeps_bind {A B} (p : prog W A) (c : A -> prog W B) :
  keeps p -> (forall a, keeps (c a)) -> keeps (pbind p c).
Proof.
  intros Hp Hc w HP. apply wp_bind. eapply wp_mono; [|by apply Hp].
  intros [e|a] w' HP'; [done|by apply Hc].
Qed.

Lemma keeps_catch {A} (p : prog W A) (h : exn -> prog W A) :
  keeps p -> (forall e, keeps (h e)) -> keeps (catch p h).
Proof.
  intros Hp Hh w HP. apply wp_catch. eapply wp_mono; [|by apply Hp].
  intros [e|a] w' HP'; [by apply Hh|done].
Qed.

Lemma keeps_fold {X S} (l : list X) (body : X -> S -> prog W S) :
  (forall x s, x ∈ l -> keeps (body x s)) -> forall s, keeps (fold_prog l s body).
Proof.
  induction l as [|x l IH]; intros Hb s; simpl; [apply keeps_ret|].
  apply keeps_bind; [apply Hb, list_elem_of_here|]. intros s'. apply IH.
  intros y s1 Hy. by apply Hb, list_elem_of_further.
Qed.
End keeps.

(** *** Guarantees

    [guar G p]: every step of [p], whatever the earlier replies, moves the world
    along [G].  It needs no assumption on the others, so it composes over any
    number of concurrent programs ([pool_guar]). *)
Section guar.
Context (G : W -> W -> Prop).

Fixpoint guar {A} (p : prog W A) : Prop :=
  match p with
  | Ret _ | Raise _ => True
  | Step f k => (forall w, G w (f w).2) /\ forall x, guar (k x)
  | Local f k => (forall w, G w (f w).1) /\ forall x, guar (k x)
  end.

Lemma guar_of_result {A} (x : result A) : guar (of_result x).
Proof. by destruct x. Qed.

Lemma guar_bind {A B} (p : prog W A) (c : A -> prog W B) :
  guar p -> (forall a, guar (c a)) -> guar (pbind p c).
Proof.
  induction p as [a|e|X f k IH|X f k IH]; simpl; [auto..| |];
    intros [Hf Hk] Hc; split; auto.
Qed.

Lemma guar_catch {A} (p : prog W A) (h : exn -> prog W A) :
  guar p -> (forall e, guar (h e)) -> guar (catch p h).
Proof.
  induction p as [a|e|X f k IH|X f k IH]; simpl; [auto..| |];
    intros [Hf Hk] Hc; split; auto.
Qed.

Lemma guar_step {X} (f : W -> result X * W) : (forall w, G w (f w).2) -> guar (step f).
Proof. intros Hf. split; [done|]. apply guar_of_result. Qed.

Lemma guar_call {X} (f : W -> W * X) : (forall w, G w (f w).1) -> guar (call f).
Proof. intros Hf. apply guar_step. intros w. specialize (Hf w). by destruct (f w). Qed.

Lemma guar_act (f : W -> W) : (forall w, G w (f w)) -> guar (act f).
Proof. intros Hf. by apply guar_call. Qed.

Lemma guar_ask {X} (f : W -> X) : (forall w, G w w) -> guar (ask f).
Proof. intros Hf. by apply guar_call. Qed.

Lemma guar_sample {X} (f : W -> X) : (forall w, G w w) -> guar (sample f).
Proof. intros Hf. split; [done|]. done. Qed.

Lemma guar_fold {X S} (l : list X) (body : X -> S -> prog W S) :
  (forall x s, guar (body x s)) -> forall s, guar (fold_prog l s body).
Proof. intros Hb. induction l as [|x l IH]; intros s; simpl; [done|]. by apply guar_bind. Qed.

(** One step of a program: a command is executed, or fails with or without
    its effect; or the program acts on its own. *)
Inductive prog_step {A} : prog W A * W -> prog W A * W -> Prop :=
| step_exec X (f : W -> result X * W) k w : prog_step (Step f k, w) (k (f w).1, (f w).2)
| step_lost_request X (f : W -> result X * W) k w e : prog_step (Step f k, w) (k (inl e), w)
| step_lost_reply X (f : W -> result X * W) k w e : prog_step (Step f k, w) (k (inl e), (f w).2)
| step_local X (f : W -> W * X) k w : prog_step (Local f k, w) (k (f w).2, (f w).1).

(** Any number of programs; at any moment one may stop for good, or a new one
    may start. *)
Inductive pool_step {A} (spawn : prog W A -> Prop)
  : list (prog W A) * W -> list (prog W A) * W -> Prop :=
| pool_run l1 p p' l2 w w' :
    prog_step (p, w) (p', w') -> pool_step spawn (l1 ++ p :: l2, w) (l1 ++ p' :: l2, w')
| pool_crash l1 p l2 w : pool_step spawn (l1 ++ p :: l2, w) (l1 ++ l2, w)
| pool_spawn l p w : spawn p -> pool_step spawn (l, w) (p :: l, w).

Context (G_refl : forall w, G w w).

Lemma prog_step_guar {A} (p p' : prog W A) w w' :
  prog_step (p, w) (p', w') -> guar p -> G w w' /\ guar p'.
Proof using G_refl. inversion_clear 1; simpl; intros [Hf Hk]; auto. Qed.

Lemma pool_step_guar {A} (spawn : prog W A -> Prop) (l l' : list (prog W A)) w w' :
  (forall p, spawn p -> guar p) ->
  pool_step spawn (l, w) (l', w') -> Forall guar l -> G w w' /\ Forall guar l'.
Proof using G_refl.
  intros Hsp. inversion_clear 1 as [l1 p p' l2 ? ? Hs|l1 p l2|? p ? Hp];
    [..|intros Hl; split; [done|]; constructor; auto]; rewrite !Forall_app, !Forall_cons.
  - intros (H1 & Hp & H2). destruct (prog_step_guar _ _ _ _ Hs Hp). auto.
  - intros (H1 & Hp & H2). auto.
Qed.

Lemma pool_guar {A} (spawn : prog W A -> Prop) (l l' : list (prog W A)) w w' :
  (forall p, spawn p -> guar p) ->
  rtc (pool_step spawn) (l, w) (l', w') -> Forall guar l -> rtc G w w' /\ Forall guar l'.
Proof using G_refl.
  intros Hsp Hs. remember (l, w) as c eqn:Ec. remember (l', w') as c' eqn:Ec'.
  revert l w Ec l' w' Ec'. induction Hs as [c|c [l1 w1] c' Hs _ IH]; intros l w -> l' w' E Hl.
  - injection E as <- <-. split; [apply rtc_refl|done].
  - destruct (pool_step_guar _ _ _ _ _ Hsp Hs Hl) as [HG Hl1].
    destruct (IH _ _ eq_refl _ _ E Hl1) as [HG' Hl']. split; [|done]. by eapply rtc_l.
Qed.
End guar.

Lemma guar_mono {A} (G G' : W -> W -> Prop) (p : prog W A) :
  (forall w w', G w w' -> G' w w') -> guar G p -> guar G' p.
Proof.
  intros HG. induction p as [a|e|X f k IH|X f k IH]; simpl; [auto..| |]; intros [Hf Hk]; auto.
Qed.

(** Two facts about one program. *)
Lemma wp_and {A} (rely : W -> W -> Prop) fault (inv1 inv2 : W -> Prop) (p : prog W A) Q1 Q2 : forall w,
  wp rely fault inv1 p Q1 w -> wp rely fault inv2 p Q2 w ->
  wp rely fault (λ w, inv1 w /\ inv2 w) p (λ x w, Q1 x w /\ Q2 x w) w.
Proof.
  induction p as [a|e|X f k IH|X f k IH]; intros w H1 H2; simpl in *; [done..| |by apply IH].
  intros w1 Hr. destruct (H1 w1 Hr) as (Hi1 & Hk1 & Hf1), (H2 w1 Hr) as (Hi2 & Hk2 & Hf2).
  split_and!; [done..|by apply IH|]. intros e He.
  destruct (Hf1 e He) as (? & ? & ?), (Hf2 e He) as (? & ? & ?). split_and!; auto.
Qed.

Lemma wp_also {A} (rely : W -> W -> Prop) fault (inv : W -> Prop) (p : prog W A) Q1 Q2 w :
  wp rely fault inv p Q1 w -> wp rely fault (λ _, True) p Q2 w ->
  wp rely fault inv p (λ x w, Q1 x w /\ Q2 x w) w.
Proof. intros H1 H2. eapply wp_weaken; [|by apply wp_and]. by intros w' []. Qed.

(** Fewer moves of the others, fewer faults. *)
Lemma wp_rely {A} (rely rely' : W -> W -> Prop) (fault fault' : exn -> Prop) inv (p : prog W A) Q : forall w,
  (forall w w', rely' w w' -> rely w w') -> (forall e, fault' e -> fault e) ->
  wp rely fault inv p Q w -> wp rely' fault' inv p Q w.
Proof.
  induction p as [a|e|X f k IH|X f k IH]; intros w Hr Hf; simpl; [done..| |by apply IH].
  intros Hw w1 Hw1. destruct (Hw w1 (Hr _ _ Hw1)) as (H1 & H2 & H3). split_and!; [done|by apply IH|].
  intros e He. destruct (H3 e (Hf _ He)) as (H4 & H5 & H6). split_and!; [done|by apply IH..].
Qed.

(** Preservation from a guarantee. *)
Lemma guar_keeps {A} (G rely : W -> W -> Prop) fault (P : W -> Prop) (p : prog W A) :
  (forall w w', G w w' -> P w -> P w') -> (forall w w', rely w w' -> P w -> P w') ->
  guar G p -> forall w, P w -> wp rely fault P p (λ _ w', P w') w.
Proof.
  intros HG Hr. induction p as [a|e|X f k IH|X f k IH]; intros Hg w HP; simpl in *; [done..| |].
  - destruct Hg as [Hf Hk]. intros w1 Hw1. apply (Hr _ _ Hw1) in HP. split_and!; [by eapply HG| |].
    + apply IH; [done|]. by eapply HG.
    + intros e _. split_and!; [done|by apply IH|]. apply IH; [done|]. by eapply HG.
  - destruct Hg as [Hf Hk]. apply IH; [done|]. by eapply HG.
Qed.

Lemma run_prog_steps {A} (p : prog W A) : forall w,
  rtc prog_step (p, w) (of_result (run p w).1, (run p w).2).
Proof.
  induction p as [a|e|X f k IH|X f k IH]; intros w; simpl; [apply rtc_refl..| |].
  - specialize (IH (f w).1 (f w).2). eapply rtc_l; [apply step_exec|].
    destruct (f w) as [x w']. apply IH.
  - specialize (IH (f w).2 (f w).1). eapply rtc_l; [apply step_local|].
    destruct (f w) as [w' x]. apply IH.
Qed.

Lemma run_faults_steps {A} (p : prog W A) : forall faults w,
  rtc prog_step (p, w) (of_result (run_faults faults p w).1, (run_faults faults p w).2).
Proof.
  induction p as [a|e|X f k IH|X f k IH]; intros faults w; simpl; [apply rtc_refl..| |].
  - destruct (head faults) as [[[e [|]]|]|].
    + eapply rtc_l; [apply step_lost_reply|]. apply IH.
    + eapply rtc_l; [apply step_lost_request|]. apply IH.
    + eapply rtc_l; [apply step_exec|]. destruct (f w) as [x w']. apply IH.
    + eapply rtc_l; [apply step_exec|]. destruct (f w) as [x w']. apply IH.
  - specialize (IH (f w).2 faults (f w).1). eapply rtc_l; [apply step_local|].
    destruct (f w) as [w' x]. apply IH.
Qed.

Lemma run_faults_nil {A} (p : prog W A) : forall w, run_faults [] p w = run p w.
Proof.
  induction p as [a|e|X f k IH|X f k IH]; intros w; simpl; [done..| |]; by destruct (f w).
Qed.

Lemma pool_alone {A} (spawn : prog W A -> Prop) (p p' : prog W A) w w' :
  rtc prog_step (p, w) (p', w') -> rtc (pool_step spawn) ([p], w) ([p'], w').
Proof.
  intros Hs. remember (p, w) as c eqn:Ec. remember (p', w') as c' eqn:Ec'.
  revert p w Ec p' w' Ec'. induction Hs as [c|c [p1 w1] c' Hs _ IH]; intros p w -> p' w' E.
  - injection E as <- <-. apply rtc_refl.
  - eapply rtc_l; [exact (pool_run spawn [] p p1 [] w w1 Hs)|]. by apply IH.
Qed.

(** [run] is the case of no interference and no fault. *)
Lemma wp_run {A} (inv : W -> Prop) (p : prog W A) (Q : result A -> W -> Prop) : forall w,
  wp eq (λ _, False) inv p Q w -> Q (run p w).1 (run p w).2.
Proof.
  induction p as [a|e|X f k IH|X f k IH]; intros w; simpl; [done..| |].
  - intros Hw. destruct (Hw w eq_refl) as (_ & Hk & _). destruct (f w) as [x w'] eqn:E. by apply IH.
  - destruct (f w) as [w' x]. apply IH.
Qed.

Lemma wp_run_sched {A} (rely : W -> W -> Prop) fault inv (p : prog W A) Q : forall moves w,
  (forall w, rely w w) -> (forall g w, g ∈ moves -> rely w (g w)) ->
  wp rely fault inv p Q w -> Q (run_sched moves p w).1 (run_sched moves p w).2.
Proof.
  induction p as [a|e|X f k IH|X f k IH]; intros moves w Hrefl Hm; simpl; [done..| |];
    [|destruct (f w) as [w' x]; by apply IH]. intros Hw.
  assert (rely w (default id (head moves) w)) as Hr.
  { destruct moves as [|g moves]; [apply Hrefl|]. apply Hm, list_elem_of_here. }
  destruct (Hw _ Hr) as (_ & Hk & _). destruct (f _) as [x w'] eqn:E. apply IH; [done| |done].
  intros g w1 Hg. apply Hm. destruct moves; [by apply elem_of_nil in Hg|].
  by apply list_elem_of_further.
Qed.

Lemma run_bind {A B} (p : prog W A) (c : A -> prog W B) : forall w,
  run (pbind p c) w =
  match run p w with (inl e, w') => (inl e, w') | (inr a, w') => run (c a) w' end.
Proof.
  induction p as [a|e|X f k IH|X f k IH]; intros w; simpl; [done..| |]; by destruct (f w).
Qed.

Lemma run_catch {A} (p : prog W A) (h : exn -> prog W A) : forall w,
  run (catch p h) w =
  match run p w with (inl e, w') => run (h e) w' | (inr a, w') => (inr a, w') end.
Proof.
  induction p as [a|e|X f k IH|X f k IH]; intros w; simpl; [done..| |]; by destruct (f w).
Qed.

Lemma run_step {X} (f : W -> result X * W) w : run (step f) w = f w.
Proof. simpl. by destruct (f w) as [[e|x] w']. Qed.

Lemma run_call {X} (f : W -> W * X) w : run (call f) w = (inr (f w).2, (f w).1).
Proof. unfold call. rewrite run_step. by destruct (f w). Qed.

Lemma run_act (f : W -> W) w : run (act f) w = (inr tt, f w).
Proof. unfold act. by rewrite run_call. Qed.

Lemma run_ask {X} (f : W -> X) w : run (ask f) w = (inr (f w), w).
Proof. unfold ask. by rewrite run_call. Qed.

Lemma run_own {X} (f : W -> W * X) w : run (own f) w = (inr (f w).2, (f w).1).
Proof. simpl. by destruct (f w). Qed.

Lemma run_note (f : W -> W) w : run (note f) w = (inr tt, f w).
Proof. done. Qed.

Lemma run_sample {X} (f : W -> X) w : run (sample f) w = (inr (f w), w).
Proof. done. Qed.
End prog.

#[export] Hint Rewrite @run_bind @run_catch @run_step @run_call @run_act @run_ask @run_own @run_note
  @run_sample : run.

Notation "'let!' x := m 'in' k" := (pbind m (λ x, k))
  (at level 10, x pattern, m at level 100, k at level 200) : ocr_scope.
Notation "'do!' m 'in' k" := (pbind m (λ _, k))
  (at level 10, m at level 100, k at level 200) : ocr_scope.

(** [try: p  finally: f()], [f] awaiting nothing. *)
Definition finally {W A} (p : prog W A) (f : W -> W) : prog W A :=
  let! r := catch (let! x := p in Ret (inr x)) (λ e, Ret (inl e)) in
  do! note f in
  of_result r.

(** Whatever [p] ends with, [f] runs after it. *)
Lemma wp_finally {W A} (rely : W -> W -> Prop) fault inv (p : prog W A) f (Q : result A -> W -> Prop) w :
  wp rely fault inv p (λ x w', Q x (f w')) w -> wp rely fault inv (finally p f) Q w.
Proof.
  intros Hp. apply wp_bind, wp_catch, wp_bind. eapply wp_mono; [|exact Hp].
  by intros [e|a] w' HQ.
Qed.
