(* ===== verification/PageState.v ===== *)
(** * Page state machine, persisted in Redis ([app/queue/state.py])

    The transition table and what is derived from it, the [_TRANSITION_LUA]
    script, and the operations of [PageStateStore].  Theorems: the table, the
    compare-and-set, the accounting of [done_count], the uniqueness of the
    completing transition, and the renewal of expiries. *)

From S2P Require Import Prelude Py Redis.
From stdpp Require Import fin_maps.

(** ** States *)

Inductive PageState :=
| PENDING | LAYOUT_RUNNING | LAYOUT_DONE | VLM_RUNNING | DONE | FALLBACK_DONE | FAILED.

#[export] Instance PageState_eq_dec : EqDecision PageState.
Proof. solve_decision. Defined.

Definition page_states_enum : list PageState :=
  [PENDING; LAYOUT_RUNNING; LAYOUT_DONE; VLM_RUNNING; DONE; FALLBACK_DONE; FAILED].

Definition state_value (s : PageState) : string :=
  match s with
  | PENDING => "PENDING"
  | LAYOUT_RUNNING => "LAYOUT_RUNNING"
  | LAYOUT_DONE => "LAYOUT_DONE"
  | VLM_RUNNING => "VLM_RUNNING"
  | DONE => "DONE"
  | FALLBACK_DONE => "FALLBACK_DONE"
  | FAILED => "FAILED"
  end.

(** [PageState(value)], which raises [ValueError] on an unknown value. *)
Definition state_of_value (v : string) : option PageState :=
  head (filter (λ s, state_value s = v) page_states_enum).

Inductive JobState := INGESTING | RUNNING | COMPLETE | JOB_FAILED.

Definition job_state_value (s : JobState) : string :=
  match s with
  | INGESTING => "INGESTING" | RUNNING => "RUNNING"
  | COMPLETE => "COMPLETE" | JOB_FAILED => "FAILED"
  end.

(** ** The transition table and its derivatives *)

Definition TRANSITIONS (s : PageState) : list PageState :=
  match s with
  | PENDING => [LAYOUT_RUNNING; FAILED]
  | LAYOUT_RUNNING => [LAYOUT_DONE; PENDING; FAILED]
  | LAYOUT_DONE => [VLM_RUNNING; FALLBACK_DONE]
  | VLM_RUNNING => [DONE; LAYOUT_DONE; FALLBACK_DONE; FAILED]
  | DONE => []
  | FALLBACK_DONE => []
  | FAILED => []
  end.

Definition TERMINAL_STATES : list PageState :=
  filter (λ s, TRANSITIONS s = []) page_states_enum.

Definition RUNNING_STATES : list PageState := [LAYOUT_RUNNING; VLM_RUNNING].

Definition RECLAIM_TARGET (s : PageState) : option PageState :=
  match s with
  | LAYOUT_RUNNING => Some PENDING
  | VLM_RUNNING => Some LAYOUT_DONE
  | _ => None
  end.

Definition PREDECESSORS (target : PageState) : list PageState :=
  filter (λ src, target ∈ TRANSITIONS src) page_states_enum.

Definition can_transition (src dst : PageState) : bool := bool_decide (dst ∈ TRANSITIONS src).

Definition is_terminal (s : PageState) : bool := bool_decide (s ∈ TERMINAL_STATES).
Definition is_running (s : PageState) : bool := bool_decide (s ∈ RUNNING_STATES).

(** ** Keys *)

Definition job_key (job_id : string) : string := "job:" +:+ job_id.

Definition page_key (job_id : string) (page_index : Z) : string :=
  "job:" +:+ job_id +:+ ":page:" +:+ py_str page_index.

(** ** Results *)

Record TransitionResult := {
  tr_ok : bool;
  tr_observed : string;
  tr_done_count : Z;
  tr_total_pages : Z;
  tr_requested : PageState }.

Definition already_applied (t : TransitionResult) : bool :=
  negb (tr_ok t) && (tr_observed t =? state_value (tr_requested t))%string.

Definition missing (t : TransitionResult) : bool := (tr_observed t =? "MISSING")%string.

Definition completed_job (t : TransitionResult) : bool :=
  tr_ok t && ((0 <? tr_total_pages t) && (tr_total_pages t <=? tr_done_count t))%Z.

(** The script's reply: [{ok, observed_state, done_count, total_pages, sweep_pages}]. *)
Record script_reply := Reply {
  rp_ok : bool; rp_observed : string; rp_done : Z; rp_total : Z; rp_sweep : Z }.

Section store.
Context {R : Type} `{Redis R}.

(** [tonumber(redis.call('HGET', k, f))], [None] for a missing or non-numeric field. *)
Definition hget_number (k f : string) (r : R) : option Z := hget k f r ≫= py_int.

Fixpoint hset_fields (k : string) (fs : list (string * string)) (r : R) : R :=
  match fs with
  | [] => r
  | (f, x) :: fs' => hset_fields k fs' (hset k {[f := x]} r)
  end.

(** [_TRANSITION_LUA], one atomic step of the server. *)
Definition transition_lua (page job new_state : string) (now : Z) (terminal : bool) (ttl_ms : Z)
  (allowed : list string) (fs : list (string * string)) (r : R) : R * script_reply :=
  match hget page "state" r with
  | None => (r, Reply false "MISSING" (-1) (-1) 0)
  | Some current =>
      if negb (bool_decide (current ∈ allowed))
      then (r, Reply false current (-1) (-1) 0)
      else
        let r := hset page {["state" := new_state; "updated_at" := py_str now]} r in
        let r := hset_fields page fs r in
        let r := pexpire page ttl_ms r in
        let r := pexpire job ttl_ms r in
        let last_sweep := default 0%Z (hget_number job "pages_renewed_at" r) in
        let '(r, sweep) :=
          if (ttl_ms <? 2 * (now - last_sweep))%Z then
            let sweep := default 0%Z (hget_number job "total_pages" r) in
            (hset job {["pages_renewed_at" := py_str now]} r, sweep)
          else (r, 0%Z) in
        let '(r, done, total) :=
          if terminal then
            let '(r, done) := hincrby job "done_count" 1 r in
            (r, done, default (-1)%Z (hget_number job "total_pages" r))
          else (r, (-1)%Z, (-1)%Z) in
        (r, Reply true new_state done total sweep)
  end.

(** [PageStateStore._renew_job_pages] *)
Fixpoint renew_pages (job_id : string) (ttl_ms : Z) (n : nat) (r : R) : R :=
  match n with
  | O => r
  | S n' => pexpire (page_key job_id (Z.of_nat n')) ttl_ms (renew_pages job_id ttl_ms n' r)
  end.

Definition renew_job_pages (ttl_s : Z) (job_id : string) (total_pages : Z) (r : R) : R :=
  renew_pages job_id (ttl_s * 1000) (Z.to_nat total_pages) r.

(** [PageStateStore.transition]; [allowed_from = None] is the derived
    predecessor set. *)
Definition transition (ttl_s now : Z) (job_id : string) (page_index : Z) (to : PageState)
  (allowed_from : option (list PageState)) (fs : list (string * string)) (r : R)
  : (exn + TransitionResult) * R :=
  let sources := default (PREDECESSORS to) allowed_from in
  match sources with
  | [] => (inl (ValueError (state_value to +:+ " is unreachable: no legal predecessor")), r)
  | _ =>
      let '(r, p) :=
        transition_lua (page_key job_id page_index) (job_key job_id) (state_value to) now
          (is_terminal to) (ttl_s * 1000) (state_value <$> sources) fs r in
      let r := if (0 <? rp_sweep p)%Z then renew_job_pages ttl_s job_id (rp_sweep p) r else r in
      (inr {| tr_ok := rp_ok p; tr_observed := rp_observed p; tr_done_count := rp_done p;
              tr_total_pages := rp_total p; tr_requested := to |}, r)
  end.

(** [PageStateStore.init_job] *)
Fixpoint init_pages (job_id : string) (ttl_s now : Z) (n : nat) (r : R) : R :=
  match n with
  | O => r
  | S n' =>
      let k := page_key job_id (Z.of_nat n') in
      pexpire k (ttl_s * 1000)
        (hset k {["page_index" := py_str (Z.of_nat n'); "state" := state_value PENDING;
                  "attempts" := py_str 0; "updated_at" := py_str now]}
           (init_pages job_id ttl_s now n' r))
  end.

Definition init_job (ttl_s now : Z) (job_id : string) (total_pages : Z) (meta : fields) (r : R)
  : R :=
  let r := hset (job_key job_id)
    (meta ∪ {["job_id" := job_id; "total_pages" := py_str total_pages; "done_count" := py_str 0;
              "state" := job_state_value RUNNING; "created_at" := py_str now;
              "pages_renewed_at" := py_str now]}) r in
  let r := pexpire (job_key job_id) (ttl_s * 1000) r in
  init_pages job_id ttl_s now (Z.to_nat total_pages) r.

Definition bump_attempts (job_id : string) (page_index : Z) (r : R) : R * Z :=
  hincrby (page_key job_id page_index) "attempts" 1 r.

(** ** Reading *)

Definition get_page (job_id : string) (page_index : Z) (r : R) : fields :=
  hgetall (page_key job_id page_index) r.

Definition get_job (job_id : string) (r : R) : fields := hgetall (job_key job_id) r.

Definition progress (job_id : string) (r : R) : result (Z * Z) :=
  let* done := int_or_zero (hget (job_key job_id) "done_count" r) in
  let* total := int_or_zero (hget (job_key job_id) "total_pages" r) in
  inr (done, total).

Definition page_states (job_id : string) (total_pages : Z) (r : R) : list (option string) :=
  (λ i, hget (page_key job_id (Z.of_nat i)) "state" r) <$> seq 0 (Z.to_nat total_pages).

End store.

(** ** Keys are distinct *)

Lemma page_key_ne_job_key j i : page_key j i <> job_key j.
Proof.
  unfold page_key, job_key. intros E. apply (inj (String.append "job:")) in E.
  apply string_app_id in E. discriminate.
Qed.

Lemma page_key_inj j i i' : page_key j i = page_key j i' -> i = i'.
Proof.
  unfold page_key. intros E. apply (inj (String.append "job:")) in E.
  apply (inj (String.append j)) in E. apply (inj (String.append ":page:")) in E.
  by apply py_str_inj in E.
Qed.

Lemma state_of_value_value s : state_of_value (state_value s) = Some s.
Proof. by destruct s. Qed.

Lemma state_value_inj s s' : state_value s = state_value s' -> s = s'.
Proof. intros E. apply (f_equal state_of_value) in E. rewrite !state_of_value_value in E. congruence. Qed.

Lemma state_of_value_Some v s : state_of_value v = Some s -> v = state_value s.
Proof.
  unfold state_of_value. intros E%head_Some_elem_of.
  by apply list_elem_of_filter in E as [<- _].
Qed.

Lemma elem_of_page_states_enum s : s ∈ page_states_enum.
Proof. destruct s; set_solver. Qed.

Lemma is_terminal_spec s : is_terminal s = true <-> TRANSITIONS s = [].
Proof. destruct s; vm_compute; split; congruence. Qed.

Lemma elem_of_PREDECESSORS s t : s ∈ PREDECESSORS t <-> t ∈ TRANSITIONS s.
Proof.
  unfold PREDECESSORS. rewrite list_elem_of_filter. split; [by intros []|].
  eauto using elem_of_page_states_enum.
Qed.

Lemma predecessor_not_terminal s t : s ∈ PREDECESSORS t -> is_terminal s = false.
Proof.
  rewrite elem_of_PREDECESSORS. intros Hs. apply not_true_is_false.
  rewrite is_terminal_spec. intros E. rewrite E in Hs. by apply elem_of_nil in Hs.
Qed.
#[export] Hint Resolve page_key_ne_job_key predecessor_not_terminal elem_of_page_states_enum : ocr.
#[export] Hint Rewrite state_of_value_value : ocr.

(** ** The script's effect on the view *)

Fixpoint vhset_fields (k : string) (fs : list (string * string)) (v : rview) : rview :=
  match fs with
  | [] => v
  | (f, x) :: fs' => vhset_fields k fs' (vhset k {[f := x]} v)
  end.

Lemma vhset_fields_ne k k' fs : forall v, k <> k' -> vhash k' (vhset_fields k fs v) = vhash k' v.
Proof.
  induction fs as [|[f x] fs IH]; intros v Hne; simpl; [done|].
  by rewrite IH, vhash_vhset_ne.
Qed.

Lemma vhset_fields_lookup_ne k fs f : forall v,
  f ∉ fs.*1 -> vhash k (vhset_fields k fs v) !! f = vhash k v !! f.
Proof.
  induction fs as [|[g x] fs IH]; intros v Hf; simpl; [done|].
  rewrite fmap_cons, not_elem_of_cons in Hf. destruct Hf as [Hg Hf]. simpl in Hg.
  rewrite IH by done. rewrite vhash_vhset_eq, lookup_union_r; [done|].
  by apply lookup_singleton_None.
Qed.

Lemma vhset_fields_ttl k fs : forall v, rv_ttl (vhset_fields k fs v) = rv_ttl v.
Proof. induction fs as [|[f x] fs IH]; intros v; simpl; [done|]. by rewrite IH. Qed.

Lemma vhset_fields_now k fs : forall v, rv_now (vhset_fields k fs v) = rv_now v.
Proof. induction fs as [|[f x] fs IH]; intros v; simpl; [done|]. by rewrite IH. Qed.

Lemma vhset_fields_stream k k' fs : forall v, vstream k' (vhset_fields k fs v) = vstream k' v.
Proof. induction fs as [|[f x] fs IH]; intros v; simpl; [done|]. by rewrite IH. Qed.

Lemma vhset_fields_exists k k' fs : forall v,
  vexists k' v = true -> vexists k' (vhset_fields k fs v) = true.
Proof.
  induction fs as [|[f x] fs IH]; intros v Hv; simpl; [done|]. apply IH.
  by apply vexists_vhset_mono.
Qed.

(** What a job hash holds while its counters are readable. *)
Definition vnumber (k f : string) (v : rview) : option Z := vhash k v !! f ≫= py_int.

(** View after the CAS and the renewals, before the accounting. *)
Definition vcas (page job new_state : string) (now ttl_ms : Z) (fs : list (string * string))
  (v : rview) : rview :=
  vpexpire job ttl_ms (vpexpire page ttl_ms
    (vhset_fields page fs (vhset page {["state" := new_state; "updated_at" := py_str now]} v))).

Definition vsweep (job : string) (now ttl_ms : Z) (v : rview) : bool :=
  (ttl_ms <? 2 * (now - default 0 (vnumber job "pages_renewed_at" v)))%Z.

(** View after the whole script, for a job whose [done_count] reads [n]. *)
Definition vscript (page job new_state : string) (now ttl_ms : Z) (terminal : bool) (n : Z)
  (fs : list (string * string)) (v : rview) : rview :=
  let v := (if vsweep job now ttl_ms v then vhset job {["pages_renewed_at" := py_str now]} else id)
             (vcas page job new_state now ttl_ms fs v) in
  (if terminal then vhset job {["done_count" := py_str (n + 1)]} else id) v.

Lemma lookup_union_singleton_ne (f g x : string) (m : fields) :
  f <> g -> ({[f := x]} ∪ m) !! g = m !! g.
Proof. intros. rewrite lookup_union_r; [done|]. by apply lookup_singleton_None. Qed.

Lemma lookup_union_singleton_eq (f x : string) (m : fields) : ({[f := x]} ∪ m) !! f = Some x.
Proof. by erewrite lookup_union_Some_l by (by rewrite lookup_singleton_eq). Qed.

Section vscript.
Context (page job : string) (Hne : page <> job).
Implicit Types (v : rview).

Lemma vcas_job new now ttl fs v : vhash job (vcas page job new now ttl fs v) = vhash job v.
Proof using Hne.
  unfold vcas. autorewrite with ocr. by rewrite vhset_fields_ne, vhash_vhset_ne.
Qed.

Lemma vscript_frame new now ttl terminal n fs v k :
  k <> page -> k <> job -> vhash k (vscript page job new now ttl terminal n fs v) = vhash k v.
Proof using Type.
  intros Hp Hj. unfold vscript, vcas, id.
  destruct terminal, (vsweep _ _ _ _); rewrite ?(vhash_vhset_ne job) by done;
    autorewrite with ocr; by rewrite vhset_fields_ne, vhash_vhset_ne.
Qed.

Lemma vscript_page new now ttl terminal n fs v :
  vhash page (vscript page job new now ttl terminal n fs v) =
  vhash page (vhset_fields page fs
                (vhset page {["state" := new; "updated_at" := py_str now]} v)).
Proof using Hne.
  unfold vscript, vcas, id.
  destruct terminal, (vsweep _ _ _ _); rewrite ?(vhash_vhset_ne job) by done;
    by autorewrite with ocr.
Qed.

Lemma vscript_state new now ttl terminal n fs v :
  "state" ∉ fs.*1 ->
  vhash page (vscript page job new now ttl terminal n fs v) !! "state" = Some new.
Proof using Hne.
  intros. rewrite vscript_page, vhset_fields_lookup_ne, vhash_vhset_eq by done.
  by erewrite lookup_union_Some_l by (by rewrite lookup_insert_eq).
Qed.

Lemma vscript_job_field new now ttl terminal n fs v f :
  f <> "done_count" -> f <> "pages_renewed_at" ->
  vhash job (vscript page job new now ttl terminal n fs v) !! f = vhash job v !! f.
Proof using Hne.
  intros. unfold vscript, id. destruct terminal, (vsweep _ _ _ _);
    rewrite ?vhash_vhset_eq, ?lookup_union_singleton_ne by done; by rewrite vcas_job.
Qed.

Lemma vscript_renewed new now ttl terminal n fs v :
  vhash job (vscript page job new now ttl terminal n fs v) !! "pages_renewed_at" =
  if vsweep job now ttl v then Some (py_str now) else vhash job v !! "pages_renewed_at".
Proof using Hne.
  unfold vscript, id. destruct terminal, (vsweep _ _ _ _);
    rewrite ?vhash_vhset_eq, ?lookup_union_singleton_ne by done;
    rewrite ?vhash_vhset_eq, ?lookup_union_singleton_eq; by rewrite ?vcas_job.
Qed.

Lemma vscript_done new now ttl terminal n fs v :
  vhash job (vscript page job new now ttl terminal n fs v) !! "done_count" =
  if terminal then Some (py_str (n + 1)) else vhash job v !! "done_count".
Proof using Hne.
  unfold vscript, id. destruct terminal;
    [by rewrite vhash_vhset_eq, lookup_union_singleton_eq|].
  destruct (vsweep _ _ _ _); rewrite ?vhash_vhset_eq, ?lookup_union_singleton_ne by done;
    by rewrite vcas_job.
Qed.
End vscript.

Section script.
Context {R : Type} `{RedisLaws R}.
Implicit Types r : R.

Lemma view_hset_fields k fs : forall r, view (hset_fields k fs r) = vhset_fields k fs (view r).
Proof. induction fs as [|[f x] fs IH]; intros r; simpl; [done|]. by rewrite IH, view_hset. Qed.

Lemma hget_view k f r : hget k f r = vhash k (view r) !! f.
Proof. unfold hget. by rewrite hgetall_view. Qed.

Lemma hget_number_view k f r : hget_number k f r = vnumber k f (view r).
Proof. unfold hget_number, vnumber. by rewrite hget_view. Qed.

(** The script either changes nothing and reports the state it found, or
    performs the compare-and-set, the renewals and the accounting. *)
Lemma transition_lua_cases page job new now terminal ttl allowed fs r r' p n :
  page <> job ->
  default (Some 0%Z) (py_int <$> vhash job (view r) !! "done_count") = Some n ->
  transition_lua page job new now terminal ttl allowed fs r = (r', p) ->
  (rp_ok p = false /\ r' = r /\ rp_sweep p = 0%Z /\
     match vhash page (view r) !! "state" with
     | None => rp_observed p = "MISSING"
     | Some cur => rp_observed p = cur /\ cur ∉ allowed
     end) \/
  (exists cur, rp_ok p = true /\ vhash page (view r) !! "state" = Some cur /\ cur ∈ allowed /\
     rp_observed p = new /\
     view r' = vscript page job new now ttl terminal n fs (view r) /\
     rp_sweep p = (if vsweep job now ttl (view r)
                   then default 0 (vnumber job "total_pages" (view r)) else 0)%Z /\
     rp_done p = (if terminal then n + 1 else -1)%Z /\
     rp_total p = (if terminal then default (-1) (vnumber job "total_pages" (view r)) else -1)%Z).
Proof.
  intros Hne Hn. unfold transition_lua. rewrite hget_view.
  destruct (vhash page (view r) !! "state") as [cur|] eqn:Ecur.
  2:{ intros [= <- <-]. left. auto. }
  case_bool_decide as Hin; simpl.
  2:{ intros [= <- <-]. left. auto. }
  set (r2 := pexpire job ttl _).
  assert (view r2 = vcas page job new now ttl fs (view r)) as Hv2.
  { unfold r2, vcas. by rewrite !view_pexpire, view_hset_fields, view_hset. }
  assert (forall f, hget_number job f r2 = vnumber job f (view r)) as Hnum.
  { intros f. rewrite hget_number_view, Hv2. unfold vnumber. by rewrite vcas_job. }
  rewrite !Hnum. fold (vsweep job now ttl (view r)).
  set (r3 := (if vsweep job now ttl (view r) then hset job {["pages_renewed_at" := py_str now]}
              else id) r2).
  assert (view r3 = vscript page job new now ttl false n fs (view r)) as Hv3
    by (unfold r3, vscript; destruct (vsweep _ _ _ _); unfold id; by rewrite ?view_hset, Hv2).
  assert (forall (B : Type) (K : R * Z -> B),
    K (if vsweep job now ttl (view r)
       then (hset job {["pages_renewed_at" := py_str now]} r2,
             default 0%Z (vnumber job "total_pages" (view r))) else (r2, 0%Z)) =
    K (r3, if vsweep job now ttl (view r)
           then default 0%Z (vnumber job "total_pages" (view r)) else 0%Z)) as Hif.
  { intros B K. unfold r3. by destruct (vsweep job now ttl (view r)). }
  fold (vsweep job now ttl (view r)).
  rewrite (Hif _ (λ '(r, sweep), _)). clear Hif.
  intros E. right. exists cur. destruct terminal.
  - destruct (hincrby_view job "done_count" 1 n r3) as [Hd Hvd].
    { by rewrite Hv3, vscript_done. }
    destruct (hincrby job "done_count" 1 r3) as [r4 d]. simpl in Hd, Hvd, E.
    injection E as <- <-. simpl. rewrite hget_number_view.
    assert (vnumber job "total_pages" (view r4) = vnumber job "total_pages" (view r)) as ->.
    { unfold vnumber. rewrite Hvd, Hv3, vhash_vhset_eq, lookup_union_singleton_ne by done.
      by rewrite vscript_job_field. }
    by rewrite Hvd, Hv3, Hd.
  - injection E as <- <-. by rewrite Hv3.
Qed.
End script.

(** ** Accounting of a job *)

Definition pstate (v : rview) (j : string) (i : Z) : option PageState :=
  vhash (page_key j i) v !! "state" ≫= state_of_value.

Definition page_terminal (v : rview) (j : string) (i : nat) : bool :=
  match pstate v j (Z.of_nat i) with Some s => is_terminal s | None => false end.

Definition done_pages (v : rview) (j : string) (n : nat) : nat :=
  countb (page_terminal v j) (seq 0 n).

(** A job of [n] pages whose records are all present and agree: every page hash
    holds a state, and [done_count] is the number of terminal pages. *)
Record job_ok (j : string) (n : nat) (v : rview) : Prop := {
  jo_total : vhash (job_key j) v !! "total_pages" = Some (py_str (Z.of_nat n));
  jo_renewed : exists t, vhash (job_key j) v !! "pages_renewed_at" = Some (py_str t);
  jo_done : vhash (job_key j) v !! "done_count" = Some (py_str (Z.of_nat (done_pages v j n)));
  jo_pages : forall i : nat, i < n -> exists s,
    vhash (page_key j (Z.of_nat i)) v !! "state" = Some (state_value s);
  jo_none : forall i : Z, (i < 0 \/ Z.of_nat n <= i)%Z ->
    vhash (page_key j i) v !! "state" = None }.

(** A call on behalf of the pipeline: the default sources, or narrower ones,
    and no extra field that would overwrite the state. *)
Definition legal_call (to : PageState) (allowed_from : option (list PageState))
  (fs : list (string * string)) : Prop :=
  ("state" ∉ fs.*1) /\
  match allowed_from with
  | None => True
  | Some l => l <> [] /\ forall s, s ∈ l -> s ∈ PREDECESSORS to
  end.

Section accounting.
Context {R : Type} `{RedisLaws R}.
Implicit Types r : R.

Lemma view_renew_pages j ttl n : forall r k,
  vhash k (view (renew_pages j ttl n r)) = vhash k (view r).
Proof.
  induction n as [|n IH]; intros r k; simpl; [done|]. by rewrite view_pexpire, vhash_vpexpire, IH.
Qed.

Lemma PREDECESSORS_nonempty to : exists s l, PREDECESSORS to = s :: l.
Proof. destruct to; vm_compute; eauto. Qed.

(** The effect of [transition] on the hashes. *)
Lemma transition_cases ttl now j i to af fs r n :
  legal_call to af fs ->
  default (Some 0%Z) (py_int <$> vhash (job_key j) (view r) !! "done_count") = Some n ->
  exists t r', transition ttl now j i to af fs r = (inr t, r') /\ tr_requested t = to /\
  ((tr_ok t = false /\ r' = r /\ 
     match vhash (page_key j i) (view r) !! "state" with
     | None => tr_observed t = "MISSING"
     | Some cur => tr_observed t = cur /\
                   cur ∉ state_value <$> default (PREDECESSORS to) af
     end) \/
   (tr_ok t = true /\ tr_observed t = state_value to /\
    (exists s, s ∈ default (PREDECESSORS to) af /\
       vhash (page_key j i) (view r) !! "state" = Some (state_value s)) /\
    vhash (page_key j i) (view r') !! "state" = Some (state_value to) /\
    (forall k, k <> page_key j i -> k <> job_key j -> vhash k (view r') = vhash k (view r)) /\
    (forall f, f <> "done_count" -> f <> "pages_renewed_at" ->
       vhash (job_key j) (view r') !! f = vhash (job_key j) (view r) !! f) /\
    vhash (job_key j) (view r') !! "pages_renewed_at" =
      (if vsweep (job_key j) now (ttl * 1000) (view r) then Some (py_str now)
       else vhash (job_key j) (view r) !! "pages_renewed_at") /\
    if is_terminal to
    then vhash (job_key j) (view r') !! "done_count" = Some (py_str (n + 1)) /\
         tr_done_count t = (n + 1)%Z /\
         tr_total_pages t = default (-1)%Z (vnumber (job_key j) "total_pages" (view r))
    else vhash (job_key j) (view r') !! "done_count" = vhash (job_key j) (view r) !! "done_count" /\
         tr_done_count t = (-1)%Z /\ tr_total_pages t = (-1)%Z)).
Proof.
  intros [Hfs Hlegal] Hn. unfold transition.
  assert (exists s l, default (PREDECESSORS to) af = s :: l) as (s0 & l0 & Hsrc).
  { destruct af as [[|s l]|]; [by destruct Hlegal|eauto|apply PREDECESSORS_nonempty]. }
  rewrite Hsrc.
  destruct (transition_lua _ _ _ _ _ _ _ _ r) as [r1 p] eqn:E.
  apply (transition_lua_cases _ _ _ _ _ _ _ _ _ _ _ n) in E as
    [(Hok & -> & Hsw & Hobs)|(cur & Hok & Hcur & Hin & Hobs & Hr1 & Hsw & Hd & Ht)];
    [| |eauto with ocr|done].
  - eexists _, _. split; [by rewrite Hsw|]. simpl. split; [done|]. left. rewrite Hok.
    split_and!; [done..|]. done.
  - eexists _, _. split; [reflexivity|]. simpl. split; [done|]. right. split; [done|].
    split; [done|].
    set (r' := if (0 <? rp_sweep p)%Z then _ else _).
    assert (forall k, vhash k (view r') = vhash k (view r1)) as Hr'.
    { intros k. unfold r'. destruct (0 <? rp_sweep p)%Z; [|done].
      unfold renew_job_pages. by rewrite view_renew_pages. }
    rewrite !Hr', Hr1. setoid_rewrite Hr'. rewrite Hr1.
    pose proof (page_key_ne_job_key j i) as Hne.
    split_and!; auto using vscript_state, vscript_frame, vscript_job_field, vscript_renewed.
    + apply list_elem_of_fmap in Hin as (s & -> & Hs). by exists s.
    + rewrite vscript_done by done. rewrite Hd, Ht. by destruct (is_terminal to).
Qed.

Lemma page_terminal_value v j (i : nat) s :
  vhash (page_key j (Z.of_nat i)) v !! "state" = Some (state_value s) ->
  page_terminal v j i = is_terminal s.
Proof. intros Hs. unfold page_terminal, pstate. rewrite Hs. simpl. by rewrite state_of_value_value. Qed.

Lemma page_terminal_frame v v' j (i : nat) :
  vhash (page_key j (Z.of_nat i)) v' = vhash (page_key j (Z.of_nat i)) v ->
  page_terminal v' j i = page_terminal v j i.
Proof. unfold page_terminal, pstate. by intros ->. Qed.

Lemma legal_source to af fs s :
  legal_call to af fs -> s ∈ default (PREDECESSORS to) af -> s ∈ PREDECESSORS to.
Proof. intros [_ Hl]. destruct af as [l|]; [|done]. simpl. destruct Hl as [_ Hl]. auto. Qed.

Lemma done_pages_le v j n : done_pages v j n <= n.
Proof. unfold done_pages. pose proof (countb_le (page_terminal v j) (seq 0 n)). by rewrite length_seq in *. Qed.

Lemma done_pages_full v j n :
  done_pages v j n = n <-> forall i, i < n -> page_terminal v j i = true.
Proof.
  unfold done_pages. rewrite <- (length_seq n 0) at 2. rewrite countb_full.
  split; intros Hl i; specialize (Hl i); rewrite elem_of_seq in *; [intros; apply Hl|intros; apply Hl]; lia.
Qed.

(** One page moved from the non-terminal [s] to [to], the others did not. *)
Lemma done_pages_step v v' j n (i : nat) s to :
  i < n ->
  vhash (page_key j (Z.of_nat i)) v !! "state" = Some (state_value s) -> is_terminal s = false ->
  vhash (page_key j (Z.of_nat i)) v' !! "state" = Some (state_value to) ->
  (forall i', i' <> Z.of_nat i -> vhash (page_key j i') v' = vhash (page_key j i') v) ->
  done_pages v' j n = (if is_terminal to then 1 else 0) + done_pages v j n.
Proof.
  intros Hi Hs Hterm Hto Hframe. unfold done_pages.
  assert (i ∈ seq 0 n) as Hin by (apply elem_of_seq; lia).
  assert (forall i', i' <> i -> page_terminal v j i' = page_terminal v' j i') as Hext.
  { intros i' Hne. symmetry. apply page_terminal_frame, Hframe. lia. }
  pose proof (countb_update _ _ _ _ (NoDup_seq 0 n) Hin Hext) as Hc.
  rewrite (page_terminal_value _ _ _ _ Hs), (page_terminal_value _ _ _ _ Hto), Hterm in Hc. lia.
Qed.

(** What one legal call does to a well-formed job: nothing, or one page moves
    along the table and the counter follows. *)
Lemma transition_job_step ttl now j i to af fs r n :
  legal_call to af fs -> job_ok j n (view r) ->
  exists t r', transition ttl now j i to af fs r = (inr t, r') /\ job_ok j n (view r') /\
  tr_requested t = to /\
  if tr_ok t then
    (exists s, pstate (view r) j i = Some s /\ s ∈ PREDECESSORS to) /\
    pstate (view r') j i = Some to /\
    (forall i', i' <> i -> pstate (view r') j i' = pstate (view r) j i') /\
    done_pages (view r') j n = (if is_terminal to then 1 else 0) + done_pages (view r) j n /\
    completed_job t = is_terminal to && bool_decide (done_pages (view r') j n = n)
  else r' = r.
Proof.
  intros Hlegal Hok. pose proof Hok as [Htot [t0 Hren] Hdone Hpages Hnone].
  destruct (transition_cases ttl now j i to af fs r (Z.of_nat (done_pages (view r) j n)))
    as (t & r' & E & Hreq & [(Hf & -> & _)|(Ht & _ & (s & Hs & Hcur) & Hto & Hframe & Hjob & Hren' & Hacc)]);
    [done|by rewrite Hdone; simpl; rewrite py_int_str| |].
  { exists t, r. by rewrite Hf. }
  apply (legal_source to af fs) in Hs; [|done].
  pose proof (predecessor_not_terminal s to Hs) as Hst.
  assert (exists i0 : nat, i = Z.of_nat i0 /\ i0 < n) as (i0 & -> & Hi0).
  { destruct (decide (i < 0 \/ Z.of_nat n <= i)%Z) as [Hout|Hin].
    - by rewrite (Hnone i Hout) in Hcur.
    - exists (Z.to_nat i). lia. }
  assert (forall i', i' <> Z.of_nat i0 -> vhash (page_key j i') (view r') = vhash (page_key j i') (view r))
    as Hpf.
  { intros i' Hne. apply Hframe; [|apply page_key_ne_job_key].
    intros Hk%page_key_inj. congruence. }
  pose proof (done_pages_step (view r) (view r') j n i0 s to Hi0 Hcur Hst Hto Hpf) as Hd.
  assert (0 < n)%nat as Hn by lia.
  exists t, r'. rewrite Ht. split_and!; try done.
  - split.
    + by rewrite Hjob.
    + rewrite Hren'. destruct (vsweep _ _ _ _); eauto.
    + rewrite Hd. destruct (is_terminal to); destruct Hacc as [Hacc _]; rewrite Hacc; [|done].
      do 2 f_equal. lia.
    + intros i1 Hi1. destruct (decide (i1 = i0)) as [->|Hne]; [eauto|].
      rewrite Hpf by lia. auto.
    + intros i1 Hi1. rewrite Hpf by lia. auto.
  - exists s. split; [|done]. unfold pstate. rewrite Hcur. simpl. by rewrite state_of_value_value.
  - unfold pstate. rewrite Hto. simpl. by rewrite state_of_value_value.
  - intros i' Hne. unfold pstate. by rewrite Hpf.
  - unfold completed_job. rewrite Ht, Hd. simpl.
    destruct (is_terminal to); destruct Hacc as (_ & -> & ->); [|done].
    unfold vnumber. rewrite Htot. simpl. rewrite py_int_str. simpl.
    pose proof (done_pages_le (view r') j n).
    rewrite (proj2 (Z.ltb_lt 0 _)) by lia. simpl. case_bool_decide.
    + apply Z.leb_le. lia.
    + apply Z.leb_gt. lia.
Qed.
End accounting.

(** ** Histories of a job

    The script is atomic, so any number of workers acting on a job is a
    sequence of legal calls, interleaved with server steps that do not touch
    the job's records. *)

Definition job_record (j k : string) : Prop := k = job_key j \/ exists i, k = page_key j i.

Section histories.
Context {R : Type} `{RedisLaws R}.
Implicit Types r : R.

Inductive job_history (ttl : Z) (j : string) : R -> list TransitionResult -> R -> Prop :=
| history_nil r : job_history ttl j r [] r
| history_call r now i to af fs t r1 ts r2 :
    legal_call to af fs ->
    transition ttl now j i to af fs r = (inr t, r1) ->
    job_history ttl j r1 ts r2 -> job_history ttl j r (t :: ts) r2
| history_other r r1 ts r2 :
    (forall k, job_record j k -> vhash k (view r1) = vhash k (view r)) ->
    job_history ttl j r1 ts r2 -> job_history ttl j r ts r2.

Lemma job_ok_frame j n v v' :
  (forall k, job_record j k -> vhash k v' = vhash k v) ->
  job_ok j n v -> job_ok j n v' /\ done_pages v' j n = done_pages v j n.
Proof.
  intros Hk [Htot Hren Hdone Hpages Hnone].
  assert (forall i, vhash (page_key j i) v' = vhash (page_key j i) v) as Hp
    by (intros i; apply Hk; right; eauto).
  assert (vhash (job_key j) v' = vhash (job_key j) v) as Hj by (apply Hk; by left).
  assert (done_pages v' j n = done_pages v j n) as Hd.
  { apply countb_ext. intros i _. by apply page_terminal_frame. }
  split; [|done]. split.
  - by rewrite Hj.
  - by rewrite Hj.
  - by rewrite Hj, Hd.
  - intros i Hi. rewrite Hp. auto.
  - intros i Hi. rewrite Hp. auto.
Qed.

(** One call, seen from the counter: [completed_job] is reported exactly when
    the count reaches [n] in this call. *)
Lemma transition_count ttl now j i to af fs r n t r' :
  legal_call to af fs -> job_ok j n (view r) ->
  transition ttl now j i to af fs r = (inr t, r') ->
  job_ok j n (view r') /\ done_pages (view r) j n <= done_pages (view r') j n /\
  completed_job t =
    bool_decide (done_pages (view r) j n < n /\ done_pages (view r') j n = n).
Proof.
  intros Hlegal Hok E.
  destruct (transition_job_step ttl now j i to af fs r n Hlegal Hok)
    as (t' & r1' & E' & Hok1 & _ & Hstep). rewrite E in E'. injection E' as <- <-.
  split; [done|]. destruct (tr_ok t) eqn:Et.
  - destruct Hstep as (_ & _ & _ & Hd & ->). rewrite Hd. split; [lia|].
    destruct (is_terminal to); simpl; repeat case_bool_decide; done || lia.
  - subst r'. split; [done|]. unfold completed_job. rewrite Et. simpl.
    rewrite bool_decide_false; [done|lia].
Qed.

Lemma completed_count_cons b (d d1 d2 n c : nat) :
  b = bool_decide (d < n /\ d1 = n) -> d <= d1 -> d1 <= d2 -> d2 <= n ->
  c = (if bool_decide (d1 < n /\ d2 = n) then 1 else 0) ->
  (if b : bool then 1 else 0) + c = (if bool_decide (d < n /\ d2 = n) then 1 else 0).
Proof. intros -> ? ? ? ->. repeat case_bool_decide; lia. Qed.

Lemma history_job_ok ttl j n r ts r' :
  job_history ttl j r ts r' -> job_ok j n (view r) ->
  job_ok j n (view r') /\ done_pages (view r) j n <= done_pages (view r') j n /\
  countb completed_job ts =
    (if bool_decide (done_pages (view r) j n < n /\ done_pages (view r') j n = n) then 1 else 0).
Proof.
  intros Hh. induction Hh as [r|r now i to af fs t r1 ts r2 Hlegal E Hh IH|r r1 ts r2 Hf Hh IH];
    intros Hok.
  - split_and!; [done..|]. simpl. rewrite bool_decide_false by lia. done.
  - destruct (transition_count ttl now j i to af fs r n t r1 Hlegal Hok E) as (Hok1 & Hle1 & Hb).
    destruct (IH Hok1) as (Hok2 & Hle & Hc). split_and!; [done|lia|]. simpl.
    eapply completed_count_cons; eauto using done_pages_le.
  - destruct (job_ok_frame j n _ _ Hf Hok) as [Hok1 Hd]. rewrite <- Hd. auto.
Qed.
End histories.

(** ** Expiry of a job's records *)

Fixpoint vrenew_pages (j : string) (ttl_ms : Z) (n : nat) (v : rview) : rview :=
  match n with
  | O => v
  | S n' => vpexpire (page_key j (Z.of_nat n')) ttl_ms (vrenew_pages j ttl_ms n' v)
  end.

Lemma now_vrenew_pages j ttl n v : rv_now (vrenew_pages j ttl n v) = rv_now v.
Proof. induction n as [|n IH]; simpl; [done|]. by rewrite now_vpexpire. Qed.

Lemma vexists_vrenew_pages j ttl n v k : vexists k (vrenew_pages j ttl n v) = vexists k v.
Proof. induction n as [|n IH]; simpl; [done|]. by rewrite vexists_vpexpire. Qed.

Lemma ttl_vrenew_pages_ne j ttl n v k :
  (forall i : nat, i < n -> k <> page_key j (Z.of_nat i)) ->
  rv_ttl (vrenew_pages j ttl n v) !! k = rv_ttl v !! k.
Proof.
  induction n as [|n IH]; intros Hk; simpl; [done|].
  rewrite ttl_vpexpire_ne by (intros E; apply (Hk n); [lia|done]).
  apply IH. intros i Hi. apply Hk. lia.
Qed.

Lemma ttl_vrenew_pages j ttl n v (i : nat) :
  i < n -> vexists (page_key j (Z.of_nat i)) v = true ->
  rv_ttl (vrenew_pages j ttl n v) !! page_key j (Z.of_nat i) = Some (rv_now v + ttl)%Z.
Proof.
  induction n as [|n IH]; intros Hi Hv; [lia|]. simpl. destruct (decide (i = n)) as [->|Hne].
  - rewrite ttl_vpexpire_eq, now_vrenew_pages by by rewrite vexists_vrenew_pages. done.
  - rewrite ttl_vpexpire_ne by (intros ?%page_key_inj; lia). apply IH; [lia|done].
Qed.

Section vscript_ttl.
Context (page job : string) (Hne : page <> job).
Context (new : string) (now ttl : Z) (terminal : bool) (n : Z) (fs : list (string * string)).
Implicit Types (v : rview).
Let post v := vscript page job new now ttl terminal n fs v.

Lemma ttl_vscript_base v k : rv_ttl (post v) !! k = rv_ttl (vcas page job new now ttl fs v) !! k.
Proof using Type.
  unfold post, vscript, id. by destruct terminal, (vsweep _ _ _ _); rewrite ?ttl_vhset.
Qed.

Lemma now_vscript v : rv_now (post v) = rv_now v.
Proof using Type.
  unfold post, vscript, vcas, id. destruct terminal, (vsweep _ _ _ _); autorewrite with ocr;
    by rewrite vhset_fields_now.
Qed.

Lemma vexists_vscript v k : vexists k v = true -> vexists k (post v) = true.
Proof using Type.
  intros Hk. assert (vexists k (vcas page job new now ttl fs v) = true) as Hc.
  { unfold vcas. rewrite !vexists_vpexpire. by apply vhset_fields_exists, vexists_vhset_mono. }
  unfold post, vscript, id. destruct terminal, (vsweep _ _ _ _); by repeat apply vexists_vhset_mono.
Qed.

Lemma ttl_vscript_job v :
  vexists job v = true -> rv_ttl (post v) !! job = Some (rv_now v + ttl)%Z.
Proof using Type.
  intros Hv. rewrite ttl_vscript_base. unfold vcas.
  rewrite ttl_vpexpire_eq, now_vpexpire, vhset_fields_now; [done|].
  rewrite vexists_vpexpire. by apply vhset_fields_exists, vexists_vhset_mono.
Qed.

Lemma ttl_vscript_page v : rv_ttl (post v) !! page = Some (rv_now v + ttl)%Z.
Proof using Hne.
  rewrite ttl_vscript_base. unfold vcas.
  rewrite ttl_vpexpire_ne, ttl_vpexpire_eq, vhset_fields_now by
    (done || apply vhset_fields_exists, vexists_vhset). done.
Qed.

Lemma ttl_vscript_ne v k : k <> page -> k <> job -> rv_ttl (post v) !! k = rv_ttl v !! k.
Proof using Type.
  intros Hp Hj. rewrite ttl_vscript_base. unfold vcas.
  rewrite !ttl_vpexpire_ne by done. by rewrite vhset_fields_ttl.
Qed.
End vscript_ttl.

(** The records of a job of [n] pages, last sweep at [t0] and last successful
    transition at [T], expire no earlier than these allow. *)
Record job_fresh (j : string) (n : nat) (ttl_ms T : Z) (v : rview) : Prop := {
  jf_sweep : exists t0, vhash (job_key j) v !! "pages_renewed_at" = Some (py_str t0) /\
    (2 * (T - t0) <= ttl_ms)%Z /\ (t0 <= rv_now v)%Z /\
    forall i : nat, i < n -> exists d,
      rv_ttl v !! page_key j (Z.of_nat i) = Some d /\ (t0 + ttl_ms <= d)%Z;
  jf_job : exists d, rv_ttl v !! job_key j = Some d /\ (T + ttl_ms <= d)%Z }.

Lemma job_ok_exists j n v k :
  job_ok j n v -> k = job_key j \/ (exists i : nat, i < n /\ k = page_key j (Z.of_nat i)) ->
  vexists k v = true.
Proof.
  intros Hok Hk. apply vexists_hash. destruct Hk as [->|(i & Hi & ->)].
  - intros E. pose proof (jo_total _ _ _ Hok) as Ht. by rewrite E in Ht.
  - intros E. destruct (jo_pages _ _ _ Hok i Hi) as [s Hs]. by rewrite E in Hs.
Qed.

(** Half a TTL after the last successful transition, nothing has expired. *)
Lemma job_fresh_alive j n ttl_ms T v S k :
  job_fresh j n ttl_ms T v -> (0 < ttl_ms)%Z -> (2 * (S - T) < ttl_ms)%Z ->
  k = job_key j \/ (exists i : nat, i < n /\ k = page_key j (Z.of_nat i)) -> alive S v k.
Proof.
  intros [(t0 & _ & Ht0 & _ & Hp) (dj & Hj & Hdj)] Httl HS Hk. unfold alive.
  destruct Hk as [->|(i & Hi & ->)].
  - rewrite Hj. lia.
  - destruct (Hp i Hi) as (d & -> & Hd). lia.
Qed.

Lemma vhash_vtick_none now k v f : vhash k v !! f = None -> vhash k (vtick now v) !! f = None.
Proof.
  intros Hf. destruct (decide (alive now v k)) as [Ha|Ha].
  - by rewrite vhash_vtick_alive.
  - unfold vhash, vtick. simpl. rewrite map_lookup_filter_None_2; [done|].
    right. intros x _ Hx. by apply Ha.
Qed.

Section renewal.
Context {R : Type} `{RedisLaws R}.
Implicit Types r : R.

Lemma view_renew_pages_full j ttl n : forall r,
  view (renew_pages j ttl n r) = vrenew_pages j ttl n (view r).
Proof. induction n as [|n IH]; intros r; simpl; [done|]. by rewrite view_pexpire, IH. Qed.

(** The view after a successful transition, expiries included. *)
Lemma transition_view ttl now j i to af fs r n t r' :
  legal_call to af fs ->
  default (Some 0%Z) (py_int <$> vhash (job_key j) (view r) !! "done_count") = Some n ->
  transition ttl now j i to af fs r = (inr t, r') -> tr_ok t = true ->
  view r' =
    vrenew_pages j (ttl * 1000)
      (if vsweep (job_key j) now (ttl * 1000) (view r)
       then Z.to_nat (default 0%Z (vnumber (job_key j) "total_pages" (view r))) else 0)
      (vscript (page_key j i) (job_key j) (state_value to) now (ttl * 1000) (is_terminal to) n fs
         (view r)).
Proof.
  intros [_ Hl] Hn E Ht. unfold transition in E.
  destruct (default (PREDECESSORS to) af) as [|s0 l0]; [done|].
  destruct (transition_lua _ _ _ _ _ _ _ _ r) as [r1 p] eqn:E1.
  apply (transition_lua_cases _ _ _ _ _ _ _ _ _ _ _ n) in E1 as
    [(Hok & _)|(cur & Hok & _ & _ & _ & Hr1 & Hsw & _)]; [| |auto with ocr|done].
  { injection E as <- <-. simpl in Ht. congruence. }
  injection E as <- <-. rewrite Hsw.
  destruct (vsweep _ _ _ _); [|done].
  destruct (0 <? _)%Z eqn:Hpos.
  - unfold renew_job_pages. by rewrite view_renew_pages_full, Hr1.
  - bool_prop. replace (Z.to_nat _) with 0 by lia. done.
Qed.

Lemma all_terminal_done v j n :
  bool_decide (done_pages v j n = n) = forallb (page_terminal v j) (seq 0 n).
Proof.
  apply eq_true_iff_eq. rewrite bool_decide_eq_true, done_pages_full, forallb_forall.
  split; intros Hl i Hi; apply Hl.
  - apply in_seq in Hi. lia.
  - apply in_seq. lia.
Qed.

(** A successful transition keeps the records fresh, from its own time on. *)
Lemma transition_fresh ttl now j i to af fs r n T t r' :
  legal_call to af fs -> job_ok j n (view r) -> (0 < ttl)%Z ->
  job_fresh j n (ttl * 1000) T (view r) -> (now <= rv_now (view r))%Z ->
  transition ttl now j i to af fs r = (inr t, r') -> tr_ok t = true ->
  job_fresh j n (ttl * 1000) now (view r').
Proof.
  intros Hlegal Hok Httl [(t0 & Ht0 & Hsw & Hnow0 & Hp) Hj] Hnow E Ht.
  rewrite (transition_view ttl now j i to af fs r (Z.of_nat (done_pages (view r) j n)) t r')
    by (done || by rewrite (jo_done _ _ _ Hok); simpl; rewrite py_int_str).
  set (v1 := vscript _ _ _ _ _ _ _ _ _).
  pose proof (page_key_ne_job_key j i) as Hne.
  assert (forall n, job_key j <> page_key j n) as Hne' by (intros m Hm; by apply (page_key_ne_job_key j m)).
  unfold vnumber. rewrite (jo_total _ _ _ Hok). simpl. rewrite py_int_str. simpl. rewrite Nat2Z.id.
  set (m := if vsweep _ _ _ _ then _ else _).
  assert (forall k, vhash k (vrenew_pages j (ttl * 1000) m v1) = vhash k v1) as Hh.
  { intros k. clear. induction m as [|m IH]; simpl; [done|]. by rewrite vhash_vpexpire. }
  split; rewrite ?Hh.
  - exists (if vsweep (job_key j) now (ttl * 1000) (view r) then now else t0). split_and!.
    + unfold v1. rewrite vscript_renewed by done. destruct (vsweep _ _ _ _); done.
    + unfold vsweep, vnumber. rewrite Ht0. simpl. rewrite py_int_str. simpl.
      case_cond; bool_prop; lia.
    + rewrite now_vrenew_pages. unfold v1. rewrite now_vscript. by destruct (vsweep _ _ _ _).
    + intros i1 Hi1. unfold m. destruct (vsweep _ _ _ _) eqn:Es.
      * rewrite ttl_vrenew_pages; [|done|].
        -- eexists. split; [done|]. unfold v1. rewrite now_vscript. lia.
        -- unfold v1. apply vexists_vscript. eapply job_ok_exists; eauto.
      * simpl. destruct (Hp i1 Hi1) as (d & Hd & Hle).
        destruct (decide (Z.of_nat i1 = i)) as [<-|Hi].
        -- unfold v1. rewrite ttl_vscript_page by done. eexists. split; [done|].
           unfold vsweep, vnumber in Es. rewrite Ht0 in Es. simpl in Es. rewrite py_int_str in Es.
           simpl in Es. bool_prop. lia.
        -- exists d. split; [|done]. unfold v1. rewrite ttl_vscript_ne; [done| |].
           ++ by intros ?%page_key_inj.
           ++ apply page_key_ne_job_key.
  - exists (rv_now (view r) + ttl * 1000)%Z. split; [|lia].
    rewrite ttl_vrenew_pages_ne by auto. unfold v1. apply ttl_vscript_job.
    eapply job_ok_exists; eauto.
Qed.
End renewal.

(** ** Histories with the clock

    As [job_history], with the server's clock: it advances by ticks, which drop
    the keys whose deadline is reached.  [T] is the time of the last successful
    transition; the history is active when no tick goes half a TTL beyond it.
    A client's clock never runs ahead of the server's. *)

Section active.
Context {R : Type} `{RedisLaws R}.
Implicit Types r : R.

Inductive active_history (ttl : Z) (j : string) : Z -> R -> list TransitionResult -> R -> Prop :=
| active_nil T r : active_history ttl j T r [] r
| active_tick T now r r1 ts r2 :
    (rv_now (view r) <= now)%Z -> (2 * (now - T) < ttl * 1000)%Z ->
    view r1 = vtick now (view r) ->
    active_history ttl j T r1 ts r2 -> active_history ttl j T r ts r2
| active_call T r now i to af fs t r1 ts r2 :
    legal_call to af fs -> (now <= rv_now (view r))%Z ->
    transition ttl now j i to af fs r = (inr t, r1) ->
    active_history ttl j (if tr_ok t then now else T) r1 ts r2 ->
    active_history ttl j T r (t :: ts) r2
| active_other T r r1 ts r2 :
    (forall k, job_record j k ->
       vhash k (view r1) = vhash k (view r) /\ rv_ttl (view r1) !! k = rv_ttl (view r) !! k) ->
    rv_now (view r1) = rv_now (view r) ->
    active_history ttl j T r1 ts r2 -> active_history ttl j T r ts r2.

Lemma job_tick j n ttl_ms T now v :
  job_ok j n v -> job_fresh j n ttl_ms T v -> (0 < ttl_ms)%Z ->
  (rv_now v <= now)%Z -> (2 * (now - T) < ttl_ms)%Z ->
  job_ok j n (vtick now v) /\ job_fresh j n ttl_ms T (vtick now v) /\
  done_pages (vtick now v) j n = done_pages v j n.
Proof.
  intros Hok Hfr Httl Hnow HT.
  assert (forall k, k = job_key j \/ (exists i : nat, i < n /\ k = page_key j (Z.of_nat i)) ->
    vhash k (vtick now v) = vhash k v /\ rv_ttl (vtick now v) !! k = rv_ttl v !! k) as Hk.
  { intros k Hk. pose proof (job_fresh_alive j n ttl_ms T v now k Hfr Httl HT Hk).
    by rewrite vhash_vtick_alive, ttl_vtick_alive. }
  destruct (Hk (job_key j)) as [Hj Hjt]; [by left|].
  assert (forall i : nat, i < n ->
    vhash (page_key j (Z.of_nat i)) (vtick now v) = vhash (page_key j (Z.of_nat i)) v /\
    rv_ttl (vtick now v) !! page_key j (Z.of_nat i) = rv_ttl v !! page_key j (Z.of_nat i)) as Hp
    by (intros i Hi; apply Hk; eauto).
  assert (done_pages (vtick now v) j n = done_pages v j n) as Hd.
  { apply countb_ext. intros i Hi%elem_of_seq. apply page_terminal_frame, Hp. lia. }
  destruct Hok as [Htot Hren Hdone Hpages Hnone], Hfr as [(t0 & Ht0 & Hsw & Hn0 & Hpd) Hjd].
  split_and!; [split| split |done].
  - by rewrite Hj.
  - by rewrite Hj.
  - by rewrite Hj, Hd.
  - intros i Hi. rewrite (proj1 (Hp i Hi)). auto.
  - intros i Hi. by apply vhash_vtick_none, Hnone.
  - exists t0. rewrite Hj. split_and!; [done|lia|simpl; lia|].
    intros i Hi. rewrite (proj2 (Hp i Hi)). auto.
  - by rewrite Hjt.
Qed.

Lemma job_fresh_frame j n ttl_ms T v v' :
  (forall k, job_record j k -> vhash k v' = vhash k v /\ rv_ttl v' !! k = rv_ttl v !! k) ->
  rv_now v' = rv_now v -> job_fresh j n ttl_ms T v -> job_fresh j n ttl_ms T v'.
Proof.
  intros Hk Hnow [(t0 & Ht0 & Hsw & Hn0 & Hp) Hj].
  destruct (Hk (job_key j)) as [Ej Et]; [by left|].
  split; [exists t0; rewrite Ej|by rewrite Et]. split_and!; [done..|lia|].
  intros i Hi. rewrite (proj2 (Hk (page_key j (Z.of_nat i)) ltac:(right; eauto))). auto.
Qed.

Lemma active_job_ok ttl j n T r ts r' :
  active_history ttl j T r ts r' -> (0 < ttl)%Z -> job_ok j n (view r) ->
  job_fresh j n (ttl * 1000) T (view r) ->
  job_ok j n (view r') /\ done_pages (view r) j n <= done_pages (view r') j n /\
  countb completed_job ts =
    (if bool_decide (done_pages (view r) j n < n /\ done_pages (view r') j n = n) then 1 else 0).
Proof.
  intros Hh Httl. induction Hh as
    [T r|T now r r1 ts r2 Hnow Hgap Hv Hh IH|T r now i to af fs t r1 ts r2 Hlegal Hnow E Hh IH
    |T r r1 ts r2 Hf Hn Hh IH]; intros Hok Hfr.
  - split_and!; [done..|]. simpl. rewrite bool_decide_false by lia. done.
  - destruct (job_tick j n (ttl * 1000) T now (view r)) as (Hok1 & Hfr1 & Hd); [done..|lia|done|done|].
    rewrite <- Hd, <- Hv. apply IH; by rewrite Hv.
  - destruct (transition_count ttl now j i to af fs r n t r1 Hlegal Hok E) as (Hok1 & Hle1 & Hb).
    destruct IH as (Hok2 & Hle & Hc); [done| |].
    + destruct (tr_ok t) eqn:Et; [by apply (transition_fresh ttl now j i to af fs r n T t r1)|].
      destruct (transition_job_step ttl now j i to af fs r n Hlegal Hok)
        as (t' & r1' & E' & _ & _ & Hs). rewrite E in E'. injection E' as <- <-.
      rewrite Et in Hs. by subst r1.
    + split_and!; [done|lia|]. simpl. eapply completed_count_cons; eauto using done_pages_le.
  - destruct (job_ok_frame j n (view r) (view r1)) as [Hok1 Hd]; [intros k Hk; by apply Hf|done|].
    rewrite <- Hd. apply IH; [done|]. eapply job_fresh_frame; eauto.
Qed.
End active.

(** ** Initialisation *)

Definition page_fields (now : Z) (i : nat) : fields :=
  {["page_index" := py_str (Z.of_nat i); "state" := state_value PENDING;
    "attempts" := py_str 0; "updated_at" := py_str now]}.

(** The names [init_job] writes, which [meta] must not override. *)
Definition job_reserved : list string :=
  ["job_id"; "total_pages"; "done_count"; "state"; "created_at"; "pages_renewed_at"].

Section initialisation.
Context {R : Type} `{RedisLaws R}.
Implicit Types r : R.

Lemma init_pages_ne j ttl now n : forall r k, (forall i : nat, i < n -> k <> page_key j (Z.of_nat i)) ->
  vhash k (view (init_pages j ttl now n r)) = vhash k (view r) /\
  rv_ttl (view (init_pages j ttl now n r)) !! k = rv_ttl (view r) !! k.
Proof.
  induction n as [|n IH]; intros r k Hk; simpl; [done|].
  assert (page_key j (Z.of_nat n) <> k) as Hne by (intros E; apply (Hk n); [lia|done]).
  rewrite view_pexpire, view_hset, vhash_vpexpire, vhash_vhset_ne, ttl_vpexpire_ne, ttl_vhset by done.
  apply IH. intros i Hi. apply Hk. lia.
Qed.

Lemma init_pages_now j ttl now n : forall r,
  rv_now (view (init_pages j ttl now n r)) = rv_now (view r).
Proof. induction n as [|n IH]; intros r; simpl; [done|]. by autorewrite with ocr. Qed.

Lemma init_pages_page j ttl now n (i : nat) : forall r, i < n ->
  vhash (page_key j (Z.of_nat i)) (view r) = ∅ ->
  vhash (page_key j (Z.of_nat i)) (view (init_pages j ttl now n r)) = page_fields now i /\
  rv_ttl (view (init_pages j ttl now n r)) !! page_key j (Z.of_nat i) =
    Some (rv_now (view r) + ttl * 1000)%Z.
Proof.
  induction n as [|n IH]; intros r Hi Hr; [lia|]. simpl.
  rewrite view_pexpire, view_hset, vhash_vpexpire.
  destruct (decide (i = n)) as [->|Hne].
  - rewrite vhash_vhset_eq, ttl_vpexpire_eq by apply vexists_vhset.
    rewrite now_vhset, init_pages_now. split; [|done].
    destruct (init_pages_ne j ttl now n r (page_key j (Z.of_nat n))) as [-> _].
    { intros i' Hi' ?%page_key_inj. lia. }
    by rewrite Hr, (right_id_L ∅ (∪)).
  - assert (page_key j (Z.of_nat n) <> page_key j (Z.of_nat i)) by (intros ?%page_key_inj; lia).
    rewrite vhash_vhset_ne, ttl_vpexpire_ne, ttl_vhset by done. apply IH; [lia|done].
Qed.

Lemma init_job_job ttl now j n meta r f :
  vhash (job_key j) (view r) = ∅ -> f ∈ job_reserved -> meta !! f = None ->
  vhash (job_key j) (view (init_job ttl now j (Z.of_nat n) meta r)) !! f =
  ({["job_id" := j; "total_pages" := py_str (Z.of_nat n); "done_count" := py_str 0;
     "state" := job_state_value RUNNING; "created_at" := py_str now;
     "pages_renewed_at" := py_str now]} : fields) !! f.
Proof.
  intros Hr _ Hm. unfold init_job.
  rewrite (proj1 (init_pages_ne _ _ _ _ _ _ (λ i _ E, page_key_ne_job_key j _ (eq_sym E)))).
  rewrite view_pexpire, view_hset, vhash_vpexpire, vhash_vhset_eq, Hr, (right_id_L ∅ (∪)).
  by rewrite lookup_union_r.
Qed.

Lemma init_job_page ttl now j n meta r (i : Z) :
  (forall k, job_record j k -> vhash k (view r) = ∅) ->
  let v := view (init_job ttl now j (Z.of_nat n) meta r) in
  if decide (0 <= i < Z.of_nat n)%Z
  then vhash (page_key j i) v = page_fields now (Z.to_nat i) /\
       rv_ttl v !! page_key j i = Some (rv_now (view r) + ttl * 1000)%Z
  else vhash (page_key j i) v = ∅.
Proof.
  intros Hnew. unfold init_job. rewrite Nat2Z.id. simpl.
  set (r1 := pexpire (job_key j) _ _).
  assert (rv_now (view r1) = rv_now (view r)) as Hn1
    by (unfold r1; by rewrite view_pexpire, view_hset, now_vpexpire).
  assert (forall i, vhash (page_key j i) (view r1) = ∅) as Hr1.
  { intros i'. unfold r1. rewrite view_pexpire, view_hset, vhash_vpexpire, vhash_vhset_ne.
    - apply Hnew. right. eauto.
    - intros E. by apply (page_key_ne_job_key j i'). }
  destruct (decide _) as [Hi|Hi].
  - pose proof (init_pages_page j ttl now n (Z.to_nat i) r1) as Hp.
    rewrite Z2Nat.id, Hn1 in Hp by lia. apply Hp; [lia|apply Hr1].
  - destruct (init_pages_ne j ttl now n r1 (page_key j i)) as [-> _]; [|apply Hr1].
    intros i' Hi' ?%page_key_inj. lia.
Qed.

Lemma init_job_ttl ttl now j n meta r :
  rv_ttl (view (init_job ttl now j (Z.of_nat n) meta r)) !! job_key j =
  Some (rv_now (view r) + ttl * 1000)%Z.
Proof.
  unfold init_job.
  rewrite (proj2 (init_pages_ne _ _ _ _ _ _ (λ i _ E, page_key_ne_job_key j _ (eq_sym E)))).
  rewrite view_pexpire, view_hset, ttl_vpexpire_eq by apply vexists_vhset. done.
Qed.

Lemma init_job_in ttl now j n meta r (i : nat) :
  (forall k, job_record j k -> vhash k (view r) = ∅) -> i < n ->
  let r' := init_job ttl now j (Z.of_nat n) meta r in
  vhash (page_key j (Z.of_nat i)) (view r') = page_fields now i /\
  rv_ttl (view r') !! page_key j (Z.of_nat i) = Some (rv_now (view r) + ttl * 1000)%Z.
Proof.
  intros Hnew Hi. pose proof (init_job_page ttl now j n meta r (Z.of_nat i) Hnew) as Hp. simpl in Hp.
  by rewrite decide_True, Nat2Z.id in Hp by lia.
Qed.

(** The records of a new job are consistent, whatever the clocks say. *)
Lemma init_job_records ttl now j n meta r :
  (forall k, job_record j k -> vhash k (view r) = ∅) ->
  (forall f, f ∈ job_reserved -> meta !! f = None) ->
  let r' := init_job ttl now j (Z.of_nat n) meta r in
  job_ok j n (view r') /\ done_pages (view r') j n = 0.
Proof.
  intros Hnew Hmeta r'.
  assert (forall f, f ∈ job_reserved -> vhash (job_key j) (view r') !! f = _) as Hjob
    by (intros f Hf; apply init_job_job; [apply Hnew; by left|done|by apply Hmeta]).
  pose proof (λ i, init_job_in ttl now j n meta r i Hnew) as Hin. fold r' in Hin.
  assert (done_pages (view r') j n = 0) as Hd.
  { unfold done_pages. rewrite (countb_ext _ (λ _, false)); [by induction (seq 0 n)|].
    intros i Hi%elem_of_seq. unfold page_terminal, pstate.
    by rewrite (proj1 (Hin i ltac:(lia))). }
  split; [split|done].
  - rewrite Hjob; [done|in_list].
  - exists now. rewrite Hjob; [done|in_list].
  - rewrite Hd, Hjob; [done|in_list].
  - intros i Hi. exists PENDING. by rewrite (proj1 (Hin i Hi)).
  - intros i Hi. pose proof (init_job_page ttl now j n meta r i Hnew) as Hp. fold r' in Hp. simpl in Hp.
    rewrite decide_False in Hp by lia. by rewrite Hp.
Qed.

Lemma init_job_ok ttl now j n meta r :
  (forall k, job_record j k -> vhash k (view r) = ∅) ->
  (forall f, f ∈ job_reserved -> meta !! f = None) ->
  (0 < ttl)%Z -> (now <= rv_now (view r))%Z ->
  let r' := init_job ttl now j (Z.of_nat n) meta r in
  job_ok j n (view r') /\ job_fresh j n (ttl * 1000) now (view r') /\
  done_pages (view r') j n = 0.
Proof.
  intros Hnew Hmeta Httl Hnow r'.
  destruct (init_job_records ttl now j n meta r Hnew Hmeta) as [Hok Hd]. fold r' in Hok, Hd.
  split_and!; [done|split|done].
  - exists now. unfold r'. rewrite init_job_job; [|apply Hnew; by left|in_list|apply Hmeta; in_list].
    split_and!; [done|lia| |].
    + unfold init_job. by rewrite init_pages_now, view_pexpire, view_hset, now_vpexpire.
    + intros i Hi. destruct (init_job_in ttl now j n meta r i Hnew Hi) as [_ ->]. eexists. split; [done|]. lia.
  - unfold r'. rewrite init_job_ttl. eexists. split; [done|]. lia.
Qed.

Lemma init_job_streams ttl now j n meta r k :
  vstream k (view (init_job ttl now j (Z.of_nat n) meta r)) = vstream k (view r).
Proof.
  unfold init_job. rewrite Nat2Z.id.
  assert (forall r, vstream k (view (init_pages j ttl now n r)) = vstream k (view r)) as ->.
  { clear r. intros r. induction n as [|n IH]; simpl; [done|].
    by rewrite view_pexpire, view_hset, vstream_vpexpire, vstream_vhset. }
  by rewrite view_pexpire, view_hset, vstream_vpexpire, vstream_vhset.
Qed.
End initialisation.

(** ** Properties *)

(** the transition table.  A state is terminal exactly when it has no
    successor, [PREDECESSORS] is the inverse of [TRANSITIONS], every
    non-terminal state reaches a terminal one, and the reclaim target is
    defined on the running states only, is a legal transition and lands on a
    checkpoint that is neither running nor terminal. *)
Theorem table_sound (s : PageState) :
  (is_terminal s = true <-> TRANSITIONS s = []) /\
  (forall t, s ∈ PREDECESSORS t <-> can_transition s t = true) /\
  (exists t, rtc (λ a b, can_transition a b = true) s t /\ is_terminal t = true) /\
  (is_Some (RECLAIM_TARGET s) <-> is_running s = true) /\
  (forall t, RECLAIM_TARGET s = Some t ->
     can_transition s t = true /\ is_running t = false /\ is_terminal t = false).
Proof.
  split_and!.
  - apply is_terminal_spec.
  - intros t. rewrite elem_of_PREDECESSORS. unfold can_transition. by rewrite bool_decide_eq_true.
  - assert (rtc (λ a b, can_transition a b = true) LAYOUT_DONE FALLBACK_DONE) as Hl
      by (by apply rtc_once).
    destruct s;
      try (exists FAILED; split; [by apply rtc_once|done]);
      first [ exists FALLBACK_DONE; by split | exists DONE; by split | exists FAILED; by split ].
  - destruct s; split; first [by intros [] | intros _; reflexivity | intros _; by eexists
                             | intros Hx; vm_compute in Hx; discriminate Hx].
  - intros t. by destruct s; intros [= <-].
Qed.

Section properties.
Context {R : Type} `{RedisLaws R}.
Implicit Types r : R.


(** C7: any number of workers transitioning a job's pages, in any interleaving
    and with duplicate or rejected calls among them, keep the job's records
    consistent ([done_count] is the number of terminal pages), and exactly one
    call - the one that makes the last page terminal - reports
    [completed_job]; before that none does. *)
Theorem job_completes_once ttl j n r ts r' :
  job_ok j n (view r) -> done_pages (view r) j n < n ->
  job_history ttl j r ts r' ->
  job_ok j n (view r') /\
  countb completed_job ts =
    (if forallb (page_terminal (view r') j) (seq 0 n) then 1 else 0).
Proof.
  intros Hok Hlt Hh. destruct (history_job_ok ttl j n r ts r' Hh Hok) as (Hok' & _ & ->).
  split; [done|]. rewrite <- all_terminal_done.
  apply (f_equal (λ b : bool, if b then 1 else 0)), bool_decide_ext. lia.
Qed.

(** [init_job] on an unused job id, whose extra fields do not override the
    bookkeeping ones, establishes what every other property of a job assumes:
    consistent records, no page done, and a full TTL on every record. *)
Theorem init_job_establishes ttl now j n meta r :
  (forall k, job_record j k -> vhash k (view r) = ∅) ->
  (forall f, f ∈ job_reserved -> meta !! f = None) ->
  (0 < ttl)%Z -> (now <= rv_now (view r))%Z ->
  let r' := init_job ttl now j (Z.of_nat n) meta r in
  job_ok j n (view r') /\ job_fresh j n (ttl * 1000) now (view r') /\
  done_pages (view r') j n = 0 /\
  get_page j 0 r' = (if decide (0 < n) then page_fields now 0 else ∅).
Proof.
  intros Hnew Hmeta Httl Hnow r'.
  destruct (init_job_ok ttl now j n meta r) as (Hok & Hfr & Hd); [done..|].
  split_and!; [done..|]. unfold get_page. rewrite hgetall_view.
  pose proof (init_job_page ttl now j n meta r 0 Hnew) as Hp. simpl in Hp.
  destruct (decide (0 < n)).
  - rewrite decide_True in Hp by lia. apply Hp.
  - by rewrite decide_False in Hp by lia.
Qed.
End properties.

(** ** Witnesses *)

(** A server holding one fresh one-page job, and the calls made on it. *)
Definition w_redis : rview := init_job 3600 7 "j" 1 ∅ (rview_init 7).
Definition w_failed : rview := (transition 3600 9 "j" 0 FAILED None [] w_redis).2.

Lemma legal_call_default to : legal_call to None [].
Proof. split; [|done]. apply not_elem_of_nil. Qed.


Lemma w_job_ok :
  job_ok "j" 1 (view w_redis) /\ job_fresh "j" 1 (3600 * 1000) 7 (view w_redis) /\
  done_pages (view w_redis) "j" 1 = 0.
Proof. by apply (init_job_ok 3600 7 "j" 1 ∅ (rview_init 7)). Qed.

Lemma job_completes_once_witness :
  exists ts r', job_history 3600 "j" w_redis ts r' /\ countb completed_job ts = 1.
Proof.
  destruct w_job_ok as (Hok & _ & Hd).
  destruct (transition_job_step 3600 9 "j" 0 FAILED None [] w_redis 1) as (t & r' & E & _);
    [apply legal_call_default|done|].
  assert (job_history 3600 "j" w_redis [t] r') as Hh
    by (eapply history_call; [apply legal_call_default|exact E|apply history_nil]).
  exists [t], r'. split; [exact Hh|].
  destruct (job_completes_once 3600 "j" 1 w_redis [t] r') as [_ ->]; [done|lia|done|].
  replace r' with (transition 3600 9 "j" 0 FAILED None [] w_redis).2 by by rewrite E.
  vm_compute. reflexivity.
Defined.


Lemma init_job_establishes_witness :
  job_ok "j" 3 (view (init_job 3600 7 "j" 3 {["callback" := "x"]} (rview_init 7))).
Proof.
  apply (init_job_establishes 3600 7 "j" 3 {["callback" := "x"]} (rview_init 7)); [done| |lia|done].
  intros f Hf. apply lookup_singleton_None. intros <-.
  by apply (bool_decide_eq_false_1 ("callback" ∈ job_reserved)).
Defined.
