(* ===== verification/Streams.v ===== *)
(** * Page task queue on Redis Streams ([app/queue/streams.py])

    [PageTask], its wire format, and the operations of [PageQueue] as programs
    over the server.  Theorems: the wire round trip, the prefetch bound, that a
    requeue never loses a page, that a malformed entry is settled without
    stopping the reader, and which entries the reaper's claim takes. *)

From S2P Require Import Prelude Py Redis Prog.

(** ** Constants *)

Definition STREAM : string := "stream:pages".
Definition LEAD_STREAM : string := "stream:pages:lead".
Definition STREAMS : list string := [LEAD_STREAM; STREAM].
Definition GROUP : string := "workers".
Definition POISON_STREAM : string := "stream:pages:poison".
Definition POISON_MAXLEN : Z := 1000.
Definition POISON_COUNTER_KEY : string := "metrics:poison_entries_total".

(** ** Tasks *)

Record PageTask := {
  entry_id : eid;
  job_id : string;
  page_index : Z;
  enqueued_at_ms : Z;
  trace_id : string;
  recovered : bool;
  task_stream : string;
  attempt : Z;
  first_enqueued_at_ms : Z }.

(** [self.first_enqueued_at_ms or self.enqueued_at_ms] *)
Definition origin_ms (t : PageTask) : Z :=
  if (first_enqueued_at_ms t =? 0)%Z then enqueued_at_ms t else first_enqueued_at_ms t.

Definition age_ms (now : Z) (t : PageTask) : Z := Z.max 0 (now - origin_ms t).
Definition lag_ms (now : Z) (t : PageTask) : Z := Z.max 0 (now - enqueued_at_ms t).

(** [fields[k]] *)
Definition field (fs : fields) (k : string) : result string :=
  match fs !! k with Some v => inr v | None => inl (KeyError k) end.

Definition _parse (stream : string) (i : eid) (fs : fields) : result PageTask :=
  let* job := field fs "job_id" in
  let* index := (let* s := field fs "page_index" in int s) in
  let* enqueued := (let* s := field fs "enqueued_at_ms" in int s) in
  let trace := default "" (fs !! "trace_id") in
  let* attempt := match fs !! "attempt" with Some s => int s | None => inr 0%Z end in
  let* first := (let* s := match fs !! "first_enqueued_at_ms" with
                           | Some (String c s) => inr (String c s)
                           | _ => field fs "enqueued_at_ms"
                           end in int s) in
  inr {| entry_id := i; job_id := job; page_index := index; enqueued_at_ms := enqueued;
         trace_id := trace; recovered := false; task_stream := stream; attempt := attempt;
         first_enqueued_at_ms := first |}.

(** The fields of the two producers, [enqueue_pages] and [requeue]. *)
Definition enqueue_fields (job : string) (index now : Z) (trace : string) : fields :=
  {["job_id" := job; "page_index" := py_str index; "enqueued_at_ms" := py_str now;
    "first_enqueued_at_ms" := py_str now; "trace_id" := trace]}.

Definition requeue_fields (t : PageTask) (now attempt : Z) : fields :=
  {["job_id" := job_id t; "page_index" := py_str (page_index t);
    "enqueued_at_ms" := py_str now; "first_enqueued_at_ms" := py_str (origin_ms t);
    "trace_id" := trace_id t; "attempt" := py_str attempt]}.

(** [f"{type(exc).__name__}: {exc}"] *)
Definition exn_reason (e : exn) : string :=
  match e with
  | KeyError k => "KeyError: '" +:+ k +:+ "'"
  | ValueError m => "ValueError: " +:+ m
  | TypeError m => "TypeError: " +:+ m
  | _ => "Exception"
  end.

(** [except (KeyError, ValueError, TypeError)] *)
Definition malformed (e : exn) : bool :=
  match e with KeyError _ | ValueError _ | TypeError _ => true | _ => false end.

Definition poison_fields (stream : string) (i : eid) (fs : fields) (e : exn) : fields :=
  kmap (String.append "field:") fs ∪
  {["origin_stream" := stream; "origin_entry_id" := eid_str i; "reason" := exn_reason e]}.

(** A reply of [XREADGROUP]: the streams that had entries, in request order. *)
Definition response : Type := list (string * list (eid * fields)).

Definition response_count (resp : response) : Z :=
  foldr (λ se n, Z.of_nat (length se.2) + n)%Z 0%Z resp.

Definition reply_of (stream : string) (l : list (eid * fields)) : response :=
  match l with [] => [] | _ => [(stream, l)] end.

Section queue.
Context {R : Type} `{Redis R} `{Clock R}.

(** ** The commands as steps *)

Definition NOGROUP : exn := ResponseError "NOGROUP No such key or consumer group".
Definition BUSYGROUP : exn := ResponseError "BUSYGROUP Consumer Group name already exists".

(** The client library refuses a COUNT below one. *)
Definition checked_count {X} (count : Z) (f : R -> result X * R) (r : R) : result X * R :=
  if (count <? 1)%Z then (inl (RedisError "XREADGROUP count must be a positive integer"), r)
  else f r.

Definition xreadgroup_lane (consumer stream : string) (count : Z) (r : R) : result response * R :=
  checked_count count (λ r,
    match xreadgroup_new stream consumer (Z.to_nat count) r with
    | None => (inl NOGROUP, r)
    | Some (r', l) => (inr (reply_of stream l), r')
    end) r.

(** One command over both lanes: refused as a whole when a group is missing. *)
Definition xreadgroup_both (consumer : string) (count : Z) (r : R) : result response * R :=
  checked_count count (λ r,
    match xreadgroup_new LEAD_STREAM consumer (Z.to_nat count) r with
    | None => (inl NOGROUP, r)
    | Some (r1, l1) =>
        match xreadgroup_new STREAM consumer (Z.to_nat count) r1 with
        | None => (inl NOGROUP, r)
        | Some (r2, l2) => (inr (reply_of LEAD_STREAM l1 ++ reply_of STREAM l2), r2)
        end
    end) r.

Definition xreadgroup_pending (consumer stream : string) (count : Z) (r : R)
  : result response * R :=
  checked_count count (λ r,
    match xreadgroup_own stream consumer (Z.to_nat count) r with
    | None => (inl NOGROUP, r)
    | Some l => (inr (reply_of stream l), r)
    end) r.

Definition xclaim_step (consumer : string) (min_idle : Z) (justid : bool) (ids : list eid)
  (stream : string) (r : R) : result (list (eid * fields)) * R :=
  match xclaim stream consumer min_idle justid ids r with
  | Some (r', l) => (inr l, r')
  | None => (inl NOGROUP, r)
  end.

(** ** Settling *)

Definition ack (i : eid) (stream : string) : prog R unit :=
  do! act (xack stream i) in
  act (xdel stream i).

Definition _quarantine (stream : string) (i : eid) (fs : fields) (e : exn) : prog R unit :=
  do! catch
        (do! call (xadd_maxlen POISON_STREAM POISON_MAXLEN (poison_fields stream i fs e)) in
         do! call (incr POISON_COUNTER_KEY) in
         Ret tt)
        (λ e', if is_Exception e' then Ret tt else Raise e') in
  ack i stream.

(** The [try: tasks.append(_parse(...)) except ...] of [_flatten] and
    [claim_orphans]. *)
Definition parse_or_quarantine (stream : string) (e : eid * fields) (tasks : list PageTask)
  : prog R (list PageTask) :=
  match _parse stream e.1 e.2 with
  | inr t => Ret (tasks ++ [t])
  | inl x => if malformed x then do! _quarantine stream e.1 e.2 x in Ret tasks else Raise x
  end.

Definition _flatten (resp : response) : prog R (list PageTask) :=
  fold_prog resp [] (λ '(stream, entries) tasks,
    fold_prog entries tasks (parse_or_quarantine stream)).

(** ** Groups *)

Definition ensure_group : prog R unit :=
  for_each STREAMS (λ name,
    catch (step (λ r, match xgroup_create name r with
                      | None => (inl BUSYGROUP, r)
                      | Some r' => (inr tt, r')
                      end))
      (λ e, match e with
            | ResponseError m => if str_contains "BUSYGROUP" m then Ret tt else Raise e
            | _ => Raise e
            end)).

(** ** Producer *)

Definition enqueue_pages (now : Z) (job : string) (total_pages : Z) (trace : string)
  : prog R Z :=
  fold_prog (seq 0 (Z.to_nat total_pages)) 0%Z (λ index count,
    do! call (xadd (if Nat.eqb index 0 then LEAD_STREAM else STREAM)
                (enqueue_fields job (Z.of_nat index) now trace)) in
    Ret (count + 1)%Z).

(** ** Consumer *)

Definition _read_lanes (consumer : string) (lead_count main_count block_ms : Z)
  (total_cap : option Z) (lead_block_ms : Z) : prog R response :=
  let! lead := if (0 <? lead_count)%Z then step (xreadgroup_lane consumer LEAD_STREAM lead_count)
               else Ret [] in
  let main_count :=
    match total_cap with
    | Some cap => Z.min main_count (cap - response_count lead)
    | None => main_count
    end in
  if (main_count <=? 0)%Z then
    if negb (bool_decide (lead = [])) || (lead_block_ms =? 0)%Z then Ret lead
    else step (xreadgroup_lane consumer LEAD_STREAM lead_count)
  else
    let! main := step (xreadgroup_lane consumer STREAM main_count) in
    if negb (bool_decide (lead = [])) || negb (bool_decide (main = [])) || (block_ms =? 0)%Z
    then Ret (lead ++ main)
    else step (xreadgroup_both consumer (Z.max 1 (main_count / 2))).

Definition read (consumer : string) (block_ms : Z) (count : option Z)
  (lead_count main_count lead_block_ms : Z) : prog R (list PageTask) :=
  let! resp :=
    catch (let! resp := _read_lanes consumer (default lead_count count) (default main_count count)
                          block_ms count lead_block_ms in Ret (Some resp))
      (λ e, match e with
            | ResponseError m =>
                if str_contains "NOGROUP" m then do! ensure_group in Ret None else Raise e
            | _ => Raise e
            end) in
  match resp with
  | Some resp => _flatten resp
  | None => Ret []
  end.

Definition mark_recovered (t : PageTask) : PageTask :=
  {| entry_id := entry_id t; job_id := job_id t; page_index := page_index t;
     enqueued_at_ms := enqueued_at_ms t; trace_id := trace_id t; recovered := true;
     task_stream := task_stream t; attempt := attempt t;
     first_enqueued_at_ms := first_enqueued_at_ms t |}.

Definition read_own_pending (consumer : string) (count : Z) : prog R (list PageTask) :=
  let! lead := step (xreadgroup_pending consumer LEAD_STREAM count) in
  let taken := response_count lead in
  let! main := if (taken <? count)%Z
               then step (xreadgroup_pending consumer STREAM (count - taken)) else Ret [] in
  let! tasks := _flatten (lead ++ main) in
  Ret (mark_recovered <$> tasks).

(** ** Recovery *)

Definition claim_lane (consumer : string) (min_idle_ms count : Z) (name : string)
  (claimed : list PageTask) : prog R (list PageTask) :=
  let! pending := step (λ r, (match xpending_range name min_idle_ms (Z.to_nat count) r with
                              | Some rows => inr rows | None => inl NOGROUP end, r)) in
  let ids := fst <$> filter (λ row, row.2 ≠ consumer) pending in
  if bool_decide (ids = []) then Ret claimed
  else
    let! entries := step (xclaim_step consumer min_idle_ms false ids name) in
    fold_prog entries claimed (λ e claimed,
      if bool_decide (e.2 = ∅) then Ret claimed else parse_or_quarantine name e claimed).

Definition claim_orphans (consumer : string) (min_idle_ms count : Z) : prog R (list PageTask) :=
  fold_prog STREAMS [] (claim_lane consumer min_idle_ms count).

(** [by_stream.setdefault(stream, []).append(id)] *)
Fixpoint add_lease (stream : string) (i : eid) (l : list (string * list eid))
  : list (string * list eid) :=
  match l with
  | [] => [(stream, [i])]
  | (s, ids) :: l' =>
      if bool_decide (s = stream) then (s, ids ++ [i]) :: l' else (s, ids) :: add_lease stream i l'
  end.

Definition leases_by_stream (tasks : list PageTask) : list (string * list eid) :=
  fold_left (λ l t, add_lease (task_stream t) (entry_id t) l) tasks [].

Definition renew_leases (consumer : string) (tasks : list PageTask) : prog R Z :=
  fold_prog (leases_by_stream tasks) 0%Z (λ '(name, ids) renewed,
    let! entries := step (xclaim_step consumer 0 true ids name) in
    Ret (renewed + Z.of_nat (length entries))%Z).

(** ** Requeue: publish first, then acknowledge *)

Definition requeue (t : PageTask) (count_attempt : bool) : prog R eid :=
  let attempt := if count_attempt then (attempt t + 1)%Z else attempt t in
  let! new_id := call (λ r, xadd STREAM (requeue_fields t (now_ms r) attempt) r) in
  do! ack (entry_id t) (task_stream t) in
  Ret new_id.

(** ** Observability *)

Definition poison_count : prog R Z :=
  let! raw := ask (get POISON_COUNTER_KEY) in
  of_result (int_or_zero raw).

Record depth_result := { stream_length : Z; pending_total : Z; backlog : Z }.

Definition depth : prog R depth_result :=
  let! (length, pending) :=
    fold_prog STREAMS (0, 0)%Z (λ name '(length, pending),
      let! n := ask (xlen name) in
      let! p := step (λ r, (match xpending name r with
                            | Some p => inr p | None => inl NOGROUP end, r)) in
      Ret (length + n, pending + p)%Z) in
  Ret {| stream_length := length; pending_total := pending;
         backlog := Z.max 0 (length - pending) |}.

Record lane_consumers := {
  lane_name : string; lane_rows : list (string * Z * Z); lane_orphaned : Z }.

Definition consumers (min_idle_ms : Z) : prog R (Z * list lane_consumers) :=
  fold_prog STREAMS (0%Z, []) (λ name '(total, lanes),
    let! rows := catch (step (λ r, (match xinfo_consumers name r with
                                    | Some rows => inr rows | None => inl NOGROUP end, r)))
                   (λ e, match e with
                         | ResponseError m =>
                             if str_contains "NOGROUP" m || str_contains "no such key" m
                             then Ret [] else Raise e
                         | _ => Raise e
                         end) in
    let! stale := step (λ r, (match xpending_range name min_idle_ms 1000 r with
                              | Some rows => inr rows | None => inl NOGROUP end, r)) in
    let n := Z.of_nat (length stale) in
    Ret ((total + n)%Z, lanes ++ [{| lane_name := name; lane_rows := rows; lane_orphaned := n |}])).

End queue.

(** ** Wire format *)

(** [s or d], for the text of an integer. *)
Lemma or_py_str {E} n (d : E + string) :
  match py_str n with String c s => inr (String c s) | EmptyString => d end = inr (py_str n).
Proof. pose proof (py_str_nonempty n). by destruct (py_str n). Qed.

Lemma _parse_enqueue stream i job index now trace :
  _parse stream i (enqueue_fields job index now trace) =
  inr {| entry_id := i; job_id := job; page_index := index; enqueued_at_ms := now;
         trace_id := trace; recovered := false; task_stream := stream; attempt := 0;
         first_enqueued_at_ms := now |}.
Proof.
  unfold _parse, field, enqueue_fields. simpl_map. cbn [rbind].
  rewrite or_py_str. cbn [rbind]. rewrite !int_str. cbn [rbind]. by rewrite ?int_str.
Qed.

Lemma _parse_requeue stream i t now a :
  _parse stream i (requeue_fields t now a) =
  inr {| entry_id := i; job_id := job_id t; page_index := page_index t; enqueued_at_ms := now;
         trace_id := trace_id t; recovered := false; task_stream := stream; attempt := a;
         first_enqueued_at_ms := origin_ms t |}.
Proof.
  unfold _parse, field, requeue_fields. simpl_map. cbn [rbind].
  rewrite or_py_str. cbn [rbind]. rewrite !int_str. cbn [rbind]. by rewrite ?int_str.
Qed.

(** [_parse] fails only with the exceptions its callers quarantine on. *)
Definition fails_malformed {A} (m : result A) : Prop := forall e, m = inl e -> malformed e = true.

Lemma fails_malformed_bind {A B} (m : result A) (k : A -> result B) :
  fails_malformed m -> (forall a, fails_malformed (k a)) -> fails_malformed (rbind m k).
Proof. intros Hm Hk e. destruct m as [e'|a]; simpl; [intros [= <-]; by apply Hm|apply Hk]. Qed.

Lemma fails_malformed_field fs k : fails_malformed (field fs k).
Proof. unfold field. intros e. case_match; by intros [= <-]. Qed.

Lemma fails_malformed_int s : fails_malformed (int s).
Proof. unfold int. intros e. case_match; by intros [= <-]. Qed.

Lemma fails_malformed_inr {A} (a : A) : fails_malformed (inr a).
Proof. done. Qed.

#[local] Hint Resolve fails_malformed_bind fails_malformed_field fails_malformed_int
  fails_malformed_inr : core.

Lemma _parse_malformed stream i fs e : _parse stream i fs = inl e -> malformed e = true.
Proof.
  revert e. change (fails_malformed (_parse stream i fs)). unfold _parse.
  repeat (apply fails_malformed_bind; intros; auto); [by destruct (fs !! "attempt")|].
  destruct (fs !! "first_enqueued_at_ms") as [[|c s]|]; auto.
Qed.

#[export] Hint Rewrite _parse_enqueue _parse_requeue : ocr.

(** ** Prefetch *)

Lemma stake_length n l : length (stake n l).1 <= n.
Proof.
  revert n. induction l as [|e l IH]; intros n; simpl; [lia|].
  destruct n as [|n]; simpl; [lia|]. destruct (se_new e).
  - specialize (IH n). destruct (stake n l). simpl in *. lia.
  - specialize (IH (S n)). destruct (stake (S n) l). simpl in *. lia.
Qed.

Lemma sreadgroup_length now c n s : length (sreadgroup now c n s).2 <= n.
Proof.
  unfold sreadgroup. pose proof (stake_length n (sv_entries s)).
  destruct (stake n (sv_entries s)). simpl in *. by rewrite length_map.
Qed.

Lemma response_count_app a b : response_count (a ++ b) = (response_count a + response_count b)%Z.
Proof. unfold response_count. induction a as [|x a IH]; simpl in *; lia. Qed.

Lemma response_count_reply s l : response_count (reply_of s l) = Z.of_nat (length l).
Proof. destruct l; [done|]. unfold response_count. simpl. lia. Qed.

Lemma response_count_nonneg a : (0 <= response_count a)%Z.
Proof. unfold response_count. induction a; simpl; lia. Qed.

Section reading.
Context {R : Type} `{RedisLaws R} `{Clock R}.
Implicit Types r : R.

Lemma xreadgroup_new_length k c n r r' l :
  xreadgroup_new k c n r = Some (r', l) -> length l <= n.
Proof.
  intros E. pose proof (xreadgroup_new_view k c n r) as Hv. simpl in Hv.
  destruct (sv_group _); [|congruence]. destruct Hv as (r1 & Hv & _). rewrite E in Hv.
  injection Hv as _ ->. apply sreadgroup_length.
Qed.

(** What a read replies, whatever the server holds. *)
Definition reply_le (n : Z) (o : result response) : Prop :=
  match o with inl _ => True | inr resp => (response_count resp <= n)%Z end.

Lemma lane_reply c s n r : (0 <= n)%Z -> reply_le n (xreadgroup_lane c s n r).1.
Proof.
  intros Hn. unfold xreadgroup_lane, checked_count. destruct (n <? 1)%Z; [done|].
  destruct (xreadgroup_new s c (Z.to_nat n) r) as [[r' l]|] eqn:E; [|done]. simpl.
  rewrite response_count_reply. apply xreadgroup_new_length in E. lia.
Qed.

Lemma both_reply c n r : (0 <= n)%Z -> reply_le (2 * n) (xreadgroup_both c n r).1.
Proof.
  intros Hn. unfold xreadgroup_both, checked_count. destruct (n <? 1)%Z; [done|].
  destruct (xreadgroup_new LEAD_STREAM _ _ r) as [[r1 l1]|] eqn:E1; [|done].
  destruct (xreadgroup_new STREAM _ _ r1) as [[r2 l2]|] eqn:E2; [|done]. simpl.
  rewrite response_count_app, !response_count_reply.
  apply xreadgroup_new_length in E1, E2. lia.
Qed.

Section wp.
Context (rely : R -> R -> Prop) (fault : exn -> Prop).
Let any (_ : R) : Prop := True.

(** A step followed by a postcondition that errors satisfy. *)
Lemma wp_step {X} (f : R -> result X * R) (Q : result X -> R -> Prop) r :
  (forall r1, rely r r1 -> Q (f r1).1 (f r1).2) -> (forall e r, Q (inl e) r) ->
  wp rely fault any (step f) Q r.
Proof using Type.
  intros HQ He r1 Hr. split_and!; [done| |].
  - specialize (HQ r1 Hr). by destruct (f r1) as [[e|x] r2].
  - intros e _. split_and!; [done|apply He..].
Qed.

(** An upper bound on the entries one read can deliver. *)
Definition read_budget (lead main : Z) (cap : option Z) : Z :=
  Z.max 2 (match cap with Some c => Z.max 0 c | None => Z.max 0 lead + Z.max 0 main end).

Lemma read_lanes_bound c lead main block cap lead_block r :
  (forall n, cap = Some n -> (lead <= n)%Z) ->
  wp rely fault any (_read_lanes c lead main block cap lead_block)
    (λ o _, reply_le (read_budget lead main cap) o) r.
Proof using Type*.
  intros Hcap. unfold _read_lanes. apply wp_bind.
  assert (wp rely fault any
    (if (0 <? lead)%Z then step (xreadgroup_lane c LEAD_STREAM lead) else Ret [])
    (λ o _, reply_le (Z.max 0 lead) o) r) as Hlead.
  { destruct (0 <? lead)%Z eqn:E; bool_prop.
    - apply wp_step; [|done]. intros r1 _. rewrite Z.max_r by lia. apply lane_reply. lia.
    - simpl. unfold response_count. simpl. lia. }
  eapply wp_mono; [|exact Hlead]. clear Hlead. intros [e|l] r1; [done|]. intros Hl.
  cbn [reply_le] in Hl.
  pose proof (response_count_nonneg l).
  set (m := match cap with Some _ => _ | None => _ end).
  assert (m <= main /\ forall n, cap = Some n -> m + response_count l <= n)%Z as [Hm Hmcap].
  { unfold m. destruct cap; split; [lia| |lia|done]. intros ? [= ->]. lia. }
  unfold read_budget. destruct (m <=? 0)%Z eqn:Em; bool_prop.
  - case_cond.
    + simpl. destruct cap; [specialize (Hcap _ eq_refl)|]; lia.
    + apply wp_step; [|done]. intros r2 _. destruct (decide (0 <= lead)%Z) as [Hp|Hp].
      * pose proof (lane_reply c LEAD_STREAM lead r2 Hp) as Hb.
        destruct (_).1 as [e|x]; [done|]. simpl in *. destruct cap; [specialize (Hcap _ eq_refl)|]; lia.
      * unfold xreadgroup_lane, checked_count.
        by rewrite (proj2 (Z.ltb_lt lead 1)) by lia.
  - apply wp_bind. apply wp_step; [|done]. intros r2 _.
    pose proof (lane_reply c STREAM m r2 ltac:(lia)) as Hb.
    destruct (xreadgroup_lane c STREAM m r2) as [[e|x] r3]; [done|]. simpl in Hb. cbn [fst snd].
    case_cond.
    + simpl. rewrite response_count_app. destruct cap; [specialize (Hmcap _ eq_refl)|]; lia.
    + apply wp_step; [|done]. intros r4 _.
      pose proof (both_reply c (Z.max 1 (m / 2)) r4 ltac:(lia)) as Hb2.
      pose proof (Z.mul_div_le m 2 ltac:(lia)).
      destruct (xreadgroup_both c (Z.max 1 (m / 2)) r4) as [[e|y] r5]; [done|]. simpl in *.
      destruct cap; [specialize (Hmcap _ eq_refl)|]; lia.
Qed.

Definition tasks_le (n : Z) (o : result (list PageTask)) : Prop :=
  match o with inl _ => True | inr ts => (Z.of_nat (length ts) <= n)%Z end.

Lemma entries_length stream (entries : list (eid * fields)) ts r :
  wp rely fault any (fold_prog entries ts (parse_or_quarantine stream))
    (λ o _, tasks_le (Z.of_nat (length ts) + Z.of_nat (length entries)) o) r.
Proof using Type.
  eapply wp_mono; [|apply (wp_fold _ _ _ _
    (λ rest ts' _, Z.of_nat (length ts') + Z.of_nat (length rest)
                   <= Z.of_nat (length ts) + Z.of_nat (length entries))%Z (λ _ _, True))];
    [intros [e|x] w Hx; simpl in *; lia| |simpl; lia].
  intros x rest s w Hs. unfold parse_or_quarantine.
  destruct (_parse stream x.1 x.2) as [e|t].
  - destruct (malformed e); [|done]. apply wp_bind. apply wp_trivial; [done|].
    intros [e'|[]] w'; [done|]. simpl in *. lia.
  - simpl in *. rewrite length_app. simpl. lia.
Qed.

Lemma flatten_length resp r :
  wp rely fault any (_flatten resp) (λ o _, tasks_le (response_count resp) o) r.
Proof using Type.
  eapply wp_mono; [|apply (wp_fold _ _ _ _
    (λ rest ts' _, Z.of_nat (length ts') + response_count rest <= response_count resp)%Z
    (λ _ _, True))]; [intros [e|x] w Hx; simpl in *; lia| |simpl; lia].
  intros [stream entries] rest s w Hs. eapply wp_mono; [|apply entries_length].
  intros [e|x] w' Hx; simpl in *; lia.
Qed.
End wp.
End reading.

(** ** Streams under the commands *)

Definition in_stream (i : eid) (s : sview) : Prop := i ∈ (se_id <$> sv_entries s).
Definition in_pel (i : eid) (s : sview) : Prop := i ∈ (pel_id <$> sv_pel s).

Lemma in_stream_sdel i j s : in_stream j (sdel i s) <-> in_stream j s /\ j <> i.
Proof.
  unfold in_stream, sdel. simpl. rewrite !list_elem_of_fmap. split.
  - intros (e & -> & [Hne Hin]%list_elem_of_filter). eauto.
  - intros [(e & -> & Hin) Hne]. exists e. rewrite list_elem_of_filter. auto.
Qed.

Lemma in_pel_sack i j s : in_pel j (sack i s) <-> in_pel j s /\ j <> i.
Proof.
  unfold in_pel, sack. simpl. rewrite !list_elem_of_fmap. split.
  - intros (e & -> & [Hne Hin]%list_elem_of_filter). eauto.
  - intros [(e & -> & Hin) Hne]. exists e. rewrite list_elem_of_filter. auto.
Qed.

(** ** Requeue *)

Section requeueing.
Context {R : Type} `{RedisLaws R} `{Clock R}.
Implicit Types r : R.
Context (t : PageTask) (count_attempt : bool).

(** The task is still queued: as the entry it came in, or as an entry from
    which the same page is read back, its age preserved. *)
Definition original_queued (r : R) : Prop :=
  in_stream (entry_id t) (vstream (task_stream t) (view r)).

Definition replacement_queued (r : R) : Prop :=
  exists e t', e ∈ sv_entries (vstream STREAM (view r)) /\
    (task_stream t = STREAM -> se_id e <> entry_id t) /\
    _parse STREAM (se_id e) (se_fields e) = inr t' /\
    job_id t' = job_id t /\ page_index t' = page_index t /\
    first_enqueued_at_ms t' = origin_ms t /\
    attempt t' = (if count_attempt then attempt t + 1 else attempt t)%Z.

Definition settled (r : R) : Prop :=
  ~ in_pel (entry_id t) (vstream (task_stream t) (view r)) /\
  ~ in_stream (entry_id t) (vstream (task_stream t) (view r)).

Definition acked (r : R) : Prop :=
  ~ in_pel (entry_id t) (vstream (task_stream t) (view r)).

(** The others neither settle this page's entries nor bring its entry back. *)
Record leaves_task (r r' : R) : Prop := {
  lt_original : original_queued r -> original_queued r';
  lt_replacement : replacement_queued r -> replacement_queued r';
  lt_acked : acked r -> acked r';
  lt_settled : settled r -> settled r' }.

Definition queued (r : R) : Prop := original_queued r \/ replacement_queued r.

Lemma leaves_task_queued r r' : leaves_task r r' -> queued r -> queued r'.
Proof. intros [] []; [left|right]; auto. Qed.

(** The pending entry acknowledged and then deleted, the replacement present. *)
Lemma xack_keeps r : let r' := xack (task_stream t) (entry_id t) r in
  acked r' /\ (original_queued r' <-> original_queued r) /\
  (replacement_queued r' <-> replacement_queued r).
Proof.
  unfold acked, original_queued, replacement_queued. simpl. rewrite view_xack.
  rewrite vstream_vset_stream_eq. split_and!.
  - rewrite in_pel_sack. by intros [].
  - done.
  - rewrite vstream_vset_stream. by destruct (decide _) as [->|].
Qed.

Lemma xdel_keeps r : acked r -> replacement_queued r ->
  let r' := xdel (task_stream t) (entry_id t) r in settled r' /\ replacement_queued r'.
Proof.
  unfold settled, acked, replacement_queued. simpl. rewrite view_xdel.
  rewrite vstream_vset_stream_eq. intros Ha (e & t' & Hin & Hne & Hp). split.
  - split; [exact Ha|]. rewrite in_stream_sdel. by intros [].
  - exists e, t'. split; [|done]. rewrite vstream_vset_stream.
    destruct (decide _) as [E|]; [|done]. rewrite E in *. simpl.
    apply list_elem_of_filter. auto.
Qed.

Lemma xadd_replaces r : original_queued r ->
  let r' := (xadd STREAM (requeue_fields t (now_ms r)
                            (if count_attempt then attempt t + 1 else attempt t)%Z) r).1 in
  original_queued r' /\ replacement_queued r'.
Proof.
  intros Ho. destruct (xadd_view STREAM (requeue_fields t (now_ms r)
    (if count_attempt then attempt t + 1 else attempt t)%Z) r) as [Hid Hv].
  destruct (xadd STREAM _ r) as [r' i]. simpl in *.
  unfold original_queued, replacement_queued in *. rewrite Hv. split.
  - rewrite vstream_vset_stream. destruct (decide _) as [E|]; [|done].
    rewrite E. unfold in_stream, sadd. simpl. rewrite fmap_app. apply elem_of_app. by left.
  - rewrite vstream_vset_stream_eq. unfold sadd. simpl.
    exists (SEntry i (requeue_fields t (now_ms r)
      (if count_attempt then attempt t + 1 else attempt t)%Z) true). simpl.
    rewrite _parse_requeue. eexists. rewrite elem_of_app, list_elem_of_singleton.
    split_and!; [by right| |reflexivity|done..].
    intros E ->. rewrite E in Ho. rewrite Forall_forall in Hid.
    specialize (Hid (entry_id t)). rewrite eid_ltb_irrefl in Hid.
    discriminate Hid. apply elem_of_app. by left.
Qed.

Lemma requeue_wp fault r :
  original_queued r ->
  wp leaves_task fault queued (requeue t count_attempt)
    (λ o r', queued r' /\ forall i, o = inr i -> replacement_queued r' /\ acked r') r.
Proof.
  intros Ho. unfold requeue, ack, act, call, step. cbn [pbind wp].
  intros r1 Hr1. pose proof (lt_original _ _ Hr1 Ho) as Ho1.
  destruct (xadd_replaces r1 Ho1) as [Ho2 Hp2].
  destruct (xadd STREAM _ r1) as [r2 i]. cbn [fst snd of_result pbind wp] in *.
  assert (queued r1) by (by left). assert (queued r2) by (by left).
  split_and!; [done| |intros e _; split_and!; by try intros ?].
  intros r3 Hr3. pose proof (lt_original _ _ Hr3 Ho2) as Ho3.
  pose proof (lt_replacement _ _ Hr3 Hp2) as Hp3.
  destruct (xack_keeps r3) as (Ha4 & _ & Hp4). rewrite <- Hp4 in Hp3.
  set (r4 := xack _ _ r3) in *. cbn [fst snd of_result pbind wp].
  assert (queued r3) by (by left). assert (queued r4) by (by right).
  split_and!; [done| |intros e _; split_and!; by try intros ?].
  intros r5 Hr5. destruct (xdel_keeps r5) as [[Ha6 _] Hp6]; [by apply (lt_acked _ _ Hr5)
    |by apply (lt_replacement _ _ Hr5)|].
  pose proof (leaves_task_queued _ _ Hr5 ltac:(by right)).
  set (r6 := xdel _ _ r5) in *. cbn [fst snd of_result pbind wp].
  assert (queued r6) by (by right).
  split_and!; [done|done|auto|intros e _; split_and!; by try intros ?].
Qed.
End requeueing.

(** ** Claims *)

(** The row of [i], if any, is the consumer's own or was renewed less than
    [min_idle] ago. *)
Definition held_row (c : string) (now min_idle : Z) (i : eid) (s : sview) : Prop :=
  forall p, p ∈ sv_pel s -> pel_id p = i ->
    pel_consumer p = c \/ (now - pel_delivered_at p < min_idle)%Z.

Lemma spending_stale now min_idle n s i c :
  (i, c) ∈ spending now min_idle n s ->
  exists p, p ∈ sv_pel s /\ pel_id p = i /\ pel_consumer p = c /\
            (min_idle <= now - pel_delivered_at p)%Z.
Proof.
  unfold spending. intros Hin%(subseteq_take n _ _).
  apply list_elem_of_fmap in Hin as (p & [= -> ->] & [Hid Hp]%list_elem_of_filter). eauto.
Qed.

Lemma held_row_not_scanned c now min_idle n i s :
  held_row c now min_idle i s ->
  i ∉ fst <$> filter (λ row : eid * string, row.2 ≠ c) (spending now min_idle n s).
Proof.
  intros Hh ([j c'] & -> & [Hc Hin]%list_elem_of_filter)%list_elem_of_fmap.
  apply spending_stale in Hin as (p & Hp & Hid & Hcp & Hidle). simpl in *.
  destruct (Hh p Hp Hid); [congruence|lia].
Qed.

Lemma sclaim1_reply now c min_idle justid j s i f :
  (i, f) ∈ (sclaim1 now c min_idle justid j s).2 -> i = j /\ sfind i s = Some f /\
  exists p, p ∈ sv_pel s /\ pel_id p = i /\ (min_idle <= now - pel_delivered_at p)%Z.
Proof.
  unfold sclaim1. destruct (head _) as [p|] eqn:Eh; [|intros []%elem_of_nil].
  apply head_Some_elem_of, list_elem_of_filter in Eh as [Hid Hp].
  case_bool_decide as Hi; [|intros []%elem_of_nil].
  destruct (sfind j s) eqn:Ef; [|intros []%elem_of_nil]. simpl.
  intros [= -> ->]%list_elem_of_singleton. split_and!; [done|done|]. exists p. auto.
Qed.

(** Rows of other entries are left as they are. *)
Lemma sclaim1_other now c min_idle justid j s p :
  pel_id p <> j -> p ∈ sv_pel (sclaim1 now c min_idle justid j s).1 <-> p ∈ sv_pel s.
Proof.
  intros Hne. unfold sclaim1. destruct (head _) as [q|]; [|done].
  destruct (bool_decide _); [|done]. destruct (sfind j s); simpl.
  - rewrite list_elem_of_fmap. split.
    + intros (q' & -> & Hq). by destruct (bool_decide (pel_id q' = j)).
    + intros Hp. exists p. by rewrite bool_decide_false.
  - rewrite list_elem_of_filter. split; [by intros []|by intros].
Qed.

Lemma sclaim_reply now c min_idle justid ids : forall s i f,
  (i, f) ∈ (sclaim now c min_idle justid ids s).2 -> i ∈ ids.
Proof.
  induction ids as [|j ids IH]; intros s i f; simpl; [intros []%elem_of_nil|].
  destruct (sclaim1 now c min_idle justid j s) as [s1 l1] eqn:E1.
  destruct (sclaim now c min_idle justid ids s1) as [s2 l2] eqn:E2. simpl.
  intros [Hin|Hin]%elem_of_app; apply elem_of_cons.
  - left. pose proof (sclaim1_reply now c min_idle justid j s i f) as Hr. rewrite E1 in Hr. by apply Hr.
  - right. apply (IH s1 i f). by rewrite E2.
Qed.

Lemma sclaim_other now c min_idle justid ids : forall s p,
  pel_id p ∉ ids -> p ∈ sv_pel (sclaim now c min_idle justid ids s).1 <-> p ∈ sv_pel s.
Proof.
  induction ids as [|j ids IH]; intros s p Hp; simpl; [done|].
  apply not_elem_of_cons in Hp as [Hne Hp].
  pose proof (sclaim1_other now c min_idle justid j s p Hne) as H1.
  destruct (sclaim1 now c min_idle justid j s) as [s1 l1].
  specialize (IH s1 p Hp). destruct (sclaim now c min_idle justid ids s1) as [s2 l2].
  simpl in *. by rewrite IH.
Qed.

(** Every row of [i] was just delivered. *)
Definition recent (now : Z) (i : eid) (s : sview) : Prop :=
  forall p, p ∈ sv_pel s -> pel_id p = i -> pel_delivered_at p = now.

Lemma sclaim1_recent now c min_idle justid j s i :
  recent now i s \/ (exists f, (i, f) ∈ (sclaim1 now c min_idle justid j s).2) ->
  recent now i (sclaim1 now c min_idle justid j s).1.
Proof.
  intros Hor p Hp Hid. destruct (decide (i = j)) as [->|Hne].
  - unfold sclaim1 in *. destruct (head _) as [q|];
      [|destruct Hor as [Hr|[f []%elem_of_nil]]; by apply Hr].
    case_bool_decide; [|destruct Hor as [Hr|[f []%elem_of_nil]]; by apply Hr].
    destruct (sfind j s); simpl in *.
    + apply list_elem_of_fmap in Hp as (q' & -> & Hq). by case_bool_decide.
    + apply list_elem_of_filter in Hp as [? _]. done.
  - rewrite sclaim1_other in Hp by congruence. destruct Hor as [Hr|[f Hf]]; [by apply Hr|].
    by apply sclaim1_reply in Hf as [? _].
Qed.

Lemma sclaim_recent now c min_idle justid ids : forall s i,
  recent now i s \/ (exists f, (i, f) ∈ (sclaim now c min_idle justid ids s).2) ->
  recent now i (sclaim now c min_idle justid ids s).1.
Proof.
  induction ids as [|j ids IH]; intros s i Hor; simpl in *.
  { destruct Hor as [?|[f []%elem_of_nil]]; done. }
  pose proof (sclaim1_recent now c min_idle justid j s i) as H1.
  destruct (sclaim1 now c min_idle justid j s) as [s1 l1].
  specialize (IH s1 i). destruct (sclaim now c min_idle justid ids s1) as [s2 l2].
  simpl in *. apply IH. destruct Hor as [Hr|[f [Hf|Hf]%elem_of_app]]; eauto.
Qed.

(** A fresh row is not claimed: the claim is a compare-and-set on idle time. *)
Lemma sclaim_fresh now c min_idle justid ids : forall s i,
  (forall p, p ∈ sv_pel s -> pel_id p = i -> (now - pel_delivered_at p < min_idle)%Z) ->
  i ∉ (sclaim now c min_idle justid ids s).2.*1.
Proof.
  induction ids as [|j ids IH]; intros s i Hf; simpl; [apply not_elem_of_nil|].
  destruct (sclaim1 now c min_idle justid j s) as [s1 l1] eqn:E1.
  assert (i ∉ l1.*1) as Hl1.
  { intros ([i' f] & -> & Hin)%list_elem_of_fmap.
    destruct (sclaim1_reply now c min_idle justid j s i' f) as (_ & _ & p & Hp & Hid & Hge).
    { by rewrite E1. }
    specialize (Hf p Hp Hid). lia. }
  specialize (IH s1 i). destruct (sclaim now c min_idle justid ids s1) as [s2 l2]. simpl in *.
  rewrite fmap_app, not_elem_of_app. split; [done|]. apply IH. intros p Hp Hid.
  destruct (decide (i = j)) as [->|Hne].
  - revert Hp. replace s1 with (sclaim1 now c min_idle justid j s).1 by by rewrite E1.
    unfold sclaim1. destruct (head _) as [q|] eqn:Eh; [|by intros; apply Hf].
    apply head_Some_elem_of, list_elem_of_filter in Eh as [Hq Hqs].
    rewrite bool_decide_false by (specialize (Hf q Hqs Hq); lia). by intros; apply Hf.
  - apply Hf; [|done]. apply (sclaim1_other now c min_idle justid j s); [congruence|].
    by rewrite E1.
Qed.

Section claiming.
Context {R : Type} `{RedisLaws R} `{Clock R}.
Implicit Types r : R.

Lemma xclaim_step_view c min_idle justid ids k r :
  let s := vstream k (view r) in
  let q := sclaim (rv_now (view r)) c min_idle justid ids s in
  if sv_group s
  then exists r', xclaim_step c min_idle justid ids k r = (inr q.2, r') /\
       view r' = vset_stream k q.1 (view r)
  else xclaim_step c min_idle justid ids k r = (inl NOGROUP, r).
Proof.
  simpl. pose proof (xclaim_view k c min_idle justid ids r) as Hx. simpl in Hx. unfold xclaim_step.
  destruct (sv_group _).
  - destruct Hx as (r' & -> & Hv). eauto.
  - by rewrite Hx.
Qed.

Lemma quarantine_keeps rely fault (P : R -> Prop) k i fs e :
  (forall r r', rely r r' -> P r -> P r') ->
  (forall n f r, P r -> P (xadd_maxlen POISON_STREAM n f r).1) ->
  (forall r, P r -> P (incr POISON_COUNTER_KEY r).1) ->
  (forall r, P r -> P (xack k i r)) -> (forall r, P r -> P (xdel k i r)) ->
  keeps rely fault (λ _, True) P (_quarantine k i fs e).
Proof.
  intros Hrely Hadd Hincr Hack Hdel. unfold _quarantine, ack. apply keeps_bind.
  - apply keeps_catch.
    + apply keeps_bind; [apply keeps_call; auto|]. intros _.
      apply keeps_bind; [apply keeps_call; auto|]. intros _. apply keeps_ret.
    + intros e'. destruct (is_Exception e'); [apply keeps_ret|apply keeps_raise].
  - intros _. apply keeps_bind; [apply keeps_act; auto|]. intros _. apply keeps_act; auto.
Qed.

(** The entry [i] of lane [k] is the consumer's own or was renewed less than
    [min_idle] ago. *)
Definition held (c : string) (min_idle : Z) (k : string) (i : eid) (r : R) : Prop :=
  held_row c (rv_now (view r)) min_idle i (vstream k (view r)).

Lemma held_row_sub c now min_idle i s s' :
  (forall p, p ∈ sv_pel s' -> pel_id p = i -> p ∈ sv_pel s) ->
  held_row c now min_idle i s -> held_row c now min_idle i s'.
Proof. intros Hs Hh p Hp Hid. apply Hh; auto. Qed.

Section held.
Context (c : string) (min_idle : Z) (k : string) (i : eid) (Hk : k <> POISON_STREAM).
Let P := held c min_idle k i.

Lemma held_stream name s' r r' :
  view r' = vset_stream name s' (view r) ->
  (name = k -> forall p, p ∈ sv_pel s' -> pel_id p = i -> p ∈ sv_pel (vstream k (view r))) ->
  P r -> P r'.
Proof using Type.
  intros Hv Hs. unfold P, held. rewrite Hv. simpl. apply held_row_sub.
  rewrite vstream_vset_stream. destruct (decide _) as [->|]; [by apply Hs|auto].
Qed.

Lemma held_xadd_maxlen n f r : P r -> P (xadd_maxlen POISON_STREAM n f r).1.
Proof using Hk.
  destruct (xadd_maxlen_view POISON_STREAM n f r) as [_ (d & _ & Hv)].
  eapply held_stream; [exact Hv|]. intros ->. done.
Qed.

Lemma held_incr r : P r -> P (incr POISON_COUNTER_KEY r).1.
Proof using Type.
  destruct (incr_view POISON_COUNTER_KEY r) as [_ Hv]. unfold P, held. by rewrite Hv.
Qed.

Lemma held_xack name j r : P r -> P (xack name j r).
Proof using Type.
  eapply held_stream; [apply view_xack|]. intros -> p. simpl.
  by intros [_ Hp]%list_elem_of_filter.
Qed.

Lemma held_xdel name j r : P r -> P (xdel name j r).
Proof using Type. eapply held_stream; [apply view_xdel|]. intros ->. done. Qed.

Lemma held_xclaim name ids r :
  (name = k -> i ∉ ids) -> P r -> P (xclaim_step c min_idle false ids name r).2.
Proof using Type.
  intros Hid HP. pose proof (xclaim_step_view c min_idle false ids name r) as Hx. simpl in Hx.
  destruct (sv_group _); [|by rewrite Hx]. destruct Hx as (r' & -> & Hv). simpl.
  eapply held_stream; [exact Hv| |done]. intros -> p Hp Hpi.
  apply sclaim_other in Hp; [done|]. rewrite Hpi. auto.
Qed.

Context (rely : R -> R -> Prop) (fault : exn -> Prop).
Context (P_rely : forall r r', rely r r' -> P r -> P r').

Definition no_task (ts : list PageTask) : Prop :=
  forall t, t ∈ ts -> task_stream t = k -> entry_id t <> i.
Let post (o : result (list PageTask)) (r : R) : Prop :=
  match o with inl _ => True | inr ts => P r /\ no_task ts end.

Lemma parse_task_id stream j fs t :
  _parse stream j fs = inr t -> task_stream t = stream /\ entry_id t = j.
Proof using Type.
  unfold _parse, rbind. intros Hp.
  repeat (match type of Hp with context [match ?m with inl _ => _ | inr _ => _ end] =>
            destruct m; [discriminate Hp|] end).
  by injection Hp as <-.
Qed.

Lemma no_task_snoc ts stream j fs t :
  no_task ts -> (stream = k -> j <> i) -> _parse stream j fs = inr t -> no_task (ts ++ [t]).
Proof using Type.
  intros Hts Hj [Hs Hi]%parse_task_id t' [Hin| ->%list_elem_of_singleton]%elem_of_app; [auto|].
  rewrite Hs, Hi. auto.
Qed.

Lemma wp_parse_or_quarantine name x ts r :
  (name = k -> x.1 <> i) -> P r -> no_task ts ->
  wp rely fault (λ _, True) (parse_or_quarantine name x ts) post r.
Proof using Hk P_rely.
  intros Hx HP Hts. unfold parse_or_quarantine. destruct (_parse name x.1 x.2) as [e|t] eqn:E.
  - destruct (malformed e); [|done]. apply wp_bind.
    apply (wp_mono _ _ _ _ (λ _ r', P r')); [by intros [e'|[]] r'|].
    apply quarantine_keeps;
      auto using held_xadd_maxlen, held_incr, held_xack, held_xdel.
  - simpl. split; [done|]. by eapply no_task_snoc.
Qed.

Lemma wp_claim_lane name count ts r :
  P r -> no_task ts ->
  wp rely fault (λ _, True) (claim_lane c min_idle count name ts) post r.
Proof using Hk P_rely H0.
  intros HP Hts. unfold claim_lane. apply wp_bind. intros r1 Hr1.
  apply (P_rely _ _ Hr1) in HP. rewrite xpending_range_view. cbn [fst snd].
  destruct (sv_group (vstream name (view r1))); [|by split_and!].
  cbn [of_result wp]. split_and!; [done| |by intros e _].
  set (ids := fst <$> _).
  assert (name = k -> i ∉ ids) as Hids.
  { intros ->. by apply held_row_not_scanned. }
  case_bool_decide; [by split|]. apply wp_bind. intros r2 Hr2.
  apply (P_rely _ _ Hr2) in HP. pose proof (held_xclaim name ids r2 Hids HP) as HP3.
  pose proof (xclaim_step_view c min_idle false ids name r2) as Hx. simpl in Hx.
  destruct (sv_group _); [|rewrite Hx; by split_and!]. destruct Hx as (r3 & Hx & _).
  rewrite Hx in *. cbn [fst snd of_result wp] in *.
  split_and!; [done| |by intros e _].
  eapply wp_mono; [|apply (wp_fold _ _ _ _
    (λ rest ts w, P w /\ no_task ts /\ forall x, x ∈ rest -> name = k -> x.1 <> i)
    (λ _ _, True))].
  - intros [e|ts'] w; [done|]. by intros (? & ? & _).
  - intros x rest ts' w (HPw & Htsw & Hrest). case_bool_decide.
    + simpl. split_and!; [done..|]. eauto using list_elem_of_further.
    + eapply wp_mono; [|apply wp_parse_or_quarantine; eauto using list_elem_of_here].
      intros [e|ts''] w'; [done|]. simpl. intros [? ?]. split_and!; [done..|].
      eauto using list_elem_of_further.
  - split_and!; [done..|]. intros [j f] Hin%sclaim_reply Hname. simpl. intros ->. by apply Hids.
Qed.

Lemma wp_claim_orphans count r :
  P r -> wp rely fault (λ _, True) (claim_orphans c min_idle count) post r.
Proof using Hk P_rely H0.
  intros HP. unfold claim_orphans.
  eapply wp_mono; [|apply (wp_fold _ _ _ _ (λ _ ts w, P w /\ no_task ts) (λ _ _, True))].
  - by intros [e|ts] w.
  - intros name rest ts w [HPw Hts]. eapply wp_mono; [|by apply wp_claim_lane].
    by intros [e|ts'] w'.
  - split; [done|]. by intros t ?%elem_of_nil.
Qed.
End held.
End claiming.

(** ** Settling malformed entries *)

Definition settle (ids : list eid) (s : sview) : sview :=
  SView (sv_group s) (filter (λ e, se_id e ∉ ids) (sv_entries s))
        (filter (λ p, pel_id p ∉ ids) (sv_pel s)).

Lemma filter_all {A} (P : A -> Prop) `{∀ x, Decision (P x)} (l : list A) :
  (forall x, x ∈ l -> P x) -> filter P l = l.
Proof.
  intros HP. induction l as [|x l IH]; [done|].
  rewrite filter_cons_True, IH by eauto using list_elem_of_here, list_elem_of_further. done.
Qed.

Lemma filter_filter_and {A} (P Q S : A -> Prop) `{∀ x, Decision (P x), ∀ x, Decision (Q x),
  ∀ x, Decision (S x)} (l : list A) :
  (forall x, S x <-> P x /\ Q x) -> filter P (filter Q l) = filter S l.
Proof.
  intros HS. rewrite list_filter_filter. apply list_filter_iff. intros x. by rewrite HS.
Qed.

Lemma settle_nil s : settle [] s = s.
Proof. unfold settle. rewrite !filter_all by (intros; apply not_elem_of_nil). by destruct s. Qed.

Lemma settle_settle a b s : settle a (settle b s) = settle (b ++ a) s.
Proof.
  unfold settle. simpl. f_equal; apply filter_filter_and; intros x;
    rewrite not_elem_of_app; tauto.
Qed.

Lemma sdel_sack i s : sdel i (sack i s) = settle [i] s.
Proof.
  unfold sdel, sack, settle. simpl. f_equal; apply list_filter_iff; intros x;
    by rewrite list_elem_of_singleton.
Qed.

(** The tasks and the malformed ids of what a stream delivered. *)
Definition parse_ok (stream : string) (x : eid * fields) : option PageTask :=
  match _parse stream x.1 x.2 with inr t => Some t | inl _ => None end.

Definition bad_id (stream : string) (x : eid * fields) : option eid :=
  match _parse stream x.1 x.2 with inr _ => None | inl _ => Some x.1 end.

Definition parsed (resp : response) : list PageTask :=
  resp ≫= λ '(stream, entries), omap (parse_ok stream) entries.

Definition malformed_ids (k : string) (resp : response) : list eid :=
  resp ≫= λ '(stream, entries),
    if bool_decide (stream = k) then omap (bad_id stream) entries else [].

Section flattening.
Context {R : Type} `{RedisLaws R} `{Clock R}.
Implicit Types r : R.

(** [r'] is [r] with [n] more quarantined entries, those of [bad] settled. *)
Record settled_to (bad : string -> list eid) (n : nat) (r r' : R) : Prop := {
  st_stream : forall k, k <> POISON_STREAM ->
    vstream k (view r') = settle (bad k) (vstream k (view r));
  st_count : vctr POISON_COUNTER_KEY (view r') =
    (vctr POISON_COUNTER_KEY (view r) + Z.of_nat n)%Z;
  st_hash : forall k, vhash k (view r') = vhash k (view r) }.

Lemma settled_to_refl r : settled_to (λ _, []) 0 r r.
Proof. split; intros; [by rewrite settle_nil|lia|done]. Qed.

Lemma settled_to_trans b1 b2 b n1 n2 n r1 r2 r3 :
  settled_to b1 n1 r1 r2 -> settled_to b2 n2 r2 r3 ->
  (forall k, b k = b1 k ++ b2 k) -> n = n1 + n2 -> settled_to b n r1 r3.
Proof.
  intros [Hs1 Hc1 Hh1] [Hs2 Hc2 Hh2] Hb ->. split.
  - intros k Hk. by rewrite Hs2, Hs1, settle_settle, Hb.
  - rewrite Hc2, Hc1. lia.
  - intros k. by rewrite Hh2, Hh1.
Qed.

Lemma run_ack i k r :
  run (ack i k) r = (inr tt, xdel k i (xack k i r)) /\
  view (xdel k i (xack k i r)) = vset_stream k (settle [i] (vstream k (view r)))
                                   (view (xack k i r)).
Proof.
  unfold ack. split; [by autorewrite with run|].
  by rewrite view_xdel, view_xack, vstream_vset_stream_eq, sdel_sack.
Qed.

Lemma run_quarantine k i fs e r :
  k <> POISON_STREAM -> exists r', run (_quarantine k i fs e) r = (inr tt, r') /\
  settled_to (λ k', if bool_decide (k = k') then [i] else []) 1 r r'.
Proof.
  intros Hk. unfold _quarantine. autorewrite with run. cbn [run].
  destruct (xadd_maxlen_view POISON_STREAM POISON_MAXLEN (poison_fields k i fs e) r)
    as [_ (d & _ & Hv1)]. simpl in Hv1.
  destruct (xadd_maxlen POISON_STREAM _ _ r) as [r1 i1]. cbn [fst] in *.
  destruct (incr_view POISON_COUNTER_KEY r1) as [_ Hv2].
  destruct (incr POISON_COUNTER_KEY r1) as [r2 c]. cbn [fst] in *.
  destruct (run_ack i k r2) as [-> Hv3]. eexists. split; [reflexivity|].
  rewrite view_xack in Hv3. set (r3 := xdel _ _ _) in *. split.
  - intros k' Hk'. rewrite Hv3, vstream_vset_stream.
    destruct (decide (k = k')) as [->|Hne].
    + rewrite bool_decide_true by done. f_equal. rewrite Hv2.
      change (vstream k' (vincr POISON_COUNTER_KEY (view r1))) with (vstream k' (view r1)).
      by rewrite Hv1, vstream_vset_stream_ne.
    + rewrite bool_decide_false, settle_nil by done. rewrite vstream_vset_stream_ne by done.
      rewrite Hv2. change (vstream k' (vincr POISON_COUNTER_KEY (view r1))) with (vstream k' (view r1)).
      by rewrite Hv1, vstream_vset_stream_ne.
  - rewrite Hv3. simpl. change (vctr POISON_COUNTER_KEY (view r2) = vctr POISON_COUNTER_KEY (view r) + 1)%Z.
    rewrite Hv2. unfold vctr at 1. simpl. rewrite lookup_insert_eq. simpl. by rewrite Hv1.
  - intros k'. rewrite Hv3. change (vhash k' (view r2) = vhash k' (view r)).
    rewrite Hv2. change (vhash k' (view r1) = vhash k' (view r)). by rewrite Hv1.
Qed.

Lemma run_entries stream entries : forall ts r, stream <> POISON_STREAM ->
  exists r', run (fold_prog entries ts (parse_or_quarantine stream)) r =
    (inr (ts ++ omap (parse_ok stream) entries), r') /\
  settled_to (λ k, if bool_decide (stream = k) then omap (bad_id stream) entries else [])
    (length (omap (bad_id stream) entries)) r r'.
Proof.
  induction entries as [|x entries IH]; intros ts r Hk; simpl.
  { exists r. rewrite (right_id_L [] (++)). split; [done|].
    pose proof (settled_to_refl r) as [? ? ?]. split; [|done..].
    intros k ?. by destruct (bool_decide _); rewrite settle_nil. }
  rewrite run_bind. unfold parse_or_quarantine at 1.
  destruct (_parse stream x.1 x.2) as [e|t] eqn:E.
  - rewrite (_parse_malformed _ _ _ _ E), run_bind.
    assert (bad_id stream x = Some x.1 /\ parse_ok stream x = None) as [-> ->]
      by (unfold bad_id, parse_ok; by rewrite E).
    destruct (run_quarantine stream x.1 x.2 e r Hk) as (r1 & -> & Hs1). cbn [run].
    destruct (IH ts r1 Hk) as (r' & -> & Hs2). exists r'. split; [done|].
    eapply settled_to_trans; [exact Hs1|exact Hs2| |done].
    intros k. simpl. by destruct (bool_decide _).
  - assert (bad_id stream x = None /\ parse_ok stream x = Some t) as [-> ->]
      by (unfold bad_id, parse_ok; by rewrite E).
    cbn [run]. destruct (IH (ts ++ [t]) r Hk) as (r' & -> & Hs2). exists r'.
    by rewrite <- (assoc_L (++)).
Qed.

(** [_flatten] alone: every parseable entry becomes a task, in order, and
    every other one is settled on its own stream and counted. *)
Lemma run_flatten_from resp : forall ts r, Forall (λ x, x.1 <> POISON_STREAM) resp ->
  exists r', run (fold_prog resp ts (λ '(stream, entries) tasks,
                    fold_prog entries tasks (parse_or_quarantine stream))) r =
    (inr (ts ++ parsed resp), r') /\
  settled_to (λ k, malformed_ids k resp)
    (length (resp ≫= λ '(s, l), omap (bad_id s) l)) r r'.
Proof.
  induction resp as [|[stream entries] resp IH]; intros ts r Hf; simpl.
  { exists r. rewrite (right_id_L [] (++)). split; [done|]. apply settled_to_refl. }
  apply Forall_cons in Hf as [Hk Hf]. simpl in Hk. rewrite run_bind.
  destruct (run_entries stream entries ts r Hk) as (r1 & -> & Hs1).
  destruct (IH (ts ++ omap (parse_ok stream) entries) r1 Hf) as (r' & -> & Hs2).
  exists r'. split; [by rewrite <- (assoc_L (++))|].
  eapply settled_to_trans; [exact Hs1|exact Hs2|done|by rewrite length_app].
Qed.
End flattening.

(** ** Lease renewal *)

(** A row after its lease was renewed by [c], [None] when the entry is gone. *)
Definition renew_row (now : Z) (c : string) (ids : list eid) (s : sview) (p : pel_row)
  : option pel_row :=
  if bool_decide (pel_id p ∈ ids)
  then (λ _, PelRow (pel_id p) c now (pel_count p)) <$> sfind (pel_id p) s else Some p.

Definition renew_stream (now : Z) (c : string) (ids : list eid) (s : sview) : sview :=
  SView (sv_group s) (sv_entries s) (omap (renew_row now c ids s) (sv_pel s)).

Definition delivered_by (now : Z) (s : sview) : Prop :=
  forall p, p ∈ sv_pel s -> (pel_delivered_at p <= now)%Z.

Lemma omap_ext_in {A B} (f g : A -> option B) (l : list A) :
  (forall x, x ∈ l -> f x = g x) -> omap f l = omap g l.
Proof.
  induction l as [|x l IH]; intros Hfg; [done|]. csimpl.
  rewrite (Hfg x), IH by eauto using list_elem_of_here, list_elem_of_further. done.
Qed.

Lemma omap_id_in {A} (f : A -> option A) (l : list A) :
  (forall x, x ∈ l -> f x = Some x) -> omap f l = l.
Proof.
  intros Hf. rewrite (omap_ext_in f Some) by done. induction l as [|x l IH]; [done|].
  csimpl. rewrite IH; [done|]. eauto using list_elem_of_further.
Qed.

Lemma omap_map_in {A B} (f : A -> option B) (g : A -> B) (l : list A) :
  (forall x, x ∈ l -> f x = Some (g x)) -> omap f l = map g l.
Proof.
  induction l as [|x l IH]; intros Hf; [done|]. csimpl.
  rewrite (Hf x), IH by eauto using list_elem_of_here, list_elem_of_further. done.
Qed.

Lemma omap_filter_in {A} (P : A -> Prop) `{∀ x, Decision (P x)} (f : A -> option A) (l : list A) :
  (forall x, x ∈ l -> f x = if decide (P x) then Some x else None) -> omap f l = filter P l.
Proof.
  induction l as [|x l IH]; intros Hf; [done|]. csimpl.
  rewrite (Hf x), IH by eauto using list_elem_of_here, list_elem_of_further.
  destruct (decide (P x)); [by rewrite filter_cons_True|by rewrite filter_cons_False].
Qed.

Lemma sclaim1_renew now c j s :
  delivered_by now s -> (sclaim1 now c 0 true j s).1 = renew_stream now c [j] s.
Proof.
  intros Hd. unfold sclaim1, renew_stream.
  destruct (head _) as [p|] eqn:Eh.
  - apply head_Some_elem_of, list_elem_of_filter in Eh as [Hid Hp].
    rewrite bool_decide_true by (specialize (Hd p Hp); lia).
    destruct (sfind j s) as [f|] eqn:Ef; cbn [fst]; unfold sack; f_equal; symmetry.
    + apply omap_map_in. intros q Hq. unfold renew_row. case_bool_decide as Hin.
      * apply list_elem_of_singleton in Hin as <-. by rewrite bool_decide_true, Ef.
      * rewrite bool_decide_false; [done|]. by rewrite list_elem_of_singleton in Hin.
    + apply omap_filter_in. intros q Hq. unfold renew_row. case_bool_decide as Hin.
      * apply list_elem_of_singleton in Hin as <-. by rewrite Ef, decide_False by auto.
      * rewrite decide_True; [done|]. by rewrite list_elem_of_singleton in Hin.
  - simpl. rewrite omap_id_in; [by destruct s|]. intros q Hq. unfold renew_row.
    rewrite bool_decide_false; [done|]. rewrite list_elem_of_singleton. intros Hid.
    assert (q ∈ filter (λ p, pel_id p = j) (sv_pel s)) as Hin by by apply list_elem_of_filter.
    destruct (filter _ _); [by apply elem_of_nil in Hin|done].
Qed.

Lemma renew_row_delivered now c ids s : delivered_by now s -> delivered_by now (renew_stream now c ids s).
Proof.
  intros Hd p (q & Hq & E)%list_elem_of_omap. unfold renew_row in E.
  case_bool_decide; [destruct (sfind _ _); simplify_eq/=; lia|simplify_eq; auto].
Qed.

Lemma omap_omap {A B D} (f : A -> option B) (g : B -> option D) (l : list A) :
  omap g (omap f l) = omap (λ x, f x ≫= g) l.
Proof. induction l as [|x l IH]; [done|]. csimpl. destruct (f x); csimpl; by rewrite IH. Qed.

Lemma renew_row_in now c ids s p : pel_id p ∈ ids ->
  renew_row now c ids s p =
  (λ _, PelRow (pel_id p) c now (pel_count p)) <$> sfind (pel_id p) s.
Proof. intros. unfold renew_row. by rewrite bool_decide_true. Qed.

Lemma renew_row_out now c ids s p : pel_id p ∉ ids -> renew_row now c ids s p = Some p.
Proof. intros. unfold renew_row. by rewrite bool_decide_false. Qed.

Lemma renew_row_again now c a ids s s' p :
  sv_entries s' = sv_entries s ->
  renew_row now c a s p ≫= renew_row now c ids s' = renew_row now c (a ++ ids) s p.
Proof.
  intros Hs. assert (forall i, sfind i s' = sfind i s) as Hf by (intros; unfold sfind; by rewrite Hs).
  destruct (decide (pel_id p ∈ a)) as [Ha|Ha].
  - rewrite (renew_row_in _ _ a), (renew_row_in _ _ (a ++ ids)) by (rewrite ?elem_of_app; auto).
    destruct (sfind (pel_id p) s) as [f|] eqn:E; [|done]. simpl.
    destruct (decide (pel_id p ∈ ids)) as [Hin|Hin].
    + rewrite renew_row_in by done. simpl. by rewrite Hf, E.
    + by rewrite renew_row_out.
  - rewrite (renew_row_out _ _ a) by done. simpl.
    destruct (decide (pel_id p ∈ ids)) as [Hin|Hin].
    + rewrite !renew_row_in by (rewrite ?elem_of_app; auto). by rewrite Hf.
    + rewrite !renew_row_out by (rewrite ?elem_of_app; tauto). done.
Qed.

Lemma renew_stream_app now c a ids s :
  renew_stream now c ids (renew_stream now c a s) = renew_stream now c (a ++ ids) s.
Proof.
  unfold renew_stream at 1 3. f_equal. unfold renew_stream at 2. cbn [sv_pel].
  rewrite omap_omap. apply omap_ext_in. intros p _. by apply renew_row_again.
Qed.

Lemma renew_stream_nil now c s : renew_stream now c [] s = s.
Proof.
  unfold renew_stream. rewrite omap_id_in; [by destruct s|]. intros p _.
  apply renew_row_out, not_elem_of_nil.
Qed.

Lemma renew_stream_ext now c a b s :
  (forall i, i ∈ a <-> i ∈ b) -> renew_stream now c a s = renew_stream now c b s.
Proof.
  intros Hab. unfold renew_stream. f_equal. apply omap_ext_in. intros p _.
  destruct (decide (pel_id p ∈ a)) as [Hin|Hin].
  - rewrite !renew_row_in by (rewrite <- ?Hab; done). done.
  - rewrite !renew_row_out by (rewrite <- ?Hab; done). done.
Qed.

Lemma sclaim_renew now c ids : forall s,
  delivered_by now s -> (sclaim now c 0 true ids s).1 = renew_stream now c ids s.
Proof.
  induction ids as [|j ids IH]; intros s Hd; simpl.
  - by rewrite renew_stream_nil.
  - pose proof (sclaim1_renew now c j s Hd) as H1.
    destruct (sclaim1 now c 0 true j s) as [s1 l1]. simpl in H1.
    specialize (IH s1). destruct (sclaim now c 0 true ids s1) as [s2 l2]. simpl in *.
    rewrite IH, H1; [apply (renew_stream_app now c [j])|]. rewrite H1. by apply renew_row_delivered.
Qed.

Definition leased (k : string) (l : list (string * list eid)) : list eid :=
  l ≫= λ '(s, ids), if bool_decide (s = k) then ids else [].

Lemma leased_cons k s ids l :
  leased k ((s, ids) :: l) = (if bool_decide (s = k) then ids else []) ++ leased k l.
Proof. done. Qed.
#[local] Arguments leased : simpl never.

Lemma elem_of_add_lease k i s j l :
  i ∈ leased k (add_lease s j l) <-> i ∈ leased k l \/ (s = k /\ i = j).
Proof.
  induction l as [|[s' ids] l IH]; cbn [add_lease].
  - rewrite leased_cons. case_bool_decide; unfold leased; simpl;
      rewrite ?elem_of_app, ?list_elem_of_singleton, ?elem_of_nil; tauto.
  - case_bool_decide as Hs.
    + subst. rewrite !leased_cons. case_bool_decide;
        rewrite ?elem_of_app, ?list_elem_of_singleton, ?elem_of_nil; tauto.
    + rewrite !leased_cons, !elem_of_app, IH. tauto.
Qed.

Lemma elem_of_leases k i tasks :
  i ∈ leased k (leases_by_stream tasks) <->
  i ∈ entry_id <$> filter (λ t, task_stream t = k) tasks.
Proof.
  unfold leases_by_stream. assert (forall l,
    i ∈ leased k (fold_left (λ l t, add_lease (task_stream t) (entry_id t) l) tasks l) <->
    i ∈ leased k l \/ i ∈ entry_id <$> filter (λ t, task_stream t = k) tasks) as Hg.
  { induction tasks as [|t tasks IH]; intros l; simpl; [rewrite elem_of_nil; tauto|].
    rewrite IH, elem_of_add_lease. rewrite filter_cons. destruct (decide _) as [Hs|Hs].
    - rewrite fmap_cons, elem_of_cons. tauto.
    - tauto. }
  rewrite Hg. unfold leased. simpl. rewrite elem_of_nil. tauto.
Qed.

Lemma leases_keys k tasks :
  k ∈ (leases_by_stream tasks).*1 -> exists t, t ∈ tasks /\ task_stream t = k.
Proof.
  assert (forall s j l, k ∈ (add_lease s j l).*1 -> k = s \/ k ∈ l.*1) as Hadd.
  { intros s j l. induction l as [|[s' ids] l IH]; simpl.
    - rewrite list_elem_of_singleton. auto.
    - case_bool_decide; simpl; rewrite !elem_of_cons; tauto. }
  unfold leases_by_stream. assert (forall l,
    k ∈ (fold_left (λ l t, add_lease (task_stream t) (entry_id t) l) tasks l).*1 ->
    k ∈ l.*1 \/ exists t, t ∈ tasks /\ task_stream t = k) as Hg.
  { induction tasks as [|t tasks IH]; intros l Hk; simpl in Hk; [auto|].
    destruct (IH _ Hk) as [[->|Hl]%Hadd|(t' & Ht' & Hs)]; [|auto|];
      right; eauto using list_elem_of_here, list_elem_of_further. }
  intros Hk. by destruct (Hg [] Hk) as [[]%elem_of_nil|].
Qed.

Section renewing.
Context {R : Type} `{RedisLaws R} `{Clock R}.
Implicit Types r : R.

Lemma run_renew_lanes c (l : list (string * list eid)) : forall n r,
  (forall k, k ∈ l.*1 -> sv_group (vstream k (view r)) = true) ->
  (forall k, delivered_by (rv_now (view r)) (vstream k (view r))) ->
  exists n' r', run (fold_prog l n (λ '(name, ids) renewed,
      let! entries := step (xclaim_step c 0 true ids name) in
      Ret (renewed + Z.of_nat (length entries))%Z)) r = (inr n', r') /\
    rv_now (view r') = rv_now (view r) /\
    forall k, vstream k (view r') =
      renew_stream (rv_now (view r)) c (leased k l) (vstream k (view r)).
Proof.
  induction l as [|[name ids] l IH]; intros n r Hg Hd; simpl.
  { exists n, r. split_and!; [done..|]. intros k. by rewrite renew_stream_nil. }
  pose proof (xclaim_step_view c 0 true ids name r) as Hx. simpl in Hx.
  rewrite Hg in Hx by apply list_elem_of_here. destruct Hx as (r1 & Hx & Hv). rewrite Hx. simpl.
  assert (rv_now (view r1) = rv_now (view r)) as Hn by by rewrite Hv.
  assert (forall k, vstream k (view r1) = renew_stream (rv_now (view r)) c
    (if bool_decide (name = k) then ids else []) (vstream k (view r))) as Hs.
  { intros k. rewrite Hv, vstream_vset_stream. destruct (decide (name = k)) as [->|Hne].
    - by rewrite bool_decide_true, sclaim_renew.
    - by rewrite bool_decide_false, renew_stream_nil. }
  set (n1 := (n + _)%Z). destruct (IH n1 r1) as (n' & r' & E & Hn' & Hs').
  - intros k Hk. rewrite Hs. apply Hg. by apply list_elem_of_further.
  - intros k. rewrite Hs, Hn. apply renew_row_delivered, Hd.
  - exists n', r'. split; [exact E|]. split; [congruence|].
    intros k. by rewrite Hs', Hs, Hn, renew_stream_app, leased_cons.
Qed.
End renewing.

(** ** Producer *)

Definition lane_of (index : nat) : string := if Nat.eqb index 0 then LEAD_STREAM else STREAM.

(** An entry without its server-assigned id. *)
Definition payload (e : sentry) : fields * bool := (se_fields e, se_new e).

Section enqueueing.
Context {R : Type} `{RedisLaws R} `{Clock R}.
Implicit Types r : R.

Lemma run_enqueue now job trace (l : list nat) : forall n r,
  exists r', run (fold_prog l n (λ index count,
      do! call (xadd (if Nat.eqb index 0 then LEAD_STREAM else STREAM)
                  (enqueue_fields job (Z.of_nat index) now trace)) in
      Ret (count + 1)%Z)) r = (inr (n + Z.of_nat (length l))%Z, r') /\
    forall k, sv_pel (vstream k (view r')) = sv_pel (vstream k (view r)) /\
      payload <$> sv_entries (vstream k (view r')) =
      (payload <$> sv_entries (vstream k (view r))) ++
      ((λ i, (enqueue_fields job (Z.of_nat i) now trace, true)) <$> filter (λ i, lane_of i = k) l).
Proof.
  induction l as [|i l IH]; intros n r; cbn [fold_prog run].
  { exists r. split; [do 2 f_equal; simpl; lia|]. intros k. csimpl. by rewrite (right_id_L [] (++)). }
  rewrite !run_bind, run_call. fold (lane_of i).
  destruct (xadd_view (lane_of i) (enqueue_fields job (Z.of_nat i) now trace) r) as [_ Hv].
  destruct (xadd (lane_of i) _ r) as [r1 j]. cbn [fst snd run] in *.
  destruct (IH (n + 1)%Z r1) as (r' & E & Hk). exists r'. split.
  { rewrite E. do 2 f_equal. simpl. lia. }
  intros k. destruct (Hk k) as [-> ->]. rewrite Hv, vstream_vset_stream, filter_cons.
  destruct (decide (lane_of i = k)) as [<-|Hne]; [|done].
  split; [done|]. unfold sadd. simpl. by rewrite fmap_app, <- (assoc_L (++)).
Qed.
End enqueueing.

(** ** Properties *)

Section properties.
Context {R : Type} `{RedisLaws R} `{Clock R}.
Implicit Types r : R.

(** what the two producers write, [_parse] reads back: the page reference,
    the trace and the attempt count of the task, and, across a requeue, the
    time the page first entered the system, so its age does not restart. *)
Theorem task_round_trip stream i t now a job index trace :
  _parse stream i (enqueue_fields job index now trace) =
    inr {| entry_id := i; job_id := job; page_index := index; enqueued_at_ms := now;
           trace_id := trace; recovered := false; task_stream := stream; attempt := 0;
           first_enqueued_at_ms := now |} /\
  exists t', _parse stream i (requeue_fields t now a) = inr t' /\
    job_id t' = job_id t /\ page_index t' = page_index t /\ trace_id t' = trace_id t /\
    attempt t' = a /\ lag_ms now t' = 0%Z /\
    (origin_ms t <> 0%Z -> forall now', age_ms now' t' = age_ms now' t).
Proof.
  rewrite _parse_enqueue, _parse_requeue. split; [done|]. eexists. split; [done|].
  split_and!; try done.
  - unfold lag_ms. simpl. lia.
  - intros Ho now'. unfold age_ms. f_equal. unfold origin_ms at 1. simpl.
    by rewrite (proj2 (Z.eqb_neq _ _) Ho).
Qed.

(** submitting a job appends exactly one entry per page - page 0 to the
    lead lane, the others in order to the main one - and touches no pending
    entry. *)
Theorem enqueue_pages_lanes now job n trace r :
  exists r', run (enqueue_pages now job (Z.of_nat n) trace) r = (inr (Z.of_nat n), r') /\
  let new i := (enqueue_fields job (Z.of_nat i) now trace, true) in
  payload <$> sv_entries (vstream LEAD_STREAM (view r')) =
    (payload <$> sv_entries (vstream LEAD_STREAM (view r))) ++ (new <$> take 1 (seq 0 n)) /\
  payload <$> sv_entries (vstream STREAM (view r')) =
    (payload <$> sv_entries (vstream STREAM (view r))) ++ (new <$> seq 1 (n - 1)) /\
  forall k, sv_pel (vstream k (view r')) = sv_pel (vstream k (view r)).
Proof.
  unfold enqueue_pages. rewrite Nat2Z.id.
  destruct (run_enqueue now job trace (seq 0 n) 0 r) as (r' & -> & Hk).
  exists r'. rewrite length_seq, Z.add_0_l. split; [done|]. simpl.
  destruct (Hk LEAD_STREAM) as [_ ->], (Hk STREAM) as [_ ->].
  assert (forall a m, 0 < a -> filter (λ i, lane_of i = STREAM) (seq a m) = seq a m /\
            filter (λ i, lane_of i = LEAD_STREAM) (seq a m) = []) as Hseq.
  { intros a m. revert a. induction m as [|m IH]; intros a Ha; [done|]. simpl.
    destruct (IH (S a) ltac:(lia)) as [IH1 IH2]. rewrite !filter_cons, IH1, IH2.
    destruct a; [lia|]. unfold lane_of. simpl. done. }
  split_and!; [| |intros k; apply Hk]; do 2 f_equal; (destruct n as [|n]; [done|]).
  - simpl. rewrite filter_cons. by destruct (Hseq 1 n ltac:(lia)) as [_ ->].
  - simpl. rewrite filter_cons, Nat.sub_0_r. by destruct (Hseq 1 n ltac:(lia)) as [-> _].
Qed.

Lemma read_tasks_le rely fault consumer block count lead main lead_block r :
  wp rely fault (λ _, True) (read consumer block count lead main lead_block)
    (λ o _, tasks_le (read_budget (default lead count) main count) o) r.
Proof.
  unfold read. apply wp_bind, wp_catch, wp_bind.
  eapply wp_mono; [|apply read_lanes_bound; by intros n ->].
  set (Q := λ (o : result (list PageTask)) (_ : R), _).
  intros [e|resp] r1 Hb.
  - assert (wp rely fault (λ _, True) (do! ensure_group in Ret (@None response))
      (λ o w, match o with
              | inl e => Q (inl e) w
              | inr x => wp rely fault (λ _, True)
                  match x with Some resp => _flatten resp | None => Ret [] end Q w
              end) r1) as Hn.
    { apply wp_bind, wp_trivial; [done|]. intros [e'|[]] w; [done|]. cbn [wp].
      unfold Q, tasks_le, read_budget. simpl. lia. }
    destruct e; try done. destruct (str_contains "NOGROUP" msg); [|done].
    eapply wp_mono; [|exact Hn]. by intros [e|x] w.
  - cbn [wp]. eapply wp_mono; [|apply flatten_length].
    intros [e|ts] w; [done|]. unfold Q, tasks_le, read_budget, reply_le in *.
    destruct count; simpl in *; lia.
Qed.

(** the prefetch bound.  Whatever the other processes do between the
    commands of a read, and whichever command fails, it returns at most the
    tasks its budgets allow - or two, when the budget is smaller. *)
Theorem read_bounded rely fault consumer block count lead main lead_block r :
  wp rely fault (λ _, True) (read consumer block count lead main lead_block)
    (λ o _, tasks_le (read_budget (default lead count) main count) o) r.
Proof. apply read_tasks_le. Qed.

(** C9: a requeue never loses the page.  At every point at which the worker can
    die, with any command failing before or after taking effect, the page is
    still queued - as its original entry, or as an entry of the main lane that
    reads back as the same page with its age and its attempt count - provided
    no other process settles this page's entries; and when the requeue
    succeeds, the replacement is there and the original acknowledged. *)
Theorem requeue_never_loses t count_attempt fault r :
  original_queued t r ->
  wp (leaves_task t count_attempt) fault (queued t count_attempt) (requeue t count_attempt)
    (λ o r', queued t count_attempt r' /\
             forall i, o = inr i -> replacement_queued t count_attempt r' /\ acked t r') r.
Proof. apply requeue_wp. Qed.

(** malformed entries do not stop the reader.  Of the entries a read
    delivered, the parseable ones become tasks, in order; every other one is
    counted, acknowledged and deleted on its own stream; no other entry, and no
    other record, is touched. *)
Theorem flatten_settles_malformed resp r :
  Forall (λ x, x.1 <> POISON_STREAM) resp ->
  exists r', run (_flatten resp) r = (inr (parsed resp), r') /\
    (forall k, k <> POISON_STREAM ->
       vstream k (view r') = settle (malformed_ids k resp) (vstream k (view r))) /\
    vctr POISON_COUNTER_KEY (view r') =
      (vctr POISON_COUNTER_KEY (view r) +
       Z.of_nat (length (resp ≫= λ '(s, l), omap (bad_id s) l)))%Z /\
    (forall k, vhash k (view r') = vhash k (view r)).
Proof.
  intros Hf. destruct (run_flatten_from resp [] r Hf) as (r' & E & [Hs Hc Hh]).
  exists r'. by split_and!.
Qed.

(** the reaper never takes work that is being done.  An entry that is this
    worker's own, or whose lease was renewed less than [min_idle] ago, is never
    among the tasks [claim_orphans] returns, whatever the other processes do as
    long as they keep the lease fresh, and whichever command fails. *)
Theorem claim_orphans_spares c min_idle k i count (rely : R -> R -> Prop) fault r :
  k <> POISON_STREAM ->
  (forall r r', rely r r' -> held c min_idle k i r -> held c min_idle k i r') ->
  held c min_idle k i r ->
  wp rely fault (λ _, True) (claim_orphans c min_idle count)
    (λ o _, forall ts, o = inr ts -> no_task k i ts) r.
Proof.
  intros Hk Hrely Hh. eapply wp_mono; [|by apply (wp_claim_orphans c min_idle k i Hk rely)].
  intros [e|ts] w Hp ts' [= <-]. apply Hp.
Qed.

(** two reapers cannot both claim an entry, even when both scanned it
    before either claimed: within [min_idle] of a claim, a second claim of the
    same entry by anyone returns nothing for it. *)
Theorem claims_disjoint c1 c2 min_idle ids1 ids2 k r r1 r2 r3 l1 l2 :
  xclaim_step c1 min_idle false ids1 k r = (inr l1, r1) ->
  vstream k (view r2) = vstream k (view r1) ->
  (rv_now (view r2) - rv_now (view r1) < min_idle)%Z ->
  xclaim_step c2 min_idle false ids2 k r2 = (inr l2, r3) ->
  forall i, i ∈ l1.*1 -> i ∉ l2.*1.
Proof.
  intros E1 Hs Hnow E2 i ([i' f] & -> & Hin)%list_elem_of_fmap. simpl.
  pose proof (xclaim_step_view c1 min_idle false ids1 k r) as Hx1.
  pose proof (xclaim_step_view c2 min_idle false ids2 k r2) as Hx2. simpl in *.
  destruct (sv_group (vstream k (view r))); [|congruence].
  destruct Hx1 as (r1' & E1' & Hv1). rewrite E1 in E1'. injection E1' as -> <-.
  destruct (sv_group (vstream k (view r2))); [|congruence].
  destruct Hx2 as (r3' & E2' & _). rewrite E2 in E2'. injection E2' as -> _.
  apply sclaim_fresh. rewrite Hs, Hv1, vstream_vset_stream_eq. intros p Hp Hid.
  rewrite (sclaim_recent _ c1 min_idle false ids1 (vstream k (view r)) i' ltac:(eauto) p Hp Hid).
  rewrite Hv1 in Hnow. simpl in Hnow. lia.
Qed.

(** a renewal resets the idle clock of exactly the rows of the given tasks,
    on the stream each came from, leaves their delivery counts alone, and
    touches no other row and no entry. *)
Theorem renew_leases_renews c tasks r :
  (forall t, t ∈ tasks -> sv_group (vstream (task_stream t) (view r)) = true) ->
  (forall k, delivered_by (rv_now (view r)) (vstream k (view r))) ->
  exists n r', run (renew_leases c tasks) r = (inr n, r') /\
  forall k, vstream k (view r') =
    renew_stream (rv_now (view r)) c (entry_id <$> filter (λ t, task_stream t = k) tasks)
      (vstream k (view r)).
Proof.
  intros Hg Hd. unfold renew_leases.
  destruct (run_renew_lanes c (leases_by_stream tasks) 0 r) as (n & r' & E & _ & Hs);
    [|done|].
  { intros k (t & Ht & <-)%leases_keys. auto. }
  exists n, r'. split; [exact E|]. intros k. rewrite Hs.
  apply renew_stream_ext. intros i. apply elem_of_leases.
Qed.

(** [ack] removes the entry and its pending row from the named stream and
    nothing else anywhere; naming a stream that does not hold it leaves every
    stream as it was, so the row stays pending where it is. *)
Theorem ack_settles i k r :
  exists r', run (ack i k) r = (inr tt, r') /\
  (forall k', vstream k' (view r') =
     if decide (k = k') then settle [i] (vstream k (view r)) else vstream k' (view r)) /\
  (forall k', vhash k' (view r') = vhash k' (view r)) /\
  (~ in_stream i (vstream k (view r)) -> ~ in_pel i (vstream k (view r)) ->
   forall k', vstream k' (view r') = vstream k' (view r)).
Proof.
  destruct (run_ack i k r) as [-> Hv]. rewrite view_xack in Hv.
  eexists. split; [done|].
  assert (forall k', vstream k' (view (xdel k i (xack k i r))) =
     if decide (k = k') then settle [i] (vstream k (view r)) else vstream k' (view r)) as Hs.
  { intros k'. rewrite Hv, !vstream_vset_stream. by destruct (decide _). }
  split_and!; [exact Hs|intros k'; by rewrite Hv|].
  intros Hi Hp k'. rewrite Hs. destruct (decide _) as [<-|]; [|done].
  unfold settle, in_stream, in_pel in *. destruct (vstream k (view r)) as [g es ps]. simpl in *.
  f_equal; apply filter_all; intros x Hx; rewrite list_elem_of_singleton; intros <-;
    [apply Hi|apply Hp]; by apply list_elem_of_fmap_2.
Qed.

(** the reported backlog is the number of undelivered entries, over both
    lanes, when every delivered entry still in a lane is pending exactly once
    and nothing else is. *)
Theorem depth_backlog r :
  (forall k, k ∈ STREAMS -> sv_group (vstream k (view r)) = true /\
     pel_id <$> sv_pel (vstream k (view r)) ≡ₚ
     se_id <$> filter (λ e, se_new e = false) (sv_entries (vstream k (view r)))) ->
  exists d, run depth r = (inr d, r) /\
  backlog d = foldr (λ k n, Z.of_nat (length (filter (λ e, se_new e = true)
                                (sv_entries (vstream k (view r))))) + n)%Z 0%Z STREAMS.
Proof.
  intros Hk.
  assert (forall k, k ∈ STREAMS -> xpending k r = Some (Z.of_nat (length
    (filter (λ e, se_new e = false) (sv_entries (vstream k (view r))))))) as Hp.
  { intros k Hin. destruct (Hk k Hin) as [Hg Hperm]. rewrite xpending_view. simpl. rewrite Hg.
    apply Permutation_length in Hperm. rewrite !length_fmap in Hperm. by rewrite Hperm. }
  assert (forall l : list sentry, length l = length (filter (λ e, se_new e = true) l) +
    length (filter (λ e, se_new e = false) l)) as Hlen.
  { induction l as [|e l IH]; [done|]. rewrite !filter_cons. simpl. rewrite IH.
    destruct (se_new e); simpl; lia. }
  unfold depth, STREAMS in *. cbn [fold_prog].
  rewrite !run_bind. cbn. rewrite (Hp LEAD_STREAM) by in_list. cbn. rewrite (Hp STREAM) by in_list. cbn.
  eexists. split; [reflexivity|]. cbn. rewrite !xlen_view.
  rewrite (Hlen (sv_entries (vstream LEAD_STREAM _))), (Hlen (sv_entries (vstream STREAM _))). lia.
Qed.
End properties.

(** Both lanes with their groups, and the arrival of a two-page job. *)
Definition lanes_idle : rview :=
  let g := SView true [] [] in vset_stream LEAD_STREAM g (vset_stream STREAM g (rview_init 0)).

Definition arrival (r : rview) : rview := (run (enqueue_pages 0 "j" 2 "") r).2.

(** the prefetch bound is not exactly [count]: with [count = 1], entries
    that arrive in both lanes after the two probes and before the blocking read
    are both returned. *)
Theorem read_can_exceed_count :
  exists ts r, run_sched [id; id; arrival] (read "c" 2000 (Some 1%Z) 0 0 0) lanes_idle
                 = (inr ts, r) /\ page_index <$> ts = [0%Z; 1%Z].
Proof. do 2 eexists. split; [vm_compute; reflexivity|reflexivity]. Qed.

(** ** Witnesses *)

(** Both pages of the job, read by worker [w1] at time 0, seen at time 50. *)
Definition w_queue : rview :=
  let v := (run (read "w1" 0 (Some 5%Z) 0 0 0) (arrival lanes_idle)).2 in
  RV 50 (rv_hash v) (rv_ttl v) (rv_ctr v) (rv_stream v).

Definition w_task : PageTask :=
  {| entry_id := (1, 0)%N; job_id := "j"; page_index := 1; enqueued_at_ms := 5; trace_id := "";
     recovered := false; task_stream := STREAM; attempt := 0; first_enqueued_at_ms := 5 |}.

Lemma requeue_never_loses_witness :
  original_queued w_task w_queue /\
  wp (leaves_task w_task true) (λ _, True) (queued w_task true) (requeue w_task true)
    (λ o r', queued w_task true r' /\
             forall i, o = inr i -> replacement_queued w_task true r' /\ acked w_task r') w_queue.
Proof.
  assert (original_queued w_task w_queue) as Ho.
  { unfold original_queued, in_stream. apply (bool_decide_eq_true_1 _). vm_compute. reflexivity. }
  split; [exact Ho|by apply requeue_never_loses].
Defined.

Lemma flatten_settles_malformed_witness :
  exists r', run (_flatten [(STREAM, [((1, 0)%N, ∅)])]) w_queue = (inr [], r') /\
    vctr POISON_COUNTER_KEY (view r') = 1%Z.
Proof.
  destruct (flatten_settles_malformed [(STREAM, [((1, 0)%N, ∅)])] w_queue)
    as (r' & E & _ & Hc & _); [by repeat constructor|].
  exists r'. split; [exact E|]. rewrite Hc. vm_compute. reflexivity.
Defined.

Lemma claim_orphans_spares_witness :
  exists ts r', run (claim_orphans "w2" 60 10) w_queue = (inr ts, r') /\
    no_task STREAM (1, 0)%N ts.
Proof.
  assert (held "w2" 60 STREAM (1, 0)%N w_queue) as Hh.
  { assert (Forall (λ p, (rv_now (view w_queue) - pel_delivered_at p < 60)%Z)
      (sv_pel (vstream STREAM (view w_queue)))) as Hf by (vm_compute; by repeat constructor).
    rewrite Forall_forall in Hf. intros p Hp _. right. by apply Hf. }
  pose proof (claim_orphans_spares "w2" 60 STREAM (1, 0)%N 10 eq (λ _, False) w_queue) as Hw.
  apply wp_run in Hw; [|done|by intros r r' ->|done].
  destruct (run (claim_orphans "w2" 60 10) w_queue) as [[e|ts] r'] eqn:E.
  - apply (f_equal fst) in E. vm_compute in E. discriminate E.
  - exists ts, r'. split; [done|]. by apply Hw.
Defined.

Definition claimed_ids (o : result (list (eid * fields))) : option (list eid) :=
  match o with inr l => Some l.*1 | inl _ => None end.
Definition w_claim1 := xclaim_step "w2" 40 false [(1, 0)%N] STREAM w_queue.
Definition w_claim2 := xclaim_step "w3" 40 false [(1, 0)%N] STREAM w_claim1.2.

Lemma w_claimed : claimed_ids w_claim1.1 = Some [(1, 0)%N] /\ claimed_ids w_claim2.1 = Some [].
Proof. split; vm_compute; reflexivity. Qed.

Lemma claims_disjoint_witness :
  exists l1 l2, w_claim1.1 = inr l1 /\ w_claim2.1 = inr l2 /\
    (1, 0)%N ∈ l1.*1 /\ (1, 0)%N ∉ l2.*1.
Proof.
  destruct w_claimed as [Hc1 Hc2]. pose proof (claims_disjoint "w2" "w3" 40 [(1, 0)%N] [(1, 0)%N]
    STREAM w_queue w_claim1.2 w_claim1.2 w_claim2.2) as Hd.
  destruct w_claim1.1 as [e|l1] eqn:E1; [discriminate Hc1|].
  destruct w_claim2.1 as [e|l2] eqn:E2; [discriminate Hc2|].
  exists l1, l2. injection Hc1 as Hl1.
  assert ((1, 0)%N ∈ l1.*1) as Hin by (rewrite Hl1; apply list_elem_of_here).
  split_and!; [done..|]. apply (Hd l1 l2); [|done|lia| |done].
  - fold w_claim1. by rewrite <- E1, <- surjective_pairing.
  - fold w_claim2. by rewrite <- E2, <- surjective_pairing.
Defined.

Definition w_leased : rview := RV 50 ∅ ∅ ∅
  {[STREAM := SView true [SEntry (1, 0)%N ∅ false] [PelRow (1, 0)%N "w1" 7 1]]}.

Lemma renew_leases_renews_witness :
  exists n r', run (renew_leases "w1" [w_task]) w_leased = (inr n, r') /\
    sv_pel (vstream STREAM (view r')) = [PelRow (1, 0)%N "w1" 50 1].
Proof.
  destruct (renew_leases_renews "w1" [w_task] w_leased) as (n & r' & E & Hs).
  - by intros t ->%list_elem_of_singleton.
  - intros k p. unfold vstream. simpl. destruct (decide (k = STREAM)) as [->|Hne].
    + rewrite lookup_singleton_eq. simpl. intros ->%list_elem_of_singleton. simpl. lia.
    + rewrite lookup_singleton_ne by done. by intros ?%elem_of_nil.
  - exists n, r'. split; [exact E|]. rewrite Hs. reflexivity.
Defined.

Definition w_lanes : rview := RV 50 ∅ ∅ ∅
  {[LEAD_STREAM := SView true [] [];
    STREAM := SView true [SEntry (1, 0)%N ∅ false; SEntry (2, 0)%N ∅ true]
                         [PelRow (1, 0)%N "w1" 7 1]]}.

Lemma depth_backlog_witness :
  exists d, run depth w_lanes = (inr d, w_lanes) /\ backlog d = 1%Z.
Proof.
  destruct (depth_backlog w_lanes) as (d & E & Hb).
  - intros k [->| ->%list_elem_of_singleton]%elem_of_cons; by split.
  - exists d. split; [exact E|]. by rewrite Hb.
Defined.
