(* ===== verification/TokenBucket.v ===== *)
(** * Distributed token bucket ([app/ratelimit/token_bucket.py])

    The [_BUCKET_LUA] script as a function of the stored balance and the
    server's clock, and [TokenBucketLimiter] on top of it.  Theorems: the bounds
    of the balance, the rate actually enforced over any window, what each branch
    of [acquire] returns, and that the expiry of the key grants nothing. *)

From S2P Require Import Prelude Py.
From Stdlib Require Import QArith Qminmax Qround Lqa.

Local Open Scope Q_scope.

(** ** The script *)

Record bucket := { b_tokens : Q; b_ts : Q }.

(** First use, then lazy refill. *)
Definition refill (rate burst now : Q) (st : option bucket) : bucket :=
  match st with
  | None => {| b_tokens := burst; b_ts := now |}
  | Some b =>
      let elapsed := now - b_ts b in
      if Qltb 0 elapsed
      then {| b_tokens := Qmin burst (b_tokens b + elapsed * rate / 1000); b_ts := now |}
      else b
  end.

Record reply := { rp_granted : bool; rp_wait_ms : Z; rp_tokens_milli : Z }.

Definition bucket_lua (rate burst cost max_wait_ms now : Q) (st : option bucket)
  : bucket * reply :=
  let b := refill rate burst now st in
  let tokens := b_tokens b in
  let '(granted, wait_ms, tokens) :=
    if Qle_bool cost tokens then (true, 0%Z, tokens - cost)
    else
      let wait_ms := Qceiling ((cost - tokens) * 1000 / rate) in
      if Qle_bool (inject_Z wait_ms) max_wait_ms then (true, wait_ms, tokens - cost)
      else (false, wait_ms, tokens) in
  ({| b_tokens := tokens; b_ts := b_ts b |},
   {| rp_granted := granted; rp_wait_ms := wait_ms; rp_tokens_milli := Qfloor (tokens * 1000) |}).

(** ** The limiter *)

Record limiter := {
  l_endpoint : string; l_rate : Q; l_burst : Q; l_ttl_ms : Q; l_jitter_ms : Q }.

(** [TokenBucketLimiter.__init__] *)
Definition make_limiter (endpoint : string) (rate burst ttl_s jitter_ms : Q) : result limiter :=
  if Qle_bool rate 0 || Qle_bool burst 0
  then inl (ValueError "rate and burst must be positive")
  else inr {| l_endpoint := endpoint; l_rate := rate; l_burst := burst;
              l_ttl_ms := ttl_s * 1000; l_jitter_ms := jitter_ms |}.

Record acquisition := { a_granted : bool; a_wait_ms : Z; a_tokens : Q }.

Definition try_acquire (l : limiter) (cost max_wait_s : Q) (rate : option Q) (now : Q)
  (st : option bucket) : bucket * acquisition :=
  let '(b, r) := bucket_lua (default (l_rate l) rate) (l_burst l) cost (max_wait_s * 1000) now st in
  (b, {| a_granted := rp_granted r; a_wait_ms := rp_wait_ms r;
         a_tokens := inject_Z (rp_tokens_milli r) / 1000 |}).

(** [draw] is the value of [random.random()]. *)
Definition acquire (l : limiter) (cost max_wait_s : Q) (rate : option Q) (draw now : Q)
  (st : option bucket) : bucket * result Q :=
  let '(b, a) := try_acquire l cost max_wait_s rate now st in
  (b,
   if negb (a_granted a)
   then inl (RateLimitTimeout (l_endpoint l) (inject_Z (a_wait_ms a) / 1000) 0)
   else if (a_wait_ms a <=? 0)%Z then inr 0
   else inr (inject_Z (a_wait_ms a) / 1000 + draw * l_jitter_ms l / 1000)).

Definition peek (l : limiter) (now : Q) (st : option bucket) : bucket * Q :=
  let '(b, a) := try_acquire l 0 0 None now st in (b, a_tokens a).

Definition reset (st : option bucket) : option bucket := None.

(** ** Lemmas *)

(** [lra] with the divisions by 1000 turned into multiplications. *)
Ltac qlra :=
  unfold Qdiv in *; change (/ 1000) with (1 # 1000) in *; lra.

(** The wait that pays a debt of [d] tokens at [rate]: enough, and less than a
    millisecond too long. *)
Lemma wait_pays rate d : 0 < rate ->
  d <= rate * inject_Z (Qceiling (d * 1000 / rate)) / 1000 /\
  rate * inject_Z (Qceiling (d * 1000 / rate)) / 1000 < d + rate / 1000.
Proof.
  intros Hr. pose proof (Qle_ceiling (d * 1000 / rate)) as Hle.
  pose proof (Qceiling_lt (d * 1000 / rate)) as Hlt.
  set (w := Qceiling (d * 1000 / rate)) in *.
  assert (inject_Z (w - 1) == inject_Z w - 1) as Hw by (unfold Z.sub; by rewrite inject_Z_plus).
  rewrite Hw in Hlt.
  assert (d * 1000 == rate * (d * 1000 / rate)) as Hd by (field; lra).
  set (x := d * 1000 / rate) in *.
  assert (rate * x <= rate * inject_Z w) by (apply Qmult_le_l; lra).
  assert (rate * inject_Z w < rate * (x + 1)) by (apply Qmult_lt_l; lra).
  split; qlra.
Qed.

(** A call of the script, and when its caller proceeds if it is granted: it
    sleeps the returned wait. *)
Record bucket_call := { c_now : Q; c_rate : Q; c_cost : Q }.
Definition start (c : bucket_call) (r : reply) : Q := c_now c + inject_Z (rp_wait_ms r).

Section bucket.
Context (burst max_wait_ms R : Q).
Context (Hburst : 0 < burst) (Hwait : 0 <= max_wait_ms).
Implicit Types (st : option bucket) (b : bucket).

(** A rate the limiter may be driven at. *)
Definition rate_ok (rate : Q) : Prop := 0 < rate /\ rate <= R.

(** The balance never exceeds the burst, and the debt never exceeds what the
    longest accepted reservation promises. *)
Definition bucket_ok (now : Q) st : Prop :=
  match st with
  | None => True
  | Some b => b_tokens b <= burst /\ - (max_wait_ms * R / 1000) <= b_tokens b /\ b_ts b <= now
  end.

Lemma refill_ok rate now st : rate_ok rate -> bucket_ok now st ->
  let b := refill rate burst now st in
  b_tokens b <= burst /\ - (max_wait_ms * R / 1000) <= b_tokens b /\ b_ts b <= now.
Proof using Hburst Hwait.
  intros [Hr HR] Hok. assert (0 <= max_wait_ms * R) by (apply Qmult_le_0_compat; lra).
  destruct st as [b|]; simpl.
  - destruct Hok as (H1 & H2 & H3). destruct (Qltb 0 (now - b_ts b)) eqn:E; [|done].
    simpl. apply Qltb_true in E.
    assert (0 <= (now - b_ts b) * rate) by (apply Qmult_le_0_compat; lra).
    split_and!; [apply Q.le_min_l| |lra].
    apply Q.min_glb; qlra.
  - split_and!; qlra.
Qed.

Lemma refill_le rate now b : rate_ok rate -> b_ts b <= now ->
  b_tokens (refill rate burst now (Some b)) <= b_tokens b + R * (now - b_ts b) / 1000 /\
  b_ts (refill rate burst now (Some b)) == now.
Proof using Type.
  intros [Hr HR] Hts. simpl. destruct (Qltb 0 (now - b_ts b)) eqn:E; simpl.
  - apply Qltb_true in E. split; [|lra].
    assert ((now - b_ts b) * rate <= (now - b_ts b) * R) by (apply Qmult_le_l; lra).
    pose proof (Q.le_min_r burst (b_tokens b + (now - b_ts b) * rate / 1000)). qlra.
  - apply Qltb_false in E. assert (now == b_ts b) as Heq by lra. split; [|lra].
    rewrite Heq. qlra.
Qed.

(** What one run of the script does, by branch. *)
Lemma bucket_lua_spec rate cost now st :
  rate_ok rate -> 0 <= cost -> bucket_ok now st ->
  let b := refill rate burst now st in
  let '(b', r) := bucket_lua rate burst cost max_wait_ms now st in
  bucket_ok now (Some b') /\ b_ts b' = b_ts b /\ (0 <= rp_wait_ms r)%Z /\
  rp_tokens_milli r = Qfloor (b_tokens b' * 1000) /\
  if rp_granted r then
    b_tokens b' == b_tokens b - cost /\
    - (rate * inject_Z (rp_wait_ms r) / 1000) <= b_tokens b' /\
    inject_Z (rp_wait_ms r) <= max_wait_ms /\
    (rp_wait_ms r <> 0%Z -> b_tokens b < cost /\
       rate * inject_Z (rp_wait_ms r) / 1000 < cost - b_tokens b + rate / 1000)
  else b' = b /\ b_tokens b < cost /\ max_wait_ms < inject_Z (rp_wait_ms r).
Proof using Hburst Hwait.
  intros Hrate Hcost Hok. destruct (refill_ok rate now st Hrate Hok) as (H1 & H2 & H3).
  unfold bucket_lua. destruct (refill rate burst now st) as [tokens ts]. simpl in *.
  destruct Hrate as [Hr HR]. destruct (Qle_bool cost tokens) eqn:Ec; simpl.
  - apply Qle_bool_iff in Ec. assert (0 <= max_wait_ms * R) by (apply Qmult_le_0_compat; lra).
    split_and!; try done; try qlra. change (inject_Z 0) with 0. qlra.
  - apply Qle_bool_false in Ec.
    destruct (wait_pays rate (cost - tokens) Hr) as [Hp1 Hp2].
    set (w := Qceiling ((cost - tokens) * 1000 / rate)) in *.
    assert (0 <= w)%Z as Hw.
    { apply Z.le_ngt. intros Hneg. assert (inject_Z w <= -1) as Hi by (unfold Qle, inject_Z; simpl; lia).
      assert (rate * inject_Z w <= rate * -1) by (apply Qmult_le_l; lra). qlra. }
    destruct (Qle_bool (inject_Z w) max_wait_ms) eqn:Ew; simpl.
    + apply Qle_bool_iff in Ew.
      assert (0 <= inject_Z w) by (unfold Qle, inject_Z; simpl; lia).
      assert (rate * inject_Z w <= R * inject_Z w) by (apply Qmult_le_compat_r; lra).
      assert (R * inject_Z w <= R * max_wait_ms) by (apply Qmult_le_l; lra).
      split_and!; try done; qlra.
    + apply Qle_bool_false in Ew. split_and!; try done; qlra.
Qed.

(** ** Sequences of calls *)

Fixpoint run_calls (st : option bucket) (cs : list bucket_call) : option bucket * list reply :=
  match cs with
  | [] => (st, [])
  | c :: cs' =>
      let '(b, r) := bucket_lua (c_rate c) burst (c_cost c) max_wait_ms (c_now c) st in
      let '(st', rs) := run_calls (Some b) cs' in (st', r :: rs)
  end.

(** Calls in the order the server ran them. *)
Fixpoint calls_ok (from : Q) (cs : list bucket_call) : Prop :=
  match cs with
  | [] => True
  | c :: cs' =>
      from <= c_now c /\ rate_ok (c_rate c) /\ 0 <= c_cost c /\ calls_ok (c_now c) cs'
  end.

Fixpoint granted_cost (cs : list bucket_call) (rs : list reply) : Q :=
  match cs, rs with
  | c :: cs', r :: rs' => (if rp_granted r then c_cost c else 0) + granted_cost cs' rs'
  | _, _ => 0
  end.

Fixpoint last_now (from : Q) (cs : list bucket_call) : Q :=
  match cs with [] => from | c :: cs' => last_now (c_now c) cs' end.

(** The tokens that could have accrued by [t], uncapped. *)
Definition potential (t : Q) st : Q :=
  match st with None => burst | Some b => b_tokens b + R * (t - b_ts b) / 1000 end.

Lemma refill_potential rate now st : rate_ok rate -> bucket_ok now st ->
  b_tokens (refill rate burst now st) <= potential now st /\ b_ts (refill rate burst now st) == now.
Proof using Type.
  intros Hr Hok. destruct st as [b|]; [|simpl; split; lra].
  destruct Hok as (_ & _ & Hts). by apply refill_le.
Qed.

Lemma lua_potential rate cost now st :
  rate_ok rate -> 0 <= cost -> bucket_ok now st ->
  let '(b', r) := bucket_lua rate burst cost max_wait_ms now st in
  (if rp_granted r then cost else 0) + b_tokens b' <= potential now st /\
  b_ts b' == now /\ bucket_ok now (Some b').
Proof using Hburst Hwait.
  intros Hr Hc Hok. pose proof (bucket_lua_spec rate cost now st Hr Hc Hok) as Hs.
  destruct (refill_potential rate now st Hr Hok) as [Hp Hts].
  destruct (bucket_lua _ _ _ _ _ _) as [b' r]. destruct Hs as (Hok' & -> & _ & _ & Hg).
  split_and!; [|done|done]. destruct (rp_granted r).
  - destruct Hg as [Hb _]. rewrite Hb. lra.
  - destruct Hg as [-> _]. lra.
Qed.

Lemma R_nonneg rate : rate_ok rate -> 0 <= R.
Proof using Type. intros []. lra. Qed.

Lemma run_calls_potential cs : forall t st,
  bucket_ok t st -> calls_ok t cs -> 0 <= R ->
  let '(st', rs) := run_calls st cs in
  granted_cost cs rs + potential (last_now t cs) st' <=
    potential t st + R * (last_now t cs - t) / 1000 /\
  bucket_ok (last_now t cs) st' /\ t <= last_now t cs.
Proof using Hburst Hwait.
  induction cs as [|c cs IH]; intros t st Hok Hcs HR; simpl.
  - split_and!; [qlra|done|lra].
  - destruct Hcs as (Ht & Hr & Hc & Hcs).
    assert (bucket_ok (c_now c) st) as Hok1.
    { destruct st as [b|]; [|done]. destruct Hok as (H1 & H2 & H3). simpl. split_and!; [done..|lra]. }
    pose proof (lua_potential (c_rate c) (c_cost c) (c_now c) st Hr Hc Hok1) as Hp.
    destruct (bucket_lua _ _ _ _ _ _) as [b r]. destruct Hp as (Hp & Hts & Hok2).
    specialize (IH (c_now c) (Some b) Hok2 Hcs HR).
    destruct (run_calls (Some b) cs) as [st' rs]. destruct IH as (IH & Hok' & Hle).
    split_and!; [|done|lra]. simpl granted_cost.
    assert (potential (c_now c) st <= potential t st + R * (c_now c - t) / 1000) as Hpt.
    { assert (0 <= R * (c_now c - t)) by (apply Qmult_le_0_compat; lra).
      destruct st; simpl; qlra. }
    assert (potential (c_now c) (Some b) == b_tokens b) as Hb.
    { simpl. rewrite Hts. qlra. }
    rewrite Hb in IH. qlra.
Qed.

Lemma calls_ok_snoc c cs : forall t, calls_ok t (cs ++ [c]) ->
  calls_ok t cs /\ last_now t cs <= c_now c /\ rate_ok (c_rate c) /\ 0 <= c_cost c.
Proof using Type.
  induction cs as [|c' cs IH]; intros t; simpl.
  - intros (? & ? & ? & _). by split_and!.
  - intros (? & ? & ? & Hcs). destruct (IH _ Hcs) as (? & ? & ? & ?). by split_and!.
Qed.

Lemma bucket_ok_mono t t' st : t <= t' -> bucket_ok t st -> bucket_ok t' st.
Proof using Type. destruct st; [|done]. simpl. intros ? (? & ? & ?). split_and!; [done..|lra]. Qed.

Lemma potential_mono t t' st : 0 <= R -> t <= t' ->
  potential t' st <= potential t st + R * (t' - t) / 1000.
Proof using Type.
  intros HR Ht. assert (0 <= R * (t' - t)) by (apply Qmult_le_0_compat; lra).
  destruct st; simpl; qlra.
Qed.

(** From a balance of [Ti] before the first of a run of calls to the balance
    after its last: everything granted is paid by the refill in between. *)
Lemma window_sum st ci mid cj t : bucket_ok t st -> calls_ok t (ci :: mid ++ [cj]) ->
  let Ti := b_tokens (refill (c_rate ci) burst (c_now ci) st) in
  let '(bi, ri) := bucket_lua (c_rate ci) burst (c_cost ci) max_wait_ms (c_now ci) st in
  let '(sm, rm) := run_calls (Some bi) mid in
  let '(bj, rj) := bucket_lua (c_rate cj) burst (c_cost cj) max_wait_ms (c_now cj) sm in
  rp_granted ri = true -> rp_granted rj = true ->
  c_cost ci + granted_cost mid rm + c_cost cj + b_tokens bj <=
    Ti + R * (c_now cj - c_now ci) / 1000 /\
  - (c_rate cj * inject_Z (rp_wait_ms rj) / 1000) <= b_tokens bj /\ (0 <= rp_wait_ms rj)%Z.
Proof using Hburst Hwait.
  intros Hok (Hti & Hri & Hci & Hcs). apply (bucket_ok_mono t (c_now ci)) in Hok; [|done].
  pose proof (bucket_lua_spec (c_rate ci) (c_cost ci) (c_now ci) st Hri Hci Hok) as Hsi.
  pose proof (lua_potential (c_rate ci) (c_cost ci) (c_now ci) st Hri Hci Hok) as Hpi.
  simpl in Hsi. set (Ti := b_tokens (refill (c_rate ci) burst (c_now ci) st)) in *.
  destruct (bucket_lua _ _ (c_cost ci) _ _ _) as [bi ri].
  destruct Hsi as (Hoki & _ & _ & _ & Hgi), Hpi as (_ & Htsi & _).
  destruct (calls_ok_snoc cj mid (c_now ci) Hcs) as (Hmid & Htj & Hrj & Hcj).
  pose proof (R_nonneg (c_rate ci) Hri) as HR.
  pose proof (run_calls_potential mid (c_now ci) (Some bi) Hoki Hmid HR) as Hm.
  destruct (run_calls (Some bi) mid) as [sm rm]. destruct Hm as (Hm & Hokm & Hlast).
  assert (potential (c_now ci) (Some bi) == b_tokens bi) as Hbi by (simpl; rewrite Htsi; qlra).
  rewrite Hbi in Hm. apply (bucket_ok_mono _ (c_now cj)) in Hokm; [|done].
  pose proof (potential_mono _ (c_now cj) sm HR Htj) as Hpm.
  pose proof (bucket_lua_spec (c_rate cj) (c_cost cj) (c_now cj) sm Hrj Hcj Hokm) as Hsj.
  pose proof (lua_potential (c_rate cj) (c_cost cj) (c_now cj) sm Hrj Hcj Hokm) as Hpj.
  simpl in Hsj. destruct (bucket_lua _ _ (c_cost cj) _ _ _) as [bj rj].
  destruct Hsj as (_ & _ & Hwj & _ & Hgj), Hpj as (Hpj & _).
  intros Ti0 Egi Egj. rewrite Egi in Hgi. rewrite Egj in Hgj, Hpj.
  destruct Hgi as [Hbt _], Hgj as (_ & Hdebt & _). split_and!; [|done..]. unfold Ti0. qlra.
Qed.
End bucket.

(** Between two granted calls. *)
Lemma window_enforced (burst max_wait_ms R t : Q) st ci mid cj :
  0 < burst -> 0 <= max_wait_ms ->
  bucket_ok burst max_wait_ms R t st -> calls_ok R t (ci :: mid ++ [cj]) ->
  let '(bi, ri) := bucket_lua (c_rate ci) burst (c_cost ci) max_wait_ms (c_now ci) st in
  let '(sm, rm) := run_calls burst max_wait_ms (Some bi) mid in
  let '(_, rj) := bucket_lua (c_rate cj) burst (c_cost cj) max_wait_ms (c_now cj) sm in
  rp_granted ri = true -> rp_granted rj = true ->
  c_cost ci + granted_cost mid rm + c_cost cj <= burst + R * (start cj rj - c_now ci) / 1000 /\
  (c_rate ci == R ->
   c_cost ci + granted_cost mid rm + c_cost cj <=
     Qmax burst (c_cost ci + R / 1000) + R * (start cj rj - start ci ri) / 1000).
Proof.
  intros Hb Hw Hok Hcs. pose proof (window_sum burst max_wait_ms R Hb Hw st ci mid cj t Hok Hcs) as Hs.
  destruct Hcs as (Hti & Hri & Hci & Hcs).
  apply (bucket_ok_mono _ _ _ t (c_now ci)) in Hok; [|done].
  pose proof (bucket_lua_spec burst max_wait_ms R Hb Hw (c_rate ci) (c_cost ci) (c_now ci) st
    Hri Hci Hok) as Hsi.
  destruct (refill_ok burst max_wait_ms R Hb Hw (c_rate ci) (c_now ci) st Hri Hok) as (HTi & _).
  destruct (calls_ok_snoc _ cj mid (c_now ci) Hcs) as (_ & _ & [_ Hrj] & _).
  simpl in Hsi, Hs. set (Ti := b_tokens (refill _ _ _ _)) in *.
  destruct (bucket_lua _ _ (c_cost ci) _ _ _) as [bi ri].
  destruct (run_calls _ _ (Some bi) mid) as [sm rm].
  destruct (bucket_lua _ _ (c_cost cj) _ _ _) as [bj rj] eqn:Ej.
  intros Egi Egj. destruct (Hs Egi Egj) as (Hsum & Hdebt & Hwj).
  destruct Hsi as (_ & _ & Hwi & _ & Hgi). rewrite Egi in Hgi. destruct Hgi as (_ & _ & _ & Hgi).
  assert (0 <= inject_Z (rp_wait_ms rj)) by (unfold Qle, inject_Z; simpl; lia).
  assert (c_rate cj * inject_Z (rp_wait_ms rj) <= R * inject_Z (rp_wait_ms rj))
    by (apply Qmult_le_compat_r; lra).
  unfold start. split; [qlra|]. intros HR.
  destruct (Z.eq_dec (rp_wait_ms ri) 0) as [E0|E0].
  - rewrite E0. change (inject_Z 0) with 0.
    pose proof (Q.le_max_l burst (c_cost ci + R / 1000)). qlra.
  - destruct (Hgi E0) as [_ Hlate]. rewrite HR in Hlate.
    pose proof (Q.le_max_r burst (c_cost ci + R / 1000)). qlra.
Qed.

(** ** Properties *)

(** the balance never exceeds the burst and the debt never exceeds what the
    longest accepted reservation promises, whatever the sequence of calls, of
    rates up to [R] and of waits; a refused call leaves the balance as refill
    made it, and a granted one deducts its cost and returns a wait after which,
    at its rate, the debt is paid, and which the caller accepted. *)
Theorem bucket_balance_bounded (burst max_wait_ms R rate cost now : Q) st :
  0 < burst -> 0 <= max_wait_ms -> rate_ok R rate -> 0 <= cost ->
  bucket_ok burst max_wait_ms R now st ->
  let b := refill rate burst now st in
  let '(b', r) := bucket_lua rate burst cost max_wait_ms now st in
  bucket_ok burst max_wait_ms R now (Some b') /\
  if rp_granted r
  then b_tokens b' == b_tokens b - cost /\
       0 <= b_tokens b' + rate * inject_Z (rp_wait_ms r) / 1000 /\
       inject_Z (rp_wait_ms r) <= max_wait_ms
  else b' = b /\ max_wait_ms < inject_Z (rp_wait_ms r).
Proof.
  intros Hb Hw Hr Hc Hok.
  pose proof (bucket_lua_spec burst max_wait_ms R Hb Hw rate cost now st Hr Hc Hok) as Hs.
  simpl. destruct (bucket_lua _ _ _ _ _ _) as [b' r]. destruct Hs as (Hok' & _ & _ & _ & Hg).
  split; [done|]. destruct (rp_granted r).
  - destruct Hg as (? & ? & ? & _). split_and!; [done|lra|done].
  - by destruct Hg as (? & _ & ?).
Qed.

(** the rate is enforced on the requests as they START, not as they ask.
    Between two granted calls, the cost of everything granted from the one to
    the other is at most the burst plus the rate times the time between the
    first's arrival and the last's start; at a constant rate, the time between
    their two starts. *)
Theorem limiter_enforces_rate (burst max_wait_ms R t : Q) st ci mid cj :
  0 < burst -> 0 <= max_wait_ms ->
  bucket_ok burst max_wait_ms R t st -> calls_ok R t (ci :: mid ++ [cj]) ->
  let '(bi, ri) := bucket_lua (c_rate ci) burst (c_cost ci) max_wait_ms (c_now ci) st in
  let '(sm, rm) := run_calls burst max_wait_ms (Some bi) mid in
  let '(_, rj) := bucket_lua (c_rate cj) burst (c_cost cj) max_wait_ms (c_now cj) sm in
  rp_granted ri = true -> rp_granted rj = true ->
  c_cost ci + granted_cost mid rm + c_cost cj <= burst + R * (start cj rj - c_now ci) / 1000 /\
  (c_rate ci == R ->
   c_cost ci + granted_cost mid rm + c_cost cj <=
     Qmax burst (c_cost ci + R / 1000) + R * (start cj rj - start ci ri) / 1000).
Proof. apply window_enforced. Qed.

(** over any stretch of calls, however the rate is steered below [R], the
    tokens granted are at most the burst, what [R] accrues in that time, and the
    debt the longest accepted wait allows. *)
Theorem bucket_grants_bounded (burst max_wait_ms R t : Q) st cs :
  0 < burst -> 0 <= max_wait_ms -> 0 <= R ->
  bucket_ok burst max_wait_ms R t st -> calls_ok R t cs ->
  (forall b, st = Some b -> b_ts b == t) ->
  granted_cost cs (run_calls burst max_wait_ms st cs).2 <=
    burst + R * (last_now t cs - t) / 1000 + max_wait_ms * R / 1000.
Proof.
  intros Hb Hw HR Hok Hcs Hts.
  pose proof (run_calls_potential burst max_wait_ms R Hb Hw cs t st Hok Hcs HR) as Hr.
  destruct (run_calls burst max_wait_ms st cs) as [st' rs]. destruct Hr as (Hr & Hok' & Hle).
  simpl. assert (0 <= max_wait_ms * R) by (apply Qmult_le_0_compat; lra).
  assert (potential burst R t st <= burst) as Hp.
  { destruct st as [b|]; simpl; [|lra]. destruct Hok as (? & _). rewrite (Hts b eq_refl). qlra. }
  assert (- (max_wait_ms * R / 1000) <= potential burst R (last_now t cs) st') as Hp'.
  { destruct st' as [b|]; simpl; [|qlra]. destruct Hok' as (_ & Hd & Hn).
    assert (0 <= R * (last_now t cs - b_ts b)) by (apply Qmult_le_0_compat; lra). qlra. }
  qlra.
Qed.

(** [acquire] either refuses or delays.  It raises only when the next slot
    is further away than the caller accepts - the exception says how far, no
    slot is held and nothing was slept - and otherwise sleeps the wait plus a
    bounded absolute jitter, zero when the token was there. *)
Theorem acquire_outcome l cost max_wait_s rate draw now st R :
  0 < l_burst l -> 0 <= max_wait_s -> rate_ok R (default (l_rate l) rate) -> 0 <= cost ->
  0 <= draw <= 1 -> 0 <= l_jitter_ms l ->
  bucket_ok (l_burst l) (max_wait_s * 1000) R now st ->
  let b := refill (default (l_rate l) rate) (l_burst l) now st in
  let '(b', o) := acquire l cost max_wait_s rate draw now st in
  match o with
  | inl e => b' = b /\ exists s, e = RateLimitTimeout (l_endpoint l) s 0 /\ max_wait_s < s
  | inr s => b_tokens b' == b_tokens b - cost /\ 0 <= s <= max_wait_s + l_jitter_ms l / 1000 /\
             (cost <= b_tokens b -> s = 0)
  end.
Proof.
  intros Hb Hw Hr Hc [Hd0 Hd1] Hj Hok. assert (0 <= max_wait_s * 1000) as Hw' by lra.
  pose proof (bucket_lua_spec (l_burst l) (max_wait_s * 1000) R Hb Hw' _ cost now st Hr Hc Hok) as Hs.
  unfold acquire, try_acquire. simpl in *.
  assert (0 <= draw * l_jitter_ms l <= l_jitter_ms l) as [Hdj1 Hdj2].
  { split; [by apply Qmult_le_0_compat|].
    assert (draw * l_jitter_ms l <= 1 * l_jitter_ms l) by (by apply Qmult_le_compat_r). lra. }
  unfold bucket_lua in *. set (b := refill _ _ _ _) in *.
  destruct (Qle_bool cost (b_tokens b)) eqn:Ec; simpl in *.
  - destruct Hs as (_ & _ & _ & _ & Hs). split_and!; [lra|lra|qlra|done].
  - apply Qle_bool_false in Ec. set (w := Qceiling _) in *.
    destruct (Qle_bool (inject_Z w) (max_wait_s * 1000)) eqn:Ew; simpl in *.
    + destruct Hs as (_ & _ & Hw0 & _ & Hs). destruct Hs as (Hs1 & _ & Hwle & _).
      assert (0 <= inject_Z w) by (unfold Qle, inject_Z; simpl; lia).
      destruct (w <=? 0)%Z; split_and!; try lra; try qlra; intros; lra.
    + destruct Hs as (_ & _ & _ & _ & _ & _ & Hwlt).
      split; [by destruct b|]. eexists. split; [reflexivity|]. qlra.
Qed.

(** the key's expiry grants nothing.  When the TTL covers paying the largest
    debt and refilling the burst, a bucket left alone for that long reads the
    same whether the key is still there or gone. *)
Theorem bucket_expiry_harmless (burst max_wait_ms R rate ttl_ms now : Q) b :
  bucket_ok burst max_wait_ms R now (Some b) -> 0 < rate ->
  burst + max_wait_ms * R / 1000 <= rate * ttl_ms / 1000 ->
  0 < ttl_ms -> ttl_ms <= now - b_ts b ->
  b_tokens (refill rate burst now (Some b)) == b_tokens (refill rate burst now None) /\
  b_ts (refill rate burst now (Some b)) == b_ts (refill rate burst now None).
Proof.
  intros (H1 & H2 & H3) Hr Httl Ht He. simpl.
  destruct (Qltb 0 (now - b_ts b)) eqn:E; [|apply Qltb_false in E; lra]. simpl. split; [|done].
  assert (rate * ttl_ms <= rate * (now - b_ts b)) by (apply Qmult_le_l; lra).
  apply Q.min_l. qlra.
Qed.

(** ** Witnesses *)

Definition w_limiter : limiter :=
  {| l_endpoint := "vlm"; l_rate := 10; l_burst := 2; l_ttl_ms := 300000; l_jitter_ms := 25 |}.
Definition w_call (now : Q) : bucket_call := {| c_now := now; c_rate := 10; c_cost := 1 |}.

Lemma bucket_balance_bounded_witness :
  bucket_ok 2 5000 10 100 (Some (bucket_lua 10 2 1 5000 100 None).1).
Proof.
  pose proof (bucket_balance_bounded 2 5000 10 10 1 100 None) as Hb.
  apply Hb; by vm_compute.
Defined.

Lemma limiter_enforces_rate_witness :
  let '(bi, ri) := bucket_lua 10 2 1 5000 0 None in
  let '(_, rj) := bucket_lua 10 2 1 5000 0 (Some bi) in
  1 + 0 + 1 <= 2 + 10 * (start (w_call 0) rj - 0) / 1000.
Proof.
  pose proof (limiter_enforces_rate 2 5000 10 0 None (w_call 0) [] (w_call 0)) as Hb.
  specialize (Hb eq_refl ltac:(by vm_compute) I ltac:(by repeat split)).
  destruct (Hb eq_refl eq_refl) as [Hl _]. exact Hl.
Defined.

Lemma bucket_grants_bounded_witness :
  granted_cost [w_call 0; w_call 50] (run_calls 2 5000 None [w_call 0; w_call 50]).2
    <= 2 + 10 * (50 - 0) / 1000 + 5000 * 10 / 1000.
Proof.
  pose proof (bucket_grants_bounded 2 5000 10 0 None [w_call 0; w_call 50]) as Hb.
  apply Hb; first [by vm_compute | by repeat split | done].
Defined.

Lemma acquire_outcome_witness :
  exists s, (acquire w_limiter 1 5 None (1 # 2) 100 (Some {| b_tokens := 0; b_ts := 100 |})).2
              = inr s /\ s <= 5 + 25 / 1000.
Proof.
  pose proof (acquire_outcome w_limiter 1 5 None (1 # 2) 100
    (Some {| b_tokens := 0; b_ts := 100 |}) 10) as Ha.
  destruct (acquire _ _ _ _ _ _ _) as [b' [e|s]] eqn:E;
    [apply (f_equal snd) in E; vm_compute in E; discriminate E|].
  exists s. split; [done|]. apply Ha; by vm_compute.
Defined.

Lemma bucket_expiry_harmless_witness :
  b_tokens (refill 10 2 400000 (Some {| b_tokens := -20; b_ts := 100 |})) == 2.
Proof.
  apply (bucket_expiry_harmless 2 5000 10 10 300000 400000 {| b_tokens := -20; b_ts := 100 |});
    by vm_compute.
Defined.
