(* ===== verification/Breaker.v ===== *)
(** * Distributed circuit breaker ([app/ratelimit/breaker.py])

    The [_BREAKER_LUA] script as a function of the stored record, the
    operation and the server's clock.  Theorems: the invariant and the legal
    moves, the admission table, the probe bound, [peek] against [allow], the
    recovery, and the two behaviours the source's comments do not promise: a
    half-open breaker whose probes never report stays shut, and late failures
    extend an open period. *)

From S2P Require Import Prelude Py TokenBucket.
From Stdlib Require Import QArith Qround Lqa.

(** ** State and parameters *)

Inductive BreakerState := CLOSED | OPEN | HALF_OPEN.

#[export] Instance BreakerState_eq_dec : EqDecision BreakerState.
Proof. solve_decision. Defined.

Record breaker_args := {
  window_ms : Q; min_volume : Z; failure_ratio : Q; cooldown_ms : Q;
  max_probes : Z; probe_successes : Z }.

(** [CircuitBreaker.__init__] *)
Definition make_breaker (window_s : Q) (min_volume : Z) (failure_ratio cooldown_s : Q)
  (max_probes probe_successes : Z) : result breaker_args :=
  if negb (Qltb 0 failure_ratio && Qle_bool failure_ratio 1)
  then inl (ValueError "failure_ratio must be in (0, 1]")
  else if (min_volume <? 1)%Z || (max_probes <? 1)%Z || (probe_successes <? 1)%Z
  then inl (ValueError "min_volume, max_probes, probe_successes must be >= 1")
  else inr {| window_ms := window_s * 1000; min_volume := min_volume;
              failure_ratio := failure_ratio; cooldown_ms := cooldown_s * 1000;
              max_probes := max_probes; probe_successes := probe_successes |}.

Record breaker := {
  b_state : BreakerState; window_start : Q; failures : Z; successes : Z;
  opened_at : Q; probes : Z; probe_ok : Z }.

Inductive breaker_op := op_allow | op_peek | op_success | op_failure.

Record verdict := {
  v_allowed : bool; v_state : BreakerState; v_retry_after_ms : Z;
  v_failures : Z; v_successes : Z }.

(** ** The script *)

Section script.
Context (a : breaker_args).

(** The [HMGET] with its defaults. *)
Definition load (now : Q) (st : option breaker) : breaker :=
  default {| b_state := CLOSED; window_start := now; failures := 0; successes := 0;
             opened_at := 0; probes := 0; probe_ok := 0 |} st.

Definition roll (now : Q) (b : breaker) : breaker :=
  match b_state b with
  | CLOSED =>
      if Qle_bool (window_ms a) (now - window_start b)
      then {| b_state := CLOSED; window_start := now; failures := 0; successes := 0;
              opened_at := opened_at b; probes := probes b; probe_ok := probe_ok b |}
      else b
  | _ => b
  end.

Definition half_open (now : Q) (b : breaker) : breaker :=
  match b_state b with
  | OPEN =>
      if Qle_bool (cooldown_ms a) (now - opened_at b)
      then {| b_state := HALF_OPEN; window_start := window_start b; failures := failures b;
              successes := successes b; opened_at := opened_at b; probes := 0; probe_ok := 0 |}
      else b
  | _ => b
  end.

(** The lazy expiries, performed before every operation. *)
Definition expire (now : Q) (b : breaker) : breaker := half_open now (roll now b).

Definition set_probes (b : breaker) (n : Z) : breaker :=
  {| b_state := b_state b; window_start := window_start b; failures := failures b;
     successes := successes b; opened_at := opened_at b; probes := n; probe_ok := probe_ok b |}.

Definition trip (now : Q) (b : breaker) : breaker :=
  {| b_state := OPEN; window_start := window_start b; failures := failures b;
     successes := successes b; opened_at := now; probes := 0; probe_ok := 0 |}.

Definition remaining_ms (now : Q) (b : breaker) : Z :=
  Z.max 0 (Qceiling (cooldown_ms a - (now - opened_at b))).

(** [failures / total >= failure_ratio] *)
Definition tripped (b : breaker) : bool :=
  let total := (failures b + successes b)%Z in
  (min_volume a <=? total)%Z &&
  Qle_bool (failure_ratio a) (inject_Z (failures b) / inject_Z total).

Definition do_allow (now : Q) (b : breaker) : breaker * (bool * Z) :=
  match b_state b with
  | OPEN => (b, (false, remaining_ms now b))
  | HALF_OPEN =>
      if (probes b <? max_probes a)%Z then (set_probes b (probes b + 1), (true, 0%Z))
      else (b, (false, Qceiling (cooldown_ms a / 4)))
  | CLOSED => (b, (true, 0%Z))
  end.

Definition do_peek (now : Q) (b : breaker) : breaker * (bool * Z) :=
  match b_state b with
  | OPEN => (b, (false, remaining_ms now b))
  | HALF_OPEN => (b, ((probes b <? max_probes a)%Z, 0%Z))
  | CLOSED => (b, (true, 0%Z))
  end.

Definition do_success (now : Q) (b : breaker) : breaker * (bool * Z) :=
  (match b_state b with
   | HALF_OPEN =>
       let ok := (probe_ok b + 1)%Z in
       if (probe_successes a <=? ok)%Z
       then {| b_state := CLOSED; window_start := now; failures := 0; successes := 0;
               opened_at := opened_at b; probes := 0; probe_ok := 0 |}
       else {| b_state := HALF_OPEN; window_start := window_start b; failures := failures b;
               successes := successes b; opened_at := opened_at b;
               probes := if (0 <? probes b)%Z then (probes b - 1)%Z else probes b;
               probe_ok := ok |}
   | _ =>
       {| b_state := b_state b; window_start := window_start b; failures := failures b;
          successes := successes b + 1; opened_at := opened_at b; probes := probes b;
          probe_ok := probe_ok b |}
   end, (true, 0%Z)).

Definition do_failure (now : Q) (b : breaker) : breaker * (bool * Z) :=
  match b_state b with
  | HALF_OPEN => (trip now b, (false, Qfloor (cooldown_ms a)))
  | _ =>
      let b := {| b_state := b_state b; window_start := window_start b;
                  failures := failures b + 1; successes := successes b;
                  opened_at := opened_at b; probes := probes b; probe_ok := probe_ok b |} in
      if tripped b then (trip now b, (false, Qfloor (cooldown_ms a))) else (b, (false, 0%Z))
  end.

Definition breaker_lua (op : breaker_op) (now : Q) (st : option breaker) : breaker * verdict :=
  let b := expire now (load now st) in
  let '(b', (allowed, retry)) :=
    match op with
    | op_allow => do_allow now b
    | op_peek => do_peek now b
    | op_success => do_success now b
    | op_failure => do_failure now b
    end in
  (b', {| v_allowed := allowed; v_state := b_state b'; v_retry_after_ms := retry;
          v_failures := failures b'; v_successes := successes b' |}).

(** ** The client side *)

Definition allow (now : Q) (st : option breaker) := breaker_lua op_allow now st.
Definition record_success (now : Q) (st : option breaker) := breaker_lua op_success now st.
Definition record_failure (now : Q) (st : option breaker) := breaker_lua op_failure now st.
Definition peek (now : Q) (st : option breaker) := breaker_lua op_peek now st.
(** [DEL] of the key. *)
Definition reset (st : option breaker) : option breaker := None.
Definition retry_after_s (v : verdict) : Q := inject_Z (v_retry_after_ms v) / 1000.

Fixpoint run_ops (st : option breaker) (ops : list (breaker_op * Q))
  : option breaker * list verdict :=
  match ops with
  | [] => (st, [])
  | (op, now) :: ops' =>
      let '(b, v) := breaker_lua op now st in
      let '(st', vs) := run_ops (Some b) ops' in (st', v :: vs)
  end.

(** ** Invariant *)

Record args_ok : Prop := {
  ok_ratio : 0 < failure_ratio a /\ failure_ratio a <= 1;
  ok_volume : (1 <= min_volume a)%Z;
  ok_probes : (1 <= max_probes a)%Z;
  ok_successes : (1 <= probe_successes a)%Z }.

Record breaker_ok (b : breaker) : Prop := {
  bo_failures : (0 <= failures b)%Z;
  bo_successes : (0 <= successes b)%Z;
  bo_probes : (0 <= probes b <= max_probes a)%Z;
  bo_probe_ok : (0 <= probe_ok b < probe_successes a)%Z;
  bo_idle : b_state b <> HALF_OPEN -> probes b = 0%Z /\ probe_ok b = 0%Z }.

Definition stored_ok (st : option breaker) : Prop :=
  match st with Some b => breaker_ok b | None => True end.

Context (Ha : args_ok).

Lemma load_ok now st : stored_ok st -> breaker_ok (load now st).
Proof using Ha. destruct Ha. destruct st as [b|]; [done|]. intros _. split; simpl; try lia; done. Qed.

Lemma expire_ok now b : breaker_ok b -> breaker_ok (expire now b).
Proof using Ha.
  intros [H1 H2 H3 H4 H5]. destruct Ha. unfold expire, half_open, roll.
  destruct (b_state b) eqn:E; repeat (destruct (Qle_bool _ _); simpl; rewrite ?E);
    split; simpl; rewrite ?E; try lia; intros; first [done | apply H5; congruence].
Qed.

Lemma lua_ok op now st : stored_ok st -> breaker_ok (breaker_lua op now st).1.
Proof using Ha.
  intros Hst. apply (load_ok now) in Hst. apply (expire_ok now) in Hst.
  unfold breaker_lua. set (b := expire now (load now st)) in *.
  destruct Hst as [H1 H2 H3 H4 H5], Ha.
  destruct op; unfold do_allow, do_peek, do_success, do_failure, tripped, trip, set_probes;
    destruct (b_state b) eqn:E; simpl.
  all: try (destruct (H5 ltac:(congruence)) as [Hp0 Hk0]).
  all: repeat match goal with |- context [if ?c then _ else _] => destruct c eqn:?; simpl end.
  all: bool_prop; split; simpl; rewrite ?E; try lia; try done; try congruence.
Qed.

Lemma run_ops_ok ops : forall st, stored_ok st -> stored_ok (run_ops st ops).1.
Proof using Ha.
  induction ops as [|[op now] ops IH]; intros st Hst; simpl; [done|].
  pose proof (lua_ok op now st Hst) as Hb. destruct (breaker_lua op now st) as [b v].
  specialize (IH (Some b) Hb). by destruct (run_ops (Some b) ops).
Qed.

(** ** Half-open *)

Definition admitted (x : breaker_op * Q) (v : verdict) : bool :=
  match x.1 with op_allow => v_allowed v | _ => false end.

Fixpoint count_admitted (ops : list (breaker_op * Q)) (vs : list verdict) : Z :=
  match ops, vs with
  | x :: ops', v :: vs' => ((if admitted x v then 1 else 0) + count_admitted ops' vs')%Z
  | _, _ => 0%Z
  end.

Definition is_success (x : breaker_op * Q) : bool :=
  match x.1 with op_success => true | _ => false end.

Lemma lua_half_open op now st : stored_ok st ->
  let '(b, v) := breaker_lua op now st in
  v_state v = HALF_OPEN -> b_state b = HALF_OPEN /\
  ((if admitted (op, now) v then 1 else 0) +
   match st with Some b0 => match b_state b0 with HALF_OPEN => probes b0 | _ => 0 end | None => 0 end
   <= probes b + (if is_success (op, now) then 1 else 0))%Z.
Proof using Ha.
  intros Hst. unfold breaker_lua. pose proof (expire_ok now _ (load_ok now st Hst)) as [_ _ Hp _ _].
  assert (match st with Some b0 => match b_state b0 with HALF_OPEN => probes b0 | _ => 0 end | None => 0 end
          <= probes (expire now (load now st)))%Z as Hle.
  { destruct st as [b0|]; [|lia]. simpl in *. unfold expire, half_open, roll in *.
    destruct (b_state b0) eqn:E; [lia|lia|]. by rewrite E. }
  set (n := match st with Some _ => _ | None => _ end) in *.
  set (b := expire now (load now st)) in *.
  clearbody n. destruct op; cbn [admitted is_success fst].
  - unfold do_allow. destruct (b_state b) eqn:E; try (simpl; congruence).
    destruct (probes b <? max_probes a)%Z; simpl; intros _; split; [done|lia|done|lia].
  - unfold do_peek. destruct (b_state b) eqn:E; simpl; try congruence. intros _. split; [done|lia].
  - unfold do_success. destruct (b_state b) eqn:E; simpl; try congruence.
    destruct (_ <=? _)%Z; simpl; [congruence|]. intros _. split; [done|].
    destruct (0 <? probes b)%Z eqn:Ep; bool_prop; lia.
  - unfold do_failure. destruct (b_state b) eqn:E; simpl; try congruence;
      destruct (tripped _); simpl; congruence.
Qed.

(** While the breaker stays half-open, a slot is taken by each admission and
    given back by each success. *)
Lemma half_open_slots ops : forall st,
  stored_ok st -> (forall v, v ∈ (run_ops st ops).2 -> v_state v = HALF_OPEN) ->
  (count_admitted ops (run_ops st ops).2 <=
     max_probes a + Z.of_nat (countb is_success ops) - match st with
       | Some b => match b_state b with HALF_OPEN => probes b | _ => 0 end | None => 0 end)%Z.
Proof using Ha.
  induction ops as [|[op now] ops IH]; intros st Hst Hv; simpl.
  - destruct Ha. destruct st as [b|]; [|lia]. destruct Hst as [_ _ ? _ _].
    destruct (b_state b); lia.
  - simpl in Hv. pose proof (lua_ok op now st Hst) as Hok.
    pose proof (lua_half_open op now st Hst) as Hstep.
    destruct (breaker_lua op now st) as [b v]. specialize (IH (Some b) Hok).
    destruct (run_ops (Some b) ops) as [st' vs]. simpl in *.
    specialize (Hstep (Hv v (list_elem_of_here _ _))) as [Hb Hle]. rewrite Hb in IH.
    assert (forall v, v ∈ vs -> v_state v = HALF_OPEN) as Hvs
      by (intros; apply Hv; by apply list_elem_of_further).
    specialize (IH Hvs). unfold admitted, is_success in *. simpl in *.
    rewrite Nat2Z.inj_add. destruct op; simpl in *; try destruct (v_allowed v); lia.
Qed.
End script.

(** ** Recovery *)

(** Probes that are admitted and succeed, one after the other. *)
Definition probe_rounds (times : list (Q * Q)) : list (breaker_op * Q) :=
  times ≫= λ t, [(op_allow, t.1); (op_success, t.2)].

Section recovery.
Context (a : breaker_args) (Ha : args_ok a).

Lemma half_open_round t1 t2 b :
  b_state b = HALF_OPEN -> probes b = 0%Z -> (0 <= probe_ok b)%Z ->
  let '(b1, v1) := allow a t1 (Some b) in
  let '(b2, v2) := record_success a t2 (Some b1) in
  v_allowed v1 = true /\
  if (probe_successes a <=? probe_ok b + 1)%Z
  then b_state b2 = CLOSED /\ failures b2 = 0%Z /\ successes b2 = 0%Z
  else b_state b2 = HALF_OPEN /\ probes b2 = 0%Z /\ probe_ok b2 = (probe_ok b + 1)%Z.
Proof using Ha.
  intros Hs Hp Hk. destruct Ha. unfold allow, record_success, breaker_lua, expire, half_open, roll.
  simpl. rewrite Hs, Hs. unfold do_allow. rewrite Hs, Hp.
  rewrite (proj2 (Z.ltb_lt 0 (max_probes a))) by lia. simpl. rewrite Hs. simpl. rewrite Hs.
  unfold do_success. simpl. rewrite Hs. by destruct (_ <=? _)%Z.
Qed.

Lemma half_open_recovers times : forall b,
  b_state b = HALF_OPEN -> probes b = 0%Z -> (0 <= probe_ok b)%Z ->
  Z.of_nat (length times) = (probe_successes a - probe_ok b)%Z -> times <> [] ->
  let '(st, vs) := run_ops a (Some b) (probe_rounds times) in
  (exists b', st = Some b' /\ b_state b' = CLOSED /\ failures b' = 0%Z /\ successes b' = 0%Z) /\
  count_admitted (probe_rounds times) vs = Z.of_nat (length times).
Proof using Ha.
  induction times as [|[t1 t2] times IH]; intros b Hs Hp Hk Hlen Hne; [done|].
  cbn [probe_rounds mbind list_bind app]. change (times ≫= _) with (probe_rounds times).
  cbn [run_ops fst snd]. pose proof (half_open_round t1 t2 b Hs Hp Hk) as Hr.
  unfold allow, record_success in Hr.
  destruct (breaker_lua a op_allow t1 (Some b)) as [b1 v1].
  destruct (breaker_lua a op_success t2 (Some b1)) as [b2 v2]. destruct Hr as [Hv1 Hr].
  simpl length in Hlen. destruct (_ <=? _)%Z eqn:Eok; bool_prop.
  - assert (times = []) as -> by (destruct times; [done|simpl in *; lia]).
    simpl. unfold admitted. simpl. rewrite Hv1. split; eauto.
  - destruct Hr as (Hs2 & Hp2 & Hk2).
    specialize (IH b2 Hs2 Hp2 ltac:(lia) ltac:(lia)).
    destruct (run_ops a (Some b2) (probe_rounds times)) as [st vs].
    assert (times <> []) as Hne' by (intros ->; simpl in *; lia).
    destruct (IH Hne') as (Hb' & Hc). split; [done|].
    cbn [count_admitted]. unfold admitted at 1 2. cbn [fst]. rewrite Hv1. simpl length. lia.
Qed.

Lemma open_cooled now b op :
  b_state b = OPEN -> cooldown_ms a <= now - opened_at b ->
  breaker_lua a op now (Some b) = breaker_lua a op now (Some (half_open a now b)).
Proof using Type.
  intros Hs Hc. apply Qle_bool_iff in Hc.
  unfold breaker_lua, load, expire, half_open, roll. simpl. rewrite Hs, Hs, Hc. done.
Qed.
End recovery.

Lemma roll_opened_at a now b : opened_at (roll a now b) = opened_at b.
Proof. unfold roll. by destruct (b_state b), (Qle_bool (window_ms a) (now - window_start b)). Qed.

Lemma expire_idem a now b : 0 < window_ms a -> expire a now (expire a now b) = expire a now b.
Proof.
  intros Hw. assert (Qle_bool (window_ms a) (now - now) = false) as Hnow
    by (apply Qle_bool_false; lra).
  unfold expire, half_open, roll.
  destruct (b_state b) eqn:E; [destruct (Qle_bool (window_ms a) (now - window_start b)) eqn:Ew
    |destruct (Qle_bool (cooldown_ms a) (now - opened_at b)) eqn:Ew|];
    repeat (rewrite ?E, ?Ew, ?Hnow; cbn [b_state window_start opened_at]); done.
Qed.

(** ** Properties *)


(** what [allow] answers.  Closed: yes.  Open: no, until the cooldown has
    elapsed, with the time left as the hint.  Half-open: yes exactly while a
    probe slot is free, taking it. *)
Theorem breaker_allow_table a now st :
  let e := expire a now (load now st) in
  let '(b, v) := allow a now st in
  v_state v = b_state e /\
  match b_state e with
  | CLOSED => v_allowed v = true /\ b = e
  | OPEN => v_allowed v = false /\ b = e /\ opened_at e = opened_at (load now st) /\
            now - opened_at e < cooldown_ms a /\
            cooldown_ms a - (now - opened_at e) <= inject_Z (v_retry_after_ms v)
  | HALF_OPEN =>
      v_allowed v = (probes e <? max_probes a)%Z /\
      probes b = (if v_allowed v then probes e + 1 else probes e)%Z
  end.
Proof.
  intros e. unfold allow, breaker_lua. fold e. unfold do_allow.
  destruct (b_state e) eqn:Es; simpl; rewrite ?Es.
  - by split_and!.
  - unfold e, expire in *. clear e.
    set (b := roll a now (load now st)) in *.
    assert (opened_at b = opened_at (load now st)) as Hb by apply roll_opened_at.
    clearbody b.
    unfold half_open in Es |- *. destruct (b_state b) eqn:Eb; try congruence.
    destruct (Qle_bool (cooldown_ms a) (now - opened_at b)) eqn:Ec; [done|].
    split_and!; try done.
    + by apply Qle_bool_false.
    + unfold remaining_ms. pose proof (Qle_ceiling (cooldown_ms a - (now - opened_at b))).
      pose proof (Z.le_max_r 0 (Qceiling (cooldown_ms a - (now - opened_at b)))) as Hm.
      rewrite Zle_Qle in Hm. lra.
  - destruct (_ <? _)%Z; simpl; rewrite ?Es; by split_and!.
Qed.

(** the probe bound holds across every caller: as long as the breaker stays
    half-open, the requests admitted exceed the successes reported by at most
    [max_probes], whatever the interleaving of the replicas' calls. *)
Theorem breaker_probe_bound a st ops :
  args_ok a -> stored_ok a st ->
  (forall v, v ∈ (run_ops a st ops).2 -> v_state v = HALF_OPEN) ->
  (count_admitted ops (run_ops a st ops).2 <= max_probes a + Z.of_nat (countb is_success ops))%Z.
Proof.
  intros Ha Hst Hv. pose proof (half_open_slots a Ha ops st Hst Hv) as Hs.
  destruct st as [b|]; [|lia]. destruct Hst as [_ _ Hp _ _]. destruct (b_state b); lia.
Qed.

(** [peek] says what [allow] would say at the same moment, and consumes
    nothing: a later call at that moment, of any kind, answers and leaves the
    breaker as if the peek had not happened. *)
Theorem breaker_peek_invisible a now st op :
  0 < window_ms a ->
  let '(b, v) := peek a now st in
  v_allowed v = v_allowed (allow a now st).2 /\
  v_state v = v_state (allow a now st).2 /\
  breaker_lua a op now (Some b) = breaker_lua a op now st.
Proof.
  intros Hw. unfold peek, allow, breaker_lua.
  set (e := expire a now (load now st)).
  assert (do_peek a now e = (e, (do_peek a now e).2)) as Hp
    by (unfold do_peek; by destruct (b_state e)).
  pose proof (expire_idem a now (load now st) Hw) as He. fold e in He.
  rewrite Hp. destruct (do_peek a now e).2 as [al re] eqn:E2. simpl. rewrite He.
  split_and!; [| |by rewrite Hp].
  - unfold do_peek, do_allow in *. destruct (b_state e); simpl in *; simplify_eq; try done.
    by destruct (_ <? _)%Z.
  - unfold do_allow. destruct (b_state e) eqn:Es; simpl; try done. by destruct (_ <? _)%Z.
Qed.

(** C38: recovery.  From an open breaker, once the cooldown has elapsed, as many
    successful probes as required, sent one after the other, are all admitted
    and close it with clean counters. *)
Theorem breaker_recovers a b times :
  args_ok a -> b_state b = OPEN -> Z.of_nat (length times) = probe_successes a ->
  (forall t, head times = Some t -> cooldown_ms a <= t.1 - opened_at b) ->
  let '(st, vs) := run_ops a (Some b) (probe_rounds times) in
  (exists b', st = Some b' /\ b_state b' = CLOSED /\ failures b' = 0%Z /\ successes b' = 0%Z) /\
  count_admitted (probe_rounds times) vs = Z.of_nat (length times).
Proof.
  intros Ha Hs Hlen Hcool. destruct times as [|[t1 t2] times]; [destruct Ha; simpl in *; lia|].
  specialize (Hcool _ eq_refl). simpl in Hcool.
  assert (run_ops a (Some b) (probe_rounds ((t1, t2) :: times)) =
          run_ops a (Some (half_open a t1 b)) (probe_rounds ((t1, t2) :: times))) as ->.
  { cbn [probe_rounds mbind list_bind app run_ops fst]. by rewrite open_cooled. }
  apply Qle_bool_iff in Hcool.
  apply half_open_recovers; [done|unfold half_open; by rewrite Hs, Hcool..| |done].
  unfold half_open. rewrite Hs, Hcool. simpl probe_ok. lia.
Qed.

(** nothing but a reported outcome frees a probe slot.  Once every slot of a
    half-open breaker is taken, it admits no call ever again while its callers
    only ask - no cooldown applies - so a caller that takes a slot and reports
    neither success nor failure shuts the endpoint off. *)
Theorem breaker_starves_without_reports a b ops :
  b_state b = HALF_OPEN -> (max_probes a <= probes b)%Z ->
  (forall x, x ∈ ops -> x.1 = op_allow \/ x.1 = op_peek) ->
  (run_ops a (Some b) ops).1 = Some b /\
  forall v, v ∈ (run_ops a (Some b) ops).2 -> v_allowed v = false /\ v_state v = HALF_OPEN.
Proof.
  intros Hs Hp Hops.
  induction ops as [|[op now] ops IH]; simpl; [split; [done|intros v []%elem_of_nil]|].
  assert (exists v, breaker_lua a op now (Some b) = (b, v) /\ v_allowed v = false /\
          v_state v = HALF_OPEN) as (v & -> & Hv).
  { unfold breaker_lua, expire, half_open, roll. simpl. rewrite Hs, Hs.
    destruct (Hops (op, now) (list_elem_of_here _ _)) as [E|E]; simpl in E; subst op.
    - unfold do_allow. rewrite Hs, (proj2 (Z.ltb_ge _ _) Hp). eexists. by rewrite Hs.
    - unfold do_peek. rewrite Hs, (proj2 (Z.ltb_ge _ _) Hp). eexists. by rewrite Hs. }
  destruct IH as [IH1 IH2]; [intros; apply Hops; by apply list_elem_of_further|].
  destruct (run_ops a (Some b) ops) as [st vs]. simpl in *. split; [done|].
  intros v' [->|Hin]%elem_of_cons; auto.
Qed.

(** ** Witnesses, on the worker's default parameters *)

Definition w_args : breaker_args :=
  {| window_ms := 10000; min_volume := 2; failure_ratio := 1 # 2; cooldown_ms := 5000;
     max_probes := 1; probe_successes := 1 |}.

Lemma w_args_ok : args_ok w_args.
Proof. split; simpl; [split; by vm_compute|lia..]. Qed.

Definition w_open : breaker := trip 100
  {| b_state := CLOSED; window_start := 0; failures := 2; successes := 0; opened_at := 0;
     probes := 0; probe_ok := 0 |}.

Lemma w_open_ok : breaker_ok w_args w_open.
Proof. split; simpl; lia. Qed.

(** Failures of calls sent before the trip and reported after it extend the
    open period, although the counters of an open breaker are described as
    frozen. *)
Example late_failure_extends :
  opened_at w_open = 100 /\ opened_at (record_failure w_args 4000 (Some w_open)).1 = 4000 /\
  v_allowed (allow w_args 5200 (Some w_open)).2 = true /\
  v_allowed (allow w_args 5200 (Some (record_failure w_args 4000 (Some w_open)).1)).2 = false.
Proof. by vm_compute. Qed.


Definition w_half_open : breaker := (allow w_args 5200 (Some w_open)).1.

Lemma breaker_probe_bound_witness :
  (count_admitted [(op_allow, 5200%Q); (op_allow, 5300%Q)]
     (run_ops w_args (Some w_open) [(op_allow, 5200%Q); (op_allow, 5300%Q)]).2 <= 1)%Z.
Proof.
  apply (breaker_probe_bound w_args (Some w_open) [(op_allow, 5200); (op_allow, 5300)]);
    [apply w_args_ok|apply w_open_ok|].
  intros v Hv. vm_compute in Hv.
  apply elem_of_cons in Hv as [->|Hv]; [done|]. by apply list_elem_of_singleton in Hv as ->.
Defined.

Lemma breaker_peek_invisible_witness :
  v_allowed (peek w_args 5200 (Some w_open)).2 = true.
Proof.
  pose proof (breaker_peek_invisible w_args 5200 (Some w_open) op_allow ltac:(by vm_compute)) as Hp.
  destruct (peek w_args 5200 (Some w_open)) as [b v] eqn:E. simpl. destruct Hp as [-> _].
  vm_compute. reflexivity.
Defined.

Lemma breaker_recovers_witness :
  exists b, (run_ops w_args (Some w_open) (probe_rounds [(5200, 5300)])).1 = Some b /\
    b_state b = CLOSED.
Proof.
  pose proof (breaker_recovers w_args w_open [(5200, 5300)] w_args_ok eq_refl eq_refl) as Hr.
  destruct (run_ops w_args (Some w_open) (probe_rounds [(5200, 5300)])) as [st vs].
  destruct Hr as [(b & -> & Hb & _) _]; [by intros t [= <-]|]. by exists b.
Defined.

Lemma breaker_starves_without_reports_witness :
  (run_ops w_args (Some w_half_open) [(op_allow, 1000000%Q)]).1 = Some w_half_open.
Proof.
  apply (breaker_starves_without_reports w_args w_half_open [(op_allow, 1000000)]); [done|done|].
  intros x ->%list_elem_of_singleton. by left.
Defined.
