(* ===== verification/Adaptive.v ===== *)
(** * AIMD rate controller ([app/ratelimit/adaptive.py])

    The [_AIMD_LUA] script as a function of the stored controller, the latency
    ring, the operation and the server's clock.  Theorems: the rate stays within
    its bounds, what a congestion signal does (and that a burst of them costs
    one cut), the climb back, the percentile, and that a latency breach can
    raise a rate that other signals had cut below the latency floor. *)

From S2P Require Import Prelude Py TokenBucket.
From Stdlib Require Import QArith Qminmax Qround Lqa.

Local Open Scope Q_scope.

(** ** Parameters and state *)

Record aimd_args := {
  min_rate : Q; max_rate : Q; decrease_factor : Q; increase_step : Q;
  increase_after : Z; refractory_ms : Q;
  latency_slo_ms : Q; ring_size : nat; min_samples : Z; latency_floor : Q }.

(** [AdaptiveRate.__init__] *)
Definition make_adaptive (max_rate min_rate decrease_factor increase_step : Q)
  (increase_after : Z) (refractory_ms latency_slo_ms : Q) (latency_min_rate : option Q)
  (latency_samples : nat) (latency_min_samples : Z) : result aimd_args :=
  if Qle_bool max_rate 0 || Qle_bool min_rate 0 then inl (ValueError "rates must be positive")
  else if Qltb max_rate min_rate then inl (ValueError "min_rate cannot exceed max_rate")
  else if negb (Qltb 0 decrease_factor && Qltb decrease_factor 1)
  then inl (ValueError "decrease_factor must be in (0, 1) to be a decrease")
  else if Qle_bool increase_step 0 || (increase_after <? 1)%Z
  then inl (ValueError "increase_step and increase_after must be positive")
  else
    let floor := default (max_rate * (1 # 2)) latency_min_rate in
    if negb (Qle_bool min_rate floor && Qle_bool floor max_rate)
    then inl (ValueError "latency_min_rate must sit between min_rate and max_rate")
    else inr {| min_rate := min_rate; max_rate := max_rate; decrease_factor := decrease_factor;
                increase_step := increase_step; increase_after := increase_after;
                refractory_ms := refractory_ms; latency_slo_ms := latency_slo_ms;
                ring_size := latency_samples; min_samples := latency_min_samples;
                latency_floor := floor |}.

Record controller := { c_rate : Q; c_successes : Z; c_last_dec : Q }.

(** The controller hash and the latency ring, most recent first. *)
Record aimd := { ctl : option controller; ring : list Q }.

Inductive aimd_op := aimd_read | aimd_success (latency_ms : Q) | aimd_congestion.

Inductive reason :=
| r_none | r_refractory | r_decrease | r_decrease_latency | r_at_floor | r_increase.

Record rate_verdict := {
  rv_rate_milli : Z; rv_changed : bool; rv_reason : reason; rv_p95 : Z; rv_successes : Z }.

(** ** Percentile *)

Fixpoint insert_sorted (x : Q) (l : list Q) : list Q :=
  match l with
  | [] => [x]
  | y :: l' => if Qle_bool x y then x :: l else y :: insert_sorted x l'
  end.

(** [table.sort] *)
Definition sort_nums (l : list Q) : list Q := foldr insert_sorted [] l.

Definition p95_index (n : nat) : nat :=
  Nat.max 1 (Z.to_nat (Qceiling ((95 # 100) * inject_Z (Z.of_nat n)))).

Definition percentile95 (l : list Q) : option Q :=
  sort_nums l !! (p95_index (length l) - 1)%nat.

(** [LTRIM 0 (n - 1)], which keeps the whole list when [n] is 0. *)
Definition trim {A} (n : nat) (l : list A) : list A := match n with O => l | _ => take n l end.

(** ** The script *)

Section script.
Context (a : aimd_args).

(** The latency block: the new ring and, with enough samples, its p95. *)
Definition record_latency (op : aimd_op) (l : list Q) : list Q * option Q :=
  match op with
  | aimd_success latency =>
      if Qle_bool 0 latency && Qltb 0 (latency_slo_ms a) then
        let l := trim (ring_size a) (latency :: l) in
        (l, if (min_samples a <=? Z.of_nat (length l))%Z then percentile95 l else None)
      else (l, None)
  | _ => (l, None)
  end.

Definition breached (p95 : option Q) : bool :=
  match p95 with
  | Some p => Qle_bool 0 p && Qltb 0 (latency_slo_ms a) && Qltb (latency_slo_ms a) p
  | None => false
  end.

(** The congested branch, [signal] telling an explicit signal from a breach. *)
Definition congest (now : Q) (signal : bool) (rate last_dec : Q) : controller * (bool * reason) :=
  if Qltb (now - last_dec) (refractory_ms a)
  then ({| c_rate := rate; c_successes := 0; c_last_dec := last_dec |}, (false, r_refractory))
  else
    let floor := if signal then min_rate a else latency_floor a in
    let new_rate := rate * decrease_factor a in
    let new_rate := if Qltb new_rate floor then floor else new_rate in
    if negb (Qeq_bool new_rate rate)
    then ({| c_rate := new_rate; c_successes := 0; c_last_dec := now |},
          (true, if signal then r_decrease else r_decrease_latency))
    else ({| c_rate := rate; c_successes := 0; c_last_dec := now |}, (false, r_at_floor)).

Definition bank_success (rate last_dec : Q) (successes : Z) : controller * (bool * reason) :=
  let successes := (successes + 1)%Z in
  if (increase_after a <=? successes)%Z then
    if Qltb rate (max_rate a) then
      let rate := rate + increase_step a in
      let rate := if Qltb (max_rate a) rate then max_rate a else rate in
      ({| c_rate := rate; c_successes := 0; c_last_dec := last_dec |}, (true, r_increase))
    else ({| c_rate := rate; c_successes := 0; c_last_dec := last_dec |}, (false, r_none))
  else ({| c_rate := rate; c_successes := successes; c_last_dec := last_dec |}, (false, r_none)).

Definition load (st : aimd) : controller :=
  default {| c_rate := max_rate a; c_successes := 0; c_last_dec := 0 |} (ctl st).

Definition aimd_lua (op : aimd_op) (now : Q) (st : aimd) : aimd * rate_verdict :=
  let c := load st in
  let '(l, p95) := record_latency op (ring st) in
  let '(c', (changed, why)) :=
    match op with
    | aimd_congestion => congest now true (c_rate c) (c_last_dec c)
    | aimd_success _ =>
        if breached p95 then congest now false (c_rate c) (c_last_dec c)
        else bank_success (c_rate c) (c_last_dec c) (c_successes c)
    | aimd_read => (c, (false, r_none))
    end in
  ({| ctl := Some c'; ring := l |},
   {| rv_rate_milli := Qfloor (c_rate c' * 1000 + (1 # 2)); rv_changed := changed;
      rv_reason := why; rv_p95 := match p95 with Some p => Qfloor (p + (1 # 2)) | None => -1 end;
      rv_successes := c_successes c' |}).

(** ** The controller's methods *)

Definition current (now : Q) (st : aimd) : aimd * Q :=
  let '(st', v) := aimd_lua aimd_read now st in (st', inject_Z (rv_rate_milli v) / 1000).
Definition on_success (latency_ms now : Q) (st : aimd) := aimd_lua (aimd_success latency_ms) now st.
Definition on_congestion (now : Q) (st : aimd) := aimd_lua aimd_congestion now st.

Definition the_rate (st : aimd) : Q := c_rate (load st).

(** [DEL] of the controller and of the ring. *)
Definition reset (st : aimd) : aimd := {| ctl := None; ring := [] |}.

Fixpoint run_aimd (ops : list (aimd_op * Q)) (st : aimd) : aimd :=
  match ops with
  | [] => st
  | (op, now) :: ops' => run_aimd ops' (aimd_lua op now st).1
  end.

Record args_ok : Prop := {
  ao_min : 0 < min_rate a; ao_floor : min_rate a <= latency_floor a;
  ao_max : latency_floor a <= max_rate a;
  ao_factor : 0 < decrease_factor a /\ decrease_factor a < 1;
  ao_step : 0 < increase_step a; ao_after : (1 <= increase_after a)%Z;
  ao_refractory : 0 <= refractory_ms a }.

Definition rate_bounded (r : Q) : Prop := min_rate a <= r /\ r <= max_rate a.

Context (Ha : args_ok).

Lemma congest_rate now signal rate last_dec :
  rate_bounded rate ->
  let '(c, (changed, why)) := congest now signal rate last_dec in
  rate_bounded (c_rate c) /\ c_successes c = 0%Z /\
  if Qltb (now - last_dec) (refractory_ms a)
  then c_rate c = rate /\ c_last_dec c = last_dec /\ changed = false
  else c_rate c == Qmax (if signal then min_rate a else latency_floor a) (rate * decrease_factor a)
       /\ c_last_dec c = now /\ (changed = true <-> ~ c_rate c == rate).
Proof using Ha.
  intros [Hr1 Hr2]. destruct Ha as [H1 H2 H3 [H4 H5] H6 H7 H8]. unfold congest.
  destruct (Qltb (now - last_dec) (refractory_ms a)); [done|].
  set (floor := if signal then min_rate a else latency_floor a).
  assert (min_rate a <= floor /\ floor <= max_rate a) as [Hf1 Hf2] by (unfold floor; destruct signal; lra).
  assert (rate * decrease_factor a <= rate * 1) by (apply Qmult_le_l; lra).
  set (n := if Qltb (rate * decrease_factor a) floor then floor else rate * decrease_factor a).
  assert (n == Qmax floor (rate * decrease_factor a) /\ rate_bounded n) as [Hn [Hb1 Hb2]].
  { unfold n, rate_bounded. destruct (Qltb _ floor) eqn:E.
    - apply Qltb_true in E. rewrite Q.max_l by lra. split_and!; lra.
    - apply Qltb_false in E. rewrite Q.max_r by lra. split_and!; lra. }
  destruct (Qeq_bool n rate) eqn:E; cbn [negb c_rate c_successes c_last_dec].
  - apply Qeq_bool_iff in E. split_and!; try done; by rewrite <- Hn, E.
  - split_and!; try done. split; [|done]. intros _ Heq. apply Qeq_bool_iff in Heq. congruence.
Qed.

Lemma bank_success_rate rate last_dec n :
  rate_bounded rate ->
  let '(c, (changed, why)) := bank_success rate last_dec n in
  rate_bounded (c_rate c) /\ c_last_dec c = last_dec /\ rate <= c_rate c /\
  if (increase_after a <=? n + 1)%Z
  then c_rate c == Qmin (max_rate a) (rate + increase_step a) /\ c_successes c = 0%Z
  else c_rate c = rate /\ c_successes c = (n + 1)%Z.
Proof using Ha.
  intros [Hr1 Hr2]. destruct Ha as [H1 H2 H3 [H4 H5] H6 H7 H8]. unfold bank_success, rate_bounded.
  destruct (_ <=? _)%Z; [|simpl; split_and!; done || lra].
  destruct (Qltb rate (max_rate a)) eqn:E; simpl.
  - apply Qltb_true in E. destruct (Qltb (max_rate a) (rate + increase_step a)) eqn:E2.
    + apply Qltb_true in E2. rewrite Q.min_l by lra. split_and!; done || lra.
    + apply Qltb_false in E2. rewrite Q.min_r by lra. split_and!; done || lra.
  - apply Qltb_false in E. rewrite Q.min_l by lra. split_and!; done || lra.
Qed.

Lemma lua_bounded op now st : rate_bounded (the_rate st) -> rate_bounded (the_rate (aimd_lua op now st).1).
Proof using Ha.
  intros Hr. unfold aimd_lua, the_rate in *. destruct (record_latency op (ring st)) as [l p95].
  pose proof (congest_rate now true _ (c_last_dec (load st)) Hr) as Hc1.
  pose proof (congest_rate now false _ (c_last_dec (load st)) Hr) as Hc2.
  pose proof (bank_success_rate _ (c_last_dec (load st)) (c_successes (load st)) Hr) as Hs.
  destruct (congest now true _ _) as [c1 [? ?]], (congest now false _ _) as [c2 [? ?]],
    (bank_success _ _ _) as [c3 [? ?]].
  destruct op; [done| |by apply Hc1]. destruct (breached p95); [by apply Hc2|by apply Hs].
Qed.
End script.

Lemma load_some a c l : load a {| ctl := Some c; ring := l |} = c.
Proof. done. Qed.

(** ** Percentile *)

Lemma insert_sorted_perm x l : insert_sorted x l ≡ₚ x :: l.
Proof.
  induction l as [|y l IH]; simpl; [done|]. destruct (Qle_bool x y); [done|].
  rewrite IH. apply Permutation_swap.
Qed.

Lemma sort_nums_perm l : sort_nums l ≡ₚ l.
Proof. induction l as [|x l IH]; simpl; [done|]. by rewrite insert_sorted_perm, IH. Qed.

Inductive ascending : list Q -> Prop :=
| asc_nil : ascending []
| asc_cons x l : Forall (λ y, x <= y) l -> ascending l -> ascending (x :: l).

Lemma insert_sorted_ascending x l : ascending l -> ascending (insert_sorted x l).
Proof.
  induction 1 as [|y l Hy Hl IH]; simpl; [by repeat constructor|].
  destruct (Qle_bool x y) eqn:E.
  - apply Qle_bool_iff in E. constructor; [|by constructor]. constructor; [done|].
    eapply Forall_impl; [exact Hy|]. intros z Hz. simpl in *. lra.
  - apply Qle_bool_false in E. constructor; [|done]. rewrite insert_sorted_perm.
    constructor; [lra|done].
Qed.

Lemma sort_nums_ascending l : ascending (sort_nums l).
Proof. induction l as [|x l IH]; simpl; [constructor|by apply insert_sorted_ascending]. Qed.

(** The element at rank [i] has at least [i + 1] elements at or below it. *)
Lemma ascending_rank l : ascending l -> forall i (p : Q), l !! i = Some p ->
  (S i <= length (filter (λ y : Q, (y <= p)%Q) l))%nat.
Proof.
  induction 1 as [|x l Hx Hl IH]; intros i p Hi; [done|]. destruct i as [|i]; simpl in Hi.
  - injection Hi as ->. rewrite filter_cons_True by lra. simpl. lia.
  - assert (x <= p) as Hxp.
    { rewrite Forall_forall in Hx. apply Hx. by eapply list_elem_of_lookup_2. }
    rewrite filter_cons_True by done. simpl. specialize (IH i p Hi). lia.
Qed.

Lemma p95_index_bounds n : (0 < n)%nat -> (1 <= p95_index n <= n)%nat.
Proof.
  intros Hn. unfold p95_index. split; [lia|]. apply Nat.max_lub; [lia|].
  assert (Qceiling ((95 # 100) * inject_Z (Z.of_nat n)) <= Z.of_nat n)%Z; [|lia].
  rewrite <- (Qceiling_Z (Z.of_nat n)) at 2. apply Qceiling_resp_le.
  assert (0 <= inject_Z (Z.of_nat n)) by (unfold Qle, inject_Z; simpl; lia). lra.
Qed.

(** ** Streaks *)

Lemma run_aimd_app a ops1 : forall ops2 st,
  run_aimd a (ops1 ++ ops2) st = run_aimd a ops2 (run_aimd a ops1 st).
Proof. induction ops1 as [|[op now] ops1 IH]; intros ops2 st; simpl; [done|]. apply IH. Qed.

(** With latency tracking off, a success is never a breach. *)
Lemma success_unbreached a now latency st : latency_slo_ms a == 0 ->
  ctl (aimd_lua a (aimd_success latency) now st).1 =
  Some (bank_success a (the_rate a st) (c_last_dec (load a st)) (c_successes (load a st))).1.
Proof.
  intros Hslo. unfold aimd_lua, the_rate, record_latency.
  assert (Qltb 0 (latency_slo_ms a) = false) as -> by (apply Qltb_false; lra).
  rewrite andb_false_r. simpl. by destruct (bank_success a _ _ _) as [c [ch why]].
Qed.

(** The last [k] successes of a streak: only the last moves the rate. *)
Lemma aimd_streak a now latency : args_ok a -> latency_slo_ms a == 0 ->
  forall k st, rate_bounded a (the_rate a st) ->
  (0 < Z.of_nat k)%Z /\ (c_successes (load a st) + Z.of_nat k = increase_after a)%Z ->
  let st' := run_aimd a (repeat (aimd_success latency, now) k) st in
  rate_bounded a (the_rate a st') /\ c_successes (load a st') = 0%Z /\
  the_rate a st' == Qmin (max_rate a) (the_rate a st + increase_step a).
Proof.
  intros Ha Hslo. induction k as [|k IH]; intros st Hr [Hk Hs]; [lia|]. simpl.
  pose proof (success_unbreached a now latency st Hslo) as Hc.
  set (st1 := (aimd_lua a (aimd_success latency) now st).1) in *.
  pose proof (bank_success_rate a Ha (the_rate a st) (c_last_dec (load a st))
    (c_successes (load a st)) Hr) as Hb.
  destruct (bank_success a _ _ _) as [c [ch why]]. simpl in Hc.
  assert (load a st1 = c) as Hl by (unfold load; by rewrite Hc).
  destruct Hb as (Hbd & _ & _ & Hb). unfold the_rate in IH |- *.
  destruct k as [|k].
  - rewrite (proj2 (Z.leb_le _ _)) in Hb by lia. simpl. rewrite Hl. by destruct Hb.
  - rewrite (proj2 (Z.leb_gt _ _)) in Hb by lia. destruct Hb as [Hb1 Hb2].
    destruct (IH st1) as (H1 & H2 & H3); [by rewrite Hl|rewrite Hl, Hb2; lia|].
    split_and!; [done..|]. rewrite H3, Hl, Hb1. done.
Qed.

(** ** Properties *)

(** C26: the rate never leaves its bounds, whatever happens, and each signal
    moves it as designed: a 429 or a timeout cuts it to the decrease factor (or
    the floor) unless one was made within the refractory period, and never
    raises it; a success with no latency breach never lowers it and raises it by
    at most one step, at the end of a full streak. *)
Theorem aimd_moves a op now st :
  args_ok a -> rate_bounded a (the_rate a st) ->
  let '(st', v) := aimd_lua a op now st in
  rate_bounded a (the_rate a st') /\
  match op with
  | aimd_read => the_rate a st' = the_rate a st
  | aimd_congestion =>
      the_rate a st' <= the_rate a st /\
      if Qltb (now - c_last_dec (load a st)) (refractory_ms a)
      then the_rate a st' = the_rate a st
      else the_rate a st' == Qmax (min_rate a) (the_rate a st * decrease_factor a)
  | aimd_success _ =>
      breached a (record_latency a op (ring st)).2 = false ->
      the_rate a st <= the_rate a st' /\
      if (increase_after a <=? c_successes (load a st) + 1)%Z
      then the_rate a st' == Qmin (max_rate a) (the_rate a st + increase_step a)
      else the_rate a st' = the_rate a st
  end.
Proof.
  intros Ha Hr. pose proof (lua_bounded a Ha op now st Hr) as Hb. unfold aimd_lua, the_rate in *.
  destruct (record_latency a op (ring st)) as [l p95]. destruct op; simpl in *.
  - done.
  - destruct (breached a p95); simpl.
    + destruct (congest a now false _ _) as [c [ch why]]. simpl in *. by split.
    + pose proof (bank_success_rate a Ha _ (c_last_dec (load a st)) (c_successes (load a st)) Hr) as Hs.
      destruct (bank_success a _ _ _) as [c [ch why]]. simpl in *. split; [done|]. intros _.
      rewrite load_some.
      destruct Hs as (_ & _ & Hle & Hs). split; [done|]. destruct (_ <=? _)%Z; by destruct Hs.
  - pose proof (congest_rate a Ha now true _ (c_last_dec (load a st)) Hr) as Hc.
    destruct (congest a now true _ _) as [c [ch why]]. simpl in *. split; [done|].
    rewrite load_some. destruct Hc as (_ & _ & Hc). destruct (Qltb _ _).
    + destruct Hc as (-> & _). split; [lra|done].
    + destruct Hc as (Hc & _). split; [|done]. rewrite Hc. destruct Hr as [Hr1 Hr2], Ha.
      assert (c_rate (load a st) * decrease_factor a <= c_rate (load a st) * 1) by (apply Qmult_le_l; lra).
      apply Q.max_lub; lra.
Qed.

(** one congestion event costs one cut.  However many signals its in-flight
    requests report within the refractory period of the first, the rate is what
    the first one made it. *)
Theorem aimd_burst_is_one_cut a t times st :
  args_ok a -> rate_bounded a (the_rate a st) ->
  refractory_ms a <= t - c_last_dec (load a st) ->
  Forall (λ now, now - t < refractory_ms a) times ->
  the_rate a (run_aimd a ((λ now, (aimd_congestion, now)) <$> t :: times) st) ==
    Qmax (min_rate a) (the_rate a st * decrease_factor a).
Proof.
  intros Ha Hr Ht Htimes. simpl. unfold aimd_lua at 1. simpl.
  pose proof (congest_rate a Ha t true _ (c_last_dec (load a st)) Hr) as Hc.
  assert (Qltb (t - c_last_dec (load a st)) (refractory_ms a) = false) as Hf by (by apply Qltb_false).
  rewrite Hf in Hc. unfold the_rate.
  destruct (congest a t true _ _) as [c [ch why]]. destruct Hc as (_ & _ & Hc & Hl & _).
  cbn [fst]. set (st1 := {| ctl := Some c; ring := ring st |}).
  assert (forall st2, c_rate (load a st2) = c_rate c -> c_last_dec (load a st2) = t ->
    c_rate (load a (run_aimd a ((λ now, (aimd_congestion, now)) <$> times) st2)) = c_rate c) as Hrun.
  { induction Htimes as [|now times Hnow _ IH]; intros st2 Hr2 Hl2; [done|]. simpl.
    apply IH; unfold aimd_lua; simpl; unfold congest; rewrite Hl2;
      rewrite (proj2 (Qltb_true _ _) Hnow); done. }
  etransitivity; [|exact Hc]. rewrite <- (Hrun st1 eq_refl Hl). reflexivity.
Qed.

(** the way back up.  With latency tracking off, every full streak of
    successes raises the rate by one step until it is the advertised one again:
    after [m] streaks it is at least [m] steps up, or at the maximum. *)
Theorem aimd_climbs_back a m now latency st :
  args_ok a -> latency_slo_ms a == 0 -> rate_bounded a (the_rate a st) ->
  c_successes (load a st) = 0%Z ->
  Qmin (max_rate a) (the_rate a st + inject_Z (Z.of_nat m) * increase_step a) <=
  the_rate a (run_aimd a
    (repeat (aimd_success latency, now) (m * Z.to_nat (increase_after a))) st).
Proof.
  intros Ha Hslo. revert st. induction m as [|m IH]; intros st Hr Hs; simpl.
  - pose proof (Q.le_min_r (max_rate a) (the_rate a st + inject_Z 0 * increase_step a)) as Hm.
    change (inject_Z (Z.of_nat 0)) with 0. change (inject_Z 0) with 0 in Hm. lra.
  - rewrite repeat_app, run_aimd_app.
    destruct (aimd_streak a now latency Ha Hslo (Z.to_nat (increase_after a)) st) as (Hr' & Hs' & Hup);
      [done|rewrite Hs; destruct Ha; lia|].
    set (st' := run_aimd a _ st) in *. specialize (IH st' Hr' Hs').
    eapply Qle_trans; [|exact IH]. rewrite Hup. rewrite Nat2Z.inj_succ. unfold Z.succ. rewrite inject_Z_plus.
    change (inject_Z 1) with 1. set (k := inject_Z (Z.of_nat m)).
    assert (0 <= k * increase_step a) as Hk.
    { apply Qmult_le_0_compat; [unfold k, Qle, inject_Z; simpl; lia|destruct Ha; lra]. }
    destruct (Q.min_spec (max_rate a) (the_rate a st + increase_step a)) as [[? ->]|[? ->]].
    + rewrite (Q.min_l (max_rate a) (max_rate a + k * increase_step a)) by lra. apply Q.le_min_l.
    + apply Q.min_le_compat_l. lra.
Qed.

(** a latency breach can raise the rate.  When other signals have cut it
    below the latency floor, the breach's "decrease" sets it to that floor, which
    is above it, and reports a decrease. *)
Theorem latency_breach_raises a now latency st :
  args_ok a -> rate_bounded a (the_rate a st) -> the_rate a st < latency_floor a ->
  breached a (record_latency a (aimd_success latency) (ring st)).2 = true ->
  refractory_ms a <= now - c_last_dec (load a st) ->
  let '(st', v) := on_success a latency now st in
  the_rate a st < the_rate a st' /\ the_rate a st' == latency_floor a /\
  rv_reason v = r_decrease_latency /\ rv_changed v = true.
Proof.
  intros Ha [Hr1 Hr2] Hlt Hb Href. unfold on_success, aimd_lua, the_rate in *.
  destruct (record_latency a _ (ring st)) as [l p95]. simpl in Hb. rewrite Hb.
  destruct Ha as [? ? ? [? ?] ? ? ?].
  assert (c_rate (load a st) * decrease_factor a <= c_rate (load a st) * 1) by (apply Qmult_le_l; lra).
  unfold congest. rewrite (proj2 (Qltb_false _ _) Href).
  rewrite (proj2 (Qltb_true _ (latency_floor a))) by lra.
  destruct (Qeq_bool (latency_floor a) (c_rate (load a st))) eqn:E; simpl.
  - apply Qeq_bool_iff in E. lra.
  - split_and!; done || lra.
Qed.

(** [p95] is one of the recorded latencies, and at least 95% of them are at
    or below it. *)
Theorem percentile95_rank l :
  l <> [] -> exists p, percentile95 l = Some p /\ p ∈ l /\
  (95 # 100) * inject_Z (Z.of_nat (length l)) <=
    inject_Z (Z.of_nat (length (filter (λ y : Q, (y <= p)%Q) l))).
Proof.
  intros Hne. assert (0 < length l)%nat as Hlen by (destruct l; [done|simpl; lia]).
  destruct (p95_index_bounds (length l) Hlen) as [Hi1 Hi2].
  assert (length (sort_nums l) = length l) as Hsl by by rewrite sort_nums_perm.
  destruct (lookup_lt_is_Some_2 (sort_nums l) (p95_index (length l) - 1)) as [p Hp]; [lia|].
  exists p. split; [done|]. split.
  { rewrite <- sort_nums_perm. by eapply list_elem_of_lookup_2. }
  pose proof (ascending_rank _ (sort_nums_ascending l) _ _ Hp) as Hrank.
  rewrite sort_nums_perm in Hrank.
  pose proof (Qle_ceiling ((95 # 100) * inject_Z (Z.of_nat (length l)))) as Hceil.
  unfold p95_index in *. set (c := Qceiling _) in *.
  assert (inject_Z c <= inject_Z (Z.of_nat (length (filter (λ y : Q, (y <= p)%Q) l)))) as Hc
    by (rewrite <- Zle_Qle; lia).
  lra.
Qed.

(** ** Witnesses *)

Definition w_aimd (slo : Q) : aimd_args :=
  {| min_rate := 1; max_rate := 10; decrease_factor := 7 # 10; increase_step := 1;
     increase_after := 2; refractory_ms := 1000; latency_slo_ms := slo; ring_size := 5;
     min_samples := 1; latency_floor := 5 |}.

Lemma w_aimd_ok slo : args_ok (w_aimd slo).
Proof. split; simpl; by vm_compute. Qed.

Definition w_state (rate : Q) : aimd :=
  {| ctl := Some {| c_rate := rate; c_successes := 0; c_last_dec := 0 |}; ring := [] |}.

Lemma aimd_moves_witness :
  let '(st', _) := aimd_lua (w_aimd 0) aimd_congestion 5000 (w_state 10) in
  the_rate (w_aimd 0) st' == Qmax 1 (10 * (7 # 10)).
Proof.
  pose proof (aimd_moves (w_aimd 0) aimd_congestion 5000 (w_state 10) (w_aimd_ok 0)
    ltac:(split; by vm_compute)) as Hm.
  destruct (aimd_lua _ _ _ _) as [st' v]. destruct Hm as (_ & _ & Hm). exact Hm.
Defined.

Lemma aimd_burst_is_one_cut_witness :
  the_rate (w_aimd 0) (run_aimd (w_aimd 0) [(aimd_congestion, 5000); (aimd_congestion, 5100)]
    (w_state 10)) == Qmax 1 (10 * (7 # 10)).
Proof.
  apply (aimd_burst_is_one_cut (w_aimd 0) 5000 [5100] (w_state 10) (w_aimd_ok 0));
    [split; by vm_compute|by vm_compute|by repeat constructor].
Defined.

Lemma aimd_climbs_back_witness :
  Qmin 10 (7 + 2 * 1) <= the_rate (w_aimd 0)
    (run_aimd (w_aimd 0) (repeat (aimd_success 20, 5000) 4) (w_state 7)).
Proof.
  apply (aimd_climbs_back (w_aimd 0) 2 5000 20 (w_state 7) (w_aimd_ok 0)); [done|split; by vm_compute|done].
Defined.

Lemma latency_breach_raises_witness :
  let '(st', v) := on_success (w_aimd 1000) 3000 5000 (w_state 1) in
  1 < the_rate (w_aimd 1000) st' /\ rv_reason v = r_decrease_latency.
Proof.
  pose proof (latency_breach_raises (w_aimd 1000) 5000 3000 (w_state 1) (w_aimd_ok 1000)
    ltac:(split; by vm_compute) ltac:(by vm_compute) ltac:(by vm_compute) ltac:(by vm_compute)) as Hl.
  destruct (on_success _ _ _ _) as [st' v]. destruct Hl as (Hl & _ & Hw & _). by split.
Defined.

Lemma percentile95_rank_witness : exists p, percentile95 [30; 10; 20] = Some p /\ p ∈ [30; 10; 20].
Proof.
  destruct (percentile95_rank [30; 10; 20]) as (p & Hp & Hin & _); [done|]. by exists p.
Defined.
