(* ===== verification/Retry.v ===== *)
(** * Error classification and backoff ([app/ratelimit/retry.py])

    [classify], the server's guidance read from the response headers (with the
    part of [float()] that reads them), and the jittered backoff.  Theorems: the
    classification table, and the bounds of the delay. *)

From S2P Require Import Prelude Py.
From Stdlib Require Import Ascii QArith Qminmax Lqa.

(** ** Classification *)

Definition RETRYABLE_STATUSES : list Z := [408; 425; 429; 500; 502; 503; 504]%Z.

Inductive Disposition := RETRY | PERMANENT | SATURATED | CIRCUIT_OPEN.

#[export] Instance Disposition_eq_dec : EqDecision Disposition.
Proof. solve_decision. Defined.

Definition classify (e : exn) : Disposition :=
  match e with
  | CircuitOpen _ _ => CIRCUIT_OPEN
  | RateLimitTimeout _ _ _ => SATURATED
  | HTTPStatusError code _ =>
      if bool_decide (code ∈ RETRYABLE_STATUSES) then RETRY else PERMANENT
  | TimeoutException | TransportError => RETRY
  | _ => PERMANENT
  end.

(** ** [float(s)]

    A finite decimal number, or one of the special values. *)

Inductive pyfloat := Finite (q : Q) | Infinite (negative : bool) | NaN.

(** Digits, with single underscores between them; the value, how many there
    were, and the rest.  [None] after a dangling underscore. *)
Fixpoint scan_digits (acc : N) (n : nat) (after_digit : bool) (s : string)
  : option (N * nat * string) :=
  match s with
  | EmptyString => if after_digit || (n =? 0)%nat then Some (acc, n, s) else None
  | String c s' =>
      if is_digit c then scan_digits (10 * acc + digit_value c)%N (S n) true s'
      else if Ascii.eqb c "_"%char && after_digit then scan_digits acc n false s'
      else if after_digit || (n =? 0)%nat then Some (acc, n, s) else None
  end.

Definition split_sign (s : string) : bool * string :=
  match s with
  | String "-"%char s' => (true, s')
  | String "+"%char s' => (false, s')
  | _ => (false, s)
  end.

Definition exponent (s : string) : option Z :=
  match s with
  | EmptyString => Some 0%Z
  | String c s' =>
      if Ascii.eqb c "e"%char || Ascii.eqb c "E"%char then
        let '(negative, s') := split_sign s' in
        match scan_digits 0 0%nat false s' with
        | Some (e, S _, EmptyString) => Some (if negative then - Z.of_N e else Z.of_N e)%Z
        | _ => None
        end
      else None
  end.

Definition decimal (s : string) : option Q :=
  match scan_digits 0 0%nat false s with
  | None => None
  | Some (ip, ni, r) =>
      let '(fp, nf, r) :=
        match r with
        | String "."%char r' =>
            match scan_digits 0 0%nat false r' with
            | Some (fp, nf, r'') => (fp, nf, r'')
            | None => (0%N, 0%nat, String "?"%char EmptyString)
            end
        | _ => (0%N, 0%nat, r)
        end in
      if (ni + nf =? 0)%nat then None
      else e ← exponent r;
           Some (inject_Z (Z.of_N ip * 10 ^ Z.of_nat nf + Z.of_N fp) * (10 ^ (e - Z.of_nat nf)))%Q
  end.

Definition lower_char (c : Ascii.ascii) : Ascii.ascii :=
  if ((65 <=? ascii_code c) && (ascii_code c <=? 90))%N
  then Ascii.ascii_of_N (ascii_code c + 32) else c.
Fixpoint lower (s : string) : string :=
  match s with EmptyString => EmptyString | String c s' => String (lower_char c) (lower s') end.

Definition py_float (s : string) : option pyfloat :=
  let '(negative, body) := split_sign (strip s) in
  let word := lower body in
  if (word =? "inf")%string || (word =? "infinity")%string then Some (Infinite negative)
  else if (word =? "nan")%string then Some NaN
  else (λ q, Finite (if negative then - q else q)%Q) <$> decimal body.

(** ** The server's hint, in milliseconds *)

Inductive wait := Ms (q : Q) | Forever.

(** [max(0.0, x)]; [nan] compares false, so [max] keeps [0.0]. *)
Definition at_least_zero (x : pyfloat) : wait :=
  match x with
  | Finite q => Ms (Qmax 0 q)
  | Infinite true | NaN => Ms 0
  | Infinite false => Forever
  end.

Definition times_1000 (x : pyfloat) : pyfloat :=
  match x with Finite q => Finite (q * 1000) | _ => x end.

(** Header names are looked up in lower case. *)
Definition retry_after_ms (e : exn) : option wait :=
  match e with
  | HTTPStatusError _ headers =>
      match headers !! "x-retry-after-ms" ≫= py_float with
      | Some x => Some (at_least_zero x)
      | None =>
          match headers !! "retry-after" with
          | Some s => at_least_zero ∘ times_1000 <$> py_float s
          | None => None
          end
      end
  | _ => None
  end.

(** ** Backoff *)

(** [rng.uniform(a, b)] for a draw [u] of [rng.random()]. *)
Definition uniform (u a b : Q) : Q := a + (b - a) * u.

Definition wait_max (a : Q) (h : wait) : wait :=
  match h with Ms q => Ms (Qmax a q) | Forever => Forever end.
Definition wait_plus (h : wait) (b : Q) : wait :=
  match h with Ms q => Ms (q + b) | Forever => Forever end.
Definition wait_s (h : wait) : wait := match h with Ms q => Ms (q / 1000) | Forever => Forever end.

Definition backoff_ceiling_ms (attempt : nat) (base_ms max_ms : Q) : Q :=
  Qmin max_ms (base_ms * inject_Z (2 ^ Z.of_nat attempt)).

(** The delay in seconds, for two draws. *)
Definition backoff_delay_s (attempt : nat) (base_ms max_ms : Q) (hint : option wait) (u1 u2 : Q)
  : wait :=
  let delay_ms := uniform u1 0 (backoff_ceiling_ms attempt base_ms max_ms) in
  wait_s (match hint with
          | None => Ms delay_ms
          | Some h => wait_plus (wait_max delay_ms h) (uniform u2 0 base_ms)
          end).

(** ** Lemmas *)

Lemma uniform_bounds u b : 0 <= u <= 1 -> 0 <= b -> 0 <= uniform u 0 b <= b.
Proof.
  intros [H1 H2] Hb. unfold uniform. assert (b - 0 == b) as -> by ring.
  assert (0 <= b * u) by (by apply Qmult_le_0_compat).
  assert (b * u <= b * 1) by (rewrite !(Qmult_comm b); by apply Qmult_le_compat_r). lra.
Qed.

Lemma ceiling_bounds attempt base_ms max_ms :
  0 <= base_ms -> 0 <= max_ms ->
  0 <= backoff_ceiling_ms attempt base_ms max_ms <= max_ms.
Proof.
  intros Hb Hm. unfold backoff_ceiling_ms. split; [|apply Q.le_min_l].
  apply Q.min_glb; [done|]. apply Qmult_le_0_compat; [done|].
  unfold Qle, inject_Z. simpl. pose proof (Z.pow_nonneg 2 (Z.of_nat attempt) ltac:(lia)). lia.
Qed.

(** ** Properties *)

(** which failures are retried in place.  Exactly the transport failures,
    the timeouts and the listed statuses are; the two verdicts on the system
    (no token, circuit open) and everything unrecognised are not. *)
Theorem classify_table e :
  (classify e = RETRY <->
     e = TimeoutException \/ e = TransportError \/
     exists code h, e = HTTPStatusError code h /\ code ∈ RETRYABLE_STATUSES) /\
  (classify e = SATURATED <-> exists ep r w, e = RateLimitTimeout ep r w) /\
  (classify e = CIRCUIT_OPEN <-> exists ep r, e = CircuitOpen ep r).
Proof.
  split_and!.
  - split.
    + destruct e; simpl; try done; [|auto..]. case_bool_decide; [eauto 8|done].
    + intros [->|[->|(code & h & -> & Hin)]]; [done..|]. simpl. by rewrite bool_decide_true.
  - split; [|by intros (? & ? & ? & ->)].
    destruct e; simpl; try done; [eauto|]. by case_bool_decide.
  - split; [|by intros (? & ? & ->)].
    destruct e; simpl; try done; [eauto|]. by case_bool_decide.
Qed.

(** the backoff is bounded and respects the server.  With draws in [0, 1],
    the delay is never negative; without a hint it is at most [max_ms]; a hint is
    a floor, and adds at most the base to the larger of the two - no cap applies
    to the hint itself. *)
Theorem backoff_bounds attempt base_ms max_ms hint u1 u2 :
  0 <= base_ms -> 0 <= max_ms -> 0 <= u1 <= 1 -> 0 <= u2 <= 1 ->
  match hint, backoff_delay_s attempt base_ms max_ms hint u1 u2 with
  | None, Ms d => 0 <= d * 1000 /\ d * 1000 <= Qmin max_ms (base_ms * inject_Z (2 ^ Z.of_nat attempt))
  | Some (Ms h), Ms d => h <= d * 1000 /\ d * 1000 <= Qmax max_ms h + base_ms
  | Some Forever, Forever => True
  | _, _ => False
  end.
Proof.
  intros Hb Hm Hu1 Hu2. unfold backoff_delay_s.
  pose proof (ceiling_bounds attempt base_ms max_ms Hb Hm) as [Hc1 Hc2].
  pose proof (uniform_bounds u1 _ Hu1 Hc1) as [Hd1 Hd2].
  pose proof (uniform_bounds u2 _ Hu2 Hb) as [Hj1 Hj2].
  set (d := uniform u1 0 _) in *. set (j := uniform u2 0 _) in *.
  assert (forall x, x / 1000 * 1000 == x) as Hx by (intros; field).
  destruct hint as [[h|]|]; simpl; [rewrite Hx|done|rewrite Hx; by split].
  split.
  - pose proof (Q.le_max_r d h). lra.
  - assert (Qmax d h <= Qmax max_ms h); [|lra].
    apply Q.max_lub; [|apply Q.le_max_r]. pose proof (Q.le_max_l max_ms h). lra.
Qed.

(** reading the server's hint.  The precise header wins when it parses; the
    other one counts in seconds; neither can produce a negative wait. *)
Theorem retry_after_hint code headers h :
  retry_after_ms (HTTPStatusError code headers) = Some h ->
  (exists s x, headers !! "x-retry-after-ms" = Some s /\ py_float s = Some x /\ h = at_least_zero x) \/
  (headers !! "x-retry-after-ms" ≫= py_float = None /\
   exists s x, headers !! "retry-after" = Some s /\ py_float s = Some x /\
     h = at_least_zero (times_1000 x)).
Proof.
  simpl. destruct (headers !! "x-retry-after-ms") as [s|] eqn:E1; simpl.
  - destruct (py_float s) as [x|] eqn:Ex; [intros [= <-]; left; eauto|].
    intros Hr. right. split; [done|]. destruct (headers !! "retry-after") as [s'|]; [|done].
    destruct (py_float s') as [x|] eqn:Ex'; [|done]. injection Hr as <-. eauto.
  - intros Hr. right. split; [done|]. destruct (headers !! "retry-after") as [s'|]; [|done].
    destruct (py_float s') as [x|] eqn:Ex'; [|done]. injection Hr as <-. eauto.
Qed.

Example float_examples :
  py_float " 33.5 " = Some (Finite ((335 # 1) * (10 ^ (-1)))) /\ py_float "1e3" = Some (Finite ((1 # 1) * (10 ^ 3))) /\
  py_float "Wed, 21 Oct" = None /\ py_float "-inf" = Some (Infinite true) /\ py_float "1_0" = Some (Finite ((10 # 1) * (10 ^ 0))) /\
  py_float "1__0" = None /\ py_float "." = None /\ py_float "_1" = None /\ py_float "1_" = None.
Proof. vm_compute. done. Qed.

(** ** Witnesses *)

Lemma backoff_bounds_witness :
  match backoff_delay_s 2 200 5000 None (1 # 2) 0 with
  | Ms d => 0 <= d * 1000 /\ d * 1000 <= Qmin 5000 (200 * 4) | Forever => False end.
Proof.
  apply (backoff_bounds 2 200 5000 None (1 # 2) 0); (split; by vm_compute) || by vm_compute.
Defined.

Lemma retry_after_hint_witness :
  exists s x, ({["x-retry-after-ms" := "33"]} : gmap string string) !! "x-retry-after-ms" = Some s /\
    py_float s = Some x /\ Ms (Qmax 0 ((33 # 1) * (10 ^ 0))) = at_least_zero x.
Proof.
  destruct (retry_after_hint 429 {["x-retry-after-ms" := "33"]} (Ms (Qmax 0 ((33 # 1) * (10 ^ 0)))))
    as [Hs|[Hn _]]; [reflexivity|exact Hs|discriminate Hn].
Defined.
