(* ===== verification/Client.v ===== *)
(** * Model client ([app/worker/client.py])

    [_post] - the four gates in order, then the report of the outcome - and
    [_post_with_retries], as programs over the services they use.  [Gates] is
    the interface of those services; [gates_lab] implements it with the
    breaker, bucket and controller of this development and a scripted endpoint.
    Theorems: the attempts are bounded and identical, a closed gate sends
    nothing and is not retried, every request's outcome is reported once, and
    the probe slot a refused token leaks. *)

From S2P Require Import Prelude Py Prog TokenBucket Breaker Adaptive Retry.
From Stdlib Require Import QArith Lqa.

(** ** Requests *)

Record request := {
  rq_path : string; rq_job_id : string; rq_page_index : Z; rq_page_ref : option string;
  rq_page : option string; rq_idempotency_key : string }.

Definition LAYOUT_PATH : string := "/v1/predict/layout".
Definition VLM_PATH : string := "/v1/predict/vlm".
Definition LAYOUT : string := "layout".
Definition VLM : string := "vlm".

(** What the client does besides calling services: its counters and metrics. *)
Inductive client_event :=
| ev_rate_limit_wait (stage : string) (seconds : Q)
| ev_model_call (stage outcome : string)
| ev_retry (stage : string)
| ev_retry_success (stage : string).

(** The metric's label, bucketed so that the label set stays bounded. *)
Definition outcome_label (e : exn) : string :=
  match e with
  | HTTPStatusError code _ =>
      if (code =? 429)%Z then "429" else "http_" +:+ py_str (code / 100) +:+ "xx"
  | TimeoutException => "timeout"
  | _ => "error"
  end.

(** ** The services *)

Class Gates (W response : Type) := {
  g_breaker : string -> breaker_op -> W -> W * verdict;
  g_rate : string -> W -> W * Q;
  g_success : string -> Q -> W -> W;
  g_congestion : string -> W -> W;
  (** [acquire] up to its sleep: the seconds to sleep, or [RateLimitTimeout]. *)
  g_acquire : string -> Q -> option Q -> W -> result Q * W;
  (** POST and [raise_for_status]. *)
  g_post : request -> W -> result response * W;
  g_sleep : wait -> W -> W;
  g_note : client_event -> W -> W;
  (** [time.monotonic()], and the draws of [random]. *)
  g_mono : W -> Q;
  g_draw : W -> W * Q }.

Record client := {
  cl_has_breaker : string -> bool; cl_has_controller : string -> bool;
  cl_has_limiter : string -> bool;
  cl_max_wait_s : Q; cl_max_attempts : nat; cl_backoff_base_ms : Q; cl_backoff_max_ms : Q }.

Section client.
Context {W response value : Type} `{Gates W response}.
(** [hashlib.sha256(s).hexdigest()] and [response.json()]. *)
Context (sha256_hex : string -> string) (json : response -> result value).
Context (c : client).

Definition idempotency_key (job_id : string) (page_index : Z) (stage : string) : string :=
  String.substring 0 32 (sha256_hex (job_id +:+ ":" +:+ py_str page_index +:+ ":" +:+ stage)).

Definition make_request (path stage job_id : string) (page_index : Z) (page_ref page : option string)
  : request :=
  {| rq_path := path; rq_job_id := job_id; rq_page_index := page_index; rq_page_ref := page_ref;
     rq_page := page; rq_idempotency_key := idempotency_key job_id page_index stage |}.

(** [if cond: p] *)
Definition when (b : bool) (p : prog W unit) : prog W unit := if b then p else Ret tt.

Definition is_congestion (e : exn) : bool :=
  match e with
  | HTTPStatusError code _ => (code =? 429)%Z
  | TimeoutException => true
  | _ => false
  end.

(** The [except BaseException] of [_post]. *)
Definition report_failure (stage : string) (e : exn) : prog W unit :=
  do! note (g_note (ev_model_call stage (outcome_label e))) in
  do! when (cl_has_controller c stage && is_congestion e) (act (g_congestion stage)) in
  when (cl_has_breaker c stage && negb (bool_decide (classify e = SATURATED)))
    (do! call (g_breaker stage op_failure) in Ret tt).

Definition check_breaker (stage : string) : prog W unit :=
  when (cl_has_breaker c stage)
    (let! v := call (g_breaker stage op_allow) in
     if v_allowed v then Ret tt else Raise (CircuitOpen stage (retry_after_s v))).

Definition setpoint (stage : string) : prog W (option Q) :=
  if cl_has_controller c stage then (let! r := call (g_rate stage) in Ret (Some r)) else Ret None.

Definition take_token (stage : string) (rate : option Q) : prog W unit :=
  when (cl_has_limiter c stage)
    (let! waited := step (g_acquire stage (cl_max_wait_s c) rate) in
     do! when (Qltb 0 waited)
           (do! act (g_sleep (Ms waited)) in note (g_note (ev_rate_limit_wait stage waited))) in
     Ret tt).

Definition _post (path stage job_id : string) (page_index : Z) (page_ref page : option string)
  : prog W value :=
  do! check_breaker stage in
  let! rate := setpoint stage in
  do! take_token stage rate in
  let! started := sample g_mono in
  let! resp := catch (step (g_post (make_request path stage job_id page_index page_ref page)))
                 (λ e, do! report_failure stage e in Raise e) in
  do! note (g_note (ev_model_call stage "success")) in
  do! when (cl_has_controller c stage)
        (act (λ w, g_success stage ((g_mono w - started) * 1000) w)) in
  do! when (cl_has_breaker c stage) (do! call (g_breaker stage op_success) in Ret tt) in
  of_result (json resp).

(** The [except BaseException] of the retry loop: [None] is another round. *)
Definition retry_handler (stage : string) (attempt : nat) (e : exn) : prog W (option value) :=
  match classify e with
  | SATURATED | CIRCUIT_OPEN | PERMANENT => Raise e
  | RETRY =>
      if (attempt =? cl_max_attempts c - 1)%nat then Raise e
      else
        let! u1 := own g_draw in
        let! u2 := own g_draw in
        do! note (g_note (ev_retry stage)) in
        do! act (g_sleep (backoff_delay_s attempt (cl_backoff_base_ms c) (cl_backoff_max_ms c)
                            (retry_after_ms e) u1 u2)) in
        Ret None
  end.

(** The retry loop; [n] attempts are left, [attempt] have been made. *)
Fixpoint retry_loop (path stage job_id : string) (page_index : Z) (page_ref page : option string)
  (n attempt : nat) : prog W value :=
  match n with
  | O => Raise (RuntimeError "retry loop fell through")
  | S n' =>
      let! out :=
        catch (let! v := _post path stage job_id page_index page_ref page in
               do! when (0 <? attempt)%nat (note (g_note (ev_retry_success stage))) in
               Ret (Some v))
          (retry_handler stage attempt) in
      match out with
      | Some v => Ret v
      | None => retry_loop path stage job_id page_index page_ref page n' (S attempt)
      end
  end.

Definition _post_with_retries (path stage job_id : string) (page_index : Z)
  (page_ref page : option string) : prog W value :=
  retry_loop path stage job_id page_index page_ref page (cl_max_attempts c) 0.

Definition layout (job_id : string) (page_index : Z) (page_ref page : option string) :=
  _post_with_retries LAYOUT_PATH LAYOUT job_id page_index page_ref page.
Definition vlm (job_id : string) (page_index : Z) (page_ref page : option string) :=
  _post_with_retries VLM_PATH VLM job_id page_index page_ref page.
End client.

(** ** What the services promise

    Two ghost logs of the calling coroutine: the requests it sent and the
    operations it performed on the breaker. *)

Class GatesLaws (W response : Type) `{Gates W response} := {
  sent : W -> list request;
  reported : W -> list (string * breaker_op);
  law_post rq w : sent (g_post rq w).2 = sent w ++ [rq] /\ reported (g_post rq w).2 = reported w;
  law_post_error rq w e : (g_post rq w).1 = inl e -> classify e = RETRY \/ classify e = PERMANENT;
  law_breaker s op w :
    sent (g_breaker s op w).1 = sent w /\ reported (g_breaker s op w).1 = reported w ++ [(s, op)];
  law_rate s w : sent (g_rate s w).1 = sent w /\ reported (g_rate s w).1 = reported w;
  law_success s x w : sent (g_success s x w) = sent w /\ reported (g_success s x w) = reported w;
  law_congestion s w : sent (g_congestion s w) = sent w /\ reported (g_congestion s w) = reported w;
  law_acquire s m r w : sent (g_acquire s m r w).2 = sent w /\ reported (g_acquire s m r w).2 = reported w;
  law_acquire_error s m r w e : (g_acquire s m r w).1 = inl e -> classify e = SATURATED;
  law_sleep x w : sent (g_sleep x w) = sent w /\ reported (g_sleep x w) = reported w;
  law_note x w : sent (g_note x w) = sent w /\ reported (g_note x w) = reported w;
  law_draw w : sent (g_draw w).1 = sent w /\ reported (g_draw w).1 = reported w
}.

Section laws.
Context {W response value : Type} `{GatesLaws W response}.
Context (sha256_hex : string -> string) (json : response -> result value) (c : client).
Context (rely : W -> W -> Prop) (fault : exn -> Prop).
(** The other coroutines have logs of their own. *)
Context (Hrely : forall w w', rely w w' -> sent w' = sent w /\ reported w' = reported w).

Section keep_log.
Context (P inv : W -> Prop) (Hinv : forall w, P w -> inv w).
Context (HP : forall w w', sent w' = sent w -> reported w' = reported w -> P w -> P w').

(** A law, as preservation of [P]. *)
Ltac same_log law := let w := fresh "w" in let Hw := fresh in
  intros w Hw; eapply HP; [apply law|apply law|exact Hw].

Lemma P_rely w w' : rely w w' -> P w -> P w'.
Proof using Hrely HP. intros Hr. destruct (Hrely _ _ Hr). by apply HP. Qed.

Local Abbreviation kept := (keeps rely fault inv P).

Lemma keeps_when b p : kept p -> kept (when b p).
Proof using Type. destruct b; [done|]. intros _. apply keeps_ret. Qed.

Lemma keeps_setpoint stage : kept (setpoint c stage).
Proof using Hrely Hinv HP.
  unfold setpoint. destruct (cl_has_controller c stage); [|apply keeps_ret].
  apply keeps_bind; [|intros; apply keeps_ret].
  apply keeps_call; [apply P_rely|exact Hinv|same_log law_rate].
Qed.

Lemma keeps_sleep x : kept (act (g_sleep x)).
Proof using Hrely Hinv HP. apply keeps_act; [apply P_rely|exact Hinv|same_log law_sleep]. Qed.

Lemma keeps_g_note ev : kept (note (g_note ev)).
Proof using HP. apply keeps_note. same_log law_note. Qed.

Lemma keeps_draw : kept (own g_draw).
Proof using HP. apply keeps_own. same_log law_draw. Qed.

Lemma keeps_token stage rate : kept (take_token c stage rate).
Proof using Hrely Hinv HP.
  apply keeps_when, keeps_bind.
  { apply keeps_step; [apply P_rely|exact Hinv|same_log law_acquire]. }
  intros s. apply keeps_bind; [|intros; apply keeps_ret]. apply keeps_when, keeps_bind.
  { apply keeps_sleep. }
  intros _. apply keeps_g_note.
Qed.

Lemma keeps_congestion stage e :
  kept (do! note (g_note (ev_model_call stage (outcome_label e))) in
        when (cl_has_controller c stage && is_congestion e) (act (g_congestion stage))).
Proof using Hrely Hinv HP.
  apply keeps_bind; [apply keeps_g_note|intros _].
  apply keeps_when, keeps_act; [apply P_rely|exact Hinv|same_log law_congestion].
Qed.

Lemma keeps_on_success stage started :
  kept (do! note (g_note (ev_model_call stage "success")) in
        when (cl_has_controller c stage)
          (act (λ w, g_success stage ((g_mono w - started) * 1000) w))).
Proof using Hrely Hinv HP.
  apply keeps_bind; [apply keeps_g_note|intros _].
  apply keeps_when, keeps_act; [apply P_rely|exact Hinv|same_log law_success].
Qed.

(** Programs that also report to the breaker. *)
Context (HB : forall s op w, P w -> P (g_breaker s op w).1).

Lemma keeps_breaker s op : kept (call (g_breaker s op)).
Proof using Hrely Hinv HP HB. apply keeps_call; [apply P_rely|exact Hinv|apply HB]. Qed.

Lemma keeps_report stage e : kept (report_failure c stage e).
Proof using Hrely Hinv HP HB.
  unfold report_failure. apply keeps_bind; [apply keeps_g_note|intros _; apply keeps_bind].
  - apply keeps_when, keeps_act; [apply P_rely|exact Hinv|same_log law_congestion].
  - intros _. apply keeps_when, keeps_bind; [apply keeps_breaker|]. intros _. apply keeps_ret.
Qed.

Lemma keeps_check stage : kept (check_breaker c stage).
Proof using Hrely Hinv HP HB.
  apply keeps_when, keeps_bind; [apply keeps_breaker|].
  intros v. destruct (v_allowed v); [apply keeps_ret|apply keeps_raise].
Qed.

(** Everything after the request. *)
Lemma keeps_outcome stage started (resp : response) :
  kept
    (do! note (g_note (ev_model_call stage "success")) in
     do! when (cl_has_controller c stage)
           (act (λ w, g_success stage ((g_mono w - started) * 1000) w)) in
     do! when (cl_has_breaker c stage) (do! call (g_breaker stage op_success) in Ret tt) in
     of_result (json resp)).
Proof using Hrely Hinv HP HB.
  apply keeps_bind; [apply keeps_g_note|intros _].
  apply keeps_bind; [apply keeps_when, keeps_act|intros _].
  { apply P_rely. } { exact Hinv. } { same_log law_success. }
  apply keeps_bind; [apply keeps_when, keeps_bind; [apply keeps_breaker|]|].
  { intros. apply keeps_ret. }
  intros _. apply keeps_of_result.
Qed.
End keep_log.

Definition sent_is (l : list request) (w : W) : Prop := sent w = l.

Lemma sent_is_log l w w' : sent w' = sent w -> reported w' = reported w -> sent_is l w -> sent_is l w'.
Proof using Type. unfold sent_is. congruence. Qed.

Lemma sent_is_breaker l s op w : sent_is l w -> sent_is l (g_breaker s op w).1.
Proof using Type. unfold sent_is. intros <-. apply law_breaker. Qed.

Lemma sent_rely l w w' : rely w w' -> sent_is l w -> sent_is l w'.
Proof using Hrely. intros Hr. by destruct (Hrely _ _ Hr) as [Hs _]; unfold sent_is; rewrite Hs. Qed.

#[local] Hint Resolve sent_is_log sent_is_breaker : core.

(** ** The attempts of one call *)

Context (path stage job_id : string) (page_index : Z) (page_ref page : option string).
Let rq := make_request sha256_hex path stage job_id page_index page_ref page.
Context (l0 : list request).

(** At most [n] requests sent so far, all of them this one. *)
Definition sent_at_most (n : nat) (w : W) : Prop :=
  exists k, (k <= n)%nat /\ sent_is (l0 ++ repeat rq k) w.

Lemma sent_at_most_le n m w : (n <= m)%nat -> sent_at_most n w -> sent_at_most m w.
Proof using Type. intros Hnm (k & Hk & Hw). exists k. split; [lia|done]. Qed.

Lemma post_sent n w : sent_at_most n w ->
  wp rely fault (sent_at_most (S n))
    (_post sha256_hex json c path stage job_id page_index page_ref page)
    (λ _ w', sent_at_most (S n) w') w.
Proof using Hrely.
  intros (k & Hk & Hw).
  assert (forall k' w', (k' <= S n)%nat -> sent_is (l0 ++ repeat rq k') w' -> sent_at_most (S n) w') as Hle
    by (intros k' w' ? ?; by exists k').
  assert (forall w, sent_is (l0 ++ repeat rq k) w -> sent_at_most (S n) w) as Hk1 by (intros; apply (Hle k); [lia|done]).
  assert (forall w, sent_is (l0 ++ repeat rq (S k)) w -> sent_at_most (S n) w) as Hk2 by (intros; apply (Hle (S k)); [lia|done]).
  unfold _post. apply wp_bind. eapply wp_mono; [|by apply (keeps_check _ _ Hk1); eauto].
  intros [e|[]] w1 Hw1; [auto|]. apply wp_bind. eapply wp_mono; [|by apply (keeps_setpoint _ _ Hk1); eauto].
  intros [e|rate] w2 Hw2; [auto|]. apply wp_bind. eapply wp_mono; [|by apply (keeps_token _ _ Hk1); eauto].
  intros [e|[]] w3 Hw3; [auto|]. apply wp_bind. cbn [wp sample own fst snd]. apply wp_bind, wp_catch.
  intros w4 Hr. apply (sent_rely _ _ _ Hr) in Hw3.
  assert (sent_is (l0 ++ repeat rq (S k)) (g_post rq w4).2) as Hw5.
  { unfold sent_is in *. rewrite (proj1 (law_post rq w4)), Hw3, <- (assoc_L (++)).
    f_equal. by rewrite <- repeat_cons. }
  fold rq. set (Q := λ x : result response, _).
  assert (forall l e w', (forall w, sent_is l w -> sent_at_most (S n) w) -> sent_is l w' ->
    Q (inl e) w') as Herr.
  { intros l e w' Hl Hw'. unfold Q. apply wp_bind.
    eapply wp_mono; [|apply (keeps_report (sent_is l) _ Hl); eauto].
    intros [e'|[]] w6 Hw6; simpl; auto. }
  destruct (g_post rq w4) as [[e|resp] w5]; cbn [fst snd of_result wp] in *.
  - split_and!; [auto|by apply (Herr _ _ _ Hk2)|]. intros e' _.
    split_and!; [auto|by apply (Herr _ _ _ Hk1)|by apply (Herr _ _ _ Hk2)].
  - split_and!; [auto| |].
    + unfold Q. eapply wp_mono; [|by apply (keeps_outcome _ _ Hk2); eauto]. auto.
    + intros e' _. split_and!; [auto|by apply (Herr _ _ _ Hk1)|by apply (Herr _ _ _ Hk2)].
Qed.

Lemma retries_sent n : forall attempt k w, sent_at_most k w ->
  wp rely fault (sent_at_most (k + n))
    (retry_loop sha256_hex json c path stage job_id page_index page_ref page n attempt)
    (λ _ w', sent_at_most (k + n) w') w.
Proof using Hrely.
  induction n as [|n IH]; intros attempt k w Hw; cbn [retry_loop].
  { cbn. eapply sent_at_most_le; [|exact Hw]. lia. }
  assert (forall w, sent_at_most (S k) w -> sent_at_most (k + S n) w) as Hle
    by (intros; eapply sent_at_most_le; [|done]; lia).
  apply wp_bind. eapply (wp_weaken _ _ (sent_at_most (S k))); [done|].
  apply (wp_mono _ _ _ _ (λ _ w', sent_at_most (S k) w')).
  { intros [e|[v|]] w' Hw'; cbn [wp]; [by apply Hle..|].
    replace (k + S n)%nat with (S k + n)%nat by lia. by apply IH. }
  assert (forall w w', rely w w' -> sent_at_most (S k) w -> sent_at_most (S k) w') as Hr.
  { intros w1 w2 Hr (k' & Hk' & Hw1). exists k'. split; [done|]. by eapply sent_rely. }
  assert (forall (f : W -> W), (forall w, sent (f w) = sent w) ->
    forall w, sent_at_most (S k) w -> sent_at_most (S k) (f w)) as Hf.
  { intros f Hf w1 (k' & Hk' & Hw1). exists k'. split; [done|]. unfold sent_is. by rewrite Hf. }
  apply wp_catch. set (Q := λ x : result (option value), _).
  assert (forall e w1, sent_at_most (S k) w1 -> Q (inl e) w1) as He.
  { intros e w1 Hw1. unfold Q, retry_handler. destruct (classify e); try exact Hw1.
    destruct (_ =? _)%nat; [exact Hw1|].
    revert w1 Hw1. apply (keeps_bind rely fault _ (sent_at_most (S k))).
    { apply keeps_own. apply (Hf (λ w, (g_draw w).1)). intros; apply law_draw. }
    intros u1. apply keeps_bind.
    { apply keeps_own. apply (Hf (λ w, (g_draw w).1)). intros; apply law_draw. }
    intros u2. apply keeps_bind; [apply keeps_note, Hf; intros; apply law_note|].
    intros _. apply keeps_bind; [|intros; apply keeps_ret].
    apply keeps_act; [exact Hr|done|]. apply Hf. intros; apply law_sleep. }
  apply wp_bind. eapply wp_mono; [|by apply post_sent]. intros [e|v] w1 Hw1; [by apply He|].
  destruct (0 <? attempt)%nat; cbn; [|exact Hw1]. apply (Hf (g_note (ev_retry_success stage))); [|done].
  intros; apply law_note.
Qed.
End laws.

(** ** The outcome of a call, without faults *)

Section outcome.
Context {W response value : Type} `{GatesLaws W response}.
Context (sha256_hex : string -> string) (json : response -> result value) (c : client).
Context (rely : W -> W -> Prop).
Context (Hrely : forall w w', rely w w' -> sent w' = sent w /\ reported w' = reported w).
Context (path stage job_id : string) (page_index : Z) (page_ref page : option string).
Let rq := make_request sha256_hex path stage job_id page_index page_ref page.
Let no_fault (_ : exn) : Prop := False.
Let any (_ : W) : Prop := True.

Definition log_is (l : list request) (o : list (string * breaker_op)) (w : W) : Prop :=
  sent w = l /\ reported w = o.

(** What is reported to the stage's breaker, if it has one. *)
Definition rep (ops : list breaker_op) : list (string * breaker_op) :=
  if cl_has_breaker c stage then pair stage <$> ops else [].

Lemma log_is_log l o w w' : sent w' = sent w -> reported w' = reported w -> log_is l o w -> log_is l o w'.
Proof using Type. unfold log_is. intros -> -> ?. done. Qed.

Lemma log_rely l o w w' : rely w w' -> log_is l o w -> log_is l o w'.
Proof using Hrely. intros Hr. destruct (Hrely _ _ Hr). by apply log_is_log. Qed.

Lemma log_breaker l o s op w : log_is l o w -> log_is l (o ++ [(s, op)]) (g_breaker s op w).1.
Proof using Type. intros [<- <-]. split; apply law_breaker. Qed.

(** A command that always replies and does not touch the logs. *)
Lemma wp_quiet_call {X} (f : W -> W * X) l o (Q : result X -> W -> Prop) w :
  (forall w, sent (f w).1 = sent w /\ reported (f w).1 = reported w) ->
  log_is l o w -> (forall x w', log_is l o w' -> Q (inr x) w') ->
  wp rely no_fault any (call f) Q w.
Proof using Hrely.
  intros Hf Hl HQ w1 Hr. apply (log_rely _ _ _ _ Hr) in Hl. specialize (Hf w1).
  destruct (f w1) as [w2 x]. split_and!; [done| |by intros e []].
  simpl in *. apply HQ. by eapply log_is_log; [apply Hf..|].
Qed.

Lemma wp_quiet_when b (f : W -> W) l o (Q : result unit -> W -> Prop) w :
  (forall w, sent (f w) = sent w /\ reported (f w) = reported w) ->
  log_is l o w -> (forall w', log_is l o w' -> Q (inr tt) w') ->
  wp rely no_fault any (when b (act f)) Q w.
Proof using Hrely.
  intros Hf Hl HQ. destruct b; [|by apply HQ]. eapply wp_quiet_call; [exact Hf|done|].
  intros [] w'. apply HQ.
Qed.

Lemma wp_setpoint l o (Q : result (option Q) -> W -> Prop) w :
  log_is l o w -> (forall x w', log_is l o w' -> Q (inr x) w') ->
  wp rely no_fault any (setpoint c stage) Q w.
Proof using Hrely.
  intros Hl HQ. unfold setpoint. destruct (cl_has_controller c stage); [|by apply HQ].
  apply wp_bind. eapply wp_quiet_call; [intros; apply law_rate|done|]. intros x w' Hw'. by apply HQ.
Qed.

Lemma wp_report_op op l o (Q : result unit -> W -> Prop) w :
  log_is l o w -> (forall w', log_is l (o ++ rep [op]) w' -> Q (inr tt) w') ->
  wp rely no_fault any
    (when (cl_has_breaker c stage) (do! call (g_breaker stage op) in Ret tt)) Q w.
Proof using Hrely.
  intros Hl HQ. unfold when, rep in *. destruct (cl_has_breaker c stage).
  - intros w1 Hr. apply (log_rely _ _ _ _ Hr), (log_breaker _ _ stage op) in Hl.
    destruct (g_breaker stage op w1) as [w2 v]. split_and!; [done|by apply HQ|by intros e []].
  - apply HQ. by rewrite (right_id_L [] (++)).
Qed.

Lemma wp_check_breaker l o (Q : result unit -> W -> Prop) w :
  log_is l o w ->
  (forall w', log_is l (o ++ rep [op_allow]) w' ->
     Q (inr tt) w' /\ forall e, classify e = CIRCUIT_OPEN -> Q (inl e) w') ->
  wp rely no_fault any (check_breaker c stage) Q w.
Proof using Hrely.
  intros Hl HQ. unfold check_breaker, when, rep in *. destruct (cl_has_breaker c stage).
  - intros w1 Hr. apply (log_rely _ _ _ _ Hr), (log_breaker _ _ stage op_allow) in Hl.
    destruct (g_breaker stage op_allow w1) as [w2 v]. split_and!; [done| |by intros e []].
    simpl in *. destruct (v_allowed v); by apply HQ.
  - apply HQ. by rewrite (right_id_L [] (++)).
Qed.

Lemma wp_take_token rate l o (Q : result unit -> W -> Prop) w :
  log_is l o w ->
  (forall w', log_is l o w' -> Q (inr tt) w' /\ forall e, classify e = SATURATED -> Q (inl e) w') ->
  wp rely no_fault any (take_token c stage rate) Q w.
Proof using Hrely.
  intros Hl HQ. unfold take_token, when at 1. destruct (cl_has_limiter c stage); [|by apply HQ].
  intros w1 Hr. apply (log_rely _ _ _ _ Hr) in Hl.
  assert (log_is l o (g_acquire stage (cl_max_wait_s c) rate w1).2) as Hl2
    by (eapply log_is_log; [apply law_acquire..|done]).
  pose proof (law_acquire_error stage (cl_max_wait_s c) rate w1) as He.
  destruct (g_acquire _ _ _ w1) as [[e|s] w2]; cbn [fst snd of_result pbind wp] in *.
  - split_and!; [done|by apply HQ, He|by intros e' []].
  - split_and!; [done| |by intros e' []]. apply wp_bind. unfold when.
    destruct (Qltb 0 s); [|by apply HQ]. intros w3 Hr3. apply (log_rely _ _ _ _ Hr3) in Hl2.
    split_and!; [done| |by intros e' []]. simpl. apply HQ.
    eapply log_is_log; [apply law_note..|]. eapply log_is_log; [apply law_sleep..|done].
Qed.

(** One attempt: which requests, which reports, which result. *)
Definition attempt_closed l o (x : result value) (w : W) : Prop :=
  log_is l (o ++ rep [op_allow]) w /\
  exists e, x = inl e /\ (classify e = CIRCUIT_OPEN \/ classify e = SATURATED).
Definition attempt_failed l o (x : result value) (w : W) : Prop :=
  log_is (l ++ [rq]) (o ++ rep [op_allow; op_failure]) w /\
  exists e, x = inl e /\ (classify e = RETRY \/ classify e = PERMANENT).
Definition attempt_done l o (x : result value) (w : W) : Prop :=
  log_is (l ++ [rq]) (o ++ rep [op_allow; op_success]) w /\ exists resp, x = json resp.

Lemma rep_app o a b : (o ++ rep a) ++ rep b = o ++ rep (a ++ b).
Proof using Type. rewrite <- (assoc_L (++)). unfold rep. destruct (cl_has_breaker c stage); [|done]. by rewrite fmap_app. Qed.

Lemma post_outcome l o w : log_is l o w ->
  wp rely no_fault any (_post sha256_hex json c path stage job_id page_index page_ref page)
    (λ x w', attempt_closed l o x w' \/ attempt_failed l o x w' \/ attempt_done l o x w') w.
Proof using Hrely.
  intros Hl. unfold _post. apply wp_bind. apply (wp_check_breaker l o); [done|].
  intros w1 Hl1. split; [|intros e He; left; split; eauto].
  apply wp_bind. apply (wp_setpoint l (o ++ rep [op_allow])); [done|]. intros rate w2 Hl2.
  apply wp_bind. apply (wp_take_token rate l (o ++ rep [op_allow])); [done|].
  intros w3 Hl3. split; [|intros e He; left; split; eauto].
  apply wp_bind. cbn [wp sample own fst snd]. apply wp_bind, wp_catch.
  intros w4 Hr. apply (log_rely _ _ _ _ Hr) in Hl3. fold rq.
  assert (log_is (l ++ [rq]) (o ++ rep [op_allow]) (g_post rq w4).2) as Hl5.
  { destruct (law_post rq w4) as [Hs Hp], Hl3 as [<- <-]. by split. }
  pose proof (law_post_error rq w4) as Herr.
  destruct (g_post rq w4) as [[e|resp] w5]; cbn [fst snd of_result wp] in *;
    (split_and!; [done| |by intros e' []]).
  - apply wp_bind. unfold report_failure. apply wp_bind. cbn [wp note own fst snd].
    apply (log_is_log _ _ _ (g_note (ev_model_call stage (outcome_label e)) w5)) in Hl5;
      [|apply law_note..].
    specialize (Herr e eq_refl).
    assert (bool_decide (classify e = SATURATED) = false) as ->
      by (apply bool_decide_false; destruct Herr; congruence).
    rewrite andb_true_r. apply wp_bind.
    apply (wp_quiet_when _ _ (l ++ [rq]) (o ++ rep [op_allow])); [intros; apply law_congestion|done|].
    intros w6 Hl6. apply (wp_report_op _ (l ++ [rq]) (o ++ rep [op_allow])); [done|].
    intros w7 Hl7. rewrite rep_app in Hl7. right. left. split; eauto.
  - apply wp_bind. cbn [wp note own fst snd].
    apply (log_is_log _ _ _ (g_note (ev_model_call stage "success") w5)) in Hl5; [|apply law_note..].
    apply wp_bind.
    apply (wp_quiet_when _ _ (l ++ [rq]) (o ++ rep [op_allow])); [intros; apply law_success|done|].
    intros w6 Hl6. apply wp_bind, (wp_report_op _ (l ++ [rq]) (o ++ rep [op_allow])); [done|].
    intros w7 Hl7. rewrite rep_app in Hl7.
    destruct (json resp) eqn:Ej; right; right; split; eauto.
Qed.

(** A call: some failed attempts, then one that decides. *)
Definition retry_decided (j n : nat) l o (x : result value) (w : W) : Prop :=
  let l' := l ++ repeat rq j in
  let o' := o ++ concat (repeat (rep [op_allow; op_failure]) j) in
  attempt_closed l' o' x w \/
  (attempt_failed l' o' x w /\
   exists e, x = inl e /\ (classify e = RETRY -> S j = n)) \/
  attempt_done l' o' x w.

Lemma retry_decided_here (n : nat) l o x w :
  attempt_closed l o x w \/
  (attempt_failed l o x w /\ exists e, x = inl e /\ (classify e = RETRY -> 1%nat = n)) \/
  attempt_done l o x w ->
  retry_decided 0 n l o x w.
Proof using Type. unfold retry_decided. simpl. by rewrite !(right_id_L [] (++)). Qed.

Lemma retry_decided_later (j n : nat) l o x w :
  retry_decided j n (l ++ [rq]) (o ++ rep [op_allow; op_failure]) x w ->
  retry_decided (S j) (S n) l o x w.
Proof using Type.
  unfold retry_decided. simpl. rewrite <- !(assoc_L (++)). simpl.
  intros [Hc|[(Hf & e & He & Hn)|Hd]]; [by left|right; left|by right; right].
  split; [done|]. exists e. split; [done|]. intros. f_equal. auto.
Qed.

Context (Hjson : forall resp e, json resp = inl e -> classify e = PERMANENT).

(** One round of the loop: decided, or another round after a retryable
    failure. *)
Lemma round_outcome attempt l o w : log_is l o w ->
  wp rely no_fault any
    (catch (let! v := _post sha256_hex json c path stage job_id page_index page_ref page in
            do! when (0 <? attempt)%nat (note (g_note (ev_retry_success stage))) in
            Ret (Some v)) (retry_handler c stage attempt))
    (λ x w', match x with
             | inr (Some v) => attempt_done l o (inr v) w'
             | inr None => log_is (l ++ [rq]) (o ++ rep [op_allow; op_failure]) w' /\
                           attempt <> (cl_max_attempts c - 1)%nat
             | inl e => attempt_closed l o (inl e) w' \/
                 (attempt_failed l o (inl e) w' /\
                  (classify e = RETRY -> attempt = cl_max_attempts c - 1)%nat) \/
                 attempt_done l o (inl e) w'
             end) w.
Proof using Hrely Hjson.
  intros Hl. apply wp_catch, wp_bind. eapply wp_mono; [|by apply post_outcome].
  intros x w1 [(Hl1 & e & -> & He)|[(Hl1 & e & -> & He)|(Hl1 & resp & Hx)]].
  - unfold retry_handler. destruct He as [He|He]; rewrite He; left; split; eauto.
  - unfold retry_handler. destruct (classify e) eqn:Ec; try (destruct He; congruence).
    + destruct (attempt =? _)%nat eqn:Ea; bool_prop.
      * right. left. split; [split; eauto|done].
      * cbn [pbind own wp fst snd note].
        apply (log_is_log _ _ _ _ (proj1 (law_draw w1)) (proj2 (law_draw w1))) in Hl1.
        set (w2 := (g_draw w1).1) in *.
        apply (log_is_log _ _ _ _ (proj1 (law_draw w2)) (proj2 (law_draw w2))) in Hl1.
        set (w3 := (g_draw w2).1) in *.
        apply (log_is_log _ _ _ (g_note (ev_retry stage) w3)) in Hl1; [|apply law_note..].
        apply wp_bind. eapply wp_quiet_call; [|exact Hl1|].
        { intros w4. apply law_sleep. }
        intros [] w5 Hl5. by split.
    + right. left. split; [split; eauto|congruence].
  - destruct x as [e|v].
    + unfold retry_handler. rewrite (Hjson resp e) by done. right. right. split; eauto.
    + apply wp_bind. unfold when. destruct (0 <? attempt)%nat; cbn; split; eauto.
      eapply log_is_log; [apply law_note..|done].
Qed.

Lemma retries_outcome n : forall attempt l o w,
  (attempt + S n = cl_max_attempts c)%nat -> log_is l o w ->
  wp rely no_fault any
    (retry_loop sha256_hex json c path stage job_id page_index page_ref page (S n) attempt)
    (λ x w', exists j, (j <= n)%nat /\ retry_decided j (S n) l o x w') w.
Proof using Hrely Hjson.
  induction n as [|n IH]; intros attempt l o w Hat Hl; cbn [retry_loop]; apply wp_bind;
    (eapply wp_mono; [|by apply round_outcome]);
    intros [e|[v|]] w1 Hx.
  1, 4: exists 0%nat; split; [lia|]; apply retry_decided_here;
    destruct Hx as [?|[[? Hlast]|?]]; [by left|right; left|by right; right];
    (split; [done|]); exists e; (split; [done|]); intros Hr; specialize (Hlast Hr); lia.
  1, 3: exists 0%nat; split; [lia|]; apply retry_decided_here; by right; right.
  - destruct Hx as [_ Hne]. lia.
  - destruct Hx as [Hl1 _].
    eapply wp_mono; [|apply (IH (S attempt)); [lia|exact Hl1]].
    intros x w' (j & Hj & Hd). exists (S j). split; [lia|]. by apply retry_decided_later.
Qed.
End outcome.

(** ** The services of this development *)

(** A scripted endpoint: what each request meets. *)
Inductive http_outcome :=
| http_ok (body : string) | http_status (code : Z) (headers : gmap string string)
| http_timeout | http_transport.

Definition http_result (o : http_outcome) : result string :=
  match o with
  | http_ok body => inr body
  | http_status code h => inl (HTTPStatusError code h)
  | http_timeout => inl TimeoutException
  | http_transport => inl TransportError
  end.

Record lab := {
  lb_breakers : gmap string breaker; lb_buckets : gmap string bucket;
  lb_controllers : gmap string aimd; lb_script : list http_outcome; lb_now_ms : Q;
  lb_draws : list Q; lb_events : list client_event;
  lb_sent : list request; lb_reported : list (string * breaker_op) }.

Section lab.
Context (ba : breaker_args) (lim : string -> limiter) (aa : string -> aimd_args).

Definition lab_breaker (s : string) (op : breaker_op) (w : lab) : lab * verdict :=
  let '(b, v) := breaker_lua ba op (lb_now_ms w) (lb_breakers w !! s) in
  ({| lb_breakers := <[s := b]> (lb_breakers w); lb_buckets := lb_buckets w;
      lb_controllers := lb_controllers w; lb_script := lb_script w; lb_now_ms := lb_now_ms w;
      lb_draws := lb_draws w; lb_events := lb_events w; lb_sent := lb_sent w;
      lb_reported := lb_reported w ++ [(s, op)] |}, v).

Definition set_controller (s : string) (a : aimd) (w : lab) : lab :=
  {| lb_breakers := lb_breakers w; lb_buckets := lb_buckets w;
     lb_controllers := <[s := a]> (lb_controllers w); lb_script := lb_script w;
     lb_now_ms := lb_now_ms w; lb_draws := lb_draws w; lb_events := lb_events w;
     lb_sent := lb_sent w; lb_reported := lb_reported w |}.

Definition lab_controller (s : string) (w : lab) : aimd :=
  default {| ctl := None; ring := [] |} (lb_controllers w !! s).

Definition lab_acquire (s : string) (max_wait_s : Q) (rate : option Q) (w : lab)
  : result Q * lab :=
  let '(b, o) := TokenBucket.acquire (lim s) 1 max_wait_s rate (default 0 (head (lb_draws w)))
                   (lb_now_ms w) (lb_buckets w !! s) in
  (o, {| lb_breakers := lb_breakers w; lb_buckets := <[s := b]> (lb_buckets w);
         lb_controllers := lb_controllers w; lb_script := lb_script w; lb_now_ms := lb_now_ms w;
         lb_draws := tail (lb_draws w); lb_events := lb_events w; lb_sent := lb_sent w;
         lb_reported := lb_reported w |}).

(** Each request takes 100 ms. *)
Definition lab_post (rq : request) (w : lab) : result string * lab :=
  (match lb_script w with o :: _ => http_result o | [] => inl TransportError end,
   {| lb_breakers := lb_breakers w; lb_buckets := lb_buckets w;
      lb_controllers := lb_controllers w; lb_script := tail (lb_script w);
      lb_now_ms := lb_now_ms w + 100; lb_draws := lb_draws w; lb_events := lb_events w;
      lb_sent := lb_sent w ++ [rq]; lb_reported := lb_reported w |}).

Definition lab_sleep (x : wait) (w : lab) : lab :=
  {| lb_breakers := lb_breakers w; lb_buckets := lb_buckets w;
     lb_controllers := lb_controllers w; lb_script := lb_script w;
     lb_now_ms := lb_now_ms w + match x with Ms q => q * 1000 | Forever => 0 end;
     lb_draws := lb_draws w; lb_events := lb_events w; lb_sent := lb_sent w;
     lb_reported := lb_reported w |}.

Definition lab_note (e : client_event) (w : lab) : lab :=
  {| lb_breakers := lb_breakers w; lb_buckets := lb_buckets w;
     lb_controllers := lb_controllers w; lb_script := lb_script w; lb_now_ms := lb_now_ms w;
     lb_draws := lb_draws w; lb_events := lb_events w ++ [e]; lb_sent := lb_sent w;
     lb_reported := lb_reported w |}.

Definition lab_draw (w : lab) : lab * Q :=
  ({| lb_breakers := lb_breakers w; lb_buckets := lb_buckets w;
      lb_controllers := lb_controllers w; lb_script := lb_script w; lb_now_ms := lb_now_ms w;
      lb_draws := tail (lb_draws w); lb_events := lb_events w; lb_sent := lb_sent w;
      lb_reported := lb_reported w |}, default 0 (head (lb_draws w))).

#[local] Instance gates_lab : Gates lab string := {|
  g_breaker := lab_breaker;
  g_rate := λ s w, let '(a, r) := current (aa s) (lb_now_ms w) (lab_controller s w) in
                   (set_controller s a w, r);
  g_success := λ s l w,
    set_controller s (on_success (aa s) l (lb_now_ms w) (lab_controller s w)).1 w;
  g_congestion := λ s w,
    set_controller s (on_congestion (aa s) (lb_now_ms w) (lab_controller s w)).1 w;
  g_acquire := lab_acquire;
  g_post := lab_post;
  g_sleep := lab_sleep;
  g_note := lab_note;
  g_mono := λ w, lb_now_ms w / 1000;
  g_draw := lab_draw
|}.

#[local] Instance gates_lab_laws : @GatesLaws lab string gates_lab.
Proof.
  refine (@Build_GatesLaws lab string gates_lab lb_sent lb_reported _ _ _ _ _ _ _ _ _ _ _);
    try (intros; cbn; unfold lab_breaker, lab_acquire; repeat case_match; by split).
  - intros rq w e. cbn. unfold lab_post. destruct (lb_script w) as [|[] l]; simpl; intros; simplify_eq;
      simpl; try case_bool_decide; auto.
  - intros s m r w e. cbn. unfold lab_acquire, TokenBucket.acquire.
    case_match eqn:E1. simpl. intros ->. revert E1.
    destruct (try_acquire _ _ _ _ _ _) as [b' a]. simpl.
    destruct (negb (a_granted a)); simpl; [by intros [= _ <-]|].
    by destruct (a_wait_ms a <=? 0)%Z.
Defined.
End lab.

(** *** A run: a 503, then a page *)

Definition lab_breaker_args : breaker_args :=
  {| failure_ratio := 1 # 2; min_volume := 10; window_ms := 10000; cooldown_ms := 5000;
     max_probes := 5; probe_successes := 3 |}.
Definition lab_limiter (s : string) : limiter :=
  {| l_endpoint := s; l_rate := 10; l_burst := 5; l_ttl_ms := 60000; l_jitter_ms := 0 |}.
Definition lab_aimd_args (_ : string) : aimd_args :=
  {| min_rate := 1; max_rate := 10; decrease_factor := 1 # 2; increase_step := 1;
     increase_after := 10; refractory_ms := 1000; latency_slo_ms := 0; ring_size := 20;
     min_samples := 5; latency_floor := 5 |}.
Definition lab_world : lab :=
  {| lb_breakers := ∅; lb_buckets := ∅; lb_controllers := ∅;
     lb_script := [http_status 503 ∅; http_ok "text"]; lb_now_ms := 0; lb_draws := [];
     lb_events := []; lb_sent := []; lb_reported := [] |}.
Definition lab_client : client :=
  {| cl_has_breaker := λ _, true; cl_has_controller := λ _, false; cl_has_limiter := λ _, true;
     cl_max_wait_s := 2; cl_max_attempts := 3; cl_backoff_base_ms := 100;
     cl_backoff_max_ms := 2000 |}.

(** ** Properties *)

(** at every moment of a call - whatever the other coroutines do, and
    whichever step fails, times out or is cancelled - the endpoint has been sent
    at most [max_attempts] requests, all of them the same one, idempotency key
    included. *)
Theorem client_attempts_bounded {W response value} `{GatesLaws W response}
  (sha256_hex : string -> string) (json : response -> result value) c
  (rely : W -> W -> Prop) fault path stage job_id page_index page_ref page w :
  (forall w w', rely w w' -> sent w' = sent w /\ reported w' = reported w) ->
  let bounded w' := exists k, (k <= cl_max_attempts c)%nat /\
    sent w' = sent w ++ repeat (make_request sha256_hex path stage job_id page_index page_ref page) k in
  wp rely fault bounded
    (_post_with_retries sha256_hex json c path stage job_id page_index page_ref page)
    (λ _ w', bounded w') w.
Proof.
  intros Hrely bounded.
  apply (retries_sent sha256_hex json c rely fault Hrely path stage job_id page_index page_ref page
           (sent w) (cl_max_attempts c) 0 0 w).
  exists 0%nat. split; [done|]. unfold sent_is. cbn [repeat]. by rewrite (right_id_L [] (++)).
Qed.

Example client_attempts_bounded_witness :
  let bounded w' := exists k, (k <= 3)%nat /\
    lb_sent w' = repeat (make_request id LAYOUT_PATH LAYOUT "job" 0 None None) k in
  @wp lab (λ w w', lb_sent w' = lb_sent w /\ lb_reported w' = lb_reported w) (λ _, True) bounded _
    (@_post_with_retries _ _ _ (gates_lab lab_breaker_args lab_limiter lab_aimd_args) id
       (λ body, inr body : result string) lab_client LAYOUT_PATH LAYOUT "job" 0 None None)
    (λ _ w', bounded w') lab_world.
Proof.
  exact (@client_attempts_bounded lab string string _
    (gates_lab_laws lab_breaker_args lab_limiter lab_aimd_args) id (λ body, inr body) lab_client
    (λ w w', lb_sent w' = lb_sent w /\ lb_reported w' = lb_reported w) (λ _, True)
    LAYOUT_PATH LAYOUT "job" 0%Z None None lab_world (λ w w' Hr, Hr)).
Defined.

(** C11: what a call does, without faults, among any others.  It makes some
    attempts that fail and are retryable - each sends one request and reports
    one failure - and then one that decides: the breaker or the limiter refuses,
    which sends nothing and is returned at once; or a request fails in a way
    that is not retried, or on the last attempt, and is reported; or a request
    succeeds and is reported as such.  Its result is that attempt's. *)
Theorem client_call_outcome {W response value} `{GatesLaws W response}
  (sha256_hex : string -> string) (json : response -> result value) c
  (rely : W -> W -> Prop) path stage job_id page_index page_ref page w :
  (forall w w', rely w w' -> sent w' = sent w /\ reported w' = reported w) ->
  (forall resp e, json resp = inl e -> classify e = PERMANENT) ->
  (0 < cl_max_attempts c)%nat ->
  wp rely (λ _, False) (λ _, True)
    (_post_with_retries sha256_hex json c path stage job_id page_index page_ref page)
    (λ x w', exists j, (j < cl_max_attempts c)%nat /\
       retry_decided sha256_hex json c path stage job_id page_index page_ref page
         j (cl_max_attempts c) (sent w) (reported w) x w') w.
Proof.
  intros Hrely Hjson Hn. unfold _post_with_retries.
  destruct (cl_max_attempts c) as [|n] eqn:E; [lia|].
  eapply wp_mono; [|apply (retries_outcome sha256_hex json c rely Hrely path stage job_id page_index
    page_ref page Hjson n 0 (sent w) (reported w) w); [by rewrite E|done]].
  intros x w' (j & Hj & Hd). exists j. split; [lia|done].
Qed.

Example client_call_outcome_witness :
  @wp lab (λ w w', lb_sent w' = lb_sent w /\ lb_reported w' = lb_reported w) (λ _, False) (λ _, True) _
    (@_post_with_retries _ _ _ (gates_lab lab_breaker_args lab_limiter lab_aimd_args) id
       (λ body, inr body : result string) lab_client LAYOUT_PATH LAYOUT "job" 0 None None)
    (λ x w', exists j, (j < 3)%nat /\
       @retry_decided _ _ _ _ (gates_lab_laws lab_breaker_args lab_limiter lab_aimd_args) id
         (λ body, inr body) lab_client LAYOUT_PATH LAYOUT "job" 0 None None j 3 [] [] x w') lab_world.
Proof.
  refine (@client_call_outcome lab string string _
    (gates_lab_laws lab_breaker_args lab_limiter lab_aimd_args) id (λ body, inr body) lab_client
    (λ w w', lb_sent w' = lb_sent w /\ lb_reported w' = lb_reported w)
    LAYOUT_PATH LAYOUT "job" 0%Z None None lab_world (λ w w' Hr, Hr) _ _); [done|simpl; lia].
Defined.

(** The run itself: a failure and a success are reported, two requests sent. *)
Example lab_run :
  let '(x, w) := run (@_post_with_retries _ _ _
      (gates_lab lab_breaker_args lab_limiter lab_aimd_args) id
      (λ body, inr body : result string) lab_client LAYOUT_PATH LAYOUT "job" 0 None None) lab_world in
  x = inr "text" /\ length (lb_sent w) = 2%nat /\
  lb_reported w = pair LAYOUT <$> [op_allow; op_failure; op_allow; op_success].
Proof. vm_compute. done. Qed.

(** a refused token leaks the probe slot.  When a half-open breaker admits
    the call and the limiter then has no token within the wait budget, the call
    fails without a request and without a report, and the slot stays taken. *)
Theorem probe_slot_leaks ba lim aa (sha256_hex : string -> string) (json : string -> result string)
  c path stage job_id page_index page_ref page b e w :
  cl_has_breaker c stage = true -> cl_has_limiter c stage = true ->
  cl_has_controller c stage = false ->
  lb_breakers w !! stage = Some b -> b_state b = HALF_OPEN -> (probes b < max_probes ba)%Z ->
  (acquire (lim stage) 1 (cl_max_wait_s c) None (default 0 (head (lb_draws w)))
     (lb_now_ms w) (lb_buckets w !! stage)).2 = inl e ->
  exists w', run (@_post _ _ _ (gates_lab ba lim aa) sha256_hex json c path stage job_id page_index
                    page_ref page) w = (inl e, w') /\
    lb_breakers w' !! stage = Some (set_probes b (probes b + 1)) /\
    lb_sent w' = lb_sent w /\ lb_reported w' = lb_reported w ++ [(stage, op_allow)].
Proof.
  intros Hb Hl Hc Hst Hs Hp Hacq. unfold _post. rewrite run_bind.
  unfold check_breaker, setpoint, take_token, when. rewrite Hb, Hl, Hc. cbn.
  assert (breaker_lua ba op_allow (lb_now_ms w) (Some b) = (set_probes b (probes b + 1),
    {| v_allowed := true; v_state := b_state b; v_retry_after_ms := 0; v_failures := failures b;
       v_successes := successes b |})) as Ha.
  { assert (expire ba (lb_now_ms w) b = b) as He.
    { unfold expire, half_open, roll. rewrite Hs. cbn. by rewrite Hs. }
    unfold breaker_lua, Breaker.load. simpl. rewrite He.
    unfold do_allow. rewrite Hs, (proj2 (Z.ltb_lt _ _) Hp). simpl. by rewrite Hs. }
  unfold lab_breaker. rewrite Hst, Ha. cbn. unfold lab_acquire. cbn.
  destruct (acquire _ _ _ _ _ _ _) as [b' o]. simpl in Hacq. subst o. cbn.
  eexists. split; [reflexivity|]. cbn. by rewrite lookup_insert_eq.
Qed.

(** A half-open breaker and an overdrawn bucket. *)
Definition lab_wedge : lab :=
  {| lb_breakers := {[ LAYOUT := {| b_state := HALF_OPEN; window_start := 0; failures := 5;
                                    successes := 0; opened_at := 0; probes := 0; probe_ok := 0 |} ]};
     lb_buckets := {[ LAYOUT := {| b_tokens := -(30); b_ts := 0 |} ]}; lb_controllers := ∅;
     lb_script := []; lb_now_ms := 0; lb_draws := []; lb_events := []; lb_sent := [];
     lb_reported := [] |}.

Example probe_slot_leaks_witness :
  exists w', run (@_post _ _ _ (gates_lab lab_breaker_args lab_limiter lab_aimd_args) id
                    (λ body, inr body : result string) lab_client LAYOUT_PATH LAYOUT "job" 0 None None)
               lab_wedge = (inl (RateLimitTimeout LAYOUT (3100 # 1000) 0), w') /\
    lb_breakers w' !! LAYOUT = Some {| b_state := HALF_OPEN; window_start := 0; failures := 5;
                                    successes := 0; opened_at := 0; probes := 1; probe_ok := 0 |} /\
    lb_sent w' = [] /\ lb_reported w' = [(LAYOUT, op_allow)].
Proof.
  refine (probe_slot_leaks lab_breaker_args lab_limiter lab_aimd_args id (λ body, inr body)
    lab_client LAYOUT_PATH LAYOUT "job" 0%Z None None
    {| b_state := HALF_OPEN; window_start := 0; failures := 5; successes := 0; opened_at := 0;
       probes := 0; probe_ok := 0 |} (RateLimitTimeout LAYOUT (3100 # 1000) 0) lab_wedge _ _ _ _ _ _ _);
    first [reflexivity | vm_compute; reflexivity].
Defined.
