(* ===== verification/Json.v ===== *)
(** * JSON text ([json.dumps] and [json.loads])

    The part of Python's [json] the source relies on: [dumps] with compact
    separators and ASCII escapes, [loads], and the access to a decoded value.
    A number is kept as its text.  A character is a code point below 256; a
    [\u] escape above that range is outside the model and is refused. *)

From S2P Require Import Prelude Py.
From Stdlib Require Import Ascii.

#[warnings="-register-all"]
Inductive json : Type :=
| JNull
| JBool (b : bool)
| JNum (text : string)
| JStr (s : string)
| JList (l : list json)
| JObj (members : list (string * json)).

Section json_ind.
Context (P : json -> Prop) (Hnull : P JNull) (Hbool : forall b, P (JBool b))
  (Hnum : forall t, P (JNum t)) (Hstr : forall s, P (JStr s))
  (Hlist : forall l, Forall P l -> P (JList l))
  (Hobj : forall m, Forall (λ kv, P kv.2) m -> P (JObj m)).

Fixpoint json_rect' (j : json) : P j :=
  match j with
  | JNull => Hnull
  | JBool b => Hbool b
  | JNum t => Hnum t
  | JStr s => Hstr s
  | JList l => Hlist l ((fix go l := match l return Forall P l with
                                     | [] => Forall_nil_2 _
                                     | x :: l' => Forall_cons_2 _ _ _ (json_rect' x) (go l')
                                     end) l)
  | JObj m => Hobj m ((fix go m := match m return Forall (λ kv, P kv.2) m with
                                   | [] => Forall_nil_2 _
                                   | x :: m' => Forall_cons_2 _ _ _ (json_rect' x.2) (go m')
                                   end) m)
  end.
End json_ind.

(** ** Writing *)

Definition hex_digit (n : N) : ascii :=
  Ascii.ascii_of_N (if (n <? 10)%N then n + 48 else n + 87)%N.

Definition hex_value (c : ascii) : option N :=
  let n := ascii_code c in
  if is_digit c then Some (n - 48)%N
  else if ((97 <=? n) && (n <=? 102))%N then Some (n - 87)%N
  else if ((65 <=? n) && (n <=? 70))%N then Some (n - 55)%N
  else None.

Definition chars (l : list ascii) : string := foldr String EmptyString l.

(** [ESCAPE_ASCII]: the short escapes, [\u00xx] for the rest outside
    [' '..'~']. *)
Definition escape_char (c : ascii) : string :=
  match c with
  | "034"%char => chars ["092"; "034"]%char
  | "092"%char => chars ["092"; "092"]%char
  | "010"%char => chars ["092"; "n"]%char
  | "013"%char => chars ["092"; "r"]%char
  | "009"%char => chars ["092"; "t"]%char
  | "012"%char => chars ["092"; "f"]%char
  | "008"%char => chars ["092"; "b"]%char
  | _ =>
      let n := ascii_code c in
      if ((32 <=? n) && (n <=? 126))%N then chars [c]
      else chars ["092"; "u"; "0"; "0"; hex_digit (n / 16); hex_digit (n mod 16)]%char
  end.

Fixpoint escape (s : string) : string :=
  match s with
  | EmptyString => EmptyString
  | String c s' => escape_char c +:+ escape s'
  end.

Definition dumps_string (s : string) : string :=
  String "034" (escape s +:+ chars ["034"%char]).

Fixpoint join_with (sep : string) (l : list string) : string :=
  match l with
  | [] => ""
  | [x] => x
  | x :: l' => x +:+ sep +:+ join_with sep l'
  end.

(** [json.dumps(j, separators=(",", ":"))] *)
Fixpoint dumps (j : json) : string :=
  match j with
  | JNull => "null"
  | JBool true => "true"
  | JBool false => "false"
  | JNum t => t
  | JStr s => dumps_string s
  | JList l => "[" +:+ join_with "," (map dumps l) +:+ "]"
  | JObj m =>
      "{" +:+ join_with "," (map (λ kv, dumps_string kv.1 +:+ ":" +:+ dumps kv.2) m) +:+ "}"
  end.

(** ** Reading *)

Definition is_ws (c : ascii) : bool :=
  match c with " "%char | "009"%char | "010"%char | "013"%char => true | _ => false end.

Fixpoint skip_ws (s : string) : string :=
  match s with
  | String c s' => if is_ws c then skip_ws s' else s
  | EmptyString => s
  end.

(** The text of a string after its opening quote, and what follows it. *)
Fixpoint scan_string (s : string) : option (string * string) :=
  let push c r := '(t, r') ← r; Some (String c t, r') in
  match s with
  | EmptyString => None
  | String "034" r => Some (EmptyString, r)
  | String "092" (String c r) =>
      match c with
      | "034"%char => push "034"%char (scan_string r)
      | "092"%char => push "092"%char (scan_string r)
      | "/"%char => push "/"%char (scan_string r)
      | "n"%char => push "010"%char (scan_string r)
      | "r"%char => push "013"%char (scan_string r)
      | "t"%char => push "009"%char (scan_string r)
      | "f"%char => push "012"%char (scan_string r)
      | "b"%char => push "008"%char (scan_string r)
      | "u"%char =>
          match r with
          | String a (String b (String c (String d r'))) =>
              a ← hex_value a; b ← hex_value b; c ← hex_value c; d ← hex_value d;
              if ((a =? 0) && (b =? 0))%N
              then push (Ascii.ascii_of_N (16 * c + d)%N) (scan_string r') else None
          | _ => None
          end
      | _ => None
      end
  | String c r => if (ascii_code c <? 32)%N then None else push c (scan_string r)
  end.

Definition is_num_char (c : ascii) : bool :=
  is_digit c ||
  match c with "-"%char | "+"%char | "."%char | "e"%char | "E"%char => true | _ => false end.

Fixpoint span_num (s : string) : string * string :=
  match s with
  | String c s' => if is_num_char c then let '(t, r) := span_num s' in (String c t, r) else ("", s)
  | EmptyString => ("", s)
  end.

Fixpoint skip_digits (s : string) : string :=
  match s with
  | String c s' => if is_digit c then skip_digits s' else s
  | EmptyString => s
  end.

(** [\d+], and what follows. *)
Definition some_digits (s : string) : option string :=
  match s with
  | String c s' => if is_digit c then Some (skip_digits s') else None
  | EmptyString => None
  end.

(** [NUMBER_RE]: a sign, an integer without leading zeros, a fraction, an
    exponent. *)
Definition valid_num (t : string) : bool :=
  let t := match t with String "-" t' => t' | _ => t end in
  let after_int := match t with String "0" t' => Some t' | _ => some_digits t end in
  let after_frac := s ← after_int; match s with String "." s' => some_digits s' | _ => Some s end in
  let after_exp := s ← after_frac;
    match s with
    | String "e" s' | String "E" s' =>
        some_digits match s' with String "-" s'' | String "+" s'' => s'' | _ => s' end
    | _ => Some s
    end in
  match after_exp with Some EmptyString => true | _ => false end.

(** [prefix], removed from [s]. *)
Fixpoint strip_prefix (prefix s : string) : option string :=
  match prefix, s with
  | EmptyString, _ => Some s
  | String c p, String d s' => if Ascii.eqb c d then strip_prefix p s' else None
  | _, _ => None
  end.

Definition scan_atom (s : string) : option (json * string) :=
  match strip_prefix "null" s with Some r => Some (JNull, r) | None =>
  match strip_prefix "true" s with Some r => Some (JBool true, r) | None =>
  match strip_prefix "false" s with Some r => Some (JBool false, r) | None =>
  let '(t, r) := span_num s in if valid_num t then Some (JNum t, r) else None
  end end end.

(** [d[k] = v] on a dict, which keeps its first position. *)
Fixpoint dict_set (k : string) (v : json) (m : list (string * json)) : list (string * json) :=
  match m with
  | [] => [(k, v)]
  | (k', v') :: m' => if (k =? k')%string then (k, v) :: m' else (k', v') :: dict_set k v m'
  end.

Fixpoint scan_value (n : nat) (s : string) : option (json * string) :=
  match n with
  | O => None
  | S n' =>
      match s with
      | String "034" r => '(t, r') ← scan_string r; Some (JStr t, r')
      | String "[" r =>
          match skip_ws r with String "]" r' => Some (JList [], r') | r' => scan_list n' r' [] end
      | String "{" r =>
          match skip_ws r with String "}" r' => Some (JObj [], r') | r' => scan_obj n' r' [] end
      | _ => scan_atom s
      end
  end
with scan_list (n : nat) (s : string) (acc : list json) : option (json * string) :=
  match n with
  | O => None
  | S n' =>
      '(v, r) ← scan_value n' s;
      match skip_ws r with
      | String "," r' => scan_list n' (skip_ws r') (acc ++ [v])
      | String "]" r' => Some (JList (acc ++ [v]), r')
      | _ => None
      end
  end
with scan_obj (n : nat) (s : string) (acc : list (string * json)) : option (json * string) :=
  match n with
  | O => None
  | S n' =>
      match s with
      | String "034" r =>
          '(k, r) ← scan_string r;
          match skip_ws r with
          | String ":" r' =>
              '(v, r) ← scan_value n' (skip_ws r');
              match skip_ws r with
              | String "," r' => scan_obj n' (skip_ws r') (dict_set k v acc)
              | String "}" r' => Some (JObj (dict_set k v acc), r')
              | _ => None
              end
          | _ => None
          end
      | _ => None
      end
  end.

(** [json.loads(s)]; its [JSONDecodeError] is a [ValueError].  Every nested
    value consumes a character, so the length bounds the depth of the scan. *)
Definition loads (s : string) : result json :=
  match scan_value (2 * String.length s + 2) (skip_ws s) with
  | Some (j, r) => if (skip_ws r =? "")%string then inr j else inl (ValueError "Extra data")
  | None => inl (ValueError "Expecting value")
  end.

(** ** Access *)

Definition dict_get (k : string) (m : list (string * json)) : option json :=
  snd <$> head (filter (λ kv, kv.1 = k) m).

(** [j.get(k, default)] *)
Definition json_get (k : string) (dflt : json) (j : json) : result json :=
  match j with
  | JObj m => inr (default dflt (dict_get k m))
  | _ => inl (OtherException "AttributeError")
  end.

(** ** Round trip *)

(** The values [dumps] writes as JSON: numbers are JSON numbers and the keys of
    an object are distinct, as those of a dict. *)
Fixpoint json_ok (j : json) : Prop :=
  match j with
  | JNum t => valid_num t = true /\ str_forall is_num_char t = true
  | JList l => (fix go l := match l with [] => True | x :: l' => json_ok x /\ go l' end) l
  | JObj m => NoDup m.*1 /\
      (fix go m := match m with [] => True | kv :: m' => json_ok kv.2 /\ go m' end) m
  | _ => True
  end.

Lemma json_ok_list l : json_ok (JList l) <-> Forall json_ok l.
Proof. simpl. induction l as [|x l IH]; [done|]. by rewrite Forall_cons, IH. Qed.

Lemma json_ok_obj m : json_ok (JObj m) <-> NoDup m.*1 /\ Forall (λ kv, json_ok kv.2) m.
Proof.
  simpl. f_equiv. induction m as [|x m IH]; [done|]. by rewrite Forall_cons, IH.
Qed.

Lemma strip_prefix_Some p : forall s r, strip_prefix p s = Some r -> s = p +:+ r.
Proof.
  induction p as [|a p IH]; intros s r; simpl; [by intros [= ->]|].
  destruct s as [|b s]; [done|]. destruct (Ascii.eqb a b) eqn:E; [|done].
  apply Ascii.eqb_eq in E as ->. intros Hs. change (String b s = String b (p +:+ r)). f_equal. auto.
Qed.

Lemma strip_prefix_app p r : strip_prefix p (p +:+ r) = Some r.
Proof.
  induction p as [|a p IH]; [by destruct r|].
  change ((if Ascii.eqb a a then strip_prefix p (p +:+ r) else None) = Some r).
  by rewrite Ascii.eqb_refl.
Qed.

Lemma string_app_assoc (a b c : string) : (a +:+ b) +:+ c = a +:+ b +:+ c.
Proof. induction a as [|x a IH]; [done|]. exact (f_equal (String x) IH). Qed.

Lemma scan_escape_char c s :
  scan_string (escape_char c +:+ s) = '(t, r) ← scan_string s; Some (String c t, r).
Proof. destruct c as [[] [] [] [] [] [] [] []]; reflexivity. Qed.

Lemma scan_escape s r : scan_string (escape s +:+ String "034" r) = Some (s, r).
Proof.
  induction s as [|c s IH]; simpl; [done|].
  by rewrite string_app_assoc, scan_escape_char, IH.
Qed.

(** A text [loads] reads as an atom's neighbour: it does not continue a
    number. *)
Definition ends_atom (r : string) : Prop :=
  match r with String c _ => is_num_char c = false | EmptyString => True end.

Lemma span_num_app t r :
  str_forall is_num_char t = true -> ends_atom r -> span_num (t +:+ r) = (t, r).
Proof.
  intros Ht Hr. induction t as [|c t IH]; simpl in *.
  - destruct r as [|c r]; simpl in *; [done|]. by rewrite Hr.
  - apply andb_true_iff in Ht as [-> Ht]. by rewrite IH.
Qed.

Lemma scan_num t r : valid_num t = true -> str_forall is_num_char t = true -> ends_atom r ->
  scan_atom (t +:+ r) = Some (JNum t, r).
Proof.
  intros Hv Hn Hr. unfold scan_atom.
  assert (forall c p, is_num_char c = false -> strip_prefix (String c p) (t +:+ r) = None) as Hp.
  { intros c p Hc. destruct t as [|d t]; [done|]. simpl in *. apply andb_true_iff in Hn as [Hd _].
    destruct (Ascii.eqb_spec c d); [congruence|done]. }
  rewrite !Hp by done. rewrite span_num_app by done. by rewrite Hv.
Qed.

(** The first character of a written value. *)
Definition opens (c : ascii) : Prop := is_ws c = false /\ c <> "]"%char /\ c <> "}"%char.

Lemma dumps_head j : json_ok j -> exists c s, dumps j = String c s /\ opens c.
Proof.
  destruct j as [|[]|t| | |]; simpl; unfold opens; intros Hj; eauto 10.
  destruct Hj as [Hv Hn]. destruct t as [|c t]; [done|]. exists c, t. split; [done|].
  simpl in Hn. apply andb_true_iff in Hn as [Hc _].
  destruct c as [[] [] [] [] [] [] [] []]; first [discriminate Hc | done].
Qed.

Lemma skip_ws_opens c s : opens c -> skip_ws (String c s) = String c s.
Proof. intros [Hw _]. simpl. by rewrite Hw. Qed.

Lemma skip_ws_dumps j r : json_ok j -> skip_ws (dumps j +:+ r) = dumps j +:+ r.
Proof. intros (c & s & -> & Hc)%dumps_head. by apply (skip_ws_opens c (s +:+ r)). Qed.

(** Fuel for one value. *)
Fixpoint depth (j : json) : nat :=
  match j with
  | JList l => S ((fix go l := match l with [] => 0 | x :: l' => S (depth x + go l') end) l)
  | JObj m => S ((fix go m := match m with [] => 0 | kv :: m' => S (depth kv.2 + go m') end) m)
  | _ => 1
  end.

Definition depths (l : list json) : nat := foldr (λ x n, S (depth x + n)) 0 l.

Lemma depth_list l : depth (JList l) = S (depths l).
Proof. done. Qed.

Lemma depth_obj m : depth (JObj m) = S (depths m.*2).
Proof. simpl. f_equal. induction m as [|x m IH]; simpl; [done|]. by rewrite IH. Qed.

Definition scans (j : json) : Prop := forall n r, json_ok j -> ends_atom r -> depth j <= n ->
  scan_value n (dumps j +:+ r) = Some (j, r).

Lemma join_with_cons sep x l :
  join_with sep (x :: l) = match l with [] => x | _ => x +:+ sep +:+ join_with sep l end.
Proof. by destruct l. Qed.

Lemma scan_list_ok l : forall n r acc,
  Forall scans l -> Forall json_ok l -> l <> [] -> depths l <= n ->
  scan_list n (join_with "," (map dumps l) +:+ "]" +:+ r) acc = Some (JList (acc ++ l), r).
Proof.
  induction l as [|x l IH]; intros n r acc Hs Hj Hl Hn; [done|].
  inversion_clear Hs as [|? ? Hx Hs']. inversion_clear Hj as [|? ? Hjx Hjl].
  simpl in Hn. destruct n as [|n]; [lia|]. cbn [map scan_list]. rewrite join_with_cons.
  destruct l as [|y l]; cbn [map].
  - rewrite Hx by (done || lia). simpl. done.
  - change (dumps y :: map dumps l) with (map dumps (y :: l)).
    rewrite !string_app_assoc. rewrite Hx by (done || lia).
    specialize (IH n r (acc ++ [x]) Hs' Hjl ltac:(done) ltac:(unfold depths in *; simpl in *; lia)).
    inversion_clear Hjl as [|? ? Hjy Hjl'].
    assert (skip_ws (join_with "," (map dumps (y :: l)) +:+ "]" +:+ r) =
            join_with "," (map dumps (y :: l)) +:+ "]" +:+ r) as Hws.
    { cbn [map]. rewrite join_with_cons. destruct (map dumps l);
        rewrite ?string_app_assoc; by apply skip_ws_dumps. }
    set (J := join_with _ _ +:+ _) in *. cbn [mbind option_bind].
    change ("," +:+ J) with (String "," J). cbn.
    by rewrite Hws, IH, <- (assoc_L (++)).
Qed.

Lemma dict_set_fresh k v m : k ∉ m.*1 -> dict_set k v m = m ++ [(k, v)].
Proof.
  induction m as [|[k' v'] m IH]; simpl; [done|]. rewrite not_elem_of_cons. intros [Hk Hm].
  rewrite IH by done. by destruct (String.eqb_spec k k').
Qed.

Definition member (kv : string * json) : string := dumps_string kv.1 +:+ ":" +:+ dumps kv.2.

Lemma skip_ws_member kv s : skip_ws (member kv +:+ s) = member kv +:+ s.
Proof. done. Qed.

Lemma scan_obj_ok m : forall n r acc,
  Forall (λ kv, scans kv.2) m -> Forall (λ kv, json_ok kv.2) m -> NoDup (acc ++ m).*1 -> m <> [] ->
  depths m.*2 <= n ->
  scan_obj n (join_with "," (map member m) +:+ "}" +:+ r) acc = Some (JObj (acc ++ m), r).
Proof.
  induction m as [|[k v] m IH]; intros n r acc Hs Hj Hd Hl Hn; [done|].
  inversion_clear Hs as [|? ? Hx Hs']. inversion_clear Hj as [|? ? Hjx Hjl].
  simpl in Hn, Hx, Hjx. destruct n as [|n]; [lia|]. cbn [map scan_obj]. rewrite join_with_cons.
  assert (k ∉ acc.*1) as Hk.
  { rewrite fmap_app in Hd. apply NoDup_app in Hd as (_ & Hd & _). intros Hk. apply (Hd k Hk).
    apply list_elem_of_here. }
  unfold member at 1. unfold dumps_string. cbn [fst snd].
  assert (forall s, (String "034" (escape k +:+ chars ["034"%char]) +:+ ":" +:+ dumps v) +:+ s =
    String "034" (escape k +:+ String "034" (String ":" (dumps v +:+ s)))) as Hm.
  { intros s. rewrite !string_app_assoc.
    change (String "034" ?b +:+ ?c) with (String "034" (b +:+ c)). by rewrite string_app_assoc. }
  destruct m as [|y m]; cbn [map].
  - rewrite Hm, scan_escape. cbn. rewrite skip_ws_dumps by done.
    rewrite Hx by (done || lia). cbn. by rewrite dict_set_fresh.
  - change (member y :: map member m) with (map member (y :: m)).
    rewrite string_app_assoc, Hm, scan_escape. cbn [mbind option_bind skip_ws is_ws].
    rewrite skip_ws_dumps by done. rewrite !string_app_assoc.
    rewrite Hx by (done || lia).
    specialize (IH n r (acc ++ [(k, v)]) Hs' Hjl).
    assert (skip_ws (join_with "," (map member (y :: m)) +:+ "}" +:+ r) =
            join_with "," (map member (y :: m)) +:+ "}" +:+ r) as Hws.
    { cbn [map]. rewrite join_with_cons.
      destruct (map member m); rewrite ?string_app_assoc; apply skip_ws_member. }
    rewrite <- !(assoc_L (++)) in IH.
    set (J := join_with _ _ +:+ _) in *. cbn [mbind option_bind].
    change ("," +:+ J) with (String "," J). cbn.
    rewrite Hws, dict_set_fresh by done. apply IH; [done|done|unfold depths in *; simpl in *; lia].
Qed.

Lemma scans_all j : scans j.
Proof.
  induction j as [|[]|t|s|l IH|m IH] using json_rect'; intros n r Hj Hr Hn;
    (destruct n as [|n]; [by destruct (Nat.nle_succ_0 _ Hn)|]); try done.
  - destruct Hj as [Hv Hnc]. cbn [dumps]. rewrite <- scan_num by done.
    destruct t as [|c t]; [done|].
    simpl in Hnc. apply andb_true_iff in Hnc as [Hc _].
    destruct c as [[] [] [] [] [] [] [] []]; first [discriminate Hc | done].
  - cbn [dumps]. unfold dumps_string.
    change (String "034" ?b +:+ ?c) with (String "034" (b +:+ c)). rewrite string_app_assoc.
    change (scan_value (S n) (String "034" ?b)) with ('(t, r') ← scan_string b; Some (JStr t, r')).
    change (chars ["034"%char] +:+ r) with (String "034" r). by rewrite scan_escape.
  - rewrite depth_list in Hn. cbn [dumps]. rewrite !string_app_assoc.
    destruct l as [|x l]; [done|]. pose proof Hj as Hj'. apply json_ok_list in Hj'.
    assert (exists c s, join_with "," (map dumps (x :: l)) +:+ "]" +:+ r = String c s /\ opens c)
      as (c & s & E & Hc).
    { apply Forall_cons in Hj' as [Hx _]. apply dumps_head in Hx as (c & s & Ex & Hc).
      cbn [map]. rewrite join_with_cons, Ex. destruct (map dumps l); eauto. }
    pose proof (scan_list_ok (x :: l) n r [] IH Hj' ltac:(done) ltac:(lia)) as Hs.
    rewrite E in *. change ("[" +:+ ?s) with (String "[" s). cbn [scan_value].
    rewrite skip_ws_opens by done. destruct Hc as (_ & Hc & _).
    destruct c as [[] [] [] [] [] [] [] []]; first [done | exact Hs].
  - rewrite depth_obj in Hn. cbn [dumps]. fold member. rewrite !string_app_assoc.
    destruct m as [|x m]; [done|]. apply json_ok_obj in Hj as [Hd Hj].
    pose proof (scan_obj_ok (x :: m) n r [] IH Hj Hd ltac:(done) ltac:(lia)) as Hs.
    change ("{" +:+ ?s) with (String "{" s). cbn [scan_value].
    assert (skip_ws (join_with "," (map member (x :: m)) +:+ "}" +:+ r) =
            join_with "," (map member (x :: m)) +:+ "}" +:+ r) as Hws.
    { cbn [map]. rewrite join_with_cons.
      destruct (map member m); rewrite ?string_app_assoc; apply skip_ws_member. }
    fold member. rewrite Hws. revert Hs. cbn [map]. rewrite join_with_cons.
    destruct (map member m); intros Hs; exact Hs.
Qed.

Lemma string_app_length (a b : string) :
  String.length (a +:+ b) = String.length a + String.length b.
Proof. induction a as [|c a IH]; [done|]. exact (f_equal S IH). Qed.

Lemma depths_le l ss :
  Forall2 (λ j s, depth j <= 2 * String.length s) l ss ->
  depths l <= 2 * String.length (join_with "," ss) + 1.
Proof.
  induction 1 as [|j s l ss Hj Hl IH]; simpl; [lia|].
  destruct Hl as [|j' s' l ss]; [simpl; lia|].
  rewrite !string_app_length. simpl in *. lia.
Qed.

Lemma depth_le j : json_ok j -> depth j <= 2 * String.length (dumps j).
Proof.
  induction j as [|[]|t|s|l IH|m IH] using json_rect'; intros Hj; try (simpl; lia).
  - destruct Hj as [Hv _]. destruct t; simpl; [done|lia].
  - apply json_ok_list in Hj. rewrite depth_list. cbn [dumps]. rewrite !string_app_length. simpl.
    assert (depths l <= 2 * String.length (join_with "," (map dumps l)) + 1); [|lia].
    apply depths_le, Forall2_fmap_r, Forall_Forall2_diag.
    rewrite Forall_forall in IH, Hj. apply Forall_forall. intros x Hin. by apply IH, Hj.
  - apply json_ok_obj in Hj as [_ Hj]. rewrite depth_obj. cbn [dumps]. fold member.
    rewrite !string_app_length. simpl.
    assert (depths m.*2 <= 2 * String.length (join_with "," (map member m)) + 1); [|lia].
    apply depths_le, Forall2_fmap_l, Forall2_fmap_r, Forall_Forall2_diag.
    rewrite Forall_forall in IH, Hj. apply Forall_forall. intros [k v] Hin.
    specialize (IH _ Hin (Hj _ Hin)).
    change (depth v <= 2 * String.length (dumps_string k +:+ ":" +:+ dumps v)).
    rewrite !string_app_length. simpl in *. lia.
Qed.

Lemma loads_dumps j : json_ok j -> loads (dumps j) = inr j.
Proof.
  intros Hj. unfold loads. pose proof (skip_ws_dumps j "" Hj) as Hws.
  pose proof (scans_all j (2 * String.length (dumps j) + 2) "" Hj I) as Hs.
  assert (forall s, s +:+ "" = s) as Happ.
  { induction s as [|c s IH]; [done|]. exact (f_equal (String c) IH). }
  rewrite Happ in *. rewrite Hws, Hs; [done|]. pose proof (depth_le j Hj). lia.
Qed.
