(* ===== verification/Results.v ===== *)
(** * Per-job result stream ([app/queue/results.py])

    The publish script and [ResultPublisher.publish], the SSE frame, resume
    cursors, and the reads of [ResultReader].  Theorems: an event is read back
    as it was published, sequence numbers increase along the stream whatever
    publishers interleave, a frame is parsed back by a client, and what the gap
    check guarantees. *)

From S2P Require Import Prelude Py Redis Prog Json.
From Stdlib Require Import Ascii Sorting.Sorted.

(** ** Names and cursors *)

Definition PAGE_PARTIAL : string := "page.partial".
Definition PAGE_FINAL : string := "page.final".
Definition JOB_COMPLETE : string := "job.complete".
Definition STREAM_OPEN : string := "stream.open".
Definition GAP : string := "stream.gap".

Definition out_stream (job_id : string) : string := "stream:out:" +:+ job_id.
Definition seq_key (job_id : string) : string := "stream:out:" +:+ job_id +:+ ":seq".

(** [str.partition("-")] *)
Fixpoint partition_dash (s : string) : string * string :=
  match s with
  | EmptyString => ("", "")
  | String "-"%char s' => ("", s')
  | String c s' => let '(a, b) := partition_dash s' in (String c a, b)
  end.

(** [_ID], a full match: digits, a dash, digits. *)
Definition all_digits (s : string) : bool := negb (s =? "")%string && str_forall is_digit s.

Fixpoint is_id (seen : bool) (s : string) : bool :=
  match s with
  | EmptyString => false
  | String c s' =>
      if is_digit c then is_id true s' else seen && Ascii.eqb c "-"%char && all_digits s'
  end.

Definition parse_entry_id (raw : option string) : option string :=
  match raw with
  | None => None
  | Some raw => let raw := strip raw in if is_id false raw then Some raw else None
  end.

(** [(int(ms), int(seq or 0))] *)
Definition id_tuple (entry_id : string) : result (Z * Z) :=
  let '(ms, seq) := partition_dash entry_id in
  let* m := int ms in
  let* s := (if (seq =? "")%string then inr 0%Z else int seq) in
  inr (m, s).

(** [<] on tuples. *)
Definition tuple_ltb (a b : Z * Z) : bool :=
  ((a.1 <? b.1) || ((a.1 =? b.1) && (a.2 <? b.2)))%Z.

(** ** Events *)

Record ResultEvent := {
  ev_entry_id : string; ev_seq : Z; ev_event : string; ev_data : list (string * json) }.

Definition LF : string := String "010" "".

(** [{**d, k: v}] *)
Definition merge (d e : list (string * json)) : list (string * json) :=
  fold_left (λ m kv, dict_set kv.1 kv.2 m) e d.

Definition sse_body (e : ResultEvent) : string :=
  dumps (JObj (merge (ev_data e) [("seq", JNum (py_str (ev_seq e))); ("stream_id", JStr (ev_entry_id e))])).

Definition sse (e : ResultEvent) : string :=
  "id: " +:+ ev_entry_id e +:+ LF +:+ "event: " +:+ ev_event e +:+ LF +:+
  "data: " +:+ sse_body e +:+ LF +:+ LF.

Definition _decode (entry_id : string) (fs : fields) : result ResultEvent :=
  let* seq := int (default "0" (fs !! "seq")) in
  let* data := loads match fs !! "data" with
                     | Some (String c s) => String c s
                     | _ => "{}"
                     end in
  match data with
  | JObj m => inr {| ev_entry_id := entry_id; ev_seq := seq;
                     ev_event := default "" (fs !! "event"); ev_data := m |}
  | _ => inl (TypeError "not a mapping")
  end.

Section results.
Context {R : Type} `{Redis R} `{Clock R}.

(** ** The write side *)

Definition publish_fields (seq : Z) (event : string) (data : list (string * json)) : fields :=
  {["seq" := py_str seq; "event" := event; "data" := dumps (JObj data)]}.

(** [_PUBLISH_LUA], one atomic step; [EXPIRE] takes seconds. *)
Definition publish_lua (job_id : string) (maxlen ttl_s : Z) (event : string)
  (data : list (string * json)) (r : R) : R * (eid * Z) :=
  let '(r, seq) := incr (seq_key job_id) r in
  let '(r, id) := xadd_maxlen (out_stream job_id) maxlen (publish_fields seq event data) r in
  let r := pexpire (out_stream job_id) (ttl_s * 1000) r in
  let r := pexpire (seq_key job_id) (ttl_s * 1000) r in
  (r, (id, seq)).

Definition event_data (job_id : string) (now : Z) (payload : list (string * json))
  : list (string * json) :=
  merge [("job_id", JStr job_id); ("emitted_at_ms", JNum (py_str now))] payload.

Definition publish (maxlen ttl_s : Z) (job_id event : string) (payload : list (string * json))
  : prog R ResultEvent :=
  let! now := sample now_ms in
  let data := event_data job_id now payload in
  let! (id, seq) := call (publish_lua job_id maxlen ttl_s event data) in
  Ret {| ev_entry_id := eid_str id; ev_seq := seq; ev_event := event; ev_data := data |}.

(** ** The read side *)

(** Two commands of one non-transactional pipeline. *)
Definition window (job_id : string) : prog R (option string * option string) :=
  let! first := ask (λ r, head (xrange (out_stream job_id) r)) in
  let! last := ask (λ r, last (xrange (out_stream job_id) r)) in
  Ret (eid_str ∘ fst <$> first, eid_str ∘ fst <$> last).

Definition gap_after (job_id last_id : string) : prog R bool :=
  let! (lo, _) := window job_id in
  match lo with
  | None => Ret false
  | Some lo =>
      let! a := of_result (id_tuple last_id) in
      let! b := of_result (id_tuple lo) in
      Ret (tuple_ltb a b)
  end.

(** The entries after an id, as the server selects them. *)
Definition eid_tuple (i : eid) : Z * Z := (Z.of_N i.1, Z.of_N i.2).
Definition after_id (after : option (Z * Z)) (i : eid) : bool :=
  match after with Some a => tuple_ltb a (eid_tuple i) | None => true end.

Definition entries_after (stream : string) (after : option (Z * Z)) (count : nat) (r : R)
  : list (eid * fields) :=
  take count (filter (λ e, after_id after e.1 = true) (xrange stream r)).

Fixpoint decode_all (l : list (eid * fields)) : result (list ResultEvent) :=
  match l with
  | [] => inr []
  | e :: l' =>
      let* x := _decode (eid_str e.1) e.2 in
      let* xs := decode_all l' in
      inr (x :: xs)
  end.

Definition history (job_id : string) (after : option string) (count : nat)
  : prog R (list ResultEvent) :=
  let! a := match after with
            | Some i => let! t := of_result (id_tuple i) in Ret (Some t)
            | None => Ret None
            end in
  let! entries := ask (entries_after (out_stream job_id) a count) in
  of_result (decode_all entries).

(** [XREAD BLOCK]: what the server replies when it wakes the reader up. *)
Definition tail (job_id last_id : string) (count : nat) : prog R (list ResultEvent) :=
  let! a := of_result (id_tuple last_id) in
  let! entries := ask (entries_after (out_stream job_id) (Some a) count) in
  of_result (decode_all entries).
End results.

(** ** Cursors *)

Lemma partition_digits a b :
  str_forall is_digit a = true -> partition_dash (a +:+ "-" +:+ b) = (a, b).
Proof.
  induction a as [|c a IH]; [done|]. simpl. intros [Hc Ha]%andb_true_iff.
  change (String c a +:+ "-" +:+ b) with (String c (a +:+ "-" +:+ b)). cbn [partition_dash].
  rewrite IH by done. destruct c as [[] [] [] [] [] [] [] []]; first [done | discriminate Hc].
Qed.

Lemma pretty_N_nonempty (n : N) : pretty n <> "".
Proof. intros E. pose proof (int_digits_pretty n) as Hd. by rewrite E in Hd. Qed.

Lemma int_pretty_N (n : N) : int (pretty n) = inr (Z.of_N n).
Proof.
  unfold int. rewrite py_int_digits by apply pretty_N_digits. by rewrite int_digits_pretty.
Qed.

Lemma id_tuple_eid i : id_tuple (eid_str i) = inr (eid_tuple i).
Proof.
  unfold id_tuple, eid_str, eid_tuple. rewrite partition_digits by apply pretty_N_digits.
  rewrite int_pretty_N. cbn [rbind].
  destruct (String.eqb_spec (pretty i.2) "") as [E|_]; [by apply pretty_N_nonempty in E|].
  by rewrite int_pretty_N.
Qed.

Lemma tuple_ltb_eid a b : tuple_ltb (eid_tuple a) (eid_tuple b) = eid_ltb a b.
Proof.
  unfold tuple_ltb, eid_ltb, eid_tuple. simpl.
  repeat match goal with |- context [(?x <? ?y)%Z] => destruct (Z.ltb_spec x y) end;
  repeat match goal with |- context [(?x <? ?y)%N] => destruct (N.ltb_spec x y) end;
  destruct (Z.eqb_spec (Z.of_N a.1) (Z.of_N b.1)), (N.eqb_spec a.1 b.1); done || lia.
Qed.

Lemma is_id_digits a b seen :
  (a <> "" \/ seen = true) -> str_forall is_digit a = true ->
  is_id seen (a +:+ "-" +:+ b) = all_digits b.
Proof.
  revert seen. induction a as [|c a IH]; intros seen Hs Ha.
  - destruct Hs as [Hs|Hs]; [done|]. by rewrite Hs.
  - simpl in Ha. apply andb_true_iff in Ha as [Hc Ha].
    change (String c a +:+ "-" +:+ b) with (String c (a +:+ "-" +:+ b)). cbn [is_id].
    rewrite Hc. apply IH; [by right|done].
Qed.

Lemma all_digits_pretty (n : N) : all_digits (pretty n) = true.
Proof.
  unfold all_digits. rewrite pretty_N_digits.
  destruct (String.eqb_spec (pretty n) "") as [E|_]; [by apply pretty_N_nonempty in E|done].
Qed.

Definition not_space (c : ascii) : bool := negb (is_space c).

Lemma rstrip_clean s : str_forall not_space s = true -> rstrip s = s.
Proof.
  induction s as [|c s IH]; simpl; [done|]. intros [Hc Hs]%andb_true_iff.
  apply negb_true_iff in Hc. rewrite IH by done. destruct s; [by rewrite Hc|done].
Qed.

Lemma strip_clean s : str_forall not_space s = true -> strip s = s.
Proof.
  intros Hs. unfold strip. rewrite rstrip_clean by done. destruct s as [|c s]; [done|].
  simpl in *. apply andb_true_iff in Hs as [Hc _]. apply negb_true_iff in Hc. by rewrite Hc.
Qed.

Lemma str_forall_impl (P Q : ascii -> bool) s :
  (forall c, P c = true -> Q c = true) -> str_forall P s = true -> str_forall Q s = true.
Proof.
  intros HPQ. induction s as [|c s IH]; simpl; [done|].
  intros [Hc Hs]%andb_true_iff. by rewrite HPQ, IH.
Qed.

Lemma parse_entry_id_eid i : parse_entry_id (Some (eid_str i)) = Some (eid_str i).
Proof.
  unfold parse_entry_id, eid_str. rewrite strip_clean.
  - rewrite is_id_digits, all_digits_pretty; [done| |apply pretty_N_digits].
    left. apply pretty_N_nonempty.
  - rewrite !str_forall_app. simpl.
    assert (forall n : N, str_forall not_space (pretty n) = true) as Hp.
    { intros n. apply (str_forall_impl is_digit); [|apply pretty_N_digits].
      intros c Hc. unfold not_space. by rewrite digit_not_space. }
    by rewrite !Hp.
Qed.

(** ** Payloads *)

Lemma dict_set_keys k v m : (dict_set k v m).*1 = if decide (k ∈ m.*1) then m.*1 else m.*1 ++ [k].
Proof.
  induction m as [|[k' v'] m IH]; [done|]. cbn [dict_set].
  destruct (String.eqb_spec k k') as [->|Hne].
  - rewrite decide_True; [done|apply list_elem_of_here].
  - rewrite !fmap_cons, IH. cbn [fst]. destruct (decide (k ∈ m.*1)) as [Hk|Hk].
    + rewrite decide_True; [done|]. by apply list_elem_of_further.
    + rewrite decide_False; [done|]. rewrite not_elem_of_cons. done.
Qed.

Lemma dict_set_ok k v m : json_ok (JObj m) -> json_ok v -> json_ok (JObj (dict_set k v m)).
Proof.
  rewrite !json_ok_obj. intros [Hd Hm] Hv. split.
  - rewrite dict_set_keys. destruct (decide (k ∈ m.*1)); [done|].
    apply NoDup_app. split_and!; [done| |apply NoDup_singleton].
    intros x Hx ->%list_elem_of_singleton. done.
  - clear Hd. induction Hm as [|[k' v'] m Hx Hm IH]; cbn [dict_set]; [by constructor|].
    destruct (k =? k')%string; by constructor.
Qed.

Lemma merge_ok e : forall d,
  json_ok (JObj d) -> Forall (λ kv, json_ok kv.2) e -> json_ok (JObj (merge d e)).
Proof.
  unfold merge. induction e as [|[k v] e IH]; intros d Hd He; [done|].
  apply Forall_cons in He as [Hv He]. simpl. apply IH; [|done]. by apply dict_set_ok.
Qed.

(** A decimal has no leading zero. *)
Lemma pretty_go_head (x : N) : forall s, (0 < x)%N ->
  exists c t, pretty_N_go x s = String c t /\ is_digit c = true /\ c <> "0"%char.
Proof.
  induction (N.lt_wf_0 x) as [x _ IH]; intros s Hx.
  rewrite pretty_N_go_step by done.
  destruct (decide (x `div` 10 = 0)%N) as [Hz|Hnz].
  - rewrite Hz, pretty_N_go_0.
    destruct (pretty_N_char_digit (x mod 10)) as [Hd Hv]; [apply N.mod_lt; lia|].
    eexists _, _. split_and!; [done|done|]. intros E. rewrite E in Hv.
    assert (digit_value "0" = 0%N) as E0 by done. rewrite E0 in Hv.
    pose proof (N.div_mod x 10 ltac:(lia)). lia.
  - apply IH; [apply N.div_lt; lia|]. by apply N.neq_0_lt_0.
Qed.

Lemma skip_digits_all s : str_forall is_digit s = true -> skip_digits s = "".
Proof. induction s as [|c s IH]; simpl; [done|]. intros [-> Hs]%andb_true_iff. by apply IH. Qed.

Lemma valid_num_pretty (n : N) :
  valid_num (pretty n) = true /\ valid_num (String "-" (pretty n)) = true.
Proof.
  pose proof (pretty_N_digits n) as Hd. unfold pretty, pretty_N in *.
  case_decide as E; [done|].
  destruct (pretty_go_head n "" ltac:(lia)) as (c & t & Hp & Hc & H0). rewrite Hp in *.
  simpl in Hd. apply andb_true_iff in Hd as [_ Hd]. apply skip_digits_all in Hd.
  assert (some_digits (String c t) = Some "") as Hs by (simpl; by rewrite Hc, Hd).
  destruct c as [[] [] [] [] [] [] [] []];
    first [discriminate Hc | done | (unfold valid_num; by rewrite Hs)].
Qed.

Lemma num_ok_str n : json_ok (JNum (py_str n)).
Proof.
  assert (forall p : N, str_forall is_num_char (pretty p) = true) as Hall.
  { intros p. apply (str_forall_impl is_digit); [|apply pretty_N_digits].
    intros c Hc. unfold is_num_char. by rewrite Hc. }
  destruct n as [|p|p]; [done| |].
  - exact (conj (proj1 (valid_num_pretty (N.pos p))) (Hall (N.pos p))).
  - exact (conj (proj2 (valid_num_pretty (N.pos p))) (Hall (N.pos p))).
Qed.

Lemma event_data_ok job now payload :
  Forall (λ kv, json_ok kv.2) payload -> json_ok (JObj (event_data job now payload)).
Proof.
  intros Hp. apply merge_ok; [|done]. rewrite json_ok_obj. split.
  - apply NoDup_cons. split; [|apply NoDup_singleton]. by intros ?%list_elem_of_singleton.
  - constructor; [done|]. constructor; [apply num_ok_str|done].
Qed.

(** ** Publishing *)

Section publishing.
Context {R : Type} `{RedisLaws R} `{Clock R}.
Context (job_id : string) (maxlen ttl_s : Z).
Implicit Types r : R.

Definition out_entries (v : rview) : list sentry := sv_entries (vstream (out_stream job_id) v).

Lemma seq_key_ne : seq_key job_id <> out_stream job_id.
Proof using Type.
  unfold seq_key, out_stream. intros E. apply (inj (String.append "stream:out:")) in E.
  apply string_app_id in E. done.
Qed.

Lemma out_entries_vpexpire k ms v : out_entries (vpexpire k ms v) = out_entries v.
Proof using Type. unfold out_entries. by rewrite vstream_vpexpire. Qed.

Lemma vctr_vpexpire k k' ms v : vctr k (vpexpire k' ms v) = vctr k v.
Proof using Type. unfold vpexpire. by destruct (vexists k' v). Qed.

(** What the script does to the stream and the counter. *)
Lemma publish_lua_view event data r :
  let '(r', (id, seq)) := publish_lua job_id maxlen ttl_s event data r in
  seq = (vctr (seq_key job_id) (view r) + 1)%Z /\
  Forall (λ e, eid_ltb (se_id e) id = true) (out_entries (view r)) /\
  (exists d, let l := out_entries (view r) ++ [SEntry id (publish_fields seq event data) true] in
     (d = 0%nat \/ (maxlen <= Z.of_nat (length (drop d l)))%Z) /\
     out_entries (view r') = drop d l) /\
  vctr (seq_key job_id) (view r') = seq.
Proof using Type.
  unfold publish_lua. destruct (incr_view (seq_key job_id) r) as [Hs Hv].
  destruct (incr (seq_key job_id) r) as [r1 seq]. simpl in Hs, Hv.
  pose proof (xadd_maxlen_view (out_stream job_id) maxlen (publish_fields seq event data) r1)
    as [Hid (d & Hd & Hv2)].
  destruct (xadd_maxlen _ _ _ r1) as [r2 id]. cbn [fst snd] in *.
  rewrite !view_pexpire, !out_entries_vpexpire, !vctr_vpexpire, Hv2.
  assert (vstream (out_stream job_id) (view r1) = vstream (out_stream job_id) (view r)) as Es
    by by rewrite Hv.
  rewrite Es in *. split_and!.
  - done.
  - apply Forall_forall. intros e He. rewrite Forall_forall in Hid. apply Hid.
    apply elem_of_app. left. by apply (list_elem_of_fmap_2 se_id).
  - exists d. split; [exact Hd|]. unfold out_entries. by rewrite vstream_vset_stream_eq.
  - unfold vctr, vset_stream. simpl. rewrite Hv. unfold vincr. simpl.
    by rewrite lookup_insert_eq.
Qed.
End publishing.

Lemma drop_keeps_last {A} d (l : list A) x (n : Z) :
  (1 <= n)%Z -> (d = 0%nat \/ (n <= Z.of_nat (length (drop d (l ++ [x]))))%Z) ->
  drop d (l ++ [x]) = drop d l ++ [x].
Proof.
  intros Hn Hd. rewrite length_drop, length_app in Hd. simpl in Hd.
  rewrite drop_app_le; [done|lia].
Qed.

Lemma _decode_publish i seq event data :
  json_ok (JObj data) ->
  _decode (eid_str i) (publish_fields seq event data) =
  inr {| ev_entry_id := eid_str i; ev_seq := seq; ev_event := event; ev_data := data |}.
Proof.
  intros Hd. unfold _decode, publish_fields. simpl_map. cbn [from_option id]. rewrite int_str. cbn [rbind].
  pose proof (loads_dumps _ Hd) as Hl.
  destruct (dumps (JObj data)) eqn:E; [by apply dumps_head in Hd as (? & ? & ? & ?); congruence|].
  by rewrite Hl.
Qed.

Section reading.
Context {R : Type} `{RedisLaws R} `{Clock R}.
Implicit Types r : R.

Lemma entries_after_view job after count r :
  entries_after (out_stream job) after count r =
  take count (filter (λ e, after_id after e.1 = true)
                (map (λ e, (se_id e, se_fields e)) (out_entries job (view r)))).
Proof. unfold entries_after. by rewrite xrange_view. Qed.

Lemma filter_none {A} (P : A -> Prop) `{forall x, Decision (P x)} (l : list A) :
  Forall (λ x, ~ P x) l -> filter P l = [].
Proof. induction 1 as [|x l Hx _ IH]; [done|]. by rewrite filter_cons_False. Qed.

Lemma run_of_result {A} (x : result A) r : run (of_result x) r = (x, r).
Proof. by destruct x. Qed.

Lemma run_gap_after job c r :
  run (gap_after job (eid_str c)) r =
  (inr match out_entries job (view r) with
       | e :: _ => eid_ltb c (se_id e)
       | [] => false
       end, r).
Proof.
  unfold gap_after, window. autorewrite with run. cbn [fst snd]. rewrite xrange_view.
  unfold out_entries. destruct (sv_entries _) as [|e l]; [done|]. cbn.
  rewrite !id_tuple_eid. cbn. by rewrite tuple_ltb_eid.
Qed.
End reading.

(** ** Frames *)

Definition no_lf (c : ascii) : bool := negb (Ascii.eqb c "010"%char).

(** What [json.dumps] writes is printable ASCII. *)
Definition printable (c : ascii) : bool := ((32 <=? ascii_code c) && (ascii_code c <=? 126))%N.

Lemma printable_no_lf s : str_forall printable s = true -> str_forall no_lf s = true.
Proof. apply str_forall_impl. by intros [[] [] [] [] [] [] [] []]. Qed.

Lemma escape_char_printable c : str_forall printable (escape_char c) = true.
Proof. by destruct c as [[] [] [] [] [] [] [] []]. Qed.

Lemma dumps_string_printable s : str_forall printable (dumps_string s) = true.
Proof.
  unfold dumps_string. change (printable "034" && str_forall printable (escape s +:+ chars ["034"%char]) = true).
  rewrite str_forall_app. induction s as [|c s IH]; [done|].
  change (escape (String c s)) with (escape_char c +:+ escape s).
  by rewrite str_forall_app, escape_char_printable.
Qed.

Lemma join_forall P l : P ","%char = true ->
  Forall (λ s, str_forall P s = true) l -> str_forall P (join_with "," l) = true.
Proof.
  intros HP. induction 1 as [|s l Hs _ IH]; [done|]. rewrite join_with_cons. destruct l; [done|].
  rewrite !str_forall_app, Hs, IH. cbn. by rewrite HP.
Qed.

Lemma dumps_printable j : json_ok j -> str_forall printable (dumps j) = true.
Proof.
  induction j as [|[]|t|s|l IH|m IH] using json_rect'; intros Hj; try done.
  - destruct Hj as [_ Hj]. apply (str_forall_impl is_num_char); [|done].
    intros c Hc. by destruct c as [[] [] [] [] [] [] [] []].
  - apply dumps_string_printable.
  - apply json_ok_list in Hj. cbn [dumps]. rewrite !str_forall_app, join_forall; [done|done|].
    apply Forall_fmap. rewrite Forall_forall in IH, Hj. apply Forall_forall.
    intros x Hx. by apply IH, Hj.
  - apply json_ok_obj in Hj as [_ Hj]. cbn [dumps]. rewrite !str_forall_app, join_forall; [done|done|].
    apply Forall_fmap. rewrite Forall_forall in IH, Hj. apply Forall_forall.
    intros x Hx. cbn [compose].
    change (str_forall printable (dumps_string x.1 +:+ ":" +:+ dumps x.2) = true).
    by rewrite !str_forall_app, dumps_string_printable, (IH x Hx (Hj x Hx)).
Qed.

(** The lines of a text; its last line ends at the end of the text. *)
Fixpoint lines (s : string) : list string :=
  match s with
  | EmptyString => [""]
  | String "010"%char s' => "" :: lines s'
  | String c s' => match lines s' with x :: l => String c x :: l | [] => [String c ""] end
  end.

Lemma lines_line s t : str_forall no_lf s = true -> lines (s +:+ LF +:+ t) = s :: lines t.
Proof.
  induction s as [|c s IH]; [done|]. simpl. intros [Hc Hs]%andb_true_iff.
  change (String c s +:+ LF +:+ t) with (String c (s +:+ LF +:+ t)). cbn [lines].
  rewrite IH by done. destruct c as [[] [] [] [] [] [] [] []]; first [done | discriminate Hc].
Qed.

(** ** Properties *)

(** C30: a subscriber that has received everything the stream holds gets, as its
    next read, exactly the event that is published next, decoded to the very
    event the publisher returned; its sequence number is the next one. *)
Theorem published_event_delivered {R} `{RedisLaws R} `{Clock R}
  maxlen ttl_s job event payload c count (r : R) :
  (1 <= maxlen)%Z -> Forall (λ kv, json_ok kv.2) payload ->
  c ∈ se_id <$> out_entries job (view r) ->
  Forall (λ e, eid_ltb c (se_id e) = false) (out_entries job (view r)) ->
  let '(x, r') := run (publish maxlen ttl_s job event payload) r in
  exists ev, x = inr ev /\ ev_seq ev = (vctr (seq_key job) (view r) + 1)%Z /\
    ev_event ev = event /\ ev_data ev = event_data job (now_ms r) payload /\
    run (tail job (eid_str c) (S count)) r' = (inr [ev], r').
Proof.
  intros Hm Hp Hc Hmax. unfold publish. autorewrite with run. cbn [fst snd].
  pose proof (publish_lua_view job maxlen ttl_s event (event_data job (now_ms r) payload) r) as Hv.
  destruct (publish_lua _ _ _ _ _ r) as [r' [id seq]]. cbn [fst snd run].
  destruct Hv as (Hseq & Hid & (d & Hd & Hl) & _).
  eexists. split_and!; [reflexivity|done|done|done|].
  unfold tail. rewrite id_tuple_eid. cbn [of_result pbind]. autorewrite with run. cbn [fst snd].
  rewrite (drop_keeps_last _ _ _ _ Hm Hd) in Hl.
  rewrite entries_after_view, Hl, map_app, filter_app. cbn [map].
  rewrite (filter_none _ (map _ _)).
  - apply list_elem_of_fmap in Hc as (e & -> & He). rewrite Forall_forall in Hid.
    rewrite filter_cons_True by (cbn; rewrite tuple_ltb_eid; by apply Hid).
    cbn. rewrite _decode_publish by (by apply event_data_ok). by rewrite take_nil.
  - apply Forall_fmap, Forall_drop. eapply Forall_impl; [exact Hmax|]. intros e He. cbn.
    rewrite tuple_ltb_eid, He. done.
Qed.

(** The sequence numbers along a job's stream increase up to the counter. *)
Definition seqs_ok (job : string) (v : rview) : Prop :=
  exists ns, Forall2 (λ e n, se_fields e !! "seq" = Some (py_str n)) (out_entries job v) ns /\
    StronglySorted Z.lt ns /\ Forall (λ n, n <= vctr (seq_key job) v)%Z ns.

(** A job's stream with one event, published at 1 ms. *)
Definition one_event : rview :=
  RV 5 ∅ ∅ {["stream:out:j:seq" := 1%Z]}
    {["stream:out:j" := SView false [SEntry (1, 0)%N {["seq" := "1"; "event" := PAGE_PARTIAL; "data" := "{}"]} true] []]}.

Example published_event_delivered_witness :
  let '(x, r') := run (publish 10 60 "j" PAGE_FINAL [("page_index", JNum "3")]) one_event in
  exists ev, x = inr ev /\ ev_seq ev = 2%Z /\ ev_event ev = PAGE_FINAL /\
    ev_data ev = [("job_id", JStr "j"); ("emitted_at_ms", JNum "5"); ("page_index", JNum "3")] /\
    run (tail "j" "1-0" 4) r' = (inr [ev], r').
Proof.
  refine (published_event_delivered 10 60 "j" PAGE_FINAL [("page_index", JNum "3")] (1, 0)%N 3
            one_event _ _ _ _).
  - done.
  - by repeat constructor.
  - apply list_elem_of_here.
  - by repeat constructor.
Defined.

(** whatever publishers interleave - the script is one atomic step - the
    sequence numbers along the stream strictly increase and stay below the
    counter, so the next one is new; trimming keeps this. *)
Theorem publish_keeps_seqs_ok {R} `{RedisLaws R} job maxlen ttl_s event data (r : R) :
  seqs_ok job (view r) -> seqs_ok job (view (publish_lua job maxlen ttl_s event data r).1).
Proof.
  intros (ns & Hns & Hs & Hc).
  pose proof (publish_lua_view job maxlen ttl_s event data r) as Hv.
  destruct (publish_lua _ _ _ _ _ r) as [r' [id seq]]. simpl.
  destruct Hv as (Hseq & _ & (d & _ & Hl) & Hctr).
  exists (drop d (ns ++ [seq])). rewrite Hl, Hctr. split_and!.
  - apply Forall2_drop, Forall2_app; [done|]. constructor; [|done].
    unfold publish_fields. simpl. by simpl_map.
  - assert (StronglySorted Z.lt (ns ++ [seq])) as Hall.
    { clear Hns Hl. induction Hs as [|n l Hs IH Hn]; simpl; [by repeat constructor|].
      apply Forall_cons in Hc as [Hn0 Hc]. constructor; [by apply IH|].
      apply Forall_app. split; [done|]. constructor; [lia|done]. }
    clear -Hall. revert d. induction Hall as [|n l Hs IH Hn]; intros [|d]; simpl;
      [constructor..|by constructor|done].
  - apply Forall_drop, Forall_app. split; [|by constructor].
    eapply Forall_impl; [exact Hc|]. simpl. intros n Hn. lia.
Qed.

Example publish_keeps_seqs_ok_witness :
  seqs_ok "j" (view (publish_lua "j" 1 60 PAGE_FINAL [] one_event).1).
Proof.
  apply (publish_keeps_seqs_ok "j" 1 60 PAGE_FINAL [] one_event).
  exists [1%Z]. by repeat constructor.
Defined.

(** the gap check is safe.  The stream holds the most recent part of the
    job's events [log] and a client resumes after one of them: unless it is told
    of a gap, every event after its cursor is still there. *)
Theorem gap_check_safe {R} `{RedisLaws R} job c (log : list eid) (r r' : R) :
  StronglySorted (λ i j, eid_ltb i j = true) log -> c ∈ log ->
  se_id <$> out_entries job (view r) <> [] ->
  se_id <$> out_entries job (view r) `suffix_of` log ->
  run (gap_after job (eid_str c)) r = (inr false, r') ->
  forall i, i ∈ log -> eid_ltb c i = true -> i ∈ se_id <$> out_entries job (view r).
Proof.
  intros Hs Hc Hne [k Hk] Hg i Hi Hci. rewrite run_gap_after in Hg.
  destruct (out_entries job (view r)) as [|e l]; [done|]. injection Hg as Hg _.
  rewrite Hk in Hi. apply elem_of_app in Hi as [Hi|Hi]; [|done]. exfalso.
  assert (eid_ltb i (se_id e) = true) as Hie; [|by rewrite (eid_ltb_trans _ _ _ Hci Hie) in Hg].
  rewrite Hk in Hs. clear -Hs Hi. induction k as [|x k IH]; [by apply elem_of_nil in Hi|].
  simpl in Hs. inversion_clear Hs as [|? ? Hs' Hf]. apply elem_of_cons in Hi as [->|Hi]; [|by apply IH].
  rewrite Forall_forall in Hf. apply Hf, elem_of_app. right. apply list_elem_of_here.
Qed.

Example gap_check_safe_witness :
  (2, 0)%N ∈ se_id <$> out_entries "j"
    (vset_stream (out_stream "j") (SView false [SEntry (1, 0)%N ∅ true; SEntry (2, 0)%N ∅ true] [])
       (rview_init 0)).
Proof.
  refine (gap_check_safe "j" (1, 0)%N [(0, 3); (1, 0); (2, 0)]%N
    (vset_stream (out_stream "j") (SView false [SEntry (1, 0)%N ∅ true; SEntry (2, 0)%N ∅ true] [])
       (rview_init 0)) _ _ _ _ _ _ (2, 0)%N _ _).
  - by repeat constructor.
  - in_list.
  - done.
  - by exists [(0, 3)%N].
  - reflexivity.
  - in_list.
  - done.
Defined.

(** The check also fires when only the cursor's own event is gone, nothing
    after it. *)
Example gap_false_alarm :
  let v := vset_stream (out_stream "j") (SView false [SEntry (2, 0)%N ∅ true] []) (rview_init 0) in
  (run (gap_after "j" "1-0") v).1 = inr true.
Proof. vm_compute. done. Qed.

(** an SSE frame is four lines and the empty line that ends it - whatever
    the payload holds - so a client splitting lines reads back the id, the
    event and a body that decodes to the payload with its sequence number. *)
Theorem sse_frame (e : ResultEvent) :
  str_forall no_lf (ev_entry_id e) = true -> str_forall no_lf (ev_event e) = true ->
  json_ok (JObj (ev_data e)) ->
  lines (sse e) = ["id: " +:+ ev_entry_id e; "event: " +:+ ev_event e; "data: " +:+ sse_body e; ""; ""]
  /\ loads (sse_body e) =
     inr (JObj (merge (ev_data e) [("seq", JNum (py_str (ev_seq e))); ("stream_id", JStr (ev_entry_id e))])).
Proof.
  intros Hi He Hd.
  assert (json_ok (JObj (merge (ev_data e)
    [("seq", JNum (py_str (ev_seq e))); ("stream_id", JStr (ev_entry_id e))]))) as Hm.
  { apply merge_ok; [done|]. constructor; [apply num_ok_str|]. by repeat constructor. }
  split; [|by apply loads_dumps].
  assert (forall p s t, str_forall no_lf p = true -> str_forall no_lf s = true ->
    lines (p +:+ s +:+ LF +:+ t) = (p +:+ s) :: lines t) as Hl.
  { intros p s t Hp Hs. rewrite <- string_app_assoc. apply lines_line.
    by rewrite str_forall_app, Hp, Hs. }
  unfold sse. rewrite Hl by done. f_equal. rewrite Hl by done. f_equal.
  change (LF +:+ LF) with (LF +:+ String "010" ""). rewrite Hl by (try done; by apply printable_no_lf, dumps_printable).
  done.
Qed.

Example sse_frame_witness :
  lines (sse {| ev_entry_id := "1-0"; ev_seq := 1; ev_event := PAGE_FINAL;
                ev_data := [("text", JStr ("a" +:+ LF +:+ LF +:+ "b"))] |}) =
  ["id: 1-0"; "event: page.final";
   "data: " +:+ sse_body {| ev_entry_id := "1-0"; ev_seq := 1; ev_event := PAGE_FINAL;
                            ev_data := [("text", JStr ("a" +:+ LF +:+ LF +:+ "b"))] |}; ""; ""].
Proof.
  refine (proj1 (sse_frame {| ev_entry_id := "1-0"; ev_seq := 1; ev_event := PAGE_FINAL;
    ev_data := [("text", JStr ("a" +:+ LF +:+ LF +:+ "b"))] |} _ _ _)); [done|done|].
  split; [|done]. apply NoDup_singleton.
Defined.
