(* ===== verification/Config.v ===== *)
(** * Settings ([app/config.py])

    The fields of [Settings] that the modelled code reads outside the limiter,
    the breaker and the controllers (whose arguments are records of their own
    files), with the constraints pydantic enforces on them, and the two derived
    limits. *)

From S2P Require Import Prelude Py.
From Stdlib Require Import QArith Qround Qminmax Lqa.

Record Settings := {
  page_deadline_s : Q;
  degrade_after_s : Q;
  saturation_pause_s : Q;
  max_requeues : Z;
  max_requeues_set : bool;     (* ["max_requeues" in self.model_fields_set] *)
  stage_handoff : bool;
  worker_concurrency : Z;
  worker_prefetch : Z;
  worker_lead_reserve : Z;
  worker_lead_poll_ms : Z;
  worker_block_ms : Z;
  reaper_min_idle_s : Q;
  reaper_batch : Z;
  orphan_sweep_age_s : Q;
  data_dir : string;
  pdf_text_sample_chars : Z;
  eval_max_nodes : Z;
  eval_ted_budget_ms : Q;
  eval_ted_work_per_ms : Z }.

(** The [Field] constraints. *)
Record settings_ok (s : Settings) : Prop := {
  so_deadline : (0 < page_deadline_s s)%Q;
  so_degrade : (0 < degrade_after_s s)%Q;
  so_pause : (0 <= saturation_pause_s s)%Q;
  so_requeues : (1 <= max_requeues s)%Z;
  so_concurrency : (0 < worker_concurrency s)%Z;
  so_prefetch : (0 < worker_prefetch s)%Z;
  so_lead : (0 <= worker_lead_reserve s)%Z;
  so_batch : (0 < reaper_batch s)%Z;
  so_text : (0 <= pdf_text_sample_chars s)%Z }.

Definition budget_s (s : Settings) : Q := Qmin_py (degrade_after_s s) (page_deadline_s s).
Definition per_requeue_s (s : Settings) : Q := Qmax_py (saturation_pause_s s) (1 # 20).

Definition effective_max_requeues (s : Settings) : Z :=
  if max_requeues_set s then max_requeues s
  else Z.max (max_requeues s) (int_of_float (budget_s s / per_requeue_s s) * 2).

Definition eval_max_ted_work (s : Settings) : Z :=
  int_of_float (eval_ted_budget_ms s * inject_Z (eval_ted_work_per_ms s)).

(** ** Lemmas *)

Lemma per_requeue_pos s : (1 # 20 <= per_requeue_s s)%Q.
Proof.
  unfold per_requeue_s, Qmax_py. destruct (Qle_bool _ _) eqn:E; [by apply Qle_bool_iff in E|apply Qle_refl].
Qed.

Lemma budget_pos s : settings_ok s -> (0 < budget_s s)%Q.
Proof. intros []. unfold budget_s, Qmin_py. by destruct (Qle_bool _ _). Qed.

(** ** Properties *)

(** the derived requeue budget cannot bind before the age does: with the
    budget left to its default, as many requeues as it allows, each paced by the
    saturation pause, last at least as long as the smaller of the two age
    limits; an explicit value is used as it is. *)
Theorem requeues_outlast_budget s :
  settings_ok s ->
  if max_requeues_set s then effective_max_requeues s = max_requeues s
  else (budget_s s <= inject_Z (effective_max_requeues s) * per_requeue_s s)%Q.
Proof.
  intros Hok. unfold effective_max_requeues. destruct (max_requeues_set s); [done|].
  pose proof (budget_pos s Hok) as Hb. pose proof (per_requeue_pos s) as Hp.
  pose proof (so_requeues s Hok) as Hm.
  assert (0 < per_requeue_s s)%Q as Hp0 by lra.
  set (q := (budget_s s / per_requeue_s s)%Q).
  assert (budget_s s == q * per_requeue_s s)%Q as Eq by (unfold q; field; lra).
  assert (0 <= q)%Q as Hq by (apply Qle_shift_div_l; lra).
  rewrite int_of_float_nonneg by done.
  assert (q <= inject_Z (Z.max (max_requeues s) (Qfloor q * 2)))%Q as Hle; [|nra].
  pose proof (Qlt_floor q) as Hf.
  destruct (decide (1 <= Qfloor q)%Z) as [H1|H1].
  - apply Qle_trans with (inject_Z (Qfloor q + 1)); [lra|]. rewrite <- Zle_Qle. lia.
  - apply Qle_trans with (inject_Z 1); [|rewrite <- Zle_Qle; lia].
    assert (Qfloor q + 1 <= 1)%Z as H2 by lia. rewrite Zle_Qle in H2. lra.
Qed.

Definition default_settings : Settings := {|
  page_deadline_s := 300; degrade_after_s := 90; saturation_pause_s := 1 # 2; max_requeues := 50;
  max_requeues_set := false; stage_handoff := true; worker_concurrency := 16; worker_prefetch := 8;
  worker_lead_reserve := 4; worker_lead_poll_ms := 100; worker_block_ms := 2000;
  reaper_min_idle_s := 30; reaper_batch := 64; orphan_sweep_age_s := 900; data_dir := "/data";
  pdf_text_sample_chars := 0; eval_max_nodes := 2000;
  eval_ted_budget_ms := 100; eval_ted_work_per_ms := 1800 |}.

Lemma default_settings_ok : settings_ok default_settings.
Proof. split; reflexivity || (cbn; lia) || (vm_compute; discriminate). Qed.

Example requeues_outlast_budget_witness :
  effective_max_requeues default_settings = 360%Z /\ (90 <= inject_Z 360 * (1 # 2))%Q.
Proof.
  split; [reflexivity|].
  exact (requeues_outlast_budget default_settings default_settings_ok).
Defined.
