(* ===== verification/Splitter.v ===== *)
(** * Document storage and page extraction ([app/pdf/splitter.py])

    The job's document on disk: its path, the two bounded uploads, the page
    count, one page's content, the sweep's candidates and the deletion.  The PDF
    parser is a parameter.  Theorems: an upload never leaves more than its byte
    budget on disk and leaves nothing when it fails, and stops by itself; what is
    stored is what was sent; a path cannot escape the data directory; the sweep
    proposes only documents that can be deleted. *)

From S2P Require Import Prelude Py Redis Prog Json.
From Stdlib Require Import QArith Qround Ascii.

(** ** Pages *)

(** [round(x, 2)] *)
Definition round2 (x : Q) : Q := inject_Z (round_half_even (x * 100)) / 100.

Record PageContent := {
  pg_index : Z; pg_width : Q; pg_height : Q; pg_rotation : Z; pg_text : string; pg_text_chars : Z }.

(** [num]: how [json] writes a float. *)
Definition as_payload (num : Q -> string) (c : PageContent) : json :=
  JObj [("page_index", JNum (py_str (pg_index c)));
        ("width", JNum (num (round2 (pg_width c))));
        ("height", JNum (num (round2 (pg_height c))));
        ("rotation", JNum (py_str (pg_rotation c)));
        ("text_sample", JStr (pg_text c));
        ("text_chars", JNum (py_str (pg_text_chars c)))].

Definition PAGE_REF_PREFIX : string := "pdf".

Definition page_ref (job_id : string) (page_index : Z) : string :=
  PAGE_REF_PREFIX +:+ ":" +:+ job_id +:+ "#" +:+ py_str page_index.

(** ** Paths *)

(** [[A-Za-z0-9_-]] *)
Definition id_char (c : ascii) : bool :=
  let n := ascii_code c in
  (is_digit c || ((65 <=? n) && (n <=? 90)) || ((97 <=? n) && (n <=? 122)) || (n =? 95) || (n =? 45))%N.

(** [_SAFE_JOB_ID]: one to 64 of these, and nothing else. *)
Definition safe_job_id (s : string) : bool :=
  str_forall id_char s && (1 <=? String.length s) && (String.length s <=? 64).

Definition doc_path (data_dir job_id : string) : string := data_dir +:+ "/" +:+ job_id +:+ ".pdf".

Definition pdf_path (data_dir job_id : string) : result string :=
  if safe_job_id job_id then inr (doc_path data_dir job_id)
  else inl (ValueError ("unsafe job id: " +:+ job_id)).

(** ** The disk: files by path, with their modification time *)

Record doc := { d_bytes : string; d_mtime_ms : Z }.
Abbreviation disk := (gmap string doc).

(** The stem of [data_dir]'s entry [path], if it is one and ends in [.pdf]. *)
Fixpoint pdf_stem (s : string) : option string :=
  if String.eqb s ".pdf" then Some ""
  else match s with
       | EmptyString => None
       | String c s' => if Ascii.eqb c "/" then None else String c <$> pdf_stem s'
       end.

Definition glob_pdf (data_dir : string) (d : disk) : list (string * doc) :=
  omap (λ kx, (λ stem, (stem, kx.2)) <$> (strip_prefix (data_dir +:+ "/") kx.1 ≫= pdf_stem)) (map_to_list d).

Section splitter.
Context {W : Type} `{Redis W} `{Clock W} `{Memory disk W}.

Definition on_disk (f : Z -> disk -> disk) (w : W) : W := set_mem (f (now_ms w) (mem w)) w.

(** ** Uploads *)

Definition open_wb (dest : string) : prog W unit :=
  act (on_disk (λ now, <[dest := {| d_bytes := ""; d_mtime_ms := now |}]>)).

Definition write (dest chunk : string) : prog W unit :=
  act (on_disk (λ now, alter (λ d, {| d_bytes := d_bytes d +:+ chunk; d_mtime_ms := now |}) dest)).

(** [dest.unlink(missing_ok=True)] *)
Definition unlink (dest : string) : prog W unit := note (on_disk (λ _, delete dest)).

Definition str_len (s : string) : Z := Z.of_nat (String.length s).

(** Remove the partial file, whatever was raised. *)
Definition or_unlink {A} (dest : string) (p : prog W A) : prog W A :=
  catch p (λ e, do! unlink dest in Raise e).

Section upload.
(** [UploadFile.read(size)] *)
Context (read : Z -> W -> result string * W).
Context (dest : string) (chunk_bytes max_bytes : Z).

(** The [while True] loop; [fuel] bounds its rounds. *)
Fixpoint copy_loop (fuel : nat) (written : Z) : prog W Z :=
  match fuel with
  | O => Raise (RuntimeError "out of fuel")
  | S fuel =>
      let! chunk := step (read chunk_bytes) in
      if bool_decide (chunk = "") then Ret written
      else
        let written := (written + str_len chunk)%Z in
        if (max_bytes <? written)%Z then Raise (UploadTooLarge max_bytes)
        else do! write dest chunk in copy_loop fuel written
  end.

Definition stream_to_disk : prog W Z :=
  or_unlink dest (do! open_wb dest in copy_loop (Z.to_nat (max_bytes + 2)) 0).

(** The same from an iterator of chunks: [next] is its [__anext__], [None] at
    the end. *)
Fixpoint body_loop (chunks : list string) (written : Z) : prog W Z :=
  match chunks with
  | [] => Ret written
  | chunk :: rest =>
      if bool_decide (chunk = "") then body_loop rest written
      else
        let written := (written + str_len chunk)%Z in
        if (max_bytes <? written)%Z then Raise (UploadTooLarge max_bytes)
        else do! write dest chunk in body_loop rest written
  end.

Definition stream_body_to_disk (chunks : list string) : prog W Z :=
  or_unlink dest (do! open_wb dest in body_loop chunks 0).
End upload.

(** ** Reading the document

    [PdfReader] is a parameter: what it reads off a document's bytes. *)

Record pdf_page := {
  pp_width : Q; pp_height : Q;
  pp_rotate : result Z;       (* [int(page.get("/Rotate", 0) or 0)] *)
  pp_text : result string }.  (* [page.extract_text() or ""] *)

Record pdf_document := { pd_encrypted : bool; pd_pages : list (result pdf_page) }.

Context (pdf_reader : string -> result pdf_document).

(** [except (PdfReadError, OSError, ValueError, KeyError)]; [OtherException]
    names the first two. *)
Definition unreadable (e : exn) : bool :=
  match e with
  | ValueError _ | KeyError _ => true
  | OtherException n => (String.eqb n "PdfReadError" || String.eqb n "OSError" ||
                         String.eqb n "FileNotFoundError")%bool
  | _ => false
  end.

Definition as_invalid {A} (message : exn -> string) (m : result A) : result A :=
  match m with
  | inl (InvalidPdf s) => inl (InvalidPdf s)
  | inl e => if unreadable e then inl (InvalidPdf (message e)) else inl e
  | inr a => inr a
  end.

(** [open(path, "rb")] *)
Definition read_file (path : string) (d : disk) : result string :=
  match d !! path with Some x => inr (d_bytes x) | None => inl (OtherException "FileNotFoundError") end.

Definition count_pages (message : exn -> string) (path : string) (d : disk) : result Z :=
  as_invalid message (
    let* bytes := read_file path d in
    let* reader := pdf_reader bytes in
    if pd_encrypted reader then inl (InvalidPdf "encrypted PDFs are not supported")
    else
      let pages := Z.of_nat (length (pd_pages reader)) in
      if (pages <? 1)%Z then inl (InvalidPdf "PDF contains no pages") else inr pages).

Definition extract_page (message : exn -> string) (path : string) (page_index text_limit : Z)
  (d : disk) : result PageContent :=
  as_invalid message (
    let* bytes := read_file path d in
    let* reader := pdf_reader bytes in
    if (page_index <? 0)%Z || (Z.of_nat (length (pd_pages reader)) <=? page_index)%Z
    then inl (InvalidPdf ("page " +:+ py_str page_index +:+ " out of range"))
    else
      let* page := default (inl (KeyError "page")) (pd_pages reader !! Z.to_nat page_index) in
      let* rotation := match pp_rotate page with
                       | inl (TypeError _) | inl (ValueError _) => inr 0%Z
                       | r => r
                       end in
      let* text := if (0 <? text_limit)%Z then
                     match pp_text page with
                     | inl e => if is_Exception e then inr "" else inl e
                     | inr t => inr t
                     end
                   else inr "" in
      inr {| pg_index := page_index; pg_width := pp_width page; pg_height := pp_height page;
             pg_rotation := rotation;
             pg_text := String.substring 0 (Z.to_nat text_limit) text;
             pg_text_chars := str_len text |}).

(** ** Sweeping *)

Definition orphan_candidates (data_dir : string) (min_age_s : Q) (w : W) : list string :=
  fst <$> filter (λ x, Qle min_age_s (inject_Z (now_ms w - d_mtime_ms x.2) / 1000) /\
                       safe_job_id x.1 = true)
            (glob_pdf data_dir (mem w)).

Definition delete_document (data_dir job_id : string) (w : W) : W * bool :=
  match pdf_path data_dir job_id with
  | inl _ => (w, false)
  | inr path =>
      match (mem w : disk) !! path with
      | Some _ => (set_mem (delete path (mem w)) w, true)
      | None => (w, false)
      end
  end.
End splitter.

(** ** Uploads are bounded *)

Lemma length_append s t : String.length (s +:+ t) = (String.length s + String.length t)%nat.
Proof. induction s as [|c s IH]; [done|]. change (S (String.length (s +:+ t)) = (S (String.length s) + String.length t)%nat). lia. Qed.

Lemma str_len_append s t : str_len (s +:+ t) = (str_len s + str_len t)%Z.
Proof. unfold str_len. rewrite length_append. lia. Qed.

Lemma str_len_pos s : s <> "" -> (1 <= str_len s)%Z.
Proof. unfold str_len. destruct s; [done|]. simpl. lia. Qed.

Section uploads.
Context {W : Type} `{ML : MemoryLaws disk W}.
Context (rely : W -> W -> Prop) (fault : exn -> Prop).
Context (dest : string) (max_bytes : Z).
Context (Hrely : forall w w', rely w w' -> (mem w' : disk) !! dest = mem w !! dest).
Implicit Types w : W.

(** What the upload has on disk never exceeds its budget. *)
Definition within_budget (w : W) : Prop :=
  forall d, (mem w : disk) !! dest = Some d -> (str_len (d_bytes d) <= max_bytes)%Z.

Definition stored (c : string) (w : W) : Prop :=
  exists d, (mem w : disk) !! dest = Some d /\ d_bytes d = c.

Lemma stored_budget c w : stored c w -> (str_len c <= max_bytes)%Z -> within_budget w.
Proof using Type. intros (d & Hd & <-) Hc d' Hd'. by simplify_eq. Qed.

Lemma stored_rely c w w' : rely w w' -> stored c w -> stored c w'.
Proof using Hrely. intros Hr (d & Hd & Hc). exists d. by rewrite (Hrely _ _ Hr). Qed.

Lemma budget_rely w w' : rely w w' -> within_budget w -> within_budget w'.
Proof using Hrely. intros Hr Hb d. rewrite (Hrely _ _ Hr). apply Hb. Qed.

Lemma wp_on_disk f (Q : result unit -> W -> Prop) c w :
  within_budget w -> (str_len c <= max_bytes)%Z ->
  (forall w1, rely w w1 -> stored c (on_disk f w1)) ->
  (forall w', stored c w' -> Q (inr tt) w') ->
  (forall e w', fault e -> within_budget w' -> Q (inl e) w') ->
  wp rely fault within_budget (act (on_disk f)) Q w.
Proof using Hrely.
  intros Hb Hc Hf HQ HE w1 Hr. cbn [fst snd of_result wp].
  pose proof (stored_budget _ _ (Hf w1 Hr) Hc) as Hb'. pose proof (budget_rely _ _ Hr Hb) as Hb1.
  split_and!; [done|by apply HQ, Hf|]. intros e He. split_and!; [done|by apply HE..].
Qed.

Lemma wp_open Q w : (0 <= max_bytes)%Z -> within_budget w ->
  (forall w', stored "" w' -> Q (inr tt) w') ->
  (forall e w', fault e -> within_budget w' -> Q (inl e) w') ->
  wp rely fault within_budget (open_wb dest) Q w.
Proof using Hrely ML.
  intros Hm Hb HQ HE. apply (wp_on_disk _ _ ""); [done|done| |done|done].
  intros w1 _. unfold on_disk, stored. rewrite mem_set_mem, lookup_insert_eq. by eexists.
Qed.

Lemma wp_write c chunk Q w : stored c w -> (str_len (c +:+ chunk) <= max_bytes)%Z ->
  (forall w', stored (c +:+ chunk) w' -> Q (inr tt) w') ->
  (forall e w', fault e -> within_budget w' -> Q (inl e) w') ->
  wp rely fault within_budget (write dest chunk) Q w.
Proof using Hrely ML.
  intros Hc Hb HQ HE.
  assert (str_len c <= max_bytes)%Z by (rewrite str_len_append in Hb; unfold str_len in *; lia).
  apply (wp_on_disk _ _ (c +:+ chunk)); [by eapply stored_budget|done| |done|done].
  intros w1 Hr. apply (stored_rely _ _ _ Hr) in Hc as (d & Hd & <-).
  unfold on_disk, stored. rewrite mem_set_mem, lookup_alter_eq, Hd. by eexists.
Qed.

(** What an upload ends with. *)
Definition upload_post (x : result Z) (w : W) : Prop :=
  match x with
  | inl e => (e = UploadTooLarge max_bytes \/ fault e) /\ (mem w : disk) !! dest = None
  | inr n => (n <= max_bytes)%Z /\ exists c, stored c w /\ n = str_len c
  end.

Definition loop_post (P : string -> Prop) (x : result Z) (w : W) : Prop :=
  match x with
  | inl e => (e = UploadTooLarge max_bytes \/ fault e) /\ within_budget w
  | inr n => (n <= max_bytes)%Z /\ exists c, stored c w /\ n = str_len c /\ P c
  end.

(** Opening, the loop, and the clean-up. *)
Lemma wp_upload (p : prog W Z) P w :
  (0 <= max_bytes)%Z -> within_budget w ->
  (forall w', stored "" w' -> wp rely fault within_budget p (loop_post P) w') ->
  wp rely fault within_budget (or_unlink dest (do! open_wb dest in p))
    (λ x w', upload_post x w' /\ forall n, x = inr n -> exists c, stored c w' /\ P c) w.
Proof using Hrely ML.
  intros Hm Hb Hp. apply wp_catch, wp_bind.
  assert (forall e w', e = UploadTooLarge max_bytes \/ fault e ->
    wp rely fault within_budget (do! unlink dest in Raise e)
      (λ x w', upload_post x w' /\ forall n : Z, x = inr n -> exists c, stored c w' /\ P c) w') as Hun.
  { intros e w' He. cbn. split; [|done]. split; [done|]. unfold on_disk. rewrite mem_set_mem.
    by rewrite lookup_delete_eq. }
  apply wp_open; [done|done| |auto].
  intros w1 Hw1. eapply wp_mono; [|by apply Hp]. intros [e|n] w2; [intros [He _]; by apply Hun|].
  intros (Hn & c & Hc & -> & HP). split; [split; eauto|]. intros n' _. eauto.
Qed.

Section reading.
Context (read : Z -> W -> result string * W).
Context (Hread : forall n w, (mem (read n w).2 : disk) = mem w).
Context (Herr : forall n w e, (read n w).1 = inl e -> fault e).

Lemma wp_copy_loop chunk_bytes fuel : forall c w,
  stored c w -> (str_len c <= max_bytes)%Z -> (max_bytes + 1 - str_len c < Z.of_nat fuel)%Z ->
  wp rely fault within_budget (copy_loop read dest chunk_bytes max_bytes fuel (str_len c))
    (loop_post (λ _, True)) w.
Proof using Hrely Hread Herr ML.
  induction fuel as [|fuel IH]; intros c w Hc Hb Hf; [lia|]. cbn [copy_loop].
  apply wp_bind. intros w1 Hr. apply (stored_rely _ _ _ Hr) in Hc.
  assert (stored c (read chunk_bytes w1).2) as Hc2.
  { destruct Hc as (d & Hd & E). exists d. by rewrite Hread. }
  split_and!; [by eapply stored_budget| |].
  - pose proof (Herr chunk_bytes w1) as He. destruct (read chunk_bytes w1) as [[e|chunk] w2].
    { cbn. split; [right; by apply He|]. by eapply stored_budget. }
    cbn [fst snd of_result wp] in *. case_bool_decide as Hne; [cbn; split; eauto|].
    apply str_len_pos in Hne. rewrite <- str_len_append.
    destruct (max_bytes <? _)%Z eqn:El; [cbn; split; [by left|by eapply stored_budget]|].
    bool_prop. apply wp_bind, (wp_write c); [done|done| |].
    + intros w3 Hw3. apply IH; [done|done|]. rewrite str_len_append. lia.
    + intros e w3 He' Hw3. split; [by right|done].
  - intros e He. split_and!; [by eapply stored_budget|cbn; split; [by right|by eapply stored_budget]..].
Qed.
End reading.

Lemma wp_body_loop chunks : forall c w,
  stored c w -> (str_len c <= max_bytes)%Z ->
  wp rely fault within_budget (body_loop dest max_bytes chunks (str_len c))
    (loop_post (λ c', c' = c +:+ String.concat "" chunks)) w.
Proof using Hrely ML.
  assert (forall s, s +:+ "" = s) as Hnil.
  { induction s as [|a s IH]; [done|]. change (String a (s +:+ "") = String a s). by rewrite IH. }
  induction chunks as [|chunk rest IH]; intros c w Hc Hb; cbn [body_loop].
  { cbn. split; [done|]. exists c. by rewrite Hnil. }
  assert (String.concat "" (chunk :: rest) = chunk +:+ String.concat "" rest) as Hcat.
  { destruct rest; [symmetry; apply Hnil|done]. }
  rewrite Hcat. case_bool_decide as Hne; [subst chunk; by apply IH|].
  rewrite <- str_len_append.
  destruct (max_bytes <? _)%Z eqn:El; [cbn; split; [by left|by eapply stored_budget]|].
  bool_prop. apply wp_bind, (wp_write c); [done|done| |].
  - intros w3 Hw3. rewrite <- string_app_assoc. by apply IH.
  - intros e w3 He' Hw3. split; [by right|done].
Qed.
End uploads.

(** ** Paths and globs *)

Lemma pdf_stem_Some s : forall r, pdf_stem s = Some r -> s = r +:+ ".pdf".
Proof.
  induction s as [|c s IH]; intros r; [done|]. cbn [pdf_stem].
  destruct (String.eqb _ _) eqn:E; [apply String.eqb_eq in E; by intros [= <-]|].
  destruct (Ascii.eqb c _); [done|]. intros (r' & Hr & ->)%fmap_Some.
  change (String c s = String c (r' +:+ ".pdf")). f_equal. auto.
Qed.

Lemma glob_pdf_path data_dir d stem x :
  (stem, x) ∈ glob_pdf data_dir d -> d !! doc_path data_dir stem = Some x.
Proof.
  unfold glob_pdf. intros ([path y] & Hin & Hg)%list_elem_of_omap.
  apply elem_of_map_to_list in Hin. cbn in Hg. apply fmap_Some in Hg as (r & Hr & [= <- <-]).
  apply bind_Some in Hr as (s & Hs & Hst). apply strip_prefix_Some in Hs as ->.
  apply pdf_stem_Some in Hst as ->. unfold doc_path. by rewrite string_app_assoc in Hin.
Qed.

Lemma app_inj_r (a b c : string) : a +:+ c = b +:+ c -> a = b.
Proof.
  revert b. induction a as [|x a IH]; intros [|y b] E; [done| | |].
  - exfalso. apply (f_equal String.length) in E. change (String.length c = S (String.length (b +:+ c))) in E.
    rewrite length_append in E. lia.
  - exfalso. apply (f_equal String.length) in E. change (S (String.length (a +:+ c)) = String.length c) in E.
    rewrite length_append in E. lia.
  - injection E as -> E. f_equal. auto.
Qed.

Lemma app_inj_l (a b c : string) : c +:+ a = c +:+ b -> a = b.
Proof. induction c as [|x c IH]; [done|]. intros E. injection E as E. auto. Qed.

Lemma doc_path_inj data_dir j j' : doc_path data_dir j = doc_path data_dir j' -> j = j'.
Proof. unfold doc_path. intros E%app_inj_l%(app_inj_l _ _ "/"). by apply app_inj_r in E. Qed.

(** ** Properties *)

(** an upload never has more than its budget on disk, at any point and
    whatever fails, and ends by itself: however long the client sends, the copy
    ends with the whole of what was read within budget, or with the budget
    exceeded or a failed operation and no file left behind. *)
Theorem upload_bounded {W} `{MemoryLaws disk W} (rely : W -> W -> Prop) (fault : exn -> Prop)
  (read : Z -> W -> result string * W) dest chunk_bytes max_bytes w :
  (forall w w', rely w w' -> (mem w' : disk) !! dest = mem w !! dest) ->
  (forall n w, (mem (read n w).2 : disk) = mem w) ->
  (forall n w e, (read n w).1 = inl e -> fault e) ->
  (0 <= max_bytes)%Z -> within_budget dest max_bytes w ->
  wp rely fault (within_budget dest max_bytes) (stream_to_disk read dest chunk_bytes max_bytes)
    (upload_post fault dest max_bytes) w.
Proof.
  intros Hr Hread Herr Hm Hb. eapply wp_mono; [|apply (wp_upload rely fault dest max_bytes Hr _ (λ _, True))];
    [by intros x w' [Hp _]|done|done|].
  intros w' Hw'. apply (wp_copy_loop rely fault dest max_bytes Hr read Hread Herr chunk_bytes _ "");
    [done|done|]. unfold str_len. simpl. lia.
Qed.

(** what is stored is what was sent: when the raw upload succeeds the file
    holds the concatenation of the chunks and the result is its length; when it
    fails there is no file. *)
Theorem body_round_trip {W} `{MemoryLaws disk W} (rely : W -> W -> Prop) (fault : exn -> Prop)
  dest max_bytes chunks w :
  (forall w w', rely w w' -> (mem w' : disk) !! dest = mem w !! dest) ->
  (0 <= max_bytes)%Z -> within_budget dest max_bytes w ->
  wp rely fault (within_budget dest max_bytes) (stream_body_to_disk dest max_bytes chunks)
    (λ x w', match x with
             | inl _ => (mem w' : disk) !! dest = None
             | inr n => stored dest (String.concat "" chunks) w' /\
                        n = str_len (String.concat "" chunks) /\ (n <= max_bytes)%Z
             end) w.
Proof.
  intros Hr Hm Hb. eapply wp_mono; [|apply (wp_upload rely fault dest max_bytes Hr
    (body_loop dest max_bytes chunks 0) (λ c, c = String.concat "" chunks))]; [|done|done|].
  - intros [e|n] w' [Hp Hc]; [apply Hp|]. destruct Hp as (Hn & c & (d & Hd & <-) & ->).
    destruct (Hc _ eq_refl) as (c' & (d' & Hd' & E') & ->). rewrite Hd in Hd'. injection Hd' as <-.
    rewrite <- E'. split_and!; [by exists d|done|done].
  - intros w' Hw'. by apply (wp_body_loop rely fault dest max_bytes Hr chunks "").
Qed.

(** a document path stays inside the data directory and is the job's own:
    its file name has no separator and no dot but the extension's, and two jobs
    never share a path. *)
Theorem pdf_path_confined data_dir j j' p :
  pdf_path data_dir j = inr p ->
  p = data_dir +:+ "/" +:+ j +:+ ".pdf" /\
  str_forall (λ c, negb (Ascii.eqb c "/"%char || Ascii.eqb c "."%char)) j = true /\
  (pdf_path data_dir j' = inr p -> j' = j).
Proof.
  unfold pdf_path. intros Hp. destruct (safe_job_id j) eqn:E; [|done]. injection Hp as <-.
  split_and!; [done| |].
  - unfold safe_job_id in E. bool_prop. clear -H. induction j as [|c j IH]; [done|].
    simpl in *. apply andb_true_iff in H as [Hc Hj]. rewrite (IH Hj), andb_true_r.
    destruct c as [[] [] [] [] [] [] [] []]; first [reflexivity|discriminate Hc].
  - destruct (safe_job_id j'); [|done]. intros [= Hp]. by apply doc_path_inj in Hp.
Qed.

(** the sweep proposes only documents it can delete: each candidate names
    an existing document older than the threshold; deleting it removes exactly
    that file. *)
Theorem candidates_deletable {W} `{MemoryLaws disk W} data_dir min_age_s j w :
  j ∈ orphan_candidates data_dir min_age_s w ->
  exists d, (mem w : disk) !! doc_path data_dir j = Some d /\
    (min_age_s <= inject_Z (now_ms w - d_mtime_ms d) / 1000)%Q /\
    delete_document data_dir j w = (set_mem (delete (doc_path data_dir j) (mem w : disk)) w, true).
Proof.
  unfold orphan_candidates. intros ([stem x] & -> & [[Ha Hs] Hg]%list_elem_of_filter)%list_elem_of_fmap.
  cbn in *. apply glob_pdf_path in Hg. exists x. split_and!; [done|done|].
  unfold delete_document, pdf_path. by rewrite Hs, Hg.
Qed.

(** *** A directory with one document *)

Definition demo_disk : rview * disk :=
  (RV 2000000 ∅ ∅ ∅ ∅, {["/data/j.pdf" := {| d_bytes := "x"; d_mtime_ms := 0 |}]}).

Definition demo_read (n : Z) (w : rview * disk) : result string * (rview * disk) := (inr "abc", w).

Example upload_bounded_witness :
  wp eq (λ _, False) (within_budget "/data/k.pdf" 7)
    (stream_to_disk demo_read "/data/k.pdf" 3 7) (upload_post (λ _, False) "/data/k.pdf" 7) demo_disk.
Proof.
  refine (upload_bounded eq (λ _, False) demo_read "/data/k.pdf" 3 7 demo_disk _ _ _ _ _);
    [by intros w w' ->|done|done|done|]. intros d Hd. by vm_compute in Hd.
Defined.

Example body_round_trip_witness :
  wp eq (λ _, True) (within_budget "/data/k.pdf" 7)
    (stream_body_to_disk "/data/k.pdf" 7 ["ab"; ""; "cde"])
    (λ x (w' : rview * disk), match x with
             | inl _ => (mem w' : disk) !! "/data/k.pdf" = None
             | inr n => stored "/data/k.pdf" "abcde" w' /\ n = 5%Z /\ (n <= 7)%Z
             end) demo_disk.
Proof.
  refine (body_round_trip eq (λ _, True) "/data/k.pdf" 7 ["ab"; ""; "cde"] demo_disk _ _ _);
    [by intros w w' ->|done|]. intros d Hd. by vm_compute in Hd.
Defined.

Example pdf_path_confined_witness :
  pdf_path "/data" "a-1" = inr "/data/a-1.pdf" /\ pdf_path "/data" "../x" <> inr "/data/../x.pdf" /\
  (pdf_path "/data" "a-2" = inr "/data/a-1.pdf" -> "a-2" = "a-1").
Proof.
  split_and!; [reflexivity|discriminate|].
  exact (proj2 (proj2 (pdf_path_confined "/data" "a-1" "a-2" "/data/a-1.pdf" eq_refl))).
Defined.

Lemma demo_candidate : "j" ∈ orphan_candidates "/data" 900 demo_disk.
Proof. vm_compute. by left. Qed.

Example candidates_deletable_witness :
  exists d, (mem demo_disk : disk) !! "/data/j.pdf" = Some d /\
    (900 <= inject_Z (now_ms demo_disk - d_mtime_ms d) / 1000)%Q /\
    delete_document "/data" "j" demo_disk =
      (set_mem (delete "/data/j.pdf" (mem demo_disk : disk)) demo_disk, true).
Proof. exact (candidates_deletable "/data" 900 "j" demo_disk demo_candidate). Defined.
