(* ===== verification/Pipeline.v ===== *)
(** * Page pipeline ([app/worker/pipeline.py])

    [process_page] - layout, then VLM, each stage committed by a compare-and-set
    - with what it is made of: [_emit], [_degrade], [release_claim],
    [force_terminal].  The model client is a parameter: two programs that leave
    the page records alone.  Theorems: every command of any number of workers
    moves a page along one edge of the table and keeps the job's accounts,
    whatever fails in between; what a page's owner leaves behind for each
    outcome; and two ways a transient fault or a late commit escapes that. *)

From S2P Require Import Prelude Py Redis Prog PageState Json Results.
From Stdlib Require Import QArith.

(** ** Outcomes *)

Module Outcome.
Inductive t :=
| COMPLETED | RESUMED | ALREADY_TERMINAL | OWNED_BY_OTHER | DEGRADED | HANDOFF | SATURATED
| FAILED.
End Outcome.

Record PageResult := {
  pr_outcome : Outcome.t; pr_job_id : string; pr_page_index : Z; pr_detail : string;
  pr_retry_after_s : Q }.

(** [0.4], as [str] writes it. *)
Definition FALLBACK_CONFIDENCE : string := "0.4".

(** [type(exc).__name__] *)
Definition exn_name (e : exn) : string :=
  match e with
  | ValueError _ => "ValueError" | KeyError _ => "KeyError" | TypeError _ => "TypeError"
  | RuntimeError _ => "RuntimeError" | RedisError _ => "RedisError"
  | ResponseError _ => "ResponseError" | RateLimitTimeout _ _ _ => "RateLimitTimeout"
  | CircuitOpen _ _ => "CircuitOpen" | HTTPStatusError _ _ => "HTTPStatusError"
  | TimeoutException => "TimeoutException" | TransportError => "TransportError"
  | InvalidPdf _ => "InvalidPdf" | UploadTooLarge _ => "UploadTooLarge"
  | HTTPException _ => "HTTPException" | OtherException n => n
  | CancelledError => "CancelledError"
  end.

(** [PageState(page["state"])] *)
Definition page_state (page : fields) : result PageState :=
  match page !! "state" with
  | None => inl (KeyError "state")
  | Some v =>
      match state_of_value v with
      | Some s => inr s
      | None => inl (ValueError (v +:+ " is not a valid PageState"))
      end
  end.

Record pipeline_config := {
  pc_ttl_s : Z;            (* [PageStateStore(ttl_s)] *)
  pc_publishes : bool;     (* [results is not None] *)
  pc_maxlen : Z; pc_result_ttl_s : Z }.

Section pipeline.
Context {W : Type} `{Redis W} `{Clock W}.
(** [ModelClient.layout] and [ModelClient.vlm]. *)
Context (layout vlm : string -> Z -> option string -> option json -> prog W json).
(** [str(exc)], and [str] of a decoded JSON value, neither of which is read back. *)
Context (exn_str : exn -> string) (str_json : json -> string).
Context (cfg : pipeline_config).

(** ** The store's operations, with their round trips *)

Definition _renew_job_pages (job : string) (total_pages : Z) : prog W unit :=
  catch (act (renew_job_pages (pc_ttl_s cfg) job total_pages))
    (λ e, if is_Exception e then Ret tt else Raise e).

Definition store_transition (job : string) (index : Z) (to : PageState)
  (allowed_from : option (list PageState)) (fs : list (string * string))
  : prog W TransitionResult :=
  match default (PREDECESSORS to) allowed_from with
  | [] => Raise (ValueError (state_value to +:+ " is unreachable: no legal predecessor"))
  | sources =>
      let! now := sample now_ms in
      let! p := call (transition_lua (page_key job index) (job_key job) (state_value to) now
                        (is_terminal to) (pc_ttl_s cfg * 1000) (state_value <$> sources) fs) in
      do! (if (0 <? rp_sweep p)%Z then _renew_job_pages job (rp_sweep p) else Ret tt) in
      Ret {| tr_ok := rp_ok p; tr_observed := rp_observed p; tr_done_count := rp_done p;
             tr_total_pages := rp_total p; tr_requested := to |}
  end.

(** ** Events *)

Definition _emit (event : string) (tr : TransitionResult) (job : string) (index : Z)
  (payload : list (string * json)) : prog W unit :=
  if negb (pc_publishes cfg) || negb (tr_ok tr) then Ret tt
  else
    catch
      (do! publish (pc_maxlen cfg) (pc_result_ttl_s cfg) job event
             (merge [("page_index", JNum (py_str index));
                     ("state", JStr (state_value (tr_requested tr)))] payload) in
       if completed_job tr
       then do! publish (pc_maxlen cfg) (pc_result_ttl_s cfg) job JOB_COMPLETE
                  [("total_pages", JNum (py_str (tr_total_pages tr)));
                   ("done", JNum (py_str (tr_done_count tr)))] in Ret tt
       else Ret tt)
      (λ e, if is_Exception e then Ret tt else Raise e).

Definition page_result (o : Outcome.t) (job : string) (index : Z) (detail : string) : PageResult :=
  {| pr_outcome := o; pr_job_id := job; pr_page_index := index; pr_detail := detail;
     pr_retry_after_s := 0 |}.

Definition _degrade (job : string) (index : Z) (cause : exn) : prog W PageResult :=
  let reason := match cause with
                | HTTPStatusError code _ => "HTTP " +:+ py_str code
                | _ => exn_name cause
                end in
  let! result := store_transition job index FALLBACK_DONE None
    [("degraded", "1"); ("confidence", FALLBACK_CONFIDENCE); ("fallback_reason", reason)] in
  do! _emit PAGE_FINAL result job index
        [("complete", JBool true); ("degraded", JBool true);
         ("confidence", JNum FALLBACK_CONFIDENCE); ("fallback_reason", JStr reason)] in
  Ret (page_result Outcome.DEGRADED job index reason).

Definition release_claim (job : string) (index : Z) : prog W unit :=
  let! page := ask (get_page job index) in
  if bool_decide (page = ∅) then Ret tt
  else
    let! current := of_result (page_state page) in
    match RECLAIM_TARGET current with
    | Some target => do! store_transition job index target (Some [current]) [] in Ret tt
    | None => Ret tt
    end.

Definition force_terminal (job : string) (index : Z) (reason : string) : prog W string :=
  let! page := ask (get_page job index) in
  if bool_decide (page = ∅) then Ret "MISSING"
  else
    let! state := of_result (page_state page) in
    if is_terminal state then Ret (state_value state)
    else
      let degradable := can_transition state FALLBACK_DONE in
      let target := if degradable then FALLBACK_DONE else FAILED in
      let fs := if degradable
                then [("degraded", "1"); ("confidence", FALLBACK_CONFIDENCE); ("fallback_reason", reason)]
                else [("error", reason)] in
      let! applied := store_transition job index target None fs in
      if negb (tr_ok applied) then Ret (tr_observed applied)
      else
        do! _emit PAGE_FINAL applied job index
              ([("complete", JBool true); ("degraded", JBool degradable)] ++
               if degradable then [("confidence", JNum FALLBACK_CONFIDENCE)]
               else [("error", JStr reason)]) in
        Ret (state_value target).

(** ** The two stages *)

Section page.
Context (job : string) (index : Z) (page_ref : option string) (page_content : option json).
Context (final_attempt handoff reclaim : bool).

(** [None]: go on with the VLM stage. *)
Definition layout_stage : prog W (option PageResult) :=
  let! claim := store_transition job index LAYOUT_RUNNING None [] in
  if negb (tr_ok claim)
  then Ret (Some (page_result Outcome.OWNED_BY_OTHER job index (tr_observed claim)))
  else
    let! out := layout job index page_ref page_content in
    let! committed := store_transition job index LAYOUT_DONE None [("layout", dumps out)] in
    do! _emit PAGE_PARTIAL committed job index [("complete", JBool false); ("layout", out)] in
    if handoff then Ret (Some (page_result Outcome.HANDOFF job index "layout")) else Ret None.

(** The [try] around the call: a value, or the result the page ends with. *)
Definition vlm_call : prog W (PageResult + json) :=
  catch (let! out := vlm job index page_ref page_content in Ret (inr out))
    (λ e, match e with
          | RateLimitTimeout _ _ _ | CircuitOpen _ _ =>
              if negb final_attempt then Raise e
              else let! r := _degrade job index e in Ret (inl r)
          | _ => let! r := _degrade job index e in Ret (inl r)
          end).

(** [None]: both stages are committed. *)
Definition vlm_stage : prog W (option PageResult) :=
  let! claim := store_transition job index VLM_RUNNING None [] in
  if negb (tr_ok claim)
  then Ret (Some (page_result Outcome.OWNED_BY_OTHER job index (tr_observed claim)))
  else
    let! out := vlm_call in
    match out with
    | inl r => Ret (Some r)
    | inr out =>
        let! confidence := of_result (json_get "confidence" (JNum "1.0") out) in
        let! committed := store_transition job index DONE None
          [("vlm", dumps out); ("confidence", str_json confidence); ("degraded", "0")] in
        do! _emit PAGE_FINAL committed job index
              [("complete", JBool true); ("degraded", JBool false); ("confidence", confidence);
               ("vlm", out)] in
        Ret None
    end.

Definition stages (state : PageState) : prog W (option PageResult) :=
  let! stop := if bool_decide (state = PENDING) then layout_stage else Ret None in
  match stop with
  | Some r => Ret (Some r)
  | None => vlm_stage
  end.

Definition fail_page (detail error : string) : prog W (option PageResult) :=
  let! failed := store_transition job index FAILED None [("error", error)] in
  do! _emit PAGE_FINAL failed job index
        [("complete", JBool true); ("degraded", JBool false); ("error", JStr error)] in
  Ret (Some (page_result Outcome.FAILED job index detail)).

(** The two outer [except] clauses. *)
Definition stages_except (e : exn) : prog W (option PageResult) :=
  let unreached (endpoint : string) (retry_after_s : Q) :=
    do! release_claim job index in
    if final_attempt
    then fail_page endpoint (exn_name e +:+ ": " +:+ endpoint +:+ " unavailable")
    else Ret (Some {| pr_outcome := Outcome.SATURATED; pr_job_id := job; pr_page_index := index;
                      pr_detail := endpoint; pr_retry_after_s := retry_after_s |}) in
  match e with
  | RateLimitTimeout endpoint retry_after_s _ => unreached endpoint retry_after_s
  | CircuitOpen endpoint retry_after_s => unreached endpoint retry_after_s
  | _ =>
      if is_Exception e
      then fail_page (exn_name e) (exn_name e +:+ ": " +:+ String.substring 0 200 (exn_str e))
      else Raise e
  end.

Definition run_stages (state : PageState) : prog W PageResult :=
  let! stop := catch (stages state) stages_except in
  match stop with
  | Some r => Ret r
  | None =>
      Ret (page_result (if bool_decide (state = LAYOUT_DONE) then Outcome.RESUMED
                        else Outcome.COMPLETED) job index "")
  end.

Definition process_page : prog W PageResult :=
  let! page := ask (get_page job index) in
  if bool_decide (page = ∅) then Ret (page_result Outcome.FAILED job index "page state missing")
  else
    let! state := of_result (page_state page) in
    if is_terminal state then Ret (page_result Outcome.ALREADY_TERMINAL job index (state_value state))
    else if is_running state then
      if negb reclaim then Ret (page_result Outcome.OWNED_BY_OTHER job index (state_value state))
      else
        do! release_claim job index in
        let! page := ask (get_page job index) in
        if bool_decide (page = ∅)
        then Ret (page_result Outcome.FAILED job index "page state missing")
        else
          let! state := of_result (page_state page) in
          if is_terminal state
          then Ret (page_result Outcome.ALREADY_TERMINAL job index (state_value state))
          else if is_running state
          then Ret (page_result Outcome.OWNED_BY_OTHER job index (state_value state))
          else run_stages state
    else run_stages state.
End page.
End pipeline.

(** ** What every command does to the job's records *)

Definition same_records (j : string) (v v' : rview) : Prop :=
  forall k, job_record j k -> vhash k v' = vhash k v.

(** The records stay well formed and each page stays or moves along one edge of
    the table. *)
Definition page_moves (j : string) (n : nat) (v v' : rview) : Prop :=
  job_ok j n v ->
  job_ok j n v' /\
  forall i, pstate v' j i = pstate v j i \/
    exists s t, pstate v j i = Some s /\ pstate v' j i = Some t /\ t ∈ TRANSITIONS s.

Lemma same_records_moves j n v v' : same_records j v v' -> page_moves j n v v'.
Proof.
  intros Hs Hok. split; [by apply (job_ok_frame j n v v' Hs)|].
  intros i. left. unfold pstate. rewrite Hs; [done|]. right. eauto.
Qed.

Lemma page_moves_refl j n v : page_moves j n v v.
Proof. by apply same_records_moves. Qed.

Lemma RECLAIM_TARGET_pred s t : RECLAIM_TARGET s = Some t -> s ∈ PREDECESSORS t.
Proof. destruct s; intros [= <-]; apply elem_of_PREDECESSORS; in_list. Qed.

(** *** Guarantees of the pipeline

    A relation that the script, the renewals and the publish script respect is
    respected by every command of the pipeline. *)

Section pipeline_guarantee.
Context {W : Type} `{RedisLaws W} `{Clock W}.
Context (j : string) (G : W -> W -> Prop) (G_refl : forall w, G w w).
(** The pages the program is about. *)
Context (mine : Z -> Prop).
Context (G_script : forall ttl now index to af fs w, mine index -> legal_call to af fs ->
  G w (transition_lua (page_key j index) (job_key j) (state_value to) now (is_terminal to)
         (ttl * 1000) (state_value <$> default (PREDECESSORS to) af) fs w).1).
Context (G_renew : forall ttl total w, G w (renew_job_pages ttl j total w)).
Context (G_publish : forall maxlen ttl event data w, G w (publish_lua j maxlen ttl event data w).1).
Context (layout vlm : string -> Z -> option string -> option json -> prog W json).
Context (exn_str : exn -> string) (str_json : json -> string) (cfg : pipeline_config).
Context (Hlayout : forall i r c, guar G (layout j i r c)).
Context (Hvlm : forall i r c, guar G (vlm j i r c)).

#[local] Hint Resolve G_refl : core.

Lemma pipe_get_page job index : guar G (ask (get_page job index)).
Proof using G_refl G_script G_renew G_publish. by apply guar_ask. Qed.

Lemma pipe_transition index to af fs : mine index -> legal_call to af fs ->
  guar G (store_transition cfg j index to af fs).
Proof using G_refl G_script G_renew G_publish.
  intros Hi Hl. unfold store_transition.
  destruct (default (PREDECESSORS to) af) as [|s l] eqn:E; [done|].
  apply guar_bind; [by apply guar_sample|]. intros now.
  apply guar_bind; [apply guar_call|].
  { intros w. rewrite <- E. by apply G_script. }
  intros p. apply guar_bind; [|done]. destruct (0 <? rp_sweep p)%Z; [|done].
  apply guar_catch; [apply guar_act|].
  - intros w. apply G_renew.
  - intros e. by destruct (is_Exception e).
Qed.

Lemma pipe_publish maxlen ttl event payload :
  guar G (publish maxlen ttl j event payload).
Proof using G_refl G_script G_renew G_publish.
  apply guar_bind; [by apply guar_sample|]. intros now. apply guar_bind; [|by intros []].
  apply guar_call. intros w. apply G_publish.
Qed.

Lemma pipe_emit event tr index payload : guar G (_emit cfg event tr j index payload).
Proof using G_refl G_script G_renew G_publish.
  unfold _emit. case_cond; [done|]. apply guar_catch; [|intros e; by destruct (is_Exception e)].
  apply guar_bind; [apply pipe_publish|]. intros _. destruct (completed_job tr); [|done].
  apply guar_bind; [apply pipe_publish|done].
Qed.

Lemma legal_default to fs : forallb (λ f, negb (f =? "state")%string) fs.*1 = true ->
  legal_call to None fs.
Proof using Type.
  intros Hf. split; [|done]. intros Hin. apply list_elem_of_In in Hin.
  rewrite forallb_forall in Hf. by apply Hf in Hin.
Qed.

Lemma pipe_degrade index e : mine index -> guar G (_degrade cfg j index e).
Proof using G_refl G_script G_renew G_publish.
  intros Hi. apply guar_bind; [by apply pipe_transition, legal_default|]. intros tr.
  apply guar_bind; [apply pipe_emit|done].
Qed.

Lemma pipe_release index : mine index -> guar G (release_claim cfg j index).
Proof using G_refl G_script G_renew G_publish.
  intros Hi. apply guar_bind; [apply pipe_get_page|]. intros page. case_bool_decide; [done|].
  apply guar_bind; [apply guar_of_result|]. intros s. destruct (RECLAIM_TARGET s) as [t|] eqn:E; [|done].
  apply guar_bind; [|done]. apply pipe_transition; [done|]. split; [apply not_elem_of_nil|].
  split; [done|]. intros s' ->%list_elem_of_singleton. by apply RECLAIM_TARGET_pred.
Qed.

Lemma pipe_force index reason : mine index -> guar G (force_terminal cfg j index reason).
Proof using G_refl G_script G_renew G_publish.
  intros Hi. apply guar_bind; [apply pipe_get_page|]. intros page. case_bool_decide; [done|].
  apply guar_bind; [apply guar_of_result|]. intros s. destruct (is_terminal s); [done|].
  apply guar_bind.
  { by destruct (can_transition s FALLBACK_DONE); apply pipe_transition, legal_default. }
  intros tr. destruct (negb (tr_ok tr)); [done|]. by apply guar_bind; [apply pipe_emit|].
Qed.

Lemma pipe_process index page_ref content final handoff reclaim : mine index ->
  guar G (process_page layout vlm exn_str str_json cfg j index page_ref content final handoff reclaim).
Proof using G_refl G_script G_renew G_publish Hlayout Hvlm.
  intros Hi.
  assert (forall d e, guar G (fail_page cfg j index d e)) as Hfail.
  { intros d e. apply guar_bind; [by apply pipe_transition, legal_default|]. intros tr.
    by apply guar_bind; [apply pipe_emit|]. }
  assert (guar G (layout_stage layout cfg j index page_ref content handoff)) as Hls.
  { apply guar_bind; [by apply pipe_transition, legal_default|]. intros tr.
    destruct (negb (tr_ok tr)); [done|]. apply guar_bind; [apply Hlayout|]. intros out.
    apply guar_bind; [by apply pipe_transition, legal_default|]. intros tr'.
    apply guar_bind; [apply pipe_emit|]. intros _. by destruct handoff. }
  assert (guar G (vlm_stage vlm str_json cfg j index page_ref content final)) as Hvs.
  { apply guar_bind; [by apply pipe_transition, legal_default|]. intros tr.
    destruct (negb (tr_ok tr)); [done|]. apply guar_bind.
    - apply guar_catch; [by apply guar_bind; [apply Hvlm|]|].
      intros e. assert (guar G (let! r := _degrade cfg j index e in Ret (A := PageResult + json) (inl r)))
        as Hd by by apply guar_bind; [apply pipe_degrade|].
      destruct e; try exact Hd; by destruct final.
    - intros [r|out]; [done|]. apply guar_bind; [apply guar_of_result|]. intros conf.
      apply guar_bind; [by apply pipe_transition, legal_default|]. intros tr'.
      by apply guar_bind; [apply pipe_emit|]. }
  assert (forall s, guar G (run_stages layout vlm exn_str str_json cfg j index page_ref content
    final handoff s)) as Hrun.
  { intros s. apply guar_bind; [|by intros [r|]]. apply guar_catch.
    - apply guar_bind; [by destruct (bool_decide _)|]. by intros [r|].
    - intros e. unfold stages_except.
      destruct e; cbn [is_Exception]; first [apply Hfail|exact I|apply guar_bind];
        first [by apply pipe_release|intros _; destruct final; [apply Hfail|exact I]]. }
  apply guar_bind; [apply pipe_get_page|]. intros page. case_bool_decide; [done|].
  apply guar_bind; [apply guar_of_result|]. intros s. destruct (is_terminal s); [done|].
  destruct (is_running s); [|done]. destruct (negb reclaim); [done|].
  apply guar_bind; [by apply pipe_release|]. intros _.
  apply guar_bind; [apply pipe_get_page|]. intros page'. case_bool_decide; [done|].
  apply guar_bind; [apply guar_of_result|]. intros s'. destruct (is_terminal s'); [done|].
  by destruct (is_running s').
Qed.
End pipeline_guarantee.

Section guarantee.
Context {W : Type} `{RedisLaws W} `{Clock W}.
Implicit Types w : W.

(** Commands on streams, counters and expiries. *)
Definition records_kept (j : string) (w w' : W) : Prop := same_records j (view w) (view w').

Lemma publish_lua_records job maxlen ttl event data w k :
  vhash k (view (publish_lua job maxlen ttl event data w).1) = vhash k (view w).
Proof.
  unfold publish_lua. destruct (incr_view (seq_key job) w) as [_ Hv].
  destruct (incr (seq_key job) w) as [w1 seq]. simpl in Hv.
  destruct (xadd_maxlen_view (out_stream job) maxlen (publish_fields seq event data) w1)
    as [_ (d & _ & Hv2)].
  destruct (xadd_maxlen _ _ _ w1) as [w2 id]. simpl in *.
  rewrite !view_pexpire, !vhash_vpexpire, Hv2, vhash_vset_stream, Hv. done.
Qed.

Context (j : string) (n : nat).
Definition moves (w w' : W) : Prop := page_moves j n (view w) (view w').

Lemma moves_refl w : moves w w.
Proof using Type. apply page_moves_refl. Qed.

Lemma moves_same w w' : (forall k, vhash k (view w') = vhash k (view w)) -> moves w w'.
Proof using Type. intros Hs. apply same_records_moves. by intros k _. Qed.

(** A command about the pages [mine] of the job: the other pages keep their
    state, and no stream but the job's own output is touched. *)
Definition streams_kept (w w' : W) : Prop :=
  forall k, k <> out_stream j -> vstream k (view w') = vstream k (view w).

Definition effect (mine : Z -> Prop) (w w' : W) : Prop :=
  job_ok j n (view w) ->
  job_ok j n (view w') /\
  (forall i, ~ mine i -> pstate (view w') j i = pstate (view w) j i) /\
  streams_kept w w'.

Lemma effect_same mine w w' :
  (forall k, vhash k (view w') = vhash k (view w)) -> streams_kept w w' -> effect mine w w'.
Proof using Type.
  intros Hk Hs Hok. split_and!; [|intros i _; unfold pstate; by rewrite Hk|done].
  apply (job_ok_frame j n (view w)); [|done]. intros k _. apply Hk.
Qed.

Lemma effect_refl mine w : effect mine w w.
Proof using Type. by apply effect_same. Qed.

Lemma vstream_vscript page job new now ttl terminal m fs v k :
  vstream k (vscript page job new now ttl terminal m fs v) = vstream k v.
Proof using Type.
  unfold vscript, vcas, id. destruct terminal, (vsweep _ _ _ _); autorewrite with ocr;
    by rewrite vhset_fields_stream.
Qed.

Lemma vstream_renew ttl total w k :
  vstream k (view (renew_job_pages ttl j total w)) = vstream k (view w).
Proof using Type.
  unfold renew_job_pages. rewrite view_renew_pages_full.
  induction (Z.to_nat total) as [|m IH]; simpl; [done|]. by rewrite vstream_vpexpire.
Qed.

(** The script: [transition] is the script, then renewals that touch no hash. *)
Lemma transition_lua_effect ttl now index to af fs w :
  legal_call to af fs -> job_ok j n (view w) ->
  let w' := (transition_lua (page_key j index) (job_key j) (state_value to) now (is_terminal to)
             (ttl * 1000) (state_value <$> default (PREDECESSORS to) af) fs w).1 in
  job_ok j n (view w') /\
  (forall k, vstream k (view w') = vstream k (view w)) /\
  (forall i, pstate (view w') j i = pstate (view w) j i \/
    (i = index /\ exists s, pstate (view w) j i = Some s /\ pstate (view w') j i = Some to /\
       to ∈ TRANSITIONS s)).
Proof using Type.
  intros Hl Hok w'. subst w'.
  destruct (transition_job_step ttl now j index to af fs w n Hl Hok) as (t & w' & E & Hok' & Hreq & Ht).
  unfold transition in E.
  assert (exists s l, default (PREDECESSORS to) af = s :: l) as (s0 & l0 & Hsrc).
  { destruct Hl as [_ Hl]. destruct af as [[|s l]|]; [by destruct Hl|by eexists _, _|].
    apply PREDECESSORS_nonempty. }
  rewrite Hsrc in E. rewrite Hsrc.
  destruct (transition_lua _ _ _ _ _ _ _ _ w) as [w1 p] eqn:El. cbn [fst] in *. simpl.
  assert (forall k, vhash k (view w') = vhash k (view w1)) as Hk.
  { intros k. injection E as _ <-. destruct (0 <? rp_sweep p)%Z; [|done]. apply view_renew_pages. }
  split; [apply (job_ok_frame j n (view w')); [by intros k _|done]|].
  split.
  { eapply transition_lua_cases in El as [(_ & -> & _)|(cur & _ & _ & _ & _ & -> & _)];
      [done|intros k; apply vstream_vscript|apply page_key_ne_job_key|].
    rewrite (jo_done _ _ _ Hok). simpl. by rewrite py_int_str. }
  assert (forall i, pstate (view w1) j i = pstate (view w') j i) as Hp
    by (intros i; unfold pstate; by rewrite Hk).
  intros i. rewrite Hp. destruct (tr_ok t); [|subst w'; by left].
  destruct Ht as ((s & Hs0 & Hpre) & Hto & Hother & _).
  destruct (decide (i = index)) as [->|Hne]; [|left; by apply Hother].
  right. split; [done|]. exists s. split_and!; [done|done|by apply elem_of_PREDECESSORS].
Qed.

Lemma transition_lua_moves ttl now index to af fs w :
  legal_call to af fs ->
  moves w (transition_lua (page_key j index) (job_key j) (state_value to) now (is_terminal to)
             (ttl * 1000) (state_value <$> default (PREDECESSORS to) af) fs w).1.
Proof using Type.
  intros Hl Hok. destruct (transition_lua_effect ttl now index to af fs w Hl Hok) as (Hok' & _ & Hp).
  split; [done|]. intros i. destruct (Hp i) as [E|(_ & s & Hs & Ht & Hst)]; [by left|].
  right. by exists s, to.
Qed.

Lemma publish_lua_streams maxlen ttl event data w :
  streams_kept w (publish_lua j maxlen ttl event data w).1.
Proof using Type.
  intros k Hk. unfold publish_lua. destruct (incr_view (seq_key j) w) as [_ Hv].
  destruct (incr (seq_key j) w) as [w1 seq]. simpl in Hv.
  destruct (xadd_maxlen_view (out_stream j) maxlen (publish_fields seq event data) w1)
    as [_ (d & _ & Hv2)].
  destruct (xadd_maxlen _ _ _ w1) as [w2 id]. simpl in *.
  rewrite !view_pexpire, !vstream_vpexpire, Hv2, vstream_vset_stream_ne, Hv by done. done.
Qed.

Context (layout vlm : string -> Z -> option string -> option json -> prog W json).
Context (exn_str : exn -> string) (str_json : json -> string) (cfg : pipeline_config).
Context (Hlayout : forall i r c, guar (records_kept j) (layout j i r c)).
Context (Hvlm : forall i r c, guar (records_kept j) (vlm j i r c)).

Lemma guar_records {A} (p : prog W A) : guar (records_kept j) p -> guar moves p.
Proof using Type. apply guar_mono. intros w w'. apply same_records_moves. Qed.

Lemma moves_renew ttl total w : moves w (renew_job_pages ttl j total w).
Proof using Type. apply moves_same. intros k. apply view_renew_pages. Qed.

Lemma moves_publish maxlen ttl event data w : moves w (publish_lua j maxlen ttl event data w).1.
Proof using Type. apply moves_same. intros k. apply publish_lua_records. Qed.

#[local] Hint Resolve moves_refl transition_lua_moves moves_renew moves_publish : core.

Lemma guar_release index : guar moves (release_claim cfg j index).
Proof using Type. apply (pipe_release _ _ moves_refl (λ _, True)); auto. Qed.

Lemma guar_force index reason : guar moves (force_terminal cfg j index reason).
Proof using Type. apply (pipe_force _ _ moves_refl (λ _, True)); auto. Qed.

Lemma guar_process index page_ref content final handoff reclaim :
  guar moves (process_page layout vlm exn_str str_json cfg j index page_ref content final handoff reclaim).
Proof using Hlayout Hvlm. apply (pipe_process _ _ moves_refl (λ _, True)); auto using guar_records. Qed.

(** The same commands, by the pages they are about. *)
Definition quiet (w w' : W) : Prop := records_kept j w w' /\ streams_kept w w'.

Lemma quiet_effect mine w w' : quiet w w' -> effect mine w w'.
Proof using Type.
  intros [Hr Hs] Hok. split_and!; [by apply (job_ok_frame j n _ _ Hr)| |done].
  intros i _. unfold pstate. rewrite Hr; [done|]. right. eauto.
Qed.

Section effects.
Context (mine : Z -> Prop).
Context (Hlayout' : forall i r c, guar quiet (layout j i r c)).
Context (Hvlm' : forall i r c, guar quiet (vlm j i r c)).

Lemma effect_script ttl now index to af fs w : mine index -> legal_call to af fs ->
  effect mine w (transition_lua (page_key j index) (job_key j) (state_value to) now (is_terminal to)
             (ttl * 1000) (state_value <$> default (PREDECESSORS to) af) fs w).1.
Proof using Type.
  intros Hi Hl Hok. destruct (transition_lua_effect ttl now index to af fs w Hl Hok) as (Hok' & Hs & Hp).
  split_and!; [done| |by intros k _]. intros i Hni. by destruct (Hp i) as [E|[-> _]].
Qed.

Lemma effect_renew ttl total w : effect mine w (renew_job_pages ttl j total w).
Proof using Type.
  apply effect_same; intros k; [apply view_renew_pages|intros _; apply vstream_renew].
Qed.

Lemma effect_publish maxlen ttl event data w :
  effect mine w (publish_lua j maxlen ttl event data w).1.
Proof using Type.
  apply effect_same; [intros k; apply publish_lua_records|apply publish_lua_streams].
Qed.

#[local] Hint Resolve effect_script effect_renew effect_publish : core.

Lemma effect_release index : mine index -> guar (effect mine) (release_claim cfg j index).
Proof using Type. apply (pipe_release _ _ (effect_refl mine)); auto. Qed.

Lemma effect_force index reason : mine index -> guar (effect mine) (force_terminal cfg j index reason).
Proof using Type. apply (pipe_force _ _ (effect_refl mine)); auto. Qed.

Lemma effect_process index page_ref content final handoff reclaim : mine index ->
  guar (effect mine)
    (process_page layout vlm exn_str str_json cfg j index page_ref content final handoff reclaim).
Proof using Hlayout' Hvlm'.
  assert (forall (call : string -> Z -> option string -> option json -> prog W json) i r c,
    guar quiet (call j i r c) -> guar (effect mine) (call j i r c)) as Hq
    by (intros ? i r c; apply guar_mono, quiet_effect).
  apply (pipe_process _ _ (effect_refl mine) mine); auto.
Qed.
End effects.
End guarantee.

(** ** What the owner of a page leaves behind

    The others leave the job's records alone and no command fails: the page is
    this worker's. *)

Section owner_steps.
Context {W : Type} `{RedisLaws W} `{Clock W}.
Context (j : string) (n : nat) (index : Z).

Definition page_at (s : PageState) (w : W) : Prop :=
  job_ok j n (view w) /\ pstate (view w) j index = Some s.

(** The others work on other pages, of this job or of another. *)
Definition leaves_page (w w' : W) : Prop :=
  job_ok j n (view w) ->
  job_ok j n (view w') /\ pstate (view w') j index = pstate (view w) j index.

Context (cfg : pipeline_config).
Context (rely : W -> W -> Prop) (Hrely : forall w w', rely w w' -> leaves_page w w').
Context (fault : exn -> Prop).
Let any (_ : W) : Prop := True.
Implicit Types w : W.

Lemma records_leave_page w w' : records_kept j w w' -> leaves_page w w'.
Proof using Type.
  intros Hr Hok. split; [by apply (job_ok_frame j n _ _ Hr)|].
  unfold pstate in *. rewrite Hr; [done|]. right. eauto.
Qed.

(** Whoever handles other pages of the job leaves this one alone. *)
Lemma effect_leaves_page (mine : Z -> Prop) w w' :
  ~ mine index -> effect j n mine w w' -> leaves_page w w'.
Proof using Type.
  intros Hi He Hok. destruct (He Hok) as (Hok' & Hp & _). split; [done|]. by apply Hp.
Qed.

Lemma leaves_page_at s w w' : leaves_page w w' -> page_at s w -> page_at s w'.
Proof using Type. intros Hl [Hok Hs]. destruct (Hl Hok) as [Hok' Hp]. split; [done|]. by rewrite Hp. Qed.

Lemma page_at_records s w w' : records_kept j w w' -> page_at s w -> page_at s w'.
Proof using Type. intros Hr. by apply leaves_page_at, records_leave_page. Qed.

Lemma page_at_rely s w w' : rely w w' -> page_at s w -> page_at s w'.
Proof using Hrely. intros Hr. by apply leaves_page_at, Hrely. Qed.

(** Programs that leave the records alone. *)
Lemma wp_records {A} (p : prog W A) s w :
  guar (records_kept j) p -> page_at s w -> wp rely fault any p (λ _ w', page_at s w') w.
Proof using Hrely.
  intros Hg Hw. eapply wp_weaken; [|apply (guar_keeps (records_kept j) rely fault (page_at s));
    [|by apply page_at_rely|done..]]; [done|].
  intros ? ?. by apply page_at_records.
Qed.

Lemma pstate_value v i s : job_ok j n v -> pstate v j i = Some s ->
  vhash (page_key j i) v !! "state" = Some (state_value s).
Proof using Type.
  unfold pstate. intros _ Hs. destruct (vhash _ v !! "state") as [x|]; [|done]. simpl in Hs.
  by apply state_of_value_Some in Hs as ->.
Qed.

Lemma script_applies ttl now s to af fs w :
  legal_call to af fs -> s ∈ default (PREDECESSORS to) af -> page_at s w ->
  let '(w', p) := transition_lua (page_key j index) (job_key j) (state_value to) now
      (is_terminal to) (ttl * 1000) (state_value <$> default (PREDECESSORS to) af) fs w in
  rp_ok p = true /\ page_at to w'.
Proof using Type.
  intros Hl Hin [Hok Hs]. pose proof (pstate_value _ _ _ Hok Hs) as Hv.
  pose proof (transition_lua_moves j n ttl now index to af fs w Hl Hok) as [Hok' _].
  destruct (transition_lua _ _ _ _ _ _ _ _ w) as [w' p] eqn:E. cbn [fst] in Hok'.
  eapply transition_lua_cases in E as
    [(_ & _ & _ & Hobs)|(cur & Hp & _ & _ & _ & Hview & _)];
    [| |apply page_key_ne_job_key|].
  - rewrite Hv in Hobs. destruct Hobs as [_ Hobs]. destruct Hobs. by apply list_elem_of_fmap_2.
  - split; [done|]. split; [done|]. unfold pstate.
    rewrite Hview, vscript_state by (apply page_key_ne_job_key || apply Hl).
    simpl. by rewrite state_of_value_value.
  - rewrite (jo_done _ _ _ Hok). simpl. by rewrite py_int_str.
Qed.

Lemma wp_sweep total s (Q : result unit -> W -> Prop) w :
  (forall e w', fault e -> page_at s w' -> Q (inl e) w') ->
  page_at s w -> (forall w', page_at s w' -> Q (inr tt) w') ->
  wp rely fault any (_renew_job_pages cfg j total) Q w.
Proof using Hrely.
  intros HE Hw HQ. apply wp_catch. intros w1 Hr. apply (page_at_rely _ _ _ Hr) in Hw.
  assert (page_at s (renew_job_pages (pc_ttl_s cfg) j total w1)) as Hw'.
  { eapply page_at_records; [|exact Hw]. intros k _. apply view_renew_pages. }
  assert (forall e w', fault e -> page_at s w' ->
    wp rely fault any (if is_Exception e then Ret tt else Raise e) Q w') as Hsw.
  { intros e w' He Hs. destruct (is_Exception e); [by apply HQ|by apply HE]. }
  split_and!; [done|by apply HQ|]. intros e He. split_and!; [done|by apply Hsw..].
Qed.

Lemma wp_transition s to af fs (Q : result TransitionResult -> W -> Prop) w :
  (forall e w', fault e -> page_at s w' \/ page_at to w' -> Q (inl e) w') ->
  legal_call to af fs -> s ∈ default (PREDECESSORS to) af -> page_at s w ->
  (forall tr w', tr_ok tr = true -> page_at to w' -> Q (inr tr) w') ->
  wp rely fault any (store_transition cfg j index to af fs) Q w.
Proof using Hrely.
  intros HE Hl Hin Hw HQ. unfold store_transition.
  destruct (default (PREDECESSORS to) af) as [|s0 l] eqn:E; [by apply elem_of_nil in Hin|].
  rewrite <- E in *. cbn [pbind sample own wp fst snd]. intros w1 Hr.
  apply (page_at_rely _ _ _ Hr) in Hw.
  pose proof (script_applies (pc_ttl_s cfg) (now_ms w) s to af fs w1 Hl Hin Hw) as Hsc.
  destruct (transition_lua _ _ _ _ _ _ _ _ w1) as [w2 p]. destruct Hsc as [Hp Hw2].
  cbn [fst snd of_result pbind]. split_and!; [done| |by intros e He; split_and!; [done|apply HE; auto..]].
  apply wp_bind. destruct (0 <? rp_sweep p)%Z; [|by apply HQ].
  apply (wp_sweep _ to); [auto|done|]. intros w3 Hw3. by apply HQ.
Qed.

Lemma wp_publish maxlen ttl event payload (Q : result ResultEvent -> W -> Prop) s w :
  (forall e w', fault e -> page_at s w' -> Q (inl e) w') ->
  page_at s w -> (forall x w', page_at s w' -> Q (inr x) w') ->
  wp rely fault any (publish maxlen ttl j event payload) Q w.
Proof using Hrely.
  intros HE Hw HQ. cbn [publish pbind sample own wp fst snd]. intros w1 Hr.
  apply (page_at_rely _ _ _ Hr) in Hw.
  pose proof (λ k, publish_lua_records j maxlen ttl event (event_data j (now_ms w) payload) w1 k) as Hk.
  destruct (publish_lua _ _ _ _ _ w1) as [w2 [id seq]]. cbn [fst] in Hk.
  assert (page_at s w2) as Hw2 by (eapply page_at_records; [|exact Hw]; by intros k _).
  split_and!; [done|by apply HQ|]. intros e He. split_and!; [done|by apply HE..].
Qed.

Lemma wp_emit event tr payload (Q : result unit -> W -> Prop) s w :
  (forall e w', fault e -> page_at s w' -> Q (inl e) w') ->
  page_at s w -> (forall w', page_at s w' -> Q (inr tt) w') ->
  wp rely fault any (_emit cfg event tr j index payload) Q w.
Proof using Hrely.
  intros HE Hw HQ. unfold _emit. case_cond; [by apply HQ|]. apply wp_catch, wp_bind.
  assert (forall e w', fault e -> page_at s w' ->
    wp rely fault any (if is_Exception e then Ret tt else Raise e) Q w') as Hsw.
  { intros e w' He Hw'. destruct (is_Exception e); [by apply HQ|by apply HE]. }
  apply (wp_publish _ _ _ _ _ s); [done|done|]. intros x w1 Hw1.
  destruct (completed_job tr); [|by apply HQ]. apply wp_bind.
  apply (wp_publish _ _ _ _ _ s); [done|done|]. intros y w2 Hw2. by apply HQ.
Qed.

Lemma wp_get_page s (Q : result fields -> W -> Prop) w :
  (forall e w', fault e -> page_at s w' -> Q (inl e) w') ->
  page_at s w ->
  (forall page w', page_at s w' -> page <> ∅ -> page_state page = inr s -> Q (inr page) w') ->
  wp rely fault any (ask (get_page j index)) Q w.
Proof using Hrely.
  intros HE Hw HQ w1 Hr. apply (page_at_rely _ _ _ Hr) in Hw.
  split_and!; [done| |by intros e He; split_and!; [done|apply HE..]].
  cbn. destruct Hw as [Hok Hs]. pose proof (pstate_value _ _ _ Hok Hs) as Hv.
  apply HQ; [by split|..]; unfold get_page; rewrite hgetall_view.
  - intros E. by rewrite E in Hv.
  - unfold page_state. by rewrite Hv, state_of_value_value.
Qed.

Lemma wp_release s (Q : result unit -> W -> Prop) w :
  (forall e w' s', fault e -> page_at s' w' -> Q (inl e) w') ->
  page_at s w -> (forall w', page_at (default s (RECLAIM_TARGET s)) w' -> Q (inr tt) w') ->
  wp rely fault any (release_claim cfg j index) Q w.
Proof using Hrely.
  intros HE Hw HQ. apply wp_bind. apply (wp_get_page s); [eauto|done|]. intros page w1 Hw1 Hne Hp.
  rewrite bool_decide_false by done. rewrite Hp. cbn [of_result pbind].
  destruct (RECLAIM_TARGET s) as [t|] eqn:E; [|by apply HQ].
  apply wp_bind. apply (wp_transition s); [|  |apply list_elem_of_here|done|].
  - intros e w' He [Hs|Ht]; eauto.
  - split; [apply not_elem_of_nil|]. split; [done|].
    intros s' ->%list_elem_of_singleton. by apply RECLAIM_TARGET_pred.
  - intros tr w2 _ Hw2. by apply HQ.
Qed.

Lemma wp_force reason (Q : result string -> W -> Prop) s w :
  (forall e w', fault e -> Q (inl e) w') ->
  page_at s w -> (forall x s' w', is_terminal s' = true -> page_at s' w' -> Q (inr x) w') ->
  wp rely fault any (force_terminal cfg j index reason) Q w.
Proof using Hrely.
  intros HE Hw HQ. apply wp_bind. apply (wp_get_page s); [eauto|done|]. intros page w1 Hw1 Hne Hp.
  rewrite bool_decide_false by done. rewrite Hp. cbn [of_result pbind].
  destruct (is_terminal s) eqn:Et; [by apply (HQ _ s)|].
  set (t := if can_transition s FALLBACK_DONE then FALLBACK_DONE else FAILED).
  assert (s ∈ PREDECESSORS t /\ is_terminal t = true) as [Hs Ht].
  { split; [apply elem_of_PREDECESSORS|]; destruct s; try discriminate Et; vm_compute; try done; in_list. }
  apply wp_bind. apply (wp_transition s); [eauto| |done|done|].
  - by destruct (can_transition s FALLBACK_DONE); apply legal_default.
  - intros tr w2 -> Hw2. cbn [negb]. apply wp_bind.
    apply (wp_emit _ _ _ _ t); [eauto|done|]. intros w3 Hw3. by apply (HQ _ t).
Qed.

End owner_steps.

(** *** The whole of [process_page], without faults *)

(** The exceptional premise of the lemmas above, when nothing fails. *)
Ltac no_err := by intros.

Section owner.
Context {W : Type} `{RedisLaws W} `{Clock W}.
Context (j : string) (n : nat).
Context (layout vlm : string -> Z -> option string -> option json -> prog W json).
Context (exn_str : exn -> string) (str_json : json -> string) (cfg : pipeline_config).
Context (Hlayout : forall i r c, guar (records_kept j) (layout j i r c)).
Context (Hvlm : forall i r c, guar (records_kept j) (vlm j i r c)).
Context (index : Z).
Context (rely : W -> W -> Prop) (Hrely : forall w w', rely w w' -> leaves_page j n index w w').
Let no_fault (_ : exn) : Prop := False.
Let any (_ : W) : Prop := True.
Implicit Types w : W.
#[local] Abbreviation page_at := (page_at j n index).

Lemma wp_degrade e (Q : result PageResult -> W -> Prop) s w :
  FALLBACK_DONE ∈ TRANSITIONS s -> page_at s w ->
  (forall r w', pr_outcome r = Outcome.DEGRADED -> page_at FALLBACK_DONE w' -> Q (inr r) w') ->
  wp rely no_fault any (_degrade cfg j index e) Q w.
Proof using Hrely.
  intros Hs Hw HQ. apply wp_bind.
  apply (wp_transition j n index cfg rely Hrely no_fault s); [no_err|by apply legal_default|by apply elem_of_PREDECESSORS|done|].
  intros tr w1 _ Hw1. apply wp_bind. apply (wp_emit j n index cfg rely Hrely no_fault _ _ _ _ FALLBACK_DONE); [no_err|done|].
  intros w2 Hw2. by apply HQ.
Qed.

Lemma wp_fail d e (Q : result (option PageResult) -> W -> Prop) s w :
  FAILED ∈ TRANSITIONS s -> page_at s w ->
  (forall r w', pr_outcome r = Outcome.FAILED -> page_at FAILED w' -> Q (inr (Some r)) w') ->
  wp rely no_fault any (fail_page cfg j index d e) Q w.
Proof using Hrely.
  intros Hs Hw HQ. apply wp_bind.
  apply (wp_transition j n index cfg rely Hrely no_fault s); [no_err|by apply legal_default|by apply elem_of_PREDECESSORS|done|].
  intros tr w1 _ Hw1. apply wp_bind. apply (wp_emit j n index cfg rely Hrely no_fault _ _ _ _ FAILED); [no_err|done|].
  intros w2 Hw2. by apply HQ.
Qed.

(** *** The outcomes *)

Context (page_ref : option string) (content : option json) (final handoff : bool).
(** the state the stages start from, and what the layout call may raise *)
Context (start : PageState) (escape : exn -> Prop).
Context (Hescape : forall i r c w,
  wp rely no_fault any (layout j i r c) (λ o _, forall e, o = inl e -> escape e) w).

(** What a result of the stages leaves behind. *)
Definition settled_as (r : PageResult) (w : W) : Prop :=
  match pr_outcome r with
  | Outcome.COMPLETED | Outcome.RESUMED => page_at DONE w
  | Outcome.DEGRADED => page_at FALLBACK_DONE w
  | Outcome.FAILED => page_at FAILED w
  | Outcome.HANDOFF => handoff = true /\ start = PENDING /\ page_at LAYOUT_DONE w
  | Outcome.SATURATED => final = false /\ (page_at PENDING w \/ page_at LAYOUT_DONE w)
  | Outcome.ALREADY_TERMINAL | Outcome.OWNED_BY_OTHER => False
  end.

(** A result of [stages]: [None] is the end of both. *)
Definition stage_post (x : result (option PageResult)) (w : W) : Prop :=
  match x with
  | inl e => is_Exception e = false /\ escape e /\ page_at LAYOUT_RUNNING w
  | inr (Some r) => settled_as r w
  | inr None => page_at DONE w
  end.

(** An exception that reaches the outer [except] clauses, and the state it
    finds. *)
Definition escaping (x : result (option PageResult)) (w : W) : Prop :=
  match x with
  | inl e => (escape e /\ page_at LAYOUT_RUNNING w) \/
             (page_at VLM_RUNNING w /\ is_Exception e = true /\
              (final = true -> match e with RateLimitTimeout _ _ _ | CircuitOpen _ _ => False | _ => True end))
  | _ => stage_post x w
  end.

Definition call_post (x : result (PageResult + json)) (w : W) : Prop :=
  match x with
  | inl e => escaping (inl e) w
  | inr (inl r) => pr_outcome r = Outcome.DEGRADED /\ page_at FALLBACK_DONE w
  | inr (inr _) => page_at VLM_RUNNING w
  end.

Lemma wp_vlm_call w : page_at VLM_RUNNING w ->
  wp rely no_fault any (vlm_call vlm cfg j index page_ref content final) call_post w.
Proof using Hrely Hvlm.
  intros Hw. apply wp_catch, wp_bind.
  eapply wp_mono; [|by apply (wp_records j n index rely Hrely no_fault _ _ _ (Hvlm index page_ref content) Hw)].
  intros [e|out] w2 Hw2; [|exact Hw2].
  assert (wp rely no_fault any (let! r := _degrade cfg j index e in Ret (inl r)) call_post w2) as Hd.
  { apply wp_bind. apply (wp_degrade _ _ VLM_RUNNING); [vm_compute; in_list|done|].
    intros r w3 Hr Hw3. by split. }
  destruct e; try exact Hd; (destruct final eqn:Ef; [exact Hd|right; split_and!; [exact Hw2|done|congruence]]).
Qed.

Lemma wp_vlm_stage w : page_at LAYOUT_DONE w ->
  wp rely no_fault any (vlm_stage vlm str_json cfg j index page_ref content final) escaping w.
Proof using Hrely Hvlm.
  intros Hw. apply wp_bind.
  apply (wp_transition j n index cfg rely Hrely no_fault LAYOUT_DONE); [no_err|by apply legal_default|vm_compute; in_list|done|].
  intros tr w1 Htr Hw1. rewrite Htr. cbn [negb]. apply wp_bind.
  eapply wp_mono; [|by apply wp_vlm_call].
  intros [e|[r|out]] w2 Hw2; [exact Hw2| |]; cbn [call_post] in Hw2.
  { cbn. unfold settled_as. by destruct Hw2 as [-> ?]. }
  destruct (json_get "confidence" (JNum "1.0") out) as [e|conf] eqn:Ec; cbn [of_result pbind wp].
  - right. destruct out; simplify_eq/=; by split_and!.
  - apply wp_bind. apply (wp_transition j n index cfg rely Hrely no_fault VLM_RUNNING); [no_err|by apply legal_default|vm_compute; in_list|done|].
    intros tr' w3 _ Hw3. apply wp_bind. apply (wp_emit j n index cfg rely Hrely no_fault _ _ _ _ DONE); [no_err|done|]. intros w4 Hw4. done.
Qed.

Lemma wp_layout_stage w : start = PENDING -> page_at PENDING w ->
  wp rely no_fault any (layout_stage layout cfg j index page_ref content handoff)
    (λ x w', match x with inr None => page_at LAYOUT_DONE w' | _ => escaping x w' end) w.
Proof using Hrely Hlayout Hescape.
  intros Hstart Hw. apply wp_bind.
  apply (wp_transition j n index cfg rely Hrely no_fault PENDING); [no_err|by apply legal_default|vm_compute; in_list|done|].
  intros tr w1 Htr Hw1. rewrite Htr. cbn [negb]. apply wp_bind.
  eapply wp_mono; [|apply (wp_also _ _ _ _ _ _ _ (wp_records j n index rely Hrely no_fault _ _ _
    (Hlayout index page_ref content) Hw1) (Hescape index page_ref content w1))].
  intros [e|out] w2 [Hw2 He]; [left; auto|]. apply wp_bind.
  apply (wp_transition j n index cfg rely Hrely no_fault LAYOUT_RUNNING); [no_err|by apply legal_default|vm_compute; in_list|done|].
  intros tr' w3 _ Hw3. apply wp_bind. apply (wp_emit j n index cfg rely Hrely no_fault _ _ _ _ LAYOUT_DONE); [no_err|done|]. intros w4 Hw4.
  destruct handoff eqn:Eh; cbn; unfold settled_as; [|done]. cbn. by split.
Qed.

Lemma wp_stages w : page_at start w -> start = PENDING \/ start = LAYOUT_DONE ->
  wp rely no_fault any (stages layout vlm str_json cfg j index page_ref content final handoff start)
    escaping w.
Proof using Hrely Hlayout Hvlm Hescape.
  intros Hw Hs. apply wp_bind. destruct Hs as [E|E]; rewrite E in Hw |- *.
  - rewrite bool_decide_true by done. eapply wp_mono; [|by apply wp_layout_stage].
    intros [e|[r|]] w1 Hw1; [done..|]. by apply wp_vlm_stage.
  - rewrite bool_decide_false by done. by apply wp_vlm_stage.
Qed.

Lemma settled_failed r w : pr_outcome r = Outcome.FAILED -> page_at FAILED w -> settled_as r w.
Proof using Type. unfold settled_as. by intros ->. Qed.

Lemma wp_stages_except e w : escaping (inl e) w ->
  wp rely no_fault any (stages_except exn_str cfg j index final e) stage_post w.
Proof using Hrely.
  intros He.
  assert (forall d m, is_Exception e = true ->
    match e with RateLimitTimeout _ _ _ | CircuitOpen _ _ => False | _ => True end ->
    wp rely no_fault any (fail_page cfg j index d m) stage_post w) as Hfail.
  { intros d m _ _. destruct He as [[_ Hw]|[Hw _]];
      [apply (wp_fail _ _ _ LAYOUT_RUNNING)|apply (wp_fail _ _ _ VLM_RUNNING)];
      [vm_compute; in_list|done| |vm_compute; in_list|done|];
      intros r w1 Hr Hw1; by apply settled_failed. }
  assert (forall ep q m, match e with RateLimitTimeout _ _ _ | CircuitOpen _ _ => True | _ => False end ->
    wp rely no_fault any
    (do! release_claim cfg j index in
     if final then fail_page cfg j index ep m
     else Ret (Some {| pr_outcome := Outcome.SATURATED; pr_job_id := j; pr_page_index := index;
                       pr_detail := ep; pr_retry_after_s := q |})) stage_post w) as Hun.
  { intros ep q m Hm. apply wp_bind. destruct He as [[_ Hw]|(Hw & _ & Hfin)].
    - apply (wp_release j n index cfg rely Hrely no_fault LAYOUT_RUNNING); [no_err|done|]. intros w1 Hw1. cbn in Hw1. destruct final eqn:Ef.
      + apply (wp_fail _ _ _ PENDING); [vm_compute; in_list|done|].
        intros r w2 Hr Hw2. by apply settled_failed.
      + cbn. unfold settled_as. cbn. auto.
    - apply (wp_release j n index cfg rely Hrely no_fault VLM_RUNNING); [no_err|done|]. intros w1 Hw1. cbn in Hw1. destruct final eqn:Ef.
      + specialize (Hfin eq_refl). by destruct e.
      + cbn. unfold settled_as. cbn. auto. }
  destruct e; try (by apply Hfail); try (by apply Hun).
  destruct He as [[He Hw]|(_ & Hx & _)]; [by split|done].
Qed.

Lemma wp_run_stages w : page_at start w -> start = PENDING \/ start = LAYOUT_DONE ->
  wp rely no_fault any
    (run_stages layout vlm exn_str str_json cfg j index page_ref content final handoff start)
    (λ x w', match x with
             | inl e => is_Exception e = false /\ escape e /\ page_at LAYOUT_RUNNING w'
             | inr r => settled_as r w'
             end) w.
Proof using Hrely Hlayout Hvlm Hescape.
  intros Hw Hs. apply wp_bind, wp_catch. eapply wp_mono; [|by apply wp_stages].
  assert (forall x w1, stage_post x w1 ->
    match x with
    | inl e => is_Exception e = false /\ escape e /\ page_at LAYOUT_RUNNING w1
    | inr stop => wp rely no_fault any
        match stop with
        | Some r => Ret r
        | None => Ret (page_result (if bool_decide (start = LAYOUT_DONE) then Outcome.RESUMED
                                    else Outcome.COMPLETED) j index "")
        end (λ x w', match x with
             | inl e => is_Exception e = false /\ escape e /\ page_at LAYOUT_RUNNING w'
             | inr r => settled_as r w'
             end) w1
    end) as Hend.
  { intros [e|[r|]] w1 Hw1; [done..|]. unfold settled_as. cbn. by case_bool_decide. }
  intros [e|stop] w1 Hw1; [|by apply (Hend (inr stop))].
  eapply wp_mono; [|by apply wp_stages_except]. intros x w2 Hw2.
  pose proof (Hend x w2 Hw2) as He. by destruct x.
Qed.
End owner.

(** A transition is a command; its error is raised. *)
Lemma store_transition_command {W} `{Redis W} `{Clock W} cfg job index to fs :
  exists (f : Z -> W -> result script_reply * W) (k : Z -> result script_reply -> prog W TransitionResult),
    store_transition cfg job index to None fs =
      Local (λ w, (w, now_ms w)) (λ now, Step (f now) (k now)) /\
    forall now e, k now (inl e) = Raise e.
Proof.
  unfold store_transition. cbn [from_option]. destruct (PREDECESSORS_nonempty to) as (s0 & l & E).
  unfold from_option. rewrite E. by eexists _, _.
Qed.

Lemma not_predecessor s to : can_transition s to = false -> s ∉ PREDECESSORS to.
Proof. intros Hc%bool_decide_eq_false. by rewrite elem_of_PREDECESSORS. Qed.

(** *** Rejected transitions *)

Section rejected.
Context {W : Type} `{RedisLaws W} `{Clock W}.
Context (j : string) (n : nat) (cfg : pipeline_config) (index : Z).
Implicit Types w : W.

Lemma run_rejected s to fs w :
  legal_call to None fs -> s ∉ PREDECESSORS to -> page_at j n index s w ->
  run (store_transition cfg j index to None fs) w =
  (inr {| tr_ok := false; tr_observed := state_value s; tr_done_count := -1;
          tr_total_pages := -1; tr_requested := to |}, w).
Proof using Type.
  intros Hl Hin [Hok Hs]. pose proof (pstate_value j n _ _ _ Hok Hs) as Hv.
  unfold store_transition. cbn [from_option]. destruct (PREDECESSORS_nonempty to) as (s0 & l & E).
  unfold from_option. rewrite E, <- E. autorewrite with run. cbn [fst snd].
  unfold transition_lua. rewrite hget_view, Hv. rewrite bool_decide_false; [done|].
  intros Hx. apply list_elem_of_fmap in Hx as (s' & Hs' & Hx).
  apply state_value_inj in Hs' as ->. done.
Qed.

Lemma run_applied s to fs w :
  legal_call to None fs -> s ∈ PREDECESSORS to -> page_at j n index s w ->
  exists tr w', run (store_transition cfg j index to None fs) w = (inr tr, w') /\
    tr_ok tr = true /\ page_at j n index to w'.
Proof using Type.
  intros Hl Hin Hw.
  pose proof (wp_transition j n index cfg eq (λ _ _ E, eq_rect _ (λ w, leaves_page j n index _ w) (λ Hs, conj Hs eq_refl) _ E)
    (λ _, False) s to None fs (λ x w', exists tr, x = inr tr /\ tr_ok tr = true /\ page_at j n index to w') w
    (λ e w' (F : False) _, match F with end) Hl Hin Hw) as Hwp.
  apply wp_run in Hwp; [|eauto].
  destruct (run _ w) as [x w'] eqn:E. destruct Hwp as (tr & Hx & Htr & Hw'). simpl in *. subst x.
  eauto.
Qed.
End rejected.

(** *** A job of one page *)

Definition demo_cfg : pipeline_config :=
  {| pc_ttl_s := 60; pc_publishes := true; pc_maxlen := 100; pc_result_ttl_s := 60 |}.

Definition demo_pending : rview := init_job 60 0 "j" 1 ∅ (rview_init 0).

Definition demo_step (to : PageState) (v : rview) : rview :=
  (run (store_transition demo_cfg "j" 0 to None []) v).2.

Definition demo_layout_done : rview := demo_step LAYOUT_DONE (demo_step LAYOUT_RUNNING demo_pending).

Lemma demo_pending_ok : page_at "j" 1 0 PENDING demo_pending.
Proof.
  split; [|vm_compute; reflexivity].
  apply (init_job_ok (R := rview) 60 0 "j" 1 ∅ (rview_init 0)); done || lia.
Qed.

Lemma demo_step_ok s to v : s ∈ PREDECESSORS to ->
  page_at "j" 1 0 s v -> page_at "j" 1 0 to (demo_step to v).
Proof.
  intros Hs Hv. unfold demo_step.
  destruct (run_applied "j" 1 demo_cfg 0 s to [] v) as (tr & w' & -> & _ & Hw'); [|done..].
  by apply legal_default.
Qed.

Lemma demo_layout_done_ok : page_at "j" 1 0 LAYOUT_DONE demo_layout_done.
Proof.
  apply (demo_step_ok LAYOUT_RUNNING); [apply elem_of_PREDECESSORS; in_list|].
  apply (demo_step_ok PENDING); [apply elem_of_PREDECESSORS; in_list|apply demo_pending_ok].
Qed.

(** A model client that answers at once. *)
Definition demo_model (_ : string) (_ : Z) (_ : option string) (_ : option json) : prog rview json := Ret (JObj []).

Definition demo_process (reclaim : bool) : prog rview PageResult :=
  process_page demo_model demo_model exn_name dumps demo_cfg "j" 0 None None false false reclaim.

(** The layout of a page in this state is still to be done. *)
Definition before_layout (s : PageState) : bool := bool_decide (s = PENDING \/ s = LAYOUT_RUNNING).

(** What [process_page] leaves behind, per outcome, for a page found in [s]. *)
Definition outcome_post {W} `{RedisLaws W} j n index final handoff reclaim (s : PageState)
  (x : result PageResult) (w : W) : Prop :=
  match x with
  | inl e => is_Exception e = false /\ page_at j n index LAYOUT_RUNNING w
  | inr r =>
      match pr_outcome r with
      | Outcome.COMPLETED | Outcome.RESUMED => page_at j n index DONE w
      | Outcome.DEGRADED => page_at j n index FALLBACK_DONE w
      | Outcome.FAILED => page_at j n index FAILED w
      | Outcome.ALREADY_TERMINAL => is_terminal s = true /\ page_at j n index s w
      | Outcome.HANDOFF => handoff = true /\ before_layout s = true /\ page_at j n index LAYOUT_DONE w
      | Outcome.SATURATED => final = false /\
          (page_at j n index PENDING w \/ page_at j n index LAYOUT_DONE w)
      | Outcome.OWNED_BY_OTHER => reclaim = false /\ is_running s = true /\ page_at j n index s w
      end
  end.

Lemma wp_process_page {W} `{RedisLaws W} `{Clock W} j n layout vlm exn_str str_json cfg
  (rely : W -> W -> Prop) escape index page_ref content final handoff reclaim s w :
  (forall i r c, guar (records_kept j) (layout j i r c)) ->
  (forall i r c, guar (records_kept j) (vlm j i r c)) ->
  (forall w w', rely w w' -> leaves_page j n index w w') ->
  (forall i r c w, wp rely (λ _, False) (λ _, True) (layout j i r c)
     (λ o _, forall e, o = inl e -> escape e) w) ->
  page_at j n index s w ->
  wp rely (λ _, False) (λ _, True)
    (process_page layout vlm exn_str str_json cfg j index page_ref content final handoff reclaim)
    (λ x w', outcome_post j n index final handoff reclaim s x w' /\ forall e, x = inl e -> escape e) w.
Proof.
  intros Hl Hv Hr He Hw.
  assert (forall s' w', page_at j n index s' w' -> s' = PENDING \/ s' = LAYOUT_DONE ->
    (s' = PENDING -> before_layout s = true) ->
    wp rely (λ _, False) (λ _, True)
      (run_stages layout vlm exn_str str_json cfg j index page_ref content final handoff s')
      (λ x w', outcome_post j n index final handoff reclaim s x w' /\ forall e, x = inl e -> escape e)
      w') as Hrun.
  { intros s' w' Hw' Hs' Hb. eapply wp_mono; [|by apply (wp_run_stages j n layout vlm exn_str str_json cfg
      Hl Hv index rely Hr page_ref content final handoff s' escape He)].
    intros [e|r] w2 Hw2; [destruct Hw2 as (? & ? & ?); by split; [|intros ? [= <-]]|].
    split; [|done]. unfold settled_as in Hw2. unfold outcome_post.
    destruct (pr_outcome r); try done. destruct Hw2 as (? & ? & ?). auto. }
  apply wp_bind, (wp_get_page j n index rely Hr (λ _, False) s); [no_err|done|].
  intros page w1 Hw1 Hne Hp. rewrite bool_decide_false by done. rewrite Hp. cbn [of_result pbind].
  destruct (is_terminal s) eqn:Et; [by split_and!|].
  destruct (is_running s) eqn:Er; [|apply Hrun; [done|destruct s; auto; discriminate|by intros ->]].
  destruct reclaim; cbn [negb]; [|by split_and!].
  apply wp_bind, (wp_release j n index cfg rely Hr (λ _, False) s); [no_err|done|]. intros w2 Hw2.
  set (s2 := default s (RECLAIM_TARGET s)) in *.
  assert ((s2 = PENDING \/ s2 = LAYOUT_DONE) /\ (s2 = PENDING -> before_layout s = true)) as [Hs2 Hb]
    by (destruct s; try discriminate; split; cbn; auto; done).
  apply wp_bind, (wp_get_page j n index rely Hr (λ _, False) s2); [no_err|done|].
  intros page2 w3 Hw3 Hne2 Hp2. rewrite bool_decide_false by done. rewrite Hp2. cbn [of_result pbind].
  destruct Hs2 as [-> | ->]; apply Hrun; auto.
Qed.

(** ** Properties *)



(** What a process of the system may do about the job [j]. *)
Inductive worker_task {W} `{Redis W} `{Clock W} `{!RedisLaws W} layout vlm exn_str str_json cfg
  (j : string) : prog W unit -> Prop :=
| task_process index page_ref content final handoff reclaim :
    worker_task layout vlm exn_str str_json cfg j
      (let! _ := process_page layout vlm exn_str str_json cfg j index page_ref content final handoff
                   reclaim in Ret tt)
| task_release index : worker_task layout vlm exn_str str_json cfg j (release_claim cfg j index)
| task_force index reason :
    worker_task layout vlm exn_str str_json cfg j
      (let! _ := force_terminal cfg j index reason in Ret tt)
| task_other p : guar (records_kept j) p -> worker_task layout vlm exn_str str_json cfg j p.

Definition demo_final : rview := (run (demo_process false) demo_pending).2.

Lemma demo_result : (run (demo_process false) demo_pending).1 =
  inr (page_result Outcome.COMPLETED "j" 0 "").
Proof. vm_compute. reflexivity. Qed.

Lemma demo_reach :
  rtc (pool_step (worker_task demo_model demo_model exn_name dumps demo_cfg "j"))
    ([], demo_pending) ([Ret tt], demo_final).
Proof.
  eapply rtc_l; [apply pool_spawn, (task_process demo_model demo_model exn_name dumps demo_cfg "j" 0%Z
    None None false false false)|].
  apply pool_alone.
  pose proof (run_prog_steps (let! _ := demo_process false in Ret tt) demo_pending) as Hs.
  rewrite run_bind in Hs. unfold demo_final. pose proof demo_result as Hr.
  destruct (run (demo_process false) demo_pending) as [x w']. cbn [fst] in Hr. subst x. exact Hs.
Qed.

(** C1: any number of workers - each running a page, releasing one, forcing one
    terminal, or doing something that leaves the job's records alone - started
    and killed at any moment, their commands interleaved in any order and failing
    with or without effect: the job's records stay well formed, [done_count]
    stays the number of terminal pages, a terminal page never changes again, and
    every page only ever moves along the table. *)
Theorem workers_keep_job {W} `{RedisLaws W} `{Clock W} j n layout vlm exn_str str_json cfg
  (tasks : list (prog W unit)) (w w' : W) :
  (forall i r c, guar (records_kept j) (layout j i r c)) ->
  (forall i r c, guar (records_kept j) (vlm j i r c)) ->
  job_ok j n (view w) ->
  rtc (pool_step (worker_task layout vlm exn_str str_json cfg j)) ([], w) (tasks, w') ->
  job_ok j n (view w') /\
  forall i s, pstate (view w) j i = Some s ->
    exists s', pstate (view w') j i = Some s' /\
      rtc (λ a b, b ∈ TRANSITIONS a) s s' /\ (is_terminal s = true -> s' = s).
Proof.
  intros Hl Hv Hok Hs.
  apply (pool_guar (moves j n) (moves_refl j n)) in Hs as [Hs _]; [| |done].
  2:{ intros p []; [| | |by apply guar_records].
      - apply guar_bind; [by apply guar_process|done].
      - apply guar_release.
      - apply guar_bind; [apply guar_force|done]. }
  assert (job_ok j n (view w') /\ forall i s, pstate (view w) j i = Some s ->
    exists s', pstate (view w') j i = Some s' /\ rtc (λ a b, b ∈ TRANSITIONS a) s s') as [Hok' Hp].
  { clear tasks. induction Hs as [w|w w1 w2 Hm _ IH]; [by split; eauto using rtc_refl|].
    destruct (Hm Hok) as [Hok1 Hp1]. destruct (IH Hok1) as [Hok2 Hp2]. split; [done|].
    intros i s Hi. destruct (Hp1 i) as [E|(a & b & Ha & Hb & Hab)].
    - apply Hp2. by rewrite E.
    - destruct (Hp2 i b Hb) as (s' & Hs' & Hr). exists s'. split; [done|].
      rewrite Hi in Ha. injection Ha as <-. by eapply rtc_l. }
  split; [done|]. intros i s Hi. destruct (Hp i s Hi) as (s' & Hs' & Hr). exists s'.
  split_and!; [done|done|]. intros Ht%is_terminal_spec.
  inversion Hr as [|? b ? Hb]; [done|]; subst. rewrite Ht in Hb. by apply elem_of_nil in Hb.
Qed.

Example workers_keep_job_witness : job_ok "j" 1 demo_final.
Proof.
  assert (forall (i : Z) (r : option string) (c : option json), guar (records_kept "j") (demo_model "j" i r c)) as Hm
    by done.
  exact (proj1 (workers_keep_job "j" 1 demo_model demo_model exn_name dumps demo_cfg
    [Ret tt] demo_pending demo_final Hm Hm (proj1 demo_pending_ok) demo_reach)).
Defined.

(** a transient fault strands a page.  If the claim of the VLM stage of a
    page whose layout is committed meets a store error, the generic handler asks
    for FAILED, which the table forbids from LAYOUT_DONE; the rejection is
    ignored, so the outcome is FAILED - which the worker acknowledges - while the
    page stays at LAYOUT_DONE, not terminal. *)
Theorem vlm_claim_fault_strands {W} `{RedisLaws W} `{Clock W} j n layout vlm exn_str str_json cfg
  index page_ref content final handoff reclaim msg w :
  page_at j n index LAYOUT_DONE w ->
  run_faults [None; Some (RedisError msg, false)]
    (process_page layout vlm exn_str str_json cfg j index page_ref content final handoff reclaim) w
  = (inr (page_result Outcome.FAILED j index "RedisError"), w) /\
  is_terminal LAYOUT_DONE = false.
Proof.
  intros Hw. split; [|done]. destruct (id Hw) as [Hok Hs].
  pose proof (pstate_value j n _ _ _ Hok Hs) as Hv.
  assert (get_page j index w <> ∅ /\ page_state (get_page j index w) = inr LAYOUT_DONE) as [Hne Hp].
  { unfold get_page. rewrite hgetall_view. split; [intros E; by rewrite E in Hv|].
    unfold page_state. by rewrite Hv. }
  unfold process_page. cbn [ask call step pbind run_faults head of_result tail].
  rewrite bool_decide_false by done. rewrite Hp. cbn [of_result pbind is_terminal is_running].
  change (is_terminal LAYOUT_DONE) with false. change (is_running LAYOUT_DONE) with false.
  unfold run_stages, stages. rewrite bool_decide_false by done. cbn [pbind].
  unfold vlm_stage. destruct (store_transition_command cfg j index VLM_RUNNING []) as (f & k & E & Hk).
  rewrite E. cbn [pbind catch run_faults hd_error tl]. rewrite Hk. cbn [pbind catch stages_except is_Exception].
  rewrite run_faults_nil, run_bind. unfold fail_page. rewrite run_bind.
  rewrite (run_rejected j n cfg index LAYOUT_DONE) by
    (by apply legal_default || by apply not_predecessor || done).
  rewrite run_bind. unfold _emit. cbn [tr_ok negb]. rewrite orb_true_r. done.
Qed.

Example vlm_claim_fault_strands_witness :
  run_faults [None; Some (RedisError "Connection reset", false)] (demo_process false) demo_layout_done
  = (inr (page_result Outcome.FAILED "j" 0 "RedisError"), demo_layout_done).
Proof.
  exact (proj1 (vlm_claim_fault_strands "j" 1 demo_model demo_model exn_name dumps demo_cfg 0%Z None None
    false false false "Connection reset" demo_layout_done demo_layout_done_ok)).
Defined.

(** a late layout commit revokes another worker's VLM claim.  The commit of
    the layout stage is not narrowed to LAYOUT_RUNNING, and the table allows
    VLM_RUNNING to LAYOUT_DONE: a worker whose page was reclaimed and claimed
    for the VLM by another rolls that claim back, and the other's result is then
    refused. *)
Theorem late_layout_commit_revokes {W} `{RedisLaws W} `{Clock W} j n cfg index out vlm_fields w :
  page_at j n index VLM_RUNNING w ->
  legal_call DONE None vlm_fields ->
  exists tr w1 tr', run (store_transition cfg j index LAYOUT_DONE None [("layout", dumps out)]) w = (inr tr, w1) /\
    tr_ok tr = true /\ page_at j n index LAYOUT_DONE w1 /\
    run (store_transition cfg j index DONE None vlm_fields) w1 = (inr tr', w1) /\ tr_ok tr' = false.
Proof.
  intros Hw Hl.
  destruct (run_applied j n cfg index VLM_RUNNING LAYOUT_DONE [("layout", dumps out)] w)
    as (tr & w1 & E & Htr & Hw1); [by apply legal_default|apply elem_of_PREDECESSORS; in_list|done|].
  pose proof (run_rejected j n cfg index LAYOUT_DONE DONE vlm_fields w1 Hl
    (not_predecessor LAYOUT_DONE DONE eq_refl) Hw1) as Hrej.
  by eexists tr, w1, _.
Qed.

Example late_layout_commit_revokes_witness :
  exists tr w1 tr', run (store_transition demo_cfg "j" 0 LAYOUT_DONE None [("layout", "{}")])
      (demo_step VLM_RUNNING demo_layout_done) = (inr tr, w1) /\
    tr_ok tr = true /\ page_at "j" 1 0 LAYOUT_DONE w1 /\
    run (store_transition demo_cfg "j" 0 DONE None []) w1 = (inr tr', w1) /\ tr_ok tr' = false.
Proof.
  apply (late_layout_commit_revokes "j" 1 demo_cfg 0 (JObj []) [] (demo_step VLM_RUNNING demo_layout_done)).
  - apply (demo_step_ok LAYOUT_DONE); [apply elem_of_PREDECESSORS; in_list|apply demo_layout_done_ok].
  - by apply legal_default.
Defined.
