(* ===== verification/Reaper.v ===== *)
(** * Orphan recovery ([app/worker/reaper.py])

    [scan] claims the entries of dead consumers and recovers each: settle an
    entry whose page is gone or finished, force a page out of budget terminal,
    otherwise roll the page back to its checkpoint, publish a replacement and
    settle the original.  Theorems: no fault and no crash point of a recovery
    leaves the page without a queue entry unless it is terminal; what each branch
    of a recovery does; and that an interrupted recovery is not revisited by the
    worker that began it. *)

From S2P Require Import Prelude Py Redis Prog PageState Streams Results Config Pipeline.
From Stdlib Require Import QArith Qround.

(** ** Statistics *)

Record ReaperStats := {
  scans : Z; claimed : Z; requeued : Z; forced_terminal : Z; already_terminal : Z;
  expired : Z; leases_renewed : Z }.

Definition no_stats : ReaperStats :=
  {| scans := 0; claimed := 0; requeued := 0; forced_terminal := 0; already_terminal := 0;
     expired := 0; leases_renewed := 0 |}.

Definition snapshot (s : ReaperStats) : list (string * Z) :=
  [("scans", scans s); ("claimed", claimed s); ("requeued", requeued s);
   ("forced_terminal", forced_terminal s); ("already_terminal", already_terminal s);
   ("expired", expired s); ("leases_renewed", leases_renewed s)].

(** [self.stats.f += n] *)
Inductive stat := Scans | Claimed | Requeued | ForcedTerminal | AlreadyTerminal | Expired | LeasesRenewed.

Definition add_stat (f : stat) (n : Z) (s : ReaperStats) : ReaperStats :=
  let on g x := match f, g with
                | Scans, Scans | Claimed, Claimed | Requeued, Requeued
                | ForcedTerminal, ForcedTerminal | AlreadyTerminal, AlreadyTerminal
                | Expired, Expired | LeasesRenewed, LeasesRenewed => (x + n)%Z
                | _, _ => x
                end in
  {| scans := on Scans (scans s); claimed := on Claimed (claimed s);
     requeued := on Requeued (requeued s); forced_terminal := on ForcedTerminal (forced_terminal s);
     already_terminal := on AlreadyTerminal (already_terminal s); expired := on Expired (expired s);
     leases_renewed := on LeasesRenewed (leases_renewed s) |}.

Section reaper.
Context {W : Type} `{Redis W} `{Clock W} `{Memory ReaperStats W}.
Context (cfg : pipeline_config) (settings : Settings) (consumer : string).

Definition count (f : stat) (n : Z) : prog W unit := note (λ w, set_mem (add_stat f n (mem w)) w).

(** [task.age_ms / 1000] *)
Definition age_s (now : Z) (t : PageTask) : Q := inject_Z (age_ms now t) / 1000.

Definition exhausted (now : Z) (t : PageTask) : bool :=
  Qle_bool (page_deadline_s settings) (age_s now t)
  || (effective_max_requeues settings <=? attempt t + 1)%Z.

Definition reclaim_reason (now : Z) (t : PageTask) : string :=
  "reclaimed after " +:+ py_str (round_half_even (age_s now t)) +:+ "s, attempt "
  +:+ py_str (attempt t + 1).

Definition _recover (t : PageTask) : prog W unit :=
  let! page := ask (get_page (job_id t) (page_index t)) in
  if bool_decide (page = ∅) then
    do! count Expired 1 in
    ack (entry_id t) (task_stream t)
  else
    let! state := of_result (page_state page) in
    if is_terminal state then
      do! count AlreadyTerminal 1 in
      ack (entry_id t) (task_stream t)
    else
      let! now := sample now_ms in
      if exhausted now t then
        do! force_terminal cfg (job_id t) (page_index t) (reclaim_reason now t) in
        do! count ForcedTerminal 1 in
        ack (entry_id t) (task_stream t)
      else
        do! release_claim cfg (job_id t) (page_index t) in
        do! requeue t true in
        count Requeued 1.

Definition scan : prog W Z :=
  do! count Scans 1 in
  let! orphans := claim_orphans consumer (int_of_float (reaper_min_idle_s settings * 1000))
                    (reaper_batch settings) in
  let n := Z.of_nat (length orphans) in
  do! count Claimed n in
  do! for_each orphans _recover in
  Ret n.

Definition renew (tasks : list PageTask) : prog W Z :=
  match tasks with
  | [] => Ret 0%Z
  | _ =>
      let! renewed := renew_leases consumer tasks in
      do! count LeasesRenewed renewed in
      Ret renewed
  end.
End reaper.

(** ** A recovery, step by step *)

Section recovering.
Context {W : Type} `{RedisLaws W} `{Clock W}.
Context (cfg : pipeline_config).
Context (t : PageTask) (b : bool) (n : nat) (Ht : task_stream t <> out_stream (job_id t)).
Let j := job_id t.
Let index := page_index t.
Context (rely : W -> W -> Prop) (fault : exn -> Prop).
Context (Hpage : forall w w', rely w w' -> leaves_page j n index w w').
Context (Htask : forall w w', rely w w' -> leaves_task t b w w').
Implicit Types w : W.
#[local] Abbreviation page_at := (page_at j n index).
Let any (_ : W) : Prop := True.

Definition finished (w : W) : Prop := exists s, is_terminal s = true /\ page_at s w.

(** Nobody is owed this page, or an entry for it is in the queue. *)
Definition covered (w : W) : Prop := finished w \/ queued t b w.

Lemma guar_ack_records i k : guar (records_kept j) (ack (R := W) i k).
Proof using Type.
  apply guar_bind; [apply guar_act|intros _; apply guar_act]; intros w k' _;
    by rewrite ?view_xack, ?view_xdel, vhash_vset_stream.
Qed.

(** Settling a finished page. *)
Lemma wp_ack_settles w :
  wp rely fault any (ack (entry_id t) (task_stream t)) (λ o w', o = inr tt -> settled t w') w.
Proof using Htask.
  unfold ack, act, call, step. cbn [pbind wp]. intros w1 _.
  destruct (xack_keeps t b w1) as (Ha & _). cbn [fst snd of_result pbind wp].
  split_and!; [done| |by intros e _]. intros w2 Hr.
  apply (lt_acked _ _ _ _ (Htask _ _ Hr)) in Ha. cbn [fst snd of_result pbind wp].
  split_and!; [done| |by intros e _]. intros _. unfold settled, acked in *.
  rewrite view_xdel, vstream_vset_stream_eq. split; [exact Ha|]. rewrite in_stream_sdel. by intros [].
Qed.

Lemma wp_ack_finished s w : is_terminal s = true -> page_at s w ->
  wp rely fault covered (ack (entry_id t) (task_stream t))
    (λ o w', finished w' /\ (o = inr tt -> settled t w')) w.
Proof using Hpage Htask.
  intros Hs Hw.
  assert (forall w, page_at s w -> finished w) as Hf by (intros w' Hw'; by exists s).
  pose proof (guar_keeps (records_kept j) rely fault (page_at s) (ack (entry_id t) (task_stream t))
    (λ a b, page_at_records j n index s a b)
    (λ a b Hr, leaves_page_at j n index s a b (Hpage _ _ Hr)) (guar_ack_records _ _) w Hw) as Hk.
  pose proof (wp_and _ _ _ _ _ _ _ _ Hk (wp_ack_settles w)) as Hb.
  eapply wp_mono; [|eapply wp_weaken; [|exact Hb]].
  - intros o w' [Hw' Hset]. split; [by apply Hf|done].
  - intros w' [Hw' _]. left. by apply Hf.
Qed.

(** A command of the pipeline leaves the queue alone. *)
Definition pending (w : W) : Prop := job_ok j n (view w) /\ original_queued t w.

Lemma pending_covered w : pending w -> covered w.
Proof using Type. intros [_ Ho]. right. by left. Qed.

Lemma pending_rely w w' : rely w w' -> pending w -> pending w'.
Proof using Hpage Htask.
  intros Hr [Hok Ho]. destruct (Hpage _ _ Hr Hok) as [Hok' _]. split; [done|].
  by apply (lt_original _ _ _ _ (Htask _ _ Hr)).
Qed.

Lemma pending_effect w w' : effect j n (λ i, i = index) w w' -> pending w -> pending w'.
Proof using Ht.
  intros He [Hok Ho]. destruct (He Hok) as (Hok' & _ & Hs). split; [done|].
  unfold original_queued in *. by rewrite Hs.
Qed.

(** A step that leaves the queue alone: its facts, with the entry still there. *)
Lemma wp_pending {A} (p : prog W A) (Q : result A -> W -> Prop) w :
  guar (effect j n (λ i, i = index)) p -> pending w ->
  wp rely fault any p Q w ->
  wp rely fault covered p (λ x w', Q x w' /\ pending w') w.
Proof using Hpage Htask Ht.
  intros Hg Hw Hp.
  pose proof (guar_keeps _ rely fault pending p pending_effect pending_rely Hg w Hw) as Hk.
  pose proof (wp_and _ _ _ _ _ _ _ _ Hp Hk) as Hb.
  eapply wp_weaken; [|exact Hb]. intros w' [_ Hw']. by apply pending_covered.
Qed.

Lemma page_at_pending s w : page_at s w -> original_queued t w -> pending w.
Proof using Type. intros [Hok _] Ho. by split. Qed.

Lemma wp_force_pending reason s w : page_at s w -> original_queued t w ->
  wp rely fault covered (force_terminal cfg j index reason)
    (λ x w', pending w' /\
       forall v, x = inr v -> exists s', is_terminal s' = true /\ page_at s' w') w.
Proof using Hpage Htask Ht.
  intros Hw Ho.
  eapply wp_mono; [|apply (wp_pending _
    (λ x w', forall v, x = inr v -> exists s', is_terminal s' = true /\ page_at s' w'));
    [by apply effect_force|by apply (page_at_pending s)|]]; [by intros x w1 [Hf Hp]|].
  apply (wp_force j n index cfg rely Hpage fault reason _ s); [done|done|].
  intros x s' w1 Hs' Hw1 v _. eauto.
Qed.

Lemma guar_requeue_records : guar (records_kept j) (requeue (R := W) t b).
Proof using Type.
  apply guar_bind; [apply guar_call|intros i; by apply guar_bind; [apply guar_ack_records|]].
  intros w k _. destruct (xadd_view STREAM (requeue_fields t (now_ms w)
    (if b then attempt t + 1 else attempt t)%Z) w) as [_ Hv].
  by rewrite Hv, vhash_vset_stream.
Qed.

(** Nobody's: the next delivery may claim the page, or find it finished. *)
Definition unclaimed (w : W) : Prop := exists s, is_running s = false /\ page_at s w.

Lemma unclaimed_rely w w' : rely w w' -> unclaimed w -> unclaimed w'.
Proof using Hpage.
  intros Hr (s & Hs & Hw). exists s. split; [done|].
  by apply (leaves_page_at j n index _ _ _ (Hpage _ _ Hr)).
Qed.

Lemma unclaimed_records w w' : records_kept j w w' -> unclaimed w -> unclaimed w'.
Proof using Type.
  intros Hr (s & Hs & Hw). exists s. split; [done|]. by apply (page_at_records j n index _ _ _ Hr).
Qed.

(** The page is back in the queue, and its old entry acknowledged. *)
Definition requeued_page (w : W) : Prop :=
  unclaimed w /\ replacement_queued t b w /\ acked t w.

Lemma requeued_covered w : requeued_page w -> covered w.
Proof using Type. intros (_ & Hr & _). right. by right. Qed.

(** Local bookkeeping. *)
Lemma requeued_view w w' : view w' = view w -> requeued_page w -> requeued_page w'.
Proof using Type.
  intros Hv (Hc & Hr & Ha). split; [|unfold replacement_queued, acked in *; by rewrite Hv].
  revert Hc. apply unclaimed_records. intros k _. by rewrite Hv.
Qed.

Lemma wp_requeue w : unclaimed w -> original_queued t w ->
  wp rely fault covered (requeue t b)
    (λ o w', covered w' /\ forall i, o = inr i -> requeued_page w') w.
Proof using Hpage Htask.
  intros Hc Ho.
  pose proof (wp_rely _ rely fault fault _ _ _ w Htask (λ _ He, He) (requeue_wp t b fault w Ho)) as Hq.
  pose proof (wp_and _ _ _ _ _ _ _ _ Hq (guar_keeps (records_kept j) rely fault unclaimed _
    unclaimed_records unclaimed_rely guar_requeue_records w Hc)) as Hb.
  eapply wp_mono; [|eapply wp_weaken; [|exact Hb]]; [|intros w' [Hw' _]; by right].
  intros [e|i] w1 [[Hw1 Hn1] Hc1]; (split; [by right|]); [done|].
  intros i' _. by destruct (Hn1 i eq_refl).
Qed.

Lemma wp_release_unclaimed s w : page_at s w -> original_queued t w ->
  wp rely fault covered (release_claim cfg j index)
    (λ x w', pending w' /\ (x = inr tt -> unclaimed w')) w.
Proof using Hpage Htask Ht.
  intros Hw Ho.
  eapply wp_mono; [|apply (wp_pending _ (λ x w', x = inr tt -> unclaimed w'));
    [by apply effect_release|by apply (page_at_pending s)|]]; [by intros x w1 [Hc Hp]|].
  apply (wp_release j n index cfg rely Hpage fault s); [done|done|].
  intros w1 Hw1 _. exists (default s (RECLAIM_TARGET s)). split; [by destruct s|done].
Qed.
End recovering.

Section recover.
Context {W : Type} `{ML : MemoryLaws ReaperStats W}.
Context (cfg : pipeline_config) (settings : Settings).
Context (t : PageTask) (n : nat) (Ht : task_stream t <> out_stream (job_id t)).
Let j := job_id t.
Let index := page_index t.
Context (rely : W -> W -> Prop) (fault : exn -> Prop).
Context (Hpage : forall w w', rely w w' -> leaves_page j n index w w').
Context (Htask : forall w w', rely w w' -> leaves_task t true w w').
Implicit Types w : W.
#[local] Abbreviation page_at := (page_at j n index).
#[local] Abbreviation covered := (covered t true n).

Definition recovery_post (o : result unit) (w : W) : Prop :=
  covered w /\
  (o = inr tt -> (finished t n w /\ settled t w) \/
     (requeued_page t true n w /\ (attempt t + 1 < effective_max_requeues settings)%Z)).

Lemma recovery_fault e w : pending t n w -> recovery_post (inl e) w.
Proof using Type. intros Hw. split; [by apply pending_covered|done]. Qed.

Lemma wp_finish s w : is_terminal s = true -> page_at s w ->
  wp rely fault covered (ack (entry_id t) (task_stream t)) recovery_post w.
Proof using Hpage Htask.
  intros Hs Hw. eapply wp_mono; [|by apply (wp_ack_finished t true n rely fault Hpage Htask s)].
  intros o w' [Hf Hset]. split; [by left|]. intros E. left. auto.
Qed.

(** Out of budget. *)
Lemma wp_give_up reason s w : page_at s w -> original_queued t w ->
  wp rely fault covered
    (do! force_terminal cfg j index reason in
     do! count ForcedTerminal 1 in
     ack (entry_id t) (task_stream t)) recovery_post w.
Proof using Hpage Htask Ht ML.
  intros Hw Ho. apply wp_bind.
  eapply wp_mono; [|by apply (wp_force_pending cfg t true n Ht rely fault Hpage Htask reason s)].
  intros [e|x] w1 [Hp Hf]; [by apply recovery_fault|].
  destruct (Hf x eq_refl) as (s' & Hs' & Hw'). cbn [count note own pbind wp fst snd].
  apply (wp_finish s'); [done|]. revert Hw'. apply page_at_records. intros k _.
  by rewrite view_set_mem.
Qed.

(** Budget left: release, republish, settle. *)
Lemma wp_release_requeue s w : (attempt t + 1 < effective_max_requeues settings)%Z ->
  page_at s w -> original_queued t w ->
  wp rely fault covered
    (do! release_claim cfg j index in do! requeue t true in count Requeued 1) recovery_post w.
Proof using Hpage Htask Ht ML.
  intros Hmax Hw Ho. apply wp_bind.
  eapply wp_mono; [|by apply (wp_release_unclaimed cfg t true n Ht rely fault Hpage Htask s)].
  intros [e|[]] w1 [Hp Hc]; [by apply recovery_fault|]. apply wp_bind.
  eapply wp_mono; [|apply (wp_requeue t true n rely fault Hpage Htask); [auto|apply Hp]].
  intros [e|i] w2 [Hcov Hreq]; [by split|]. specialize (Hreq i eq_refl).
  cbn [count note own wp fst snd].
  apply (requeued_view t true n w2 (set_mem (add_stat Requeued 1 (mem w2)) w2)) in Hreq;
    [|by rewrite view_set_mem].
  split; [by apply requeued_covered|]. intros _. right. by split.
Qed.

Lemma wp_recover s w : page_at s w -> original_queued t w ->
  wp rely fault covered (_recover cfg settings t) recovery_post w.
Proof using ML Hpage Htask Ht.
  intros Hw Ho. apply wp_bind.
  eapply wp_mono; [|apply (wp_pending t true n Ht rely fault Hpage Htask _ (λ x w', forall page, x = inr page ->
      page_at s w' /\ page <> ∅ /\ page_state page = inr s));
    [by apply guar_ask; intros; apply effect_refl|by apply (page_at_pending t n s)|]].
  - intros [e|page] w1 [Hg Hp]; [by apply recovery_fault|].
    destruct (Hg page eq_refl) as (Hw1 & Hne & Hst). destruct Hp as [_ Ho1].
    rewrite bool_decide_false by done. rewrite Hst. cbn [of_result pbind].
    destruct (is_terminal s) eqn:Es; cbn [count note sample own pbind wp fst snd].
    + apply (wp_finish s); [done|]. revert Hw1. apply page_at_records. intros k _.
      by rewrite view_set_mem.
    + destruct (exhausted settings (now_ms w1) t) eqn:Ex; [by apply (wp_give_up _ s)|].
      apply orb_false_iff in Ex as [_ Ex%Z.leb_gt]. by apply (wp_release_requeue s).
  - apply (wp_get_page j n index rely Hpage fault s); [done|done|].
    intros page w1 Hw1 Hne Hst page' [= <-]. auto.
Qed.
End recover.

(** ** A scan over a worker's own entries *)

Section scanning.
Context {W : Type} `{ML : MemoryLaws ReaperStats W}.
Context (settings : Settings) (consumer : string).
Implicit Types w : W.
Let min_idle := int_of_float (reaper_min_idle_s settings * 1000).

(** Every stale entry of the lanes is pending on this worker. *)
Definition stale_own (v : rview) : Prop :=
  forall k, k ∈ STREAMS -> sv_group (vstream k v) = true /\
    forall p, p ∈ sv_pel (vstream k v) -> (min_idle <= rv_now v - pel_delivered_at p)%Z ->
      pel_consumer p = consumer.

Lemma run_claim_own name ts w : name ∈ STREAMS -> stale_own (view w) ->
  run (claim_lane consumer min_idle (reaper_batch settings) name ts) w = (inr ts, w).
Proof using Type.
  intros Hn Hs. destruct (Hs name Hn) as [Hg Hp]. unfold claim_lane. autorewrite with run.
  rewrite xpending_range_view. cbn zeta. rewrite Hg.
  assert (filter (λ row, row.2 ≠ consumer) (spending (rv_now (view w)) min_idle
    (Z.to_nat (reaper_batch settings)) (vstream name (view w))) = []) as ->; [|done].
  apply elem_of_nil_inv. intros [i c] [Hne Hin]%list_elem_of_filter.
  apply spending_stale in Hin as (p & Hin & _ & <- & Hidle). by apply Hne, Hp.
Qed.

Lemma run_claim_orphans_own w : stale_own (view w) ->
  run (claim_orphans consumer min_idle (reaper_batch settings)) w = (inr [], w).
Proof using Type.
  intros Hs. unfold claim_orphans, STREAMS. cbn [fold_prog]. autorewrite with run.
  rewrite run_claim_own by (done || in_list). autorewrite with run.
  rewrite run_claim_own by (done || in_list). done.
Qed.
End scanning.

(** ** Properties *)

(** C10: the zero-drop guarantee of recovery.  Whatever command fails, with its
    effect or without, whatever the other processes do as long as they handle
    other pages and other queue entries, and at whichever point this process
    dies: the page is terminal, or an entry for it is still in the queue.  A
    recovery that completes either leaves the page terminal and its entry
    settled, or - only while the page has attempts left - leaves it where the
    next delivery can claim it, with a replacement entry published, carrying the
    page's age and one attempt more, and the original acknowledged. *)
Theorem recover_never_loses {W} `{MemoryLaws ReaperStats W} cfg settings t n
  (rely : W -> W -> Prop) fault s w :
  task_stream t <> out_stream (job_id t) ->
  (forall w w', rely w w' ->
     leaves_page (job_id t) n (page_index t) w w' /\ leaves_task t true w w') ->
  page_at (job_id t) n (page_index t) s w -> original_queued t w ->
  wp rely fault (covered t true n) (_recover cfg settings t) (recovery_post settings t n) w.
Proof.
  intros Ht Hr. apply wp_recover; [done|intros a b Hab; by apply Hr..].
Qed.

(** a recovery that was interrupted is not taken up again.  A scan skips the
    entries pending on its own consumer, and a claim makes them its own before
    any of them is dealt with: when an error ends the scan halfway, the entries
    already claimed are neither held (so never renewed) nor, however stale, seen
    by this worker's later scans. *)
Theorem scan_skips_own {W} `{MemoryLaws ReaperStats W} cfg settings consumer w :
  stale_own settings consumer (view w) ->
  let '(x, w') := run (scan cfg settings consumer) w in
  x = inr 0%Z /\ view w' = view w.
Proof.
  intros Hs. unfold scan. autorewrite with run. unfold count at 1. autorewrite with run.
  rewrite run_claim_orphans_own by (by rewrite view_set_mem). autorewrite with run.
  unfold count at 1. autorewrite with run. cbn [for_each run]. split; [done|].
  by rewrite !view_set_mem.
Qed.

(** *** A dead worker's entry *)

Definition demo_task : PageTask :=
  {| entry_id := (1, 0)%N; job_id := "j"; page_index := 0; enqueued_at_ms := 0; trace_id := "";
     recovered := false; task_stream := STREAM; attempt := 0; first_enqueued_at_ms := 0 |}.

(** The one page of job "j" at the VLM, its entry pending on "dead" for 40 s. *)
Definition demo_orphan : rview :=
  let v := demo_step VLM_RUNNING demo_layout_done in
  RV 40000 (rv_hash v) (rv_ttl v) (rv_ctr v)
    {[STREAM := SView true [SEntry (1, 0)%N (enqueue_fields "j" 0 0 "") false]
                  [PelRow (1, 0)%N "dead" 0 1];
      LEAD_STREAM := SView true [] []]}.

Definition orphan_world : rview * ReaperStats := (demo_orphan, no_stats).

Lemma demo_orphan_page : page_at (W := rview * ReaperStats) "j" 1 0 VLM_RUNNING orphan_world.
Proof.
  destruct (demo_step_ok LAYOUT_DONE VLM_RUNNING demo_layout_done) as [Hok Hs];
    [apply elem_of_PREDECESSORS; in_list|apply demo_layout_done_ok|].
  split; [|exact Hs]. by apply (job_ok_frame "j" 1 (demo_step VLM_RUNNING demo_layout_done) _).
Qed.

Example recover_never_loses_witness :
  wp (λ w w' : rview * ReaperStats, w' = w) (λ _, True) (covered demo_task true 1)
    (_recover demo_cfg default_settings demo_task) 
    (recovery_post default_settings demo_task 1) orphan_world.
Proof.
  refine (recover_never_loses demo_cfg default_settings demo_task 1 (λ w w', w' = w) (λ _, True)
    VLM_RUNNING orphan_world _ _ demo_orphan_page _); [done| |by vm_compute; left].
  intros w w' ->. split; [by intros Hok|by split].
Defined.

(** The scan of "w2" claims the entry, then its first read fails. *)
Definition interrupted : result Z * (rview * ReaperStats) :=
  run_faults [None; None; None; Some (RedisError "Connection reset", false)]
    (scan demo_cfg default_settings "w2") orphan_world.

(** Ten minutes later. *)
Definition much_later : rview * ReaperStats :=
  let v := interrupted.2.1 in
  (RV 640000 (rv_hash v) (rv_ttl v) (rv_ctr v) (rv_stream v), interrupted.2.2).

Lemma interrupted_strands :
  interrupted.1 = inl (RedisError "Connection reset") /\
  pstate much_later.1 "j" 0 = Some VLM_RUNNING /\
  sv_pel (vstream STREAM much_later.1) = [PelRow (1, 0)%N "w2" 40000 2].
Proof. vm_compute. done. Qed.

Example scan_skips_own_witness :
  let '(x, w') := run (scan demo_cfg default_settings "w2") much_later in
  x = inr 0%Z /\ view w' = view much_later.
Proof.
  apply (scan_skips_own demo_cfg default_settings "w2" much_later).
  intros k Hk. apply elem_of_cons in Hk as [->|Hk]; [|apply list_elem_of_singleton in Hk as ->].
  - split; [vm_compute; reflexivity|]. intros p Hp. vm_compute in Hp. by apply elem_of_nil in Hp.
  - split; [vm_compute; reflexivity|]. intros p Hp _.
    replace (sv_pel (vstream STREAM (view much_later))) with [PelRow (1, 0)%N "w2" 40000 2] in Hp
      by (symmetry; apply interrupted_strands).
    by apply list_elem_of_singleton in Hp as ->.
Defined.
