(* ===== verification/Worker.v ===== *)
(** * The worker process ([app/worker/main.py])

    [_handle_page] decides what becomes of a delivered task, [_handle] keeps the
    worker's accounts around it, [dispatch_round] and [maintenance_round] are one
    turn of the two loops.  The model client is a parameter, as in the pipeline;
    the metrics and the PDF parser are too.  Theorems: a task that is delivered is
    finished or back in the queue, at every point and whatever the models do;
    what a store error can cost; the worker's accounts are exact; how many pages
    it holds; and that no page's document is deleted while the job needs it. *)

From S2P Require Import Prelude Py Redis Prog PageState Streams Json Results Config.
From S2P Require Import Splitter Pipeline Reaper.
From Stdlib Require Import QArith.

(** ** Local state *)

Definition outcome_value (o : Outcome.t) : string :=
  match o with
  | Outcome.COMPLETED => "completed" | Outcome.RESUMED => "resumed"
  | Outcome.ALREADY_TERMINAL => "already_terminal" | Outcome.OWNED_BY_OTHER => "owned_by_other"
  | Outcome.DEGRADED => "degraded" | Outcome.HANDOFF => "handoff"
  | Outcome.SATURATED => "saturated" | Outcome.FAILED => "failed"
  end.

(** [WorkerStats] *)
Abbreviation worker_stats := (gmap string Z).

Definition record (o : Outcome.t) (s : worker_stats) : worker_stats :=
  <[outcome_value o := (default 0 (s !! outcome_value o) + 1)%Z]> s.

Definition total (s : worker_stats) : Z := map_fold (λ _ n acc, (n + acc)%Z) 0%Z s.

(** [_in_flight] is a set of asyncio tasks: each is listed with the page task it
    handles and whether it is done. *)
Record worker_state := {
  wk_in_flight : list (PageTask * bool);
  wk_lead : Z;                                (* [_lead_in_flight] *)
  wk_held : gmap (string * eid) PageTask;     (* [_held] *)
  wk_stats : worker_stats;                    (* [_stats.outcomes] *)
  wk_last_sweep_ms : Z;
  wk_stopping : bool }.

Definition task_key (t : PageTask) : string * eid := (task_stream t, entry_id t).

Definition is_lead (t : PageTask) : bool := (task_stream t =? LEAD_STREAM)%string.

(** [_spawn] *)
Definition spawned (t : PageTask) (s : worker_state) : worker_state :=
  {| wk_in_flight := wk_in_flight s ++ [(t, false)];
     wk_lead := if is_lead t then (wk_lead s + 1)%Z else wk_lead s;
     wk_held := <[task_key t := t]> (wk_held s);
     wk_stats := wk_stats s; wk_last_sweep_ms := wk_last_sweep_ms s; wk_stopping := wk_stopping s |}.

(** The [finally] of [_handle]. *)
Definition released (t : PageTask) (s : worker_state) : worker_state :=
  {| wk_in_flight := wk_in_flight s;
     wk_lead := if is_lead t then Z.max 0 (wk_lead s - 1) else wk_lead s;
     wk_held := delete (task_key t) (wk_held s);
     wk_stats := wk_stats s; wk_last_sweep_ms := wk_last_sweep_ms s; wk_stopping := wk_stopping s |}.

Definition recorded (o : Outcome.t) (s : worker_state) : worker_state :=
  {| wk_in_flight := wk_in_flight s; wk_lead := wk_lead s; wk_held := wk_held s;
     wk_stats := record o (wk_stats s); wk_last_sweep_ms := wk_last_sweep_ms s;
     wk_stopping := wk_stopping s |}.

Definition swept (now : Z) (s : worker_state) : worker_state :=
  {| wk_in_flight := wk_in_flight s; wk_lead := wk_lead s; wk_held := wk_held s;
     wk_stats := wk_stats s; wk_last_sweep_ms := now; wk_stopping := wk_stopping s |}.

(** [done, self._in_flight = await asyncio.wait(...)] *)
Definition awaited (s : worker_state) : worker_state :=
  {| wk_in_flight := filter (λ x, x.2 = false) (wk_in_flight s);
     wk_lead := wk_lead s; wk_held := wk_held s;
     wk_stats := wk_stats s; wk_last_sweep_ms := wk_last_sweep_ms s; wk_stopping := wk_stopping s |}.

(** [request_stop] *)
Definition stopping (s : worker_state) : worker_state :=
  {| wk_in_flight := wk_in_flight s; wk_lead := wk_lead s; wk_held := wk_held s;
     wk_stats := wk_stats s; wk_last_sweep_ms := wk_last_sweep_ms s; wk_stopping := true |}.

(** ** One page *)

Section worker.
Context {W : Type} `{Redis W} `{Clock W} `{Memory disk W} `{Memory ReaperStats W}
  `{Memory worker_state W}.
Context (layout vlm : string -> Z -> option string -> option json -> prog W json).
Context (exn_str : exn -> string) (str_json : json -> string) (num : Q -> string).
Context (pdf_reader : string -> result pdf_document) (pdf_message : exn -> string).
(** [WorkerMetrics.record_page] and [WorkerMetrics.flush]. *)
Context (record_page : W -> W) (metrics_flush : prog W unit).
(** [asyncio.sleep] *)
Context (sleep : Q -> W -> W).
Context (cfg : pipeline_config) (settings : Settings) (consumer : string).

Definition update (f : worker_state -> worker_state) (w : W) : W := set_mem (f (mem w)) w.

Definition _resolve_page (t : PageTask) : prog W (option string * option PageContent) :=
  match pdf_path (data_dir settings) (job_id t) with
  | inl _ => Ret (None, None)
  | inr document =>
      let! exists_ := sample (λ w, bool_decide (is_Some ((mem w : disk) !! document))) in
      if negb exists_ then Ret (None, None)
      else
        let reference := page_ref (job_id t) (page_index t) in
        let! content :=
          catch (let! c := step (λ w, (extract_page pdf_reader pdf_message document (page_index t)
                                         (pdf_text_sample_chars settings) (mem w), w)) in
                 Ret (Some c))
            (λ e, match e with InvalidPdf _ => Ret None | _ => Raise e end) in
        Ret (Some reference, content)
  end.

Definition _maybe_delete_document (job : string) : prog W unit :=
  let! (done, total) := step (λ w, (progress job w, w)) in
  if negb (total =? 0)%Z && (total <=? done)%Z
  then do! own (delete_document (data_dir settings) job) in Ret tt
  else Ret tt.

Definition final_attempt (now : Z) (t : PageTask) : bool :=
  Qle_bool (degrade_after_s settings) (age_s now t)
  || Qle_bool (page_deadline_s settings) (age_s now t)
  || (effective_max_requeues settings <=? attempt t + 1)%Z.

(** [min(result.retry_after_s or pause, pause)] *)
Definition pause_s (r : PageResult) : Q :=
  let retry := if Qeq_bool (pr_retry_after_s r) 0 then saturation_pause_s settings
               else pr_retry_after_s r in
  Qmin_py retry (saturation_pause_s settings).

(** What ends a page's life in the queue. *)
Definition settle_task (t : PageTask) (o : Outcome.t) : prog W unit :=
  do! ack (entry_id t) (task_stream t) in
  do! note (update (recorded o)) in
  _maybe_delete_document (job_id t).

Definition crashed (t : PageTask) (final : bool) (e : exn) : prog W unit :=
  if final then
    do! force_terminal cfg (job_id t) (page_index t)
          (exn_name e +:+ ": " +:+ String.substring 0 120 (exn_str e)) in
    do! ack (entry_id t) (task_stream t) in
    _maybe_delete_document (job_id t)
  else
    do! release_claim cfg (job_id t) (page_index t) in
    do! requeue t true in
    Ret tt.

Definition dispose (t : PageTask) (final : bool) (r : PageResult) : prog W unit :=
  match pr_outcome r with
  | Outcome.HANDOFF =>
      do! requeue t false in
      note (update (recorded (pr_outcome r)))
  | Outcome.SATURATED =>
      if negb final then
        do! requeue t true in
        do! note (update (recorded (pr_outcome r))) in
        if negb (Qle_bool (pause_s r) 0) then act (sleep (pause_s r)) else Ret tt
      else settle_task t (pr_outcome r)
  | o => settle_task t o
  end.

Definition _handle_page (t : PageTask) : prog W unit :=
  let! now := sample now_ms in
  let final := final_attempt now t in
  let! (reference, content) := _resolve_page t in
  let! result :=
    catch (let! r := process_page layout vlm exn_str str_json cfg (job_id t) (page_index t) reference
                       (as_payload num <$> content) final (stage_handoff settings)
                       (Streams.recovered t) in
           Ret (inr r))
      (λ e, if is_Exception e then Ret (inl e) else Raise e) in
  match result with
  | inl e => crashed t final e
  | inr r => dispose t final r
  end.

Definition _handle (t : PageTask) : prog W unit :=
  finally (_handle_page t) (λ w, record_page (update (released t) w)).

(** ** The loops *)

Definition _spawn (t : PageTask) : prog W unit := note (update (spawned t)).

Definition _sweep_orphan_documents : prog W Z :=
  let! candidates := sample (orphan_candidates (data_dir settings) (orphan_sweep_age_s settings)) in
  fold_prog candidates 0%Z (λ job removed,
    let! live := ask (get_job job) in
    if negb (bool_decide (live = ∅)) then Ret removed
    else
      let! deleted := own (delete_document (data_dir settings) job) in
      Ret (if deleted : bool then removed + 1 else removed)%Z).

Definition lead_reserve : Z :=
  Z.min (worker_lead_reserve settings) (Z.max 0 (worker_concurrency settings - 1)).

Definition capacity (s : worker_state) : Z :=
  worker_concurrency settings - Z.of_nat (length (wk_in_flight s)).

Definition lead_budget (s : worker_state) : Z := Z.max 0 (lead_reserve - wk_lead s).

Definition main_budget (s : worker_state) : Z :=
  Z.max 0 (Z.min (worker_prefetch settings) (capacity s - lead_budget s)).

Definition dispatch_read (s : worker_state) : prog W (list PageTask) :=
  if (lead_reserve =? 0)%Z
  then read consumer (worker_block_ms settings)
         (Some (Z.min (worker_prefetch settings) (capacity s))) 0 0 0
  else read consumer (worker_block_ms settings) None (Z.min (lead_budget s) (capacity s))
         (main_budget s) (worker_lead_poll_ms settings).

(** One turn of [run]'s loop: whether it goes on. *)
Definition dispatch_round (sweep_interval_ms : Z) : prog W bool :=
  let! s := sample mem in
  if wk_stopping s && bool_decide (wk_in_flight s = []) then Ret false
  else
    let! tasks := if (0 <? capacity s)%Z && negb (wk_stopping s) then dispatch_read s else Ret [] in
    do! for_each tasks _spawn in
    if negb (bool_decide (tasks = [])) then Ret true
    else
      let! now := sample now_ms in
      let! s := sample mem in
      do! (if (sweep_interval_ms <=? now - wk_last_sweep_ms s)%Z then
             do! note (update (swept now)) in
             catch (do! _sweep_orphan_documents in Ret tt)
               (λ e, if is_Exception e then Ret tt else Raise e)
           else Ret tt) in
      let! s := sample mem in
      if negb (bool_decide (wk_in_flight s = [])) then
        do! act (update awaited) in
        Ret true
      else Ret (negb (wk_stopping s)).

(** The start of [run]: its own interrupted work first. *)
Definition resume : prog W unit :=
  do! ensure_group in
  let! tasks := read_own_pending consumer (worker_concurrency settings) in
  for_each tasks _spawn.

(** [try: p  except Exception: log] *)
Definition shielded {A} (p : prog W A) : prog W unit :=
  catch (do! p in Ret tt) (λ e, if is_Exception e then Ret tt else Raise e).

(** One turn of [_maintenance]: the time of the last scan. *)
Definition maintenance_round (interval_s : Q) (reaper_enabled : bool)
  (reaper_interval_ms last_scan : Z) : prog W Z :=
  do! act (sleep interval_s) in
  let! s := sample mem in
  do! shielded (renew consumer (snd <$> map_to_list (wk_held s))) in
  do! shielded metrics_flush in
  let! now := sample now_ms in
  if negb reaper_enabled then Ret last_scan
  else if (now - last_scan <? reaper_interval_ms)%Z then Ret last_scan
  else
    do! shielded (scan cfg settings consumer) in
    Ret now.
End worker.

(** ** What becomes of a delivered task *)

Section handling.
Context {W : Type} `{RedisLaws W} `{Clock W} `{Memory disk W} `{Memory ReaperStats W}
  `{Memory worker_state W}.
Context (LD : MemoryLaws disk W) (LW : MemoryLaws worker_state W).
Context (exn_str : exn -> string) (str_json : json -> string) (num : Q -> string).
Context (pdf_reader : string -> result pdf_document) (pdf_message : exn -> string).
Context (sleep : Q -> W -> W) (Hsleep : forall q w, view (sleep q w) = view w).
Context (cfg : pipeline_config) (settings : Settings).
Context (t : PageTask) (n : nat) (Ht : task_stream t <> out_stream (job_id t)).
Let j := job_id t.
Let index := page_index t.
Context (rely : W -> W -> Prop) (fault : exn -> Prop).
Context (Hpage : forall w w', rely w w' -> leaves_page j n index w w').
Context (Htask : forall b w w', rely w w' -> leaves_task t b w w').
(** the page's state at delivery, and whether this was to be its last attempt *)
Context (start : PageState) (final : bool).
Implicit Types w : W.
#[local] Abbreviation page_at := (page_at j n index).
#[local] Abbreviation finished := (finished t n).

(** The page is terminal, or an entry for it is in the queue. *)
Definition safe (w : W) : Prop := finished w \/ queued t true w \/ queued t false w.

(** Handed back: at the cost of an attempt when there was one left, free of it
    only with the layout newly committed. *)
Definition handed_back (b : bool) (w : W) : Prop :=
  if b then final = false else before_layout start = true /\ page_at LAYOUT_DONE w.

(** A task that was dealt with: finished and settled, or handed back. *)
Definition dealt_with (w : W) : Prop :=
  (finished w /\ settled t w) \/ exists b, requeued_page t b n w /\ handed_back b w.

Definition handled (o : result unit) (w : W) : Prop := safe w /\ (o = inr tt -> dealt_with w).

Definition same_view (w w' : W) : Prop := view w' = view w.

Lemma covered_safe b w : covered t b n w -> safe w.
Proof using Type. intros [Hf|Hq]; [by left|right]. destruct b; [by left|by right]. Qed.

Lemma dealt_with_safe w : dealt_with w -> safe w.
Proof using Type.
  intros [[Hf _]|(b & Hr & _)]; [by left|]. by apply (covered_safe b), requeued_covered.
Qed.

Lemma finished_view w w' : same_view w w' -> finished w -> finished w'.
Proof using Type.
  intros Hv (s & Hs & Hw). exists s. split; [done|]. revert Hw. apply page_at_records.
  intros k _. by rewrite Hv.
Qed.

Lemma dealt_with_view w w' : same_view w w' -> dealt_with w -> dealt_with w'.
Proof using Type.
  intros Hv [[Hf Hs]|(b & Hr & Hb)].
  - left. split; [by apply (finished_view w)|]. unfold settled in *. by rewrite Hv.
  - right. exists b. split; [by apply (requeued_view t b n w)|].
    destruct b; [done|]. destruct Hb as [Hb Hw]. split; [done|]. revert Hw.
    apply page_at_records. intros k _. by rewrite Hv.
Qed.

Lemma finished_rely w w' : rely w w' -> finished w -> finished w'.
Proof using Hpage.
  intros Hr (s & Hs & Hw). exists s. split; [done|].
  by apply (leaves_page_at j n index _ _ _ (Hpage _ _ Hr)).
Qed.

Lemma dealt_with_rely w w' : rely w w' -> dealt_with w -> dealt_with w'.
Proof using Hpage Htask.
  intros Hr [[Hf Hs]|(b & (Hc & Hrep & Hack) & Hb)]; [left|right; exists b].
  - split; [by apply (finished_rely w)|by apply (lt_settled _ _ _ _ (Htask true _ _ Hr))].
  - split; [split_and!|].
    + by apply (unclaimed_rely t n rely Hpage w).
    + by apply (lt_replacement _ _ _ _ (Htask b _ _ Hr)).
    + by apply (lt_acked _ _ _ _ (Htask b _ _ Hr)).
    + destruct b; [done|]. destruct Hb as [Hb Hw]. split; [done|].
      by apply (leaves_page_at j n index _ _ _ (Hpage _ _ Hr)).
Qed.

(** The bookkeeping after a task was dealt with. *)
Lemma wp_bookkeeping (p : prog W unit) w :
  guar same_view p -> dealt_with w -> wp rely fault safe p handled w.
Proof using Hpage Htask.
  intros Hp Hw.
  pose proof (guar_keeps same_view rely fault dealt_with p dealt_with_view dealt_with_rely Hp w Hw) as Hk.
  eapply wp_mono; [|eapply wp_weaken; [|exact Hk]]; [|apply dealt_with_safe].
  intros o w' Hw'. split; [by apply dealt_with_safe|done].
Qed.

Lemma guar_note_update f : guar same_view (note (update (W := W) f)).
Proof using LW. split; [|done]. intros w. apply view_set_mem. Qed.

Lemma delete_document_view dir job w : view (delete_document dir job w).1 = view w.
Proof using LD.
  unfold delete_document. destruct (pdf_path dir job) as [e|path]; [done|].
  destruct (_ !! path); [|done]. apply view_set_mem.
Qed.

Lemma guar_maybe_delete job : guar same_view (_maybe_delete_document (W := W) settings job).
Proof using LD.
  apply guar_bind; [by apply guar_step|]. intros [done_ total_].
  destruct (_ && _); [|done]. apply guar_bind; [|done]. split; [|done].
  intros w. apply delete_document_view.
Qed.

Lemma wp_settle_task o s w : is_terminal s = true -> page_at s w ->
  wp rely fault safe (settle_task settings t o) handled w.
Proof using LD LW Hpage Htask.
  intros Hs Hw. apply wp_bind.
  eapply wp_mono; [|eapply wp_weaken; [apply (covered_safe true)|
    by apply (wp_ack_finished t true n rely fault Hpage (Htask true) s)]].
  intros [e|[]] w1 [Hf Hset]; [split; [by left|done]|].
  apply wp_bookkeeping; [|left; auto].
  apply guar_bind; [apply guar_note_update|intros _; apply guar_maybe_delete].
Qed.

Lemma wp_handed_back b w : handed_back b w ->
  wp rely fault (λ _, True) (requeue t b) (λ _ w', handed_back b w') w.
Proof using Hpage.
  destruct b; cbn [handed_back].
  - intros Hb. by apply wp_trivial.
  - intros [Hb Hw]. eapply wp_mono; [|by apply (wp_records j n index rely Hpage fault _ LAYOUT_DONE);
      [apply guar_requeue_records|]]. by intros.
Qed.

Lemma wp_requeue_then b (p : prog W unit) w :
  guar same_view p -> unclaimed t n w -> original_queued t w -> handed_back b w ->
  wp rely fault safe (do! requeue t b in p) handled w.
Proof using Hpage Htask.
  intros Hp Hc Ho Hb. apply wp_bind.
  eapply wp_mono; [|eapply wp_weaken; [|apply wp_and; [by apply (wp_requeue t b n rely fault Hpage (Htask b))|
    by apply wp_handed_back]]]; [|intros w' [Hw' _]; by apply (covered_safe b)].
  intros [e|i] w1 [[Hcov Hreq] Hb1]; [split; [by apply (covered_safe b)|done]|].
  apply wp_bookkeeping; [done|]. right. exists b. by split; [apply (Hreq i)|].
Qed.

(** A result of the pipeline. *)
Lemma wp_dispose r w :
  (is_running start = true -> Streams.recovered t = true) -> original_queued t w ->
  outcome_post j n index final (stage_handoff settings) (Streams.recovered t) start (inr r) w ->
  wp rely fault safe (dispose sleep settings t final r) handled w.
Proof using LD LW Hsleep Hpage Htask.
  intros Hrun Ho. unfold outcome_post, dispose. destruct (pr_outcome r) eqn:Er.
  - by apply wp_settle_task.
  - by apply wp_settle_task.
  - intros [Hs Hw]. by apply (wp_settle_task _ start).
  - intros (Hrec & Hs & _). rewrite Hrun in Hrec by done. done.
  - by apply wp_settle_task.
  - intros (_ & Hb & Hw). by apply wp_requeue_then; [apply guar_note_update|exists LAYOUT_DONE|done|].
  - intros [Hfin Hw]. rewrite Hfin. cbn [negb].
    apply (wp_requeue_then true); [|destruct Hw; eexists; (split; [|eassumption]); done|done|done].
    apply guar_bind; [apply guar_note_update|]. intros _.
    destruct (negb _); [|done]. apply guar_act. intros w'. apply Hsleep.
  - by apply wp_settle_task.
Qed.

(** The crash handler. *)
Lemma wp_crashed e s w : page_at s w -> original_queued t w ->
  wp rely fault safe (crashed exn_str cfg settings t final e) handled w.
Proof using LD Ht Hpage Htask.
  intros Hw Ho. unfold crashed.
  assert (forall x w', pending t n w' -> handled (inl x) w') as Hpend.
  { intros x w' Hp. split; [|done]. by apply (covered_safe true), pending_covered. }
  destruct final eqn:Efin.
  - apply wp_bind. eapply wp_mono; [|eapply wp_weaken; [apply (covered_safe true)|
      by apply (wp_force_pending cfg t true n Ht rely fault Hpage (Htask true) _ s)]].
    intros [x|v] w1 [Hp Hf]; [by apply Hpend|]. destruct (Hf v eq_refl) as (s' & Hs' & Hw').
    apply wp_bind. eapply wp_mono; [|eapply wp_weaken; [apply (covered_safe true)|
      by apply (wp_ack_finished t true n rely fault Hpage (Htask true) s')]].
    intros [x|[]] w2 [Hfin Hset]; [split; [by left|done]|].
    apply wp_bookkeeping; [apply guar_maybe_delete|left; auto].
  - apply wp_bind. eapply wp_mono; [|eapply wp_weaken; [apply (covered_safe true)|
      by apply (wp_release_unclaimed cfg t true n Ht rely fault Hpage (Htask true) s)]].
    intros [x|[]] w1 [Hp Hc]; [by apply Hpend|].
    by apply wp_requeue_then; [|apply Hc|apply Hp|].
Qed.

(** The page and its entry, while the document is read. *)
Definition delivered (s : PageState) (w : W) : Prop := page_at s w /\ original_queued t w.

Lemma delivered_rely s w w' : rely w w' -> delivered s w -> delivered s w'.
Proof using Hpage Htask.
  intros Hr [Hw Ho]. split; [by apply (leaves_page_at j n index _ _ _ (Hpage _ _ Hr))|].
  by apply (lt_original _ _ _ _ (Htask true _ _ Hr)).
Qed.

Lemma delivered_view s w w' : same_view w w' -> delivered s w -> delivered s w'.
Proof using Type.
  intros Hv [Hw Ho]. split; [|unfold original_queued in *; by rewrite Hv].
  revert Hw. apply page_at_records. intros k _. by rewrite Hv.
Qed.

Lemma delivered_safe s w : delivered s w -> safe w.
Proof using Type. intros [_ Ho]. right. left. by left. Qed.

Lemma guar_resolve : guar same_view (_resolve_page (W := W) pdf_reader pdf_message settings t).
Proof using Type.
  unfold _resolve_page. destruct (pdf_path _ _) as [e|document]; [done|].
  apply guar_bind; [by apply guar_sample|]. intros ex. destruct (negb ex); [done|].
  apply guar_bind; [|done]. apply guar_catch; [|intros []; done].
  by apply guar_bind; [apply guar_step|].
Qed.

Lemma wp_resolve s w : delivered s w ->
  wp rely fault safe (_resolve_page pdf_reader pdf_message settings t) (λ _ w', delivered s w') w.
Proof using Hpage Htask.
  intros Hw.
  pose proof (guar_keeps same_view rely fault (delivered s) _ (delivered_view s) (delivered_rely s)
    guar_resolve w Hw) as Hk.
  eapply wp_weaken; [|exact Hk]. apply delivered_safe.
Qed.
End handling.

Section handle_page.
Context {W : Type} `{RedisLaws W} `{Clock W} `{Memory disk W} `{Memory ReaperStats W}
  `{Memory worker_state W}.
Context (LD : MemoryLaws disk W) (LW : MemoryLaws worker_state W).
Context (layout vlm : string -> Z -> option string -> option json -> prog W json).
Context (exn_str : exn -> string) (str_json : json -> string) (num : Q -> string).
Context (pdf_reader : string -> result pdf_document) (pdf_message : exn -> string).
Context (sleep : Q -> W -> W) (Hsleep : forall q w, view (sleep q w) = view w).
Context (cfg : pipeline_config) (settings : Settings).
Context (t : PageTask) (n : nat) (Ht : task_stream t <> out_stream (job_id t)).
Let j := job_id t.
Let index := page_index t.
Context (Hlayout : forall i r c, guar (quiet j) (layout j i r c)).
Context (Hvlm : forall i r c, guar (quiet j) (vlm j i r c)).
Context (rely : W -> W -> Prop).
Context (Hpage : forall w w', rely w w' -> leaves_page j n index w w').
Context (Htask : forall b w w', rely w w' -> leaves_task t b w w').
Let no_fault (_ : exn) : Prop := False.
(** what the layout call may raise *)
Context (escape : exn -> Prop).
Context (Hescape : forall i r c w,
  wp rely no_fault (λ _, True) (layout j i r c) (λ o _, forall e, o = inl e -> escape e) w).
Implicit Types w : W.

(** The pipeline, with the entry still queued. *)
Lemma wp_process_pending r c final handoff reclaim s w : delivered t n s w ->
  wp rely no_fault (safe t n)
    (process_page layout vlm exn_str str_json cfg j index r c final handoff reclaim)
    (λ x w', (outcome_post j n index final handoff reclaim s x w' /\ forall e, x = inl e -> escape e) /\
       pending t n w') w.
Proof using Ht Hlayout Hvlm Hpage Htask Hescape.
  intros [Hw Ho].
  assert (forall i r c, guar (records_kept j) (layout j i r c)) as Hl
    by (intros; eapply guar_mono; [|apply Hlayout]; by intros a b []).
  assert (forall i r c, guar (records_kept j) (vlm j i r c)) as Hv
    by (intros; eapply guar_mono; [|apply Hvlm]; by intros a b []).
  pose proof (wp_process_page j n layout vlm exn_str str_json cfg rely escape index r c final handoff
    reclaim s w Hl Hv Hpage Hescape Hw) as Hp.
  eapply wp_weaken; [|apply (wp_pending t true n Ht rely no_fault Hpage (Htask true));
    [by apply effect_process|by apply (page_at_pending t n s)|exact Hp]].
  intros w'. apply covered_safe.
Qed.

Lemma wp_handle_page s w :
  (is_running s = true -> Streams.recovered t = true) -> delivered t n s w ->
  wp rely no_fault (safe t n)
    (_handle_page layout vlm exn_str str_json num pdf_reader pdf_message sleep cfg settings t)
    (handled t n s (final_attempt settings (now_ms w) t)) w.
Proof using LD LW Hsleep Ht Hlayout Hvlm Hpage Htask Hescape.
  intros Hrun Hw. unfold _handle_page. cbn [pbind sample own wp fst snd].
  set (final := final_attempt settings (now_ms w) t).
  assert (forall e w', delivered t n s w' \/ pending t n w' -> handled t n s final (inl e) w') as Herr.
  { intros e w' Hd. split; [|done]. destruct Hd as [Hd|Hd];
      [by eapply delivered_safe|by apply (covered_safe t n true), pending_covered]. }
  apply wp_bind. eapply wp_mono; [|by apply (wp_resolve pdf_reader pdf_message settings t n
    rely no_fault Hpage Htask s)].
  intros [e|[reference content]] w1 Hw1; [by apply Herr; left|].
  apply wp_bind, wp_catch, wp_bind. eapply wp_mono; [|by apply (wp_process_pending _ _ _ _ _ s)].
  intros [e|r] w2 [[Hr _] Hp].
  - destruct Hr as [He _]. rewrite He. cbn [wp]. apply Herr. by right.
  - cbn [wp]. apply (wp_dispose LD LW sleep Hsleep settings t n rely no_fault Hpage Htask s final);
      [done|apply Hp|done].
Qed.
End handle_page.

(** ** The document outlives the job's work *)

Section documents.
Context {W : Type} `{RedisLaws W} `{Clock W} `{Memory disk W}.
Context (LD : MemoryLaws disk W).
Context (settings : Settings) (j : string) (n : nat) (Hn : (0 < n)%nat).
Implicit Types w : W.

Definition all_terminal (w : W) : Prop :=
  job_ok j n (view w) /\ forall i, (i < n)%nat -> page_terminal (view w) j i = true.

Lemma progress_done w done_ total_ :
  job_ok j n (view w) -> progress j w = inr (done_, total_) -> (total_ <= done_)%Z -> all_terminal w.
Proof using Hn.
  intros Hok Hp Hle. split; [done|]. unfold progress in Hp. rewrite !hget_view in Hp.
  rewrite (jo_done _ _ _ Hok), (jo_total _ _ _ Hok) in Hp. rewrite !int_or_zero_str in Hp.
  simpl in Hp. injection Hp as <- <-. apply done_pages_full.
  pose proof (done_pages_le (view w) j n). lia.
Qed.

Lemma all_terminal_moves w w' : moves j n w w' -> all_terminal w -> all_terminal w'.
Proof using Type.
  intros Hm [Hok Ht]. destruct (Hm Hok) as [Hok' Hp]. split; [done|]. intros i Hi.
  specialize (Ht i Hi). unfold page_terminal in *.
  destruct (Hp (Z.of_nat i)) as [->|(a & b & Ha & Hb & Hab)]; [done|].
  rewrite Ha in Ht. apply is_terminal_spec in Ht. rewrite Ht in Hab. by apply elem_of_nil in Hab.
Qed.

Let path := doc_path (data_dir settings) j.
Context (rely : W -> W -> Prop) (fault : exn -> Prop) (d : doc).
Context (Hmoves : forall w w', rely w w' -> moves j n w w').
Context (Hdisk : forall w w', rely w w' -> (mem w' : disk) !! path = mem w !! path).

Definition doc_kept (w : W) : Prop :=
  job_ok j n (view w) /\ ((mem w : disk) !! path = Some d \/ all_terminal w).

Lemma doc_kept_rely w w' : rely w w' -> doc_kept w -> doc_kept w'.
Proof using Hmoves Hdisk.
  intros Hr [Hok Hw]. destruct (Hmoves _ _ Hr Hok) as [Hok' _]. split; [done|].
  destruct Hw as [Hw|Hw]; [left; by rewrite (Hdisk _ _ Hr)|right].
  by apply (all_terminal_moves w), Hw; apply Hmoves.
Qed.

Lemma wp_maybe_delete w : doc_kept w ->
  wp rely fault doc_kept (_maybe_delete_document settings j) (λ _ w', doc_kept w') w.
Proof using LD Hn Hmoves Hdisk.
  intros Hw. apply wp_bind. intros w1 Hr. apply (doc_kept_rely _ _ Hr) in Hw. cbn [fst snd].
  split_and!; [done| |by intros e He; split_and!].
  destruct (progress j w1) as [e|[done_ total_]] eqn:Ep; cbn [of_result wp]; [done|].
  destruct (_ && _) eqn:Ec; [|done]. bool_prop. cbn [pbind own wp]. destruct Hw as [Hok _].
  pose proof (progress_done w1 done_ total_ Hok Ep ltac:(assumption)) as Ht.
  pose proof (delete_document_view LD (data_dir settings) j w1) as Hv.
  split; [by rewrite Hv|]. right. destruct Ht as [_ Ht]. split; [by rewrite Hv|]. by rewrite Hv.
Qed.
End documents.

(** ** The worker's accounts *)

(** [_handle] of one of the tasks in flight comes to its end. *)
Definition finished_task (l1 l2 : list (PageTask * bool)) (t : PageTask) (s : worker_state)
  : worker_state :=
  let s' := released t s in
  {| wk_in_flight := l1 ++ (t, true) :: l2; wk_lead := wk_lead s'; wk_held := wk_held s';
     wk_stats := wk_stats s'; wk_last_sweep_ms := wk_last_sweep_ms s'; wk_stopping := wk_stopping s' |}.

Definition running (s : worker_state) : list PageTask :=
  fst <$> filter (λ x, x.2 = false) (wk_in_flight s).

Inductive worker_step : worker_state -> worker_state -> Prop :=
| step_spawn t s : task_key t ∉ task_key <$> running s -> worker_step s (spawned t s)
| step_finish t l1 l2 s :
    wk_in_flight s = l1 ++ (t, false) :: l2 -> worker_step s (finished_task l1 l2 t s)
| step_await s : worker_step s (awaited s)
| step_record o s : worker_step s (recorded o s)
| step_sweep now s : worker_step s (swept now s)
| step_stop s : worker_step s (stopping s).

Definition idle_worker : worker_state :=
  {| wk_in_flight := []; wk_lead := 0; wk_held := ∅; wk_stats := ∅; wk_last_sweep_ms := 0;
     wk_stopping := false |}.

(** The lead counter is the number of lead tasks running, and the held entries
    are those of the running tasks. *)
Record accounts_ok (s : worker_state) : Prop := {
  ao_keys : NoDup (task_key <$> running s);
  ao_lead : wk_lead s = Z.of_nat (countb is_lead (running s));
  ao_held : wk_held s = list_to_map ((λ t, (task_key t, t)) <$> running s) }.

Lemma fst_keys (l : list PageTask) : ((λ t, (task_key t, t)) <$> l).*1 = task_key <$> l.
Proof. by rewrite <- list_fmap_compose. Qed.

Lemma running_app (l1 l2 : list (PageTask * bool)) (P : PageTask * bool -> Prop)
  `{!∀ x, Decision (P x)} : fst <$> filter P (l1 ++ l2) = (fst <$> filter P l1) ++ (fst <$> filter P l2).
Proof. by rewrite filter_app, fmap_app. Qed.

Lemma running_awaited s : running (awaited s) = running s.
Proof.
  unfold running, awaited. simpl. f_equal. rewrite list_filter_filter. apply list_filter_iff. tauto.
Qed.

Lemma accounts_spawn t s : task_key t ∉ task_key <$> running s -> accounts_ok s -> accounts_ok (spawned t s).
Proof.
  intros Ht [Hk Hl Hh].
  assert (running (spawned t s) = running s ++ [t]) as E.
  { unfold running, spawned. simpl. by rewrite running_app. }
  split; rewrite E.
  - rewrite fmap_app. apply NoDup_app. split_and!; [done| |apply NoDup_singleton].
    intros x Hx ->%list_elem_of_singleton. done.
  - rewrite countb_app. simpl. rewrite Hl. destruct (is_lead t); lia.
  - rewrite fmap_app. simpl. rewrite list_to_map_app, Hh. simpl.
    rewrite insert_empty. rewrite <- insert_union_singleton_r; [done|].
    apply not_elem_of_list_to_map_1. by rewrite fst_keys.
Qed.

Lemma accounts_finish t l1 l2 s :
  wk_in_flight s = l1 ++ (t, false) :: l2 -> accounts_ok s -> accounts_ok (finished_task l1 l2 t s).
Proof.
  intros Ef [Hk Hl Hh].
  set (r1 := fst <$> filter (λ x, x.2 = false) l1). set (r2 := fst <$> filter (λ x, x.2 = false) l2).
  assert (running s = r1 ++ t :: r2) as E by (unfold running; rewrite Ef, running_app; done).
  assert (running (finished_task l1 l2 t s) = r1 ++ r2) as E'.
  { unfold running, finished_task. simpl. rewrite running_app. done. }
  rewrite E in *. rewrite fmap_app in Hk. apply NoDup_app in Hk as (H1 & Hd & H2).
  apply NoDup_cons in H2 as [Ht H2].
  split; rewrite E'.
  - rewrite fmap_app. apply NoDup_app. split_and!; [done| |done].
    intros x Hx Hx'. apply (Hd x Hx). by apply list_elem_of_further.
  - rewrite countb_app in *. simpl in Hl |- *. rewrite Hl. destruct (is_lead t); lia.
  - simpl. rewrite Hh, !fmap_app, !list_to_map_app. simpl. rewrite delete_union, delete_insert_id.
    + f_equal. rewrite delete_id; [done|]. apply not_elem_of_list_to_map_1. rewrite fst_keys.
      intros Hx. apply (Hd _ Hx). apply list_elem_of_here.
    + apply not_elem_of_list_to_map_1. by rewrite fst_keys.
Qed.

Lemma accounts_step s s' : worker_step s s' -> accounts_ok s -> accounts_ok s'.
Proof.
  intros [t s0 Ht|t l1 l2 s0 E|s0|o s0|now s0|s0] Ha;
    [by apply accounts_spawn|by apply accounts_finish| |..];
    destruct Ha as [Hk Hl Hh]; split; rewrite ?running_awaited; done.
Qed.

(** ** Properties *)


(** the isolation boundary.  When the pipeline raised, whatever command of the
    handler fails or loses its reply and wherever the process dies, the page is
    terminal or in the queue; when the handler completes, the page was forced
    terminal and its entry settled (no budget left), or it was handed back. *)
Theorem crash_handler_never_loses {W} `{RedisLaws W} `{Clock W} `{Memory disk W}
  `{Memory ReaperStats W} `{Memory worker_state W} `{!MemoryLaws disk W}
  exn_str cfg settings t n (rely : W -> W -> Prop) fault final e s w :
  task_stream t <> out_stream (job_id t) ->
  (forall w w', rely w w' ->
     leaves_page (job_id t) n (page_index t) w w' /\ forall b, leaves_task t b w w') ->
  page_at (job_id t) n (page_index t) s w -> original_queued t w ->
  wp rely fault (safe t n) (crashed exn_str cfg settings t final e) (handled t n s final) w.
Proof.
  intros Ht Hr Hw Ho.
  by apply (wp_crashed _ exn_str cfg settings t n Ht rely fault (λ a b Hab, proj1 (Hr a b Hab))
    (λ c a b Hab, proj2 (Hr a b Hab) c) s final e s).
Qed.


(** the worker's accounts are exact, over any history of spawning, finishing,
    waiting, recording and stopping: the lead lane's counter is the number of
    lead tasks still running - a reservation never leaks - and the entries held,
    whose leases are renewed, are those of the running tasks. *)
Theorem accounts_exact s :
  rtc worker_step idle_worker s -> accounts_ok s.
Proof.
  apply (rtc_ind_r (λ s, accounts_ok s)); [split; [constructor|done|done]|].
  intros s1 s2 _ Hs. by apply accounts_step.
Qed.

(** C27: bounded dispatch.  A worker with a free slot that reads and spawns what it
    was given runs at most [worker_concurrency] tasks, or one more, whatever
    happens between the commands of the read: no depth of queue makes it hold
    more. *)
Theorem dispatch_bounded {W} `{RedisLaws W} `{Clock W} settings consumer (s : worker_state)
  (rely : W -> W -> Prop) fault (w : W) :
  (0 < capacity settings s)%Z ->
  wp rely fault (λ _, True) (dispatch_read settings consumer s)
    (λ o _, forall ts, o = inr ts ->
       (Z.of_nat (length (wk_in_flight (fold_left (λ s t, spawned t s) ts s)))
        <= worker_concurrency settings + 1)%Z) w.
Proof.
  intros Hc.
  assert (forall ts (s : worker_state), length (wk_in_flight (fold_left (λ s t, spawned t s) ts s)) =
    (length (wk_in_flight s) + length ts)%nat) as Hlen.
  { induction ts as [|t ts IH]; intros s'; simpl; [lia|]. rewrite IH. simpl. rewrite length_app. simpl. lia. }
  assert (forall b c l m k, (read_budget (default l c) m c <= Z.max 2 (capacity settings s))%Z ->
    wp rely fault (λ _, True) (read consumer b c l m k)
      (λ o _, forall ts, o = inr ts ->
         (Z.of_nat (length (wk_in_flight (fold_left (λ s t, spawned t s) ts s)))
          <= worker_concurrency settings + 1)%Z) w) as Hread.
  { intros b c l m k Hb. eapply wp_mono; [|apply read_tasks_le]. intros o w' Ho ts ->.
    unfold tasks_le in Ho. rewrite Hlen. unfold capacity in *. lia. }
  unfold dispatch_read. destruct (_ =? 0)%Z; apply Hread; unfold read_budget, main_budget, lead_budget.
  - lia.
  - simpl. lia.
Qed.

(** C28: a document outlives the work it is needed for.  Whatever the other workers
    do to the job's pages and whatever command fails, the handler deletes a job's
    document only when every page of the job is terminal. *)
Theorem document_outlives_pages {W} `{RedisLaws W} `{Clock W} `{Memory disk W}
  `{!MemoryLaws disk W} settings j n (rely : W -> W -> Prop) fault d w :
  (0 < n)%nat ->
  (forall w w', rely w w' -> moves j n w w' /\
     (mem w' : disk) !! doc_path (data_dir settings) j = mem w !! doc_path (data_dir settings) j) ->
  job_ok j n (view w) -> (mem w : disk) !! doc_path (data_dir settings) j = Some d ->
  wp rely fault (doc_kept settings j n d) (_maybe_delete_document settings j)
    (λ _ w', doc_kept settings j n d w') w.
Proof.
  intros Hn Hr Hok Hd. apply (wp_maybe_delete _ settings j n Hn rely fault d
    (λ a b Hab, proj1 (Hr a b Hab)) (λ a b Hab, proj2 (Hr a b Hab))). split; [done|by left].
Qed.

(** *** One worker on a one-page job *)

Abbreviation demo_world := ((rview * disk) * ReaperStats * worker_state)%type.

Definition demo_world_at (v : rview) : demo_world := ((v, ∅ : disk), no_stats, idle_worker).

(** The job at its VLM checkpoint, its entry delivered to this worker. *)
Definition demo_delivered : demo_world :=
  demo_world_at (RV 1000 (rv_hash demo_layout_done) (rv_ttl demo_layout_done) (rv_ctr demo_layout_done)
    {[STREAM := SView true [SEntry (1, 0)%N (enqueue_fields "j" 0 0 "") false]
                  [PelRow (1, 0)%N "w1" 500 1]]}).

Definition demo_vlm (_ : string) (_ : Z) (_ : option string) (_ : option json) : prog demo_world json :=
  Ret (JObj []).

Definition demo_reader (_ : string) : result pdf_document := inl (OtherException "PdfReadError").

Definition demo_handle : prog demo_world unit :=
  _handle_page demo_vlm demo_vlm exn_name dumps (λ _, "") demo_reader exn_name (λ _ w, w) demo_cfg
    default_settings demo_task.

Lemma demo_delivered_page : page_at "j" 1 0 LAYOUT_DONE demo_delivered.
Proof.
  destruct demo_layout_done_ok as [Hok Hs]. split; [|exact Hs].
  by apply (job_ok_frame "j" 1 demo_layout_done _).
Qed.

Lemma demo_delivered_queued : original_queued demo_task demo_delivered.
Proof. vm_compute. by left. Qed.


Example crash_handler_never_loses_witness :
  wp (λ w w' : demo_world, w' = w) (λ _, True) (safe demo_task 1)
    (crashed exn_name demo_cfg default_settings demo_task true TransportError)
    (handled demo_task 1 LAYOUT_DONE true) demo_delivered.
Proof.
  refine (crash_handler_never_loses exn_name demo_cfg default_settings demo_task 1 (λ w w', w' = w)
    (λ _, True) true TransportError LAYOUT_DONE demo_delivered _ _ demo_delivered_page
    demo_delivered_queued); [done|].
  intros w w' ->. split; [by intros Hok|]. intros b. by split.
Defined.

Example accounts_exact_witness :
  accounts_ok (finished_task [] [] demo_task (spawned demo_task idle_worker)).
Proof.
  apply accounts_exact. eapply rtc_l; [apply (step_spawn demo_task); apply not_elem_of_nil|].
  apply rtc_once. by apply step_finish.
Defined.

Example dispatch_bounded_witness :
  wp eq (λ _, True) (λ _, True) (dispatch_read default_settings "w1" idle_worker)
    (λ o _, forall ts, o = inr ts ->
       (Z.of_nat (length (wk_in_flight (fold_left (λ s t, spawned t s) ts idle_worker))) <= 17)%Z)
    lanes_idle.
Proof. apply (dispatch_bounded default_settings "w1" idle_worker eq (λ _, True) lanes_idle). done. Defined.

Example document_outlives_pages_witness :
  let w : rview * disk := (demo_layout_done, {["/data/j.pdf" := {| d_bytes := "x"; d_mtime_ms := 0 |}]}) in
  wp eq (λ _, True) (doc_kept default_settings "j" 1 {| d_bytes := "x"; d_mtime_ms := 0 |})
    (_maybe_delete_document default_settings "j")
    (λ _ w', doc_kept default_settings "j" 1 {| d_bytes := "x"; d_mtime_ms := 0 |} w') w.
Proof.
  refine (document_outlives_pages default_settings "j" 1 eq (λ _, True) _
    (demo_layout_done, {["/data/j.pdf" := {| d_bytes := "x"; d_mtime_ms := 0 |}]}) _ _ _ _);
    [lia| |exact (proj1 demo_layout_done_ok)|reflexivity].
  intros w w' ->. split; [apply moves_refl|done].
Defined.

(** what a store error costs.  A handler whose claim of the VLM stage meets one
    transient store error acknowledges and deletes the queue entry, while the page
    stays at LAYOUT_DONE: not terminal, and in no queue. *)
Theorem store_error_drops_page :
  exists w', run_faults [None; Some (RedisError "Connection reset", false)] demo_handle demo_delivered
               = (inr tt, w') /\
    pstate (view w') "j" 0 = Some LAYOUT_DONE /\
    sv_entries (vstream STREAM (view w')) = [] /\ sv_entries (vstream LEAD_STREAM (view w')) = [].
Proof. eexists. split; [vm_compute; reflexivity|]. vm_compute. done. Qed.

(** an error of the PDF parser other than those it is expected to raise
    escapes the handler, before the isolation boundary: nothing is recorded and
    the entry stays pending on this worker. *)
Theorem parser_error_escapes {W} `{Redis W} `{Clock W} `{Memory disk W} `{Memory ReaperStats W}
  `{Memory worker_state W}
  layout vlm exn_str str_json num pdf_reader pdf_message sleep cfg settings t (w : W) d e :
  safe_job_id (job_id t) = true ->
  (mem w : disk) !! doc_path (data_dir settings) (job_id t) = Some d ->
  pdf_reader (d_bytes d) = inl e -> unreadable e = false -> (forall m, e <> InvalidPdf m) ->
  run (_handle_page layout vlm exn_str str_json num pdf_reader pdf_message sleep cfg settings t) w
  = (inl e, w).
Proof.
  intros Hid Hd Hr Hu Hne. unfold _handle_page. autorewrite with run.
  unfold _resolve_page, pdf_path. rewrite Hid. autorewrite with run. rewrite Hd.
  rewrite bool_decide_true by eauto. cbn [negb]. autorewrite with run.
  unfold extract_page, read_file. rewrite Hd. cbn [rbind]. rewrite Hr. cbn [rbind as_invalid].
  destruct e; try (by destruct (Hne msg)); cbn in Hu |- *; rewrite ?Hu; done.
Qed.

Example parser_error_escapes_witness :
  let w : demo_world := ((rview_init 0, {["/data/j.pdf" := {| d_bytes := "x"; d_mtime_ms := 0 |}]} : disk),
                         no_stats, idle_worker) in
  run (_handle_page demo_vlm demo_vlm exn_name dumps (λ _, "")
         (λ _, inl (OtherException "RecursionError")) exn_name (λ _ w, w) demo_cfg default_settings
         demo_task) w = (inl (OtherException "RecursionError"), w).
Proof.
  refine (parser_error_escapes demo_vlm demo_vlm exn_name dumps (λ _, "")
    (λ _, inl (OtherException "RecursionError")) exn_name (λ _ w, w) demo_cfg default_settings demo_task
    ((rview_init 0, {["/data/j.pdf" := {| d_bytes := "x"; d_mtime_ms := 0 |}]} : disk),
      no_stats, idle_worker) {| d_bytes := "x"; d_mtime_ms := 0 |} _ _ _ _ _ _); reflexivity || done.
Defined.
