(* ===== verification/Progress.v ===== *)
(** * Every page ends

    The worker ([app/worker/main.py]) and the reaper ([app/worker/reaper.py]) hand
    a page back to the queue when they cannot finish it.  This file composes the
    two with the queue and the page machine: each time a page is handed back
    either one of its attempts is spent or its layout has been committed, so a
    page whose entry keeps being delivered ends, after a number of deliveries
    that its entry and state fix in advance.  What is assumed: the store answers,
    no process dies while it holds the page, the model calls raise nothing
    outside [Exception] and the document reader fails as documented; what the
    calls answer, which worker or reaper gets each entry, and what the others do
    to other pages in the meantime is arbitrary. *)

From Stdlib Require Import QArith.
From S2P Require Import Prelude Py Json Config Prog Redis PageState Results Splitter Streams Pipeline Reaper Breaker Retry Client Worker.
#[local] Open Scope Z_scope.

(** ** Programs that return *)

Section returning.
Context {W : Type} `{RedisLaws W} `{Clock W} `{Memory disk W} `{Memory ReaperStats W}
  `{Memory worker_state W}.
Context (rely : W -> W -> Prop).
Let no_fault (_ : exn) : Prop := False.
Let any (_ : W) : Prop := True.
Implicit Types w : W.

(** Without faults [p] returns, whatever the others do. *)
Definition returns {A} (p : prog W A) (w : W) : Prop := wp rely no_fault any p (λ o _, exists a, o = inr a) w.

Lemma returns_bind {A B} (p : prog W A) (c : A -> prog W B) w :
  returns p w -> (forall a w', returns (c a) w') -> returns (pbind p c) w.
Proof using Type.
  intros Hp Hc. apply wp_bind. eapply wp_mono; [|exact Hp]. intros o w' [a ->]. apply Hc.
Qed.

Lemma returns_ret {A} (a : A) w : returns (Ret a) w.
Proof using Type. by exists a. Qed.

Lemma returns_call {X} (f : W -> W * X) w : returns (call f) w.
Proof using Type.
  intros w1 _. destruct (f w1) as [w2 x]. cbn. split_and!; [done|by exists x|]. by intros e [].
Qed.

Lemma returns_own {X} (f : W -> W * X) w : returns (own f) w.
Proof using Type. cbn. eauto. Qed.

Lemma returns_ack i k w : returns (ack i k) w.
Proof using Type. apply returns_bind; [apply returns_call|]. intros [] w'. apply returns_call. Qed.

Lemma returns_requeue t b w : returns (requeue t b) w.
Proof using Type.
  apply returns_bind; [apply returns_call|]. intros i w1.
  apply returns_bind; [apply returns_ack|]. intros [] w2. apply returns_ret.
Qed.
End returning.

(** ** The two handlers return *)

Section handlers.
Context {W : Type} `{RedisLaws W} `{Clock W} `{Memory disk W} `{Memory ReaperStats W}
  `{Memory worker_state W}.
Context (LD : MemoryLaws disk W) (LS : MemoryLaws ReaperStats W) (LW : MemoryLaws worker_state W).
Context (layout vlm : string -> Z -> option string -> option json -> prog W json).
Context (exn_str : exn -> string) (str_json : json -> string) (num : Q -> string).
Context (pdf_reader : string -> result pdf_document) (pdf_message : exn -> string).
Context (sleep : Q -> W -> W) (Hsleep : forall q w, view (sleep q w) = view w).
Context (cfg : pipeline_config) (settings : Settings).
Context (j : string) (n : nat) (index : Z).
Context (Hlayout : forall i r c, guar (quiet j) (layout j i r c)).
Context (Hvlm : forall i r c, guar (quiet j) (vlm j i r c)).
Context (rely : W -> W -> Prop).
Context (Hpage : forall w w', rely w w' -> leaves_page j n index w w').
Let no_fault (_ : exn) : Prop := False.
Let any (_ : W) : Prop := True.
(** The layout call raises only what [except Exception] catches, and a document is
    read or refused as invalid. *)
Context (Hexn : forall i r c w, wp rely no_fault any (layout j i r c)
  (λ o _, forall e, o = inl e -> is_Exception e = true) w).
Context (Hread : forall path i d e,
  extract_page pdf_reader pdf_message path i (pdf_text_sample_chars settings) d = inl e ->
  exists m, e = InvalidPdf m).
Implicit Types w : W.
Implicit Types t : PageTask.
#[local] Abbreviation page_at := (page_at j n index).
#[local] Abbreviation returns := (returns rely).
#[local] Abbreviation handle :=
  (_handle_page layout vlm exn_str str_json num pdf_reader pdf_message sleep cfg settings).

Lemma returns_maybe_delete s w : page_at s w -> returns (_maybe_delete_document settings j) w.
Proof using Hpage.
  intros Hw. apply wp_bind. intros w1 Hr.
  destruct (leaves_page_at j n index s w w1 (Hpage w w1 Hr) Hw) as [Hok _].
  assert (exists x, progress j w1 = inr x) as [[d m] ->].
  { unfold progress. rewrite !hget_view, (jo_done _ _ _ Hok), (jo_total _ _ _ Hok), !int_or_zero_str.
    by eexists. }
  cbn. split_and!; [done| |by intros e []]. destruct (_ && _); cbn; eauto.
Qed.

Lemma wp_page_kept {A} (p : prog W A) s w : guar (records_kept j) p -> page_at s w ->
  returns p w -> wp rely no_fault any p (λ o w', (exists a, o = inr a) /\ page_at s w') w.
Proof using Hpage.
  intros Hg Hw Hp. apply wp_also; [exact Hp|]. by apply (wp_records j n index rely Hpage no_fault).
Qed.

Lemma returns_settle_task t o s w : job_id t = j -> page_at s w -> returns (settle_task settings t o) w.
Proof using Hpage LW.
  intros Hj Hw. apply wp_bind. eapply wp_mono; [|apply wp_page_kept; [|exact Hw|apply returns_ack]].
  2:{ rewrite <- Hj. apply guar_ack_records. }
  intros x w1 [[a ->] Hw1]. apply wp_bind. cbn [note own wp]. rewrite Hj.
  apply (returns_maybe_delete s). revert Hw1. apply page_at_records. intros k _.
  unfold update. cbn [fst]. by rewrite view_set_mem.
Qed.

Lemma returns_dispose t final r s w : job_id t = j -> page_at s w ->
  returns (dispose sleep settings t final r) w.
Proof using Hpage LW.
  intros Hj Hw. unfold dispose.
  destruct (pr_outcome r); try by apply (returns_settle_task t _ s).
  - apply returns_bind; [apply returns_requeue|]. intros; apply returns_own.
  - destruct final; cbn [negb]; [by apply (returns_settle_task t _ s)|].
    apply returns_bind; [apply returns_requeue|]. intros _ w1.
    apply returns_bind; [apply returns_own|]. intros _ w2.
    destruct (negb _); [apply returns_call|apply returns_ret].
Qed.

Lemma returns_resolve t w : returns (_resolve_page pdf_reader pdf_message settings t) w.
Proof using Hread.
  unfold _resolve_page. destruct (pdf_path _ _) as [e|document]; [apply returns_ret|].
  apply returns_bind; [apply returns_own|]. intros ex w1. destruct (negb ex); [apply returns_ret|].
  apply returns_bind; [|intros; apply returns_ret].
  apply wp_catch, wp_bind. intros w2 _. cbn [fst snd].
  destruct (extract_page _ _ _ _ _ _) as [e|c] eqn:E; cbn.
  - apply Hread in E as [m ->]. cbn. split_and!; [done|eauto|]. by intros e [].
  - split_and!; [done|eauto|]. by intros e [].
Qed.

Lemma outcome_page final handoff reclaim s r w :
  outcome_post j n index final handoff reclaim s (inr r) w -> exists s', page_at s' w.
Proof using Type.
  unfold outcome_post. destruct (pr_outcome r); try by eauto.
  - intros []; eauto.
  - intros (_ & _ & Hw); eauto.
  - intros (_ & _ & Hw); eauto.
  - intros (_ & [Hw|Hw]); eauto.
Qed.

Lemma returns_handle t s w : job_id t = j -> page_index t = index -> page_at s w ->
  returns (handle t) w.
Proof using Hpage LW Hread Hexn Hlayout Hvlm.
  intros Hj Hi Hw. unfold _handle_page. cbn [pbind sample own wp fst snd].
  apply wp_bind. eapply wp_mono; [|apply (wp_page_kept _ s); [|exact Hw|apply returns_resolve]].
  2:{ eapply guar_mono; [|apply guar_resolve]. intros w1 w2 Hv k _. by rewrite Hv. }
  intros o w1 [[[reference content] ->] Hw1]. apply wp_bind, wp_catch, wp_bind. rewrite Hj, Hi.
  eapply wp_mono; [|apply (wp_process_page j n layout vlm exn_str str_json cfg rely
    (λ e, is_Exception e = true)); [..|exact Hw1]].
  2,3: intros; eapply guar_mono; [|by eauto]; by intros a b [].
  2,3: done.
  intros [e|r] w2 [Hr He].
  - destruct Hr as [Hx _]. by rewrite (He e eq_refl) in Hx.
  - cbn [wp]. apply outcome_page in Hr as [s' Hw2]. by apply (returns_dispose t _ r s').
Qed.

Lemma returns_recover t s w : job_id t = j -> page_index t = index -> page_at s w ->
  returns (_recover cfg settings t) w.
Proof using Hpage.
  intros Hj Hi Hw. unfold _recover. rewrite Hj, Hi. apply wp_bind.
  apply (wp_get_page j n index rely Hpage no_fault s); [by intros e w' []|done|].
  intros page w1 Hw1 Hne Hst. rewrite bool_decide_false by done. rewrite Hst. cbn [of_result pbind].
  destruct (is_terminal s).
  { apply returns_bind; [apply returns_own|]. intros _ w2. apply returns_ack. }
  cbn [pbind sample own wp fst snd]. destruct (exhausted _ _ _).
  - apply wp_bind. apply (wp_force j n index cfg rely Hpage no_fault _ _ s); [by intros e w' []|done|].
    intros x s' w2 _ _. apply returns_bind; [apply returns_own|]. intros _ w3. apply returns_ack.
  - apply wp_bind. apply (wp_release j n index cfg rely Hpage no_fault s); [by intros e w' s' []|done|].
    intros w2 _. apply returns_bind; [apply returns_requeue|]. intros _ w3. apply returns_own.
Qed.

(** ** The page ends *)

(** Nobody else touches the entries of the page. *)
Context (Htask : forall t b w w', rely w w' -> job_id t = j -> page_index t = index -> leaves_task t b w w').

(** [t'] is what an entry that took the place of [t]'s reads as. *)
Definition replaces t t' w : Prop :=
  exists e, e ∈ sv_entries (vstream STREAM (view w)) /\
    (task_stream t = STREAM -> se_id e <> entry_id t) /\
    _parse STREAM (se_id e) (se_fields e) = inr t' /\
    job_id t' = job_id t /\ page_index t' = page_index t /\
    first_enqueued_at_ms t' = origin_ms t.

(** As it is delivered: to a live worker or the reaper, or to the restarted worker
    that already had it. *)
Definition redelivery t' t'' : Prop := t'' = t' \/ t'' = mark_recovered t'.

(** Who may act on a delivered page: a worker, unless another is running the page;
    or the reaper. *)
Inductive turn w t : prog W unit -> Prop :=
| turn_worker : (forall s, page_at s w -> is_running s = true -> Streams.recovered t = true) ->
    turn w t (handle t)
| turn_reaper : turn w t (_recover cfg settings t).

(** After at most [k] deliveries the page is terminal and its entry settled: each of
    them returns, never losing the page on the way, and when it does not end the
    page there is an entry in its place whose delivery, whenever it comes, is one
    of the remaining [k - 1]. *)
Fixpoint ends_within (k : nat) (t : PageTask) (w : W) : Prop :=
  match k with
  | O => False
  | S k =>
      forall p, turn w t p ->
        wp rely no_fault (safe t n) p (λ o w1, o = inr tt /\
          ((finished t n w1 /\ settled t w1) \/
           exists t', replaces t t' w1 /\
             forall w2 t'', rtc rely w1 w2 -> redelivery t' t'' -> ends_within k t'' w2)) w
  end.

Definition attempts_left t : Z := Z.max 0 (effective_max_requeues settings - attempt t).

Definition retries_left t (s : PageState) : nat :=
  Z.to_nat (2 * attempts_left t + if before_layout s then 1 else 0).

(** What one turn leaves behind. *)
Definition turned t (s : PageState) (o : result unit) w : Prop :=
  o = inr tt /\
  ((finished t n w /\ settled t w) \/
   exists b, requeued_page t b n w /\
     if b then attempt t + 1 < effective_max_requeues settings
     else before_layout s = true /\ page_at LAYOUT_DONE w).

Lemma wp_turn t s w p : job_id t = j -> page_index t = index -> task_stream t <> out_stream j ->
  page_at s w -> original_queued t w -> turn w t p -> wp rely no_fault (safe t n) p (turned t s) w.
Proof using Hpage Htask LD LS LW Hsleep Hread Hexn Hlayout Hvlm.
  intros Hj Hi Ht Hw Ho Hp.
  assert (forall b w w', rely w w' -> leaves_task t b w w') as Hb by (intros; by apply Htask).
  destruct Hp as [Hrun|].
  - eapply wp_mono; [|apply wp_also; [|apply (returns_handle t s w Hj Hi Hw)]].
    2:{ subst j index. apply (wp_handle_page LD LW layout vlm exn_str str_json num pdf_reader
          pdf_message sleep Hsleep cfg settings t n Ht Hlayout Hvlm rely Hpage Hb (λ _, True) ltac:(intros; by apply wp_trivial) s);
          [by apply Hrun|by split]. }
    intros o w1 [[_ Hd] [[] ->]]. split; [done|]. specialize (Hd eq_refl).
    destruct Hd as [Hd|(b & Hr & Hh)]; [by left|right]. exists b. split; [done|].
    destruct b; cbn [handed_back] in Hh; [|by subst j index].
    unfold final_attempt in Hh. by apply orb_false_iff in Hh as [_ Hh%Z.leb_gt].
  - eapply wp_mono; [|apply wp_also; [|apply (returns_recover t s w Hj Hi Hw)]].
    2:{ subst j index. eapply wp_weaken; [|apply (wp_recover cfg settings t n Ht rely no_fault Hpage
          (Hb true) s w Hw Ho)]. intros w1. apply covered_safe. }
    intros o w1 [[_ Hd] [[] ->]]. split; [done|].
    destruct (Hd eq_refl) as [Hf|[Hr Hm]]; [by left|right]. by exists true.
Qed.

Lemma page_at_rtc s w w' : rtc rely w w' -> page_at s w -> page_at s w'.
Proof using Hpage.
  induction 1 as [|w w1 w' Hr _ IH]; [done|]. intros Hw. apply IH.
  by apply (leaves_page_at j n index _ _ _ (Hpage _ _ Hr)).
Qed.

Lemma queued_rtc t w w' : job_id t = j -> page_index t = index ->
  rtc rely w w' -> original_queued t w -> original_queued t w'.
Proof using Htask.
  intros Hj Hi. induction 1 as [|w w1 w' Hr _ IH]; [done|]. intros Hw. apply IH.
  by apply (lt_original t true _ _ (Htask t true _ _ Hr Hj Hi)).
Qed.

Lemma out_stream_ne : STREAM <> out_stream j.
Proof using Type. done. Qed.

(** The entry that replaces [t]'s, once it is delivered. *)
Lemma redelivered t b w1 : requeued_page t b n w1 -> job_id t = j -> page_index t = index ->
  exists t', replaces t t' w1 /\ attempt t' = (if b then attempt t + 1 else attempt t) /\
    forall w2 t'', rtc rely w1 w2 -> redelivery t' t'' ->
      job_id t'' = j /\ page_index t'' = index /\ task_stream t'' = STREAM /\
      attempt t'' = attempt t' /\ original_queued t'' w2.
Proof using Htask.
  intros (_ & (e & t' & He & Hne & Hp & Hj' & Hi' & Hf & Ha) & _) Hj Hi.
  pose proof (parse_task_id _ _ _ _ Hp) as [Hid Hst].
  exists t'. split; [exists e; by split_and!|]. split; [done|].
  intros w2 t'' Hr Hd.
  assert (original_queued t' w2) as Ho.
  { apply (queued_rtc t' w1 w2); [congruence..|done|]. unfold original_queued. rewrite Hst, Hid.
    by apply list_elem_of_fmap_2. }
  destruct Hd as [-> | ->]; [|unfold mark_recovered, original_queued in *; simpl];
    split_and!; congruence || done.
Qed.

Lemma retries_decrease t t' s s' (b : bool) :
  attempt t' = (if b then attempt t + 1 else attempt t) ->
  (if b then attempt t + 1 < effective_max_requeues settings
   else before_layout s = true /\ s' = LAYOUT_DONE) ->
  (retries_left t' s' < retries_left t s)%nat.
Proof using Type.
  intros Ha Hb. unfold retries_left, attempts_left. rewrite Ha.
  destruct b; [|destruct Hb as [-> ->]; change (before_layout LAYOUT_DONE) with false; lia].
  destruct (before_layout s), (before_layout s'); lia.
Qed.

Lemma ends_within_enough k : forall t s w,
  job_id t = j -> page_index t = index -> task_stream t <> out_stream j ->
  page_at s w -> original_queued t w -> (retries_left t s < k)%nat -> ends_within k t w.
Proof using Hpage Htask LD LS LW Hsleep Hread Hexn Hlayout Hvlm.
  induction k as [|k IH]; intros t s w Hj Hi Ht Hw Ho Hk; [lia|]. intros p Hp.
  eapply wp_mono; [|by apply (wp_turn t s w p)].
  intros o w1 [-> [Hf|(b & Hr & Hb)]]; (split; [done|]); [by left|right].
  assert (exists s', page_at s' w1 /\
    forall t', attempt t' = (if b then attempt t + 1 else attempt t) ->
      (retries_left t' s' < retries_left t s)%nat) as (s' & Hw1 & Hlt).
  { destruct b; [destruct (proj1 Hr) as (s' & _ & Hw1); rewrite Hj, Hi in Hw1|destruct Hb as [Hb Hw1]];
      eexists; (split; [exact Hw1|]); intros t' Ha; [by apply (retries_decrease t t' s _ true)|].
    by apply (retries_decrease t t' s _ false). }
  destruct (redelivered t b w1 Hr Hj Hi) as (t' & Hrep & Ha & Hd).
  exists t'. split; [done|]. intros w2 t'' Hr2 Hre.
  destruct (Hd w2 t'' Hr2 Hre) as (Hj' & Hi' & Hst & Ha' & Ho'). rewrite <- Ha' in Ha.
  apply (IH t'' s'); [done|done|rewrite Hst; apply out_stream_ne|by apply (page_at_rtc _ w1)|done|].
  specialize (Hlt t'' Ha). lia.
Qed.
End handlers.

(** ** The model client fits

    What the two handlers ask of the model calls, the client of
    [app/worker/client.py] provides, over services that leave the job's records
    and the queue alone and raise nothing outside [Exception]. *)

Section client.
Context {W response value : Type} `{Gates W response}.
Context (sha256_hex : string -> string) (decode : response -> result value) (c : client).
Context (path stage job : string) (i : Z) (page_ref page : option string).
Implicit Types w : W.
Implicit Types e : exn.

Section quiet.
Context (G : W -> W -> Prop) (Grefl : forall w, G w w).
Context (Gbreaker : forall s op w, G w (g_breaker s op w).1) (Grate : forall s w, G w (g_rate s w).1).
Context (Gsuccess : forall s x w, G w (g_success s x w)) (Gcongestion : forall s w, G w (g_congestion s w)).
Context (Gacquire : forall s m r w, G w (g_acquire s m r w).2) (Gpost : forall rq w, G w (g_post rq w).2).
Context (Gsleep : forall x w, G w (g_sleep x w)) (Gnote : forall x w, G w (g_note x w)).
Context (Gdraw : forall w, G w (g_draw w).1).

Lemma guar_when b p : guar G p -> guar G (when b p).
Proof using Type. by destruct b. Qed.

Lemma guar_note f : (forall w, G w (f w)) -> guar G (note f).
Proof using Type. by split. Qed.

Lemma guar_report s e : guar G (report_failure c s e).
Proof using Gnote Gcongestion Gbreaker.
  apply guar_bind; [by apply guar_note|]. intros _.
  apply guar_bind; [by apply guar_when, guar_act|]. intros _.
  apply guar_when, guar_bind; [by apply guar_call|done].
Qed.

Lemma guar_post : guar G (_post sha256_hex decode c path stage job i page_ref page).
Proof using Type*.
  apply guar_bind; [apply guar_when, guar_bind; [by apply guar_call|]|].
  { intros v. by destruct (v_allowed v). }
  intros _. apply guar_bind.
  { unfold setpoint. destruct (cl_has_controller c stage); [|done].
    apply guar_bind; [by apply guar_call|done]. }
  intros rate. apply guar_bind.
  { apply guar_when, guar_bind; [by apply guar_step|]. intros waited. apply guar_bind; [|done].
    apply guar_when, guar_bind; [by apply guar_act|]. intros _. by apply guar_note. }
  intros _. apply guar_bind; [by apply guar_sample|]. intros started. apply guar_bind.
  { apply guar_catch; [by apply guar_step|]. intros e. apply guar_bind; [apply guar_report|done]. }
  intros resp. apply guar_bind; [by apply guar_note|]. intros _.
  apply guar_bind; [by apply guar_when, guar_act|]. intros _.
  apply guar_bind; [|intros _; apply guar_of_result].
  apply guar_when, guar_bind; [by apply guar_call|done].
Qed.

Lemma guar_client : guar G (_post_with_retries sha256_hex decode c path stage job i page_ref page).
Proof using Type*.
  unfold _post_with_retries. generalize 0%nat. induction (cl_max_attempts c) as [|n IH] in |- *; [done|].
  intros attempt. cbn [retry_loop]. apply guar_bind; [|by intros [v|]].
  apply guar_catch.
  - apply guar_bind; [apply guar_post|]. intros v. apply guar_bind; [|done]. by apply guar_when, guar_note.
  - intros e. unfold retry_handler. destruct (classify e); try done.
    destruct (attempt =? _)%nat; [done|].
    apply guar_bind; [by split|]. intros u1. apply guar_bind; [by split|]. intros u2.
    apply guar_bind; [by apply guar_note|]. intros _. apply guar_bind; [by apply guar_act|done].
Qed.
End quiet.

Section raising.
Context (rely : W -> W -> Prop).
Context (Epost : forall rq w e, (g_post rq w).1 = inl e -> is_Exception e = true).
Context (Eacquire : forall s m r w e, (g_acquire s m r w).1 = inl e -> is_Exception e = true).
Context (Edecode : forall resp e, decode resp = inl e -> is_Exception e = true).

(** Without faults [p] raises nothing outside [Exception]. *)
Definition raises_Exception {A} (p : prog W A) : Prop :=
  forall w, wp rely (λ _, False) (λ _, True) p (λ o _, forall e, o = inl e -> is_Exception e = true) w.

Lemma raises_ret {A} (a : A) : raises_Exception (Ret a).
Proof using Type. by intros w e. Qed.

Lemma raises_raise {A} e : is_Exception e = true -> raises_Exception (@Raise W A e).
Proof using Type. by intros He w e' [= <-]. Qed.

Lemma raises_bind {A B} (p : prog W A) (k : A -> prog W B) :
  raises_Exception p -> (forall a, raises_Exception (k a)) -> raises_Exception (pbind p k).
Proof using Type.
  intros Hp Hk w. apply wp_bind. eapply wp_mono; [|apply Hp]. intros [e|a] w' He; [|apply Hk].
  intros e' [= <-]. by apply He.
Qed.

Lemma raises_catch {A} (p : prog W A) (h : exn -> prog W A) :
  raises_Exception p -> (forall e, is_Exception e = true -> raises_Exception (h e)) ->
  raises_Exception (catch p h).
Proof using Type.
  intros Hp Hh w. apply wp_catch. eapply wp_mono; [|apply Hp]. intros [e|a] w' He; [|done].
  apply Hh. by apply He.
Qed.

Lemma raises_step {X} (f : W -> result X * W) :
  (forall w e, (f w).1 = inl e -> is_Exception e = true) -> raises_Exception (step f).
Proof using Type.
  intros Hf w w1 _. split_and!; [done| |by intros e []]. specialize (Hf w1).
  destruct (f w1) as [[e|x] w2]; cbn in *; [|done]. intros e' [= <-]. by apply Hf.
Qed.

Lemma raises_call {X} (f : W -> W * X) : raises_Exception (call f).
Proof using Type. apply raises_step. intros w e. by destruct (f w). Qed.

Lemma raises_own {X} (f : W -> W * X) : raises_Exception (own f).
Proof using Type. by intros w e. Qed.

Lemma raises_when b p : raises_Exception p -> raises_Exception (when b p).
Proof using Type. destruct b; [done|]. intros _. apply raises_ret. Qed.

Ltac raising := intros;
  first [apply raises_ret | apply raises_own | apply raises_call | apply raises_when; raising].

Lemma raises_report s e : raises_Exception (report_failure c s e).
Proof using Type.
  apply raises_bind; [apply raises_own|]. intros _. apply raises_bind; [apply raises_when, raises_call|].
  intros _. apply raises_when, raises_bind; raising.
Qed.

Lemma raises_post : raises_Exception (_post sha256_hex decode c path stage job i page_ref page).
Proof using Epost Eacquire Edecode.
  apply raises_bind; [apply raises_when, raises_bind; [apply raises_call|]|].
  { intros v. destruct (v_allowed v); [apply raises_ret|by apply raises_raise]. }
  intros _. apply raises_bind.
  { unfold setpoint. destruct (cl_has_controller c stage); [|apply raises_ret].
    apply raises_bind; raising. }
  intros rate. apply raises_bind.
  { apply raises_when, raises_bind; [apply raises_step, Eacquire|]. intros waited.
    apply raises_bind; [|raising]. apply raises_when, raises_bind; [apply raises_call|].
    intros _. apply raises_own. }
  intros _. apply raises_bind; [apply raises_own|]. intros started. apply raises_bind.
  { apply raises_catch; [apply raises_step, Epost|]. intros e He.
    apply raises_bind; [apply raises_report|]. intros _. by apply raises_raise. }
  intros resp. apply raises_bind; [apply raises_own|]. intros _.
  apply raises_bind; [apply raises_when, raises_call|]. intros _.
  apply raises_bind; [apply raises_when, raises_bind; raising|]. intros _.
  intros w. destruct (decode resp) as [e|v] eqn:E; cbn; [|done]. intros e' [= <-]. by apply (Edecode resp).
Qed.

Lemma raises_client :
  raises_Exception (_post_with_retries sha256_hex decode c path stage job i page_ref page).
Proof using Epost Eacquire Edecode.
  unfold _post_with_retries. generalize 0%nat.
  induction (cl_max_attempts c) as [|n IH] in |- *; intros attempt; [by apply raises_raise|].
  cbn [retry_loop]. apply raises_bind; [|intros [v|]; [apply raises_ret|apply IH]].
  apply raises_catch.
  - apply raises_bind; [apply raises_post|]. intros v. apply raises_bind; raising.
  - intros e He. unfold retry_handler. destruct (classify e); try by apply raises_raise.
    destruct (attempt =? _)%nat; [by apply raises_raise|].
    apply raises_bind; [apply raises_own|]. intros u1. apply raises_bind; [apply raises_own|]. intros u2.
    apply raises_bind; [apply raises_own|]. intros _. apply raises_bind; raising.
Qed.
End raising.
End client.

(** A stage call of the worker: the page's extracted content goes out as JSON. *)
Definition model_call {W response} `{Gates W response} (sha256_hex : string -> string)
  (decode : response -> result json) (c : client) (path stage job : string) (i : Z)
  (page_ref : option string) (content : option json) : prog W json :=
  _post_with_retries sha256_hex decode c path stage job i page_ref (dumps <$> content).

(** ** Properties *)



Lemma quiet_refl {W} `{RedisLaws W} j (w : W) : quiet j w w.
Proof. by split. Qed.

(** The same, with the worker's own client for both stages. *)
Lemma page_ends_with_client {W response} `{RedisLaws W} `{Clock W} `{Memory disk W}
  `{Memory ReaperStats W} `{Memory worker_state W} `{Gates W response} `{!MemoryLaws disk W}
  `{!MemoryLaws ReaperStats W} `{!MemoryLaws worker_state W}
  sha256_hex (decode : response -> result json) c
  exn_str str_json num pdf_reader pdf_message sleep cfg settings t n (rely : W -> W -> Prop) s w :
  let G := quiet (job_id t) in
  (forall s op w, G w (g_breaker s op w).1) -> (forall s w, G w (g_rate s w).1) ->
  (forall s x w, G w (g_success s x w)) -> (forall s w, G w (g_congestion s w)) ->
  (forall s m r w, G w (g_acquire s m r w).2) -> (forall rq w, G w (g_post rq w).2) ->
  (forall x w, G w (g_sleep x w)) -> (forall x w, G w (g_note x w)) ->
  (forall w, G w (g_draw w).1) ->
  (forall rq w e, (g_post rq w).1 = inl e -> is_Exception e = true) ->
  (forall s m r w e, (g_acquire s m r w).1 = inl e -> is_Exception e = true) ->
  (forall resp e, decode resp = inl e -> is_Exception e = true) ->
  (forall q w, view (sleep q w) = view w) ->
  (forall path i d e,
     extract_page pdf_reader pdf_message path i (pdf_text_sample_chars settings) d = inl e ->
     exists m, e = InvalidPdf m) ->
  (forall w w', rely w w' -> leaves_page (job_id t) n (page_index t) w w' /\
     forall t' b, job_id t' = job_id t -> page_index t' = page_index t -> leaves_task t' b w w') ->
  task_stream t <> out_stream (job_id t) ->
  page_at (job_id t) n (page_index t) s w -> original_queued t w ->
  ends_within (model_call sha256_hex decode c LAYOUT_PATH LAYOUT) (model_call sha256_hex decode c VLM_PATH VLM)
    exn_str str_json num pdf_reader pdf_message sleep cfg settings
    (job_id t) n (page_index t) rely (S (retries_left settings t s)) t w.
Proof.
  intros G Gb Gr Gs Gc Ga Gp Gsl Gn Gd Ep Ea Ed Hsl Hd Hr Ht Hw Ho.
  apply (ends_within_enough _ _ _ _ _ exn_str str_json num pdf_reader pdf_message sleep Hsl cfg
    settings (job_id t) n (page_index t)
    (λ i r p, guar_client sha256_hex decode c LAYOUT_PATH LAYOUT _ i r _ G (quiet_refl _) Gb Gr Gs Gc Ga Gp Gsl Gn Gd)
    (λ i r p, guar_client sha256_hex decode c VLM_PATH VLM _ i r _ G (quiet_refl _) Gb Gr Gs Gc Ga Gp Gsl Gn Gd)
    rely (λ a b Hab, proj1 (Hr a b Hab))
    (λ i r p, raises_client sha256_hex decode c LAYOUT_PATH LAYOUT _ i r _ rely Ep Ea Ed) Hd
    (λ t' b a a' Hab, proj2 (Hr a a' Hab) t' b) _ _ s); done || lia.
Qed.
