(* ===== verification/Concurrent.v ===== *)
(** * Tokens in concurrent programs

    What one program owes, or may do, because of something it did itself - here, the
    step that finished a job - is a token it holds.  [pays L p b Q]: whatever the world
    at each of its steps, program [p], holding the token or not ([b]), moves the world
    and the token along the ledger [L], and ends as [Q] says.  Nothing is assumed of the
    others, so any number of programs together move along [L] too: the fleet refines the
    ledger ([fleet_ledger]). *)

From S2P Require Import Prelude Py Prog.

Section pays.
Context {W : Type}.
(** [L b w w' b']: a step from [w] to [w'] may turn the token [b] into [b']. *)
Context (L : bool -> W -> W -> bool -> Prop) (fault : exn -> Prop).

Fixpoint pays {A} (p : prog W A) (b : bool) (Q : result A -> bool -> Prop) : Prop :=
  match p with
  | Ret a => Q (inr a) b
  | Raise e => Q (inl e) b
  | Step f k => forall w,
      (exists b', L b w (f w).2 b' /\ pays (k (f w).1) b' Q) /\
      forall e, fault e ->
        (exists b', L b w w b' /\ pays (k (inl e)) b' Q) /\
        (exists b', L b w (f w).2 b' /\ pays (k (inl e)) b' Q)
  | Local f k => forall w, exists b', L b w (f w).1 b' /\ pays (k (f w).2) b' Q
  end.

Lemma pays_mono {A} (p : prog W A) (Q Q' : result A -> bool -> Prop) : forall b,
  (forall x b, Q x b -> Q' x b) -> pays p b Q -> pays p b Q'.
Proof.
  induction p as [a|e|X f k IH|X f k IH]; intros b HQ; simpl; [auto..| |].
  - intros Hw w. destruct (Hw w) as [(b' & HL & Hk) Hf]. split; [exists b'; auto|].
    intros e He. destruct (Hf e He) as [(b1 & H1 & H2) (b2 & H3 & H4)].
    split; [exists b1|exists b2]; auto.
  - intros Hw w. destruct (Hw w) as (b' & HL & Hk). exists b'; auto.
Qed.

Lemma pays_bind {A B} (p : prog W A) (c : A -> prog W B) (Q : result B -> bool -> Prop) : forall b,
  pays p b (λ x b', match x with inl e => Q (inl e) b' | inr a => pays (c a) b' Q end) ->
  pays (pbind p c) b Q.
Proof.
  induction p as [a|e|X f k IH|X f k IH]; intros b; simpl; [auto..| |].
  - intros Hw w. destruct (Hw w) as [(b' & HL & Hk) Hf]. split; [exists b'; auto|].
    intros e He. destruct (Hf e He) as [(b1 & H1 & H2) (b2 & H3 & H4)].
    split; [exists b1|exists b2]; auto.
  - intros Hw w. destruct (Hw w) as (b' & HL & Hk). exists b'; auto.
Qed.

Lemma pays_catch {A} (p : prog W A) (h : exn -> prog W A) (Q : result A -> bool -> Prop) : forall b,
  pays p b (λ x b', match x with inl e => pays (h e) b' Q | inr a => Q (inr a) b' end) ->
  pays (catch p h) b Q.
Proof.
  induction p as [a|e|X f k IH|X f k IH]; intros b; simpl; [auto..| |].
  - intros Hw w. destruct (Hw w) as [(b' & HL & Hk) Hf]. split; [exists b'; auto|].
    intros e He. destruct (Hf e He) as [(b1 & H1 & H2) (b2 & H3 & H4)].
    split; [exists b1|exists b2]; auto.
  - intros Hw w. destruct (Hw w) as (b' & HL & Hk). exists b'; auto.
Qed.

(** A program whose steps leave the ledger alone keeps its token. *)
Lemma pays_guar {A} (G : W -> W -> Prop) (p : prog W A) (Q : result A -> bool -> Prop) b :
  (forall w, G w w) -> (forall w w', G w w' -> L b w w' b) -> (forall x, Q x b) ->
  guar G p -> pays p b Q.
Proof.
  intros Hrefl HG HQ. induction p as [a|e|X f k IH|X f k IH]; simpl; [auto..| |].
  - intros [Hf Hk] w. split; [exists b; auto|]. intros e _. split; exists b; auto.
  - intros [Hf Hk] w. exists b; auto.
Qed.

(** A token that may be kept unused. *)
Lemma pays_holding {A} (p : prog W A) (Q : result A -> bool -> Prop) :
  (forall w w' b, L false w w' b -> L true w w' b) -> (forall x, Q x false -> Q x true) ->
  pays p false Q -> pays p true Q.
Proof.
  intros HL HQ. destruct p as [a|e|X f k|X f k]; simpl; [auto..| |].
  - intros Hw w. destruct (Hw w) as [(b' & H1 & Hk) Hf]. split; [exists b'; auto|].
    intros e He. destruct (Hf e He) as [(b1 & H2 & H3) (b2 & H4 & H5)].
    split; [exists b1|exists b2]; auto.
  - intros Hw w. destruct (Hw w) as (b' & H1 & Hk). exists b'; auto.
Qed.

(** ** Any number of programs *)

(** One step of a program among others; a program may die if [mortal]. *)
Inductive fleet_step {A} (mortal : Prop) (spawn : prog W A -> Prop)
  : list (prog W A) * W -> list (prog W A) * W -> Prop :=
| fleet_exec l1 X (f : W -> result X * W) k l2 w :
    fleet_step mortal spawn (l1 ++ Step f k :: l2, w) (l1 ++ k (f w).1 :: l2, (f w).2)
| fleet_lost_request l1 X (f : W -> result X * W) k l2 w e : fault e ->
    fleet_step mortal spawn (l1 ++ Step f k :: l2, w) (l1 ++ k (inl e) :: l2, w)
| fleet_lost_reply l1 X (f : W -> result X * W) k l2 w e : fault e ->
    fleet_step mortal spawn (l1 ++ Step f k :: l2, w) (l1 ++ k (inl e) :: l2, (f w).2)
| fleet_local l1 X (f : W -> W * X) k l2 w :
    fleet_step mortal spawn (l1 ++ Local f k :: l2, w) (l1 ++ k (f w).2 :: l2, (f w).1)
| fleet_death l1 p l2 w : mortal -> fleet_step mortal spawn (l1 ++ p :: l2, w) (l1 ++ l2, w)
| fleet_spawn l p w : spawn p -> fleet_step mortal spawn (l, w) (p :: l, w).

(** The tokens of a fleet. *)
Inductive ledger_step (mortal : Prop) : list bool * W -> list bool * W -> Prop :=
| ledger_move l1 b b' l2 w w' : L b w w' b' -> ledger_step mortal (l1 ++ b :: l2, w) (l1 ++ b' :: l2, w')
| ledger_death l1 b l2 w : mortal -> ledger_step mortal (l1 ++ b :: l2, w) (l1 ++ l2, w)
| ledger_spawn l w : ledger_step mortal (l, w) (false :: l, w).

Context {A : Type} (mortal : Prop) (spawn : prog W A -> Prop) (Q : result A -> bool -> Prop).
Context (Hspawn : forall p, spawn p -> pays p false Q).
#[local] Abbreviation holds := (λ p b, pays p b Q).

Lemma fleet_step_ledger l l' bs w w' : fleet_step mortal spawn (l, w) (l', w') -> Forall2 holds l bs ->
  exists bs', Forall2 holds l' bs' /\ ledger_step mortal (bs, w) (bs', w').
Proof using Hspawn.
  intros Hs Hl.
  assert (forall l1 p l2 p', l = l1 ++ p :: l2 -> l' = l1 ++ p' :: l2 ->
    (forall b, pays p b Q -> exists b', L b w w' b' /\ pays p' b' Q) ->
    exists bs', Forall2 holds l' bs' /\ ledger_step mortal (bs, w) (bs', w')) as Hmove.
  { intros l1 p l2 p' -> -> Hp. apply Forall2_app_inv_l in Hl as (bs1 & bs2' & H1 & H2 & ->).
    apply Forall2_cons_inv_l in H2 as (b & bs2 & Hb & H2 & ->). destruct (Hp b Hb) as (b' & HL & Hb').
    exists (bs1 ++ b' :: bs2). split; [by apply Forall2_app; [|constructor]|by constructor]. }
  inversion Hs; subst.
  - eapply Hmove; [done..|]. intros b Hb. apply (Hb w).
  - eapply Hmove; [done..|]. intros b Hb. by apply (Hb w').
  - eapply Hmove; [done..|]. intros b Hb. by apply (Hb w).
  - eapply Hmove; [done..|]. intros b Hb. apply (Hb w).
  - apply Forall2_app_inv_l in Hl as (bs1 & bs2' & H1 & H2 & ->).
    apply Forall2_cons_inv_l in H2 as (b & bs2 & Hb & H2 & ->).
    exists (bs1 ++ bs2). split; [by apply Forall2_app|by constructor].
  - exists (false :: bs). split; [constructor; auto|constructor].
Qed.

(** The fleet refines the ledger. *)
Lemma fleet_ledger l l' bs w w' : rtc (fleet_step mortal spawn) (l, w) (l', w') -> Forall2 holds l bs ->
  exists bs', Forall2 holds l' bs' /\ rtc (ledger_step mortal) (bs, w) (bs', w').
Proof using Hspawn.
  intros Hs. remember (l, w) as c eqn:Ec. remember (l', w') as c' eqn:Ec'.
  revert l w bs Ec l' w' Ec'. induction Hs as [c|c [l1 w1] c' Hs _ IH]; intros l w bs -> l' w' E Hl.
  - injection E as <- <-. exists bs. split; [done|apply rtc_refl].
  - destruct (fleet_step_ledger _ _ _ _ _ Hs Hl) as (bs1 & H1 & Hb).
    destruct (IH _ _ bs1 eq_refl _ _ E H1) as (bs' & H2 & Hbs). exists bs'. split; [done|]. by eapply rtc_l.
Qed.

Lemma ledger_invariant (I : list bool -> W -> Prop) bs bs' w w' :
  (forall bs bs' w w', I bs w -> ledger_step mortal (bs, w) (bs', w') -> I bs' w') ->
  rtc (ledger_step mortal) (bs, w) (bs', w') -> I bs w -> I bs' w'.
Proof using Type.
  intros HI Hs. remember (bs, w) as c eqn:Ec. remember (bs', w') as c' eqn:Ec'.
  revert bs w Ec bs' w' Ec'. induction Hs as [c|c [bs1 w1] c' Hs _ IH]; intros bs w -> bs' w' E Hw.
  - by injection E as <- <-.
  - by apply (IH _ _ eq_refl _ _ E), (HI _ _ _ _ Hw Hs).
Qed.
End pays.

(** A program alone, with given faults. *)
Lemma fleet_alone {W A} (fault : exn -> Prop) mortal (spawn : prog W A -> Prop) (p : prog W A) : forall faults w,
  (forall e b, Some (e, b) ∈ faults -> fault e) ->
  rtc (fleet_step fault mortal spawn) ([p], w)
    ([of_result (run_faults faults p w).1], (run_faults faults p w).2).
Proof.
  induction p as [a|e|X f k IH|X f k IH]; intros faults w Hf; simpl; [apply rtc_refl..| |].
  - assert (forall e b, Some (e, b) ∈ tail faults -> fault e) as Ht.
    { intros e b Hin. apply (Hf e b). destruct faults; [done|by apply list_elem_of_further]. }
    assert (forall e b, head faults = Some (Some (e, b)) -> fault e) as Hh.
    { intros e b Hin. apply (Hf e b). destruct faults; [done|]. injection Hin as ->. apply list_elem_of_here. }
    destruct (head faults) as [[[e [|]]|]|] eqn:E.
    + eapply rtc_l; [by apply (fleet_lost_reply fault mortal spawn [] X f k [] w e (Hh e _ eq_refl))|by apply IH].
    + eapply rtc_l; [by apply (fleet_lost_request fault mortal spawn [] X f k [] w e (Hh e _ eq_refl))|by apply IH].
    + eapply rtc_l; [apply (fleet_exec fault mortal spawn [] X f k [] w)|].
      destruct (f w) as [x w']. by apply IH.
    + eapply rtc_l; [apply (fleet_exec fault mortal spawn [] X f k [] w)|].
      destruct (f w) as [x w']. by apply IH.
  - eapply rtc_l; [apply (fleet_local fault mortal spawn [] X f k [] w)|].
    destruct (f w) as [w' x]. by apply IH.
Qed.

(** A program that has returned. *)
Definition returned {W A} (p : prog W A) : Prop :=
  match p with Ret _ | Raise _ => True | _ => False end.
