(* ===== verification/Completion.v ===== *)
(** * A job's completion is announced, once and in time

    The worker whose transition makes the last page terminal publishes [job.complete]
    ([app/worker/pipeline.py]); clients wait for it.  The count that makes it the last is
    taken in one atomic script, the event is published by a later command, and between
    the two any worker, the reaper and every fault may act.  The worker that made the job
    complete holds a token ([Concurrent.v]) until it has said so.  Theorems: whatever
    fails and whoever dies, [job.complete] is announced at most once and never before
    every page is terminal; and if nothing fails it is announced. *)

From Stdlib Require Import QArith.
From S2P Require Import Prelude Py Json Config Prog Redis PageState Results Splitter Streams Pipeline Reaper.
From S2P Require Import Worker Progress Concurrent.
#[local] Open Scope Z_scope.

(** ** What the stream says *)

Definition is_complete (e : sentry) : bool := bool_decide (se_fields e !! "event" = Some JOB_COMPLETE).

Section completion.
Context {W : Type} `{RedisLaws W} `{Clock W} (j : string) (n : nat) (cfg : pipeline_config).
Implicit Types w : W.
#[local] Abbreviation out w := (out_entries j (view w)).
#[local] Abbreviation done w := (done_pages (view w) j n).

(** The announcements of the job's completion in its stream. *)
Definition completions w : nat := countb is_complete (out w).

Definition all_done w : Prop := done w = n.

(** Announced, or the stream is at its limit and may have dropped the announcement. *)
Definition heard w : Prop := (0 < completions w)%nat \/ pc_maxlen cfg <= Z.of_nat (length (out w)).

(** The records and the stream of the job are as they were. *)
Definition silent w w' : Prop :=
  records_kept j w w' /\ vstream (out_stream j) (view w') = vstream (out_stream j) (view w).

Definition token (b : bool) : nat := if b then 1 else 0.

(** A token is what entitles to an announcement: got by the step that completes the job,
    spent by announcing. *)
Definition entitles (b : bool) w w' (b' : bool) : Prop :=
  job_ok j n (view w) ->
  job_ok j n (view w') /\ (done w <= done w')%nat /\
  (completions w' + token b' + token (bool_decide (all_done w)) <=
   completions w + token b + token (bool_decide (all_done w')))%nat.

(** A token is the duty to announce: got likewise, given up by announcing. *)
Definition obliges (b : bool) w w' (b' : bool) : Prop :=
  job_ok j n (view w) ->
  job_ok j n (view w') /\ (heard w -> heard w') /\
  (all_done w' -> b' = true \/ heard w' \/ (all_done w /\ b = false)).

Lemma silent_refl w : silent w w.
Proof using Type. by split. Qed.

Lemma silent_same w w' : silent w w' -> job_ok j n (view w) ->
  job_ok j n (view w') /\ done w' = done w /\ out w' = out w.
Proof using Type.
  intros [Hr Hs] Hok. destruct (job_ok_frame j n _ _ Hr Hok) as [Hok' Hd].
  unfold out_entries. by rewrite Hs.
Qed.

Lemma silent_entitles b w w' : silent w w' -> entitles b w w' b.
Proof using Type.
  intros Hs Hok. destruct (silent_same w w' Hs Hok) as (Hok' & Hd & Ho).
  unfold completions, all_done. rewrite Hd, Ho. split_and!; [done|lia..].
Qed.

Lemma silent_obliges b w w' : silent w w' -> obliges b w w' b.
Proof using Type.
  intros Hs Hok. destruct (silent_same w w' Hs Hok) as (Hok' & Hd & Ho).
  unfold heard, completions, all_done. rewrite Hd, Ho. split_and!; [done..|]. intros. destruct b; auto.
Qed.

(** The script: who completes the job is told so. *)
Lemma script_completes ttl now index to af fs w : legal_call to af fs -> job_ok j n (view w) ->
  let '(w', p) := transition_lua (page_key j index) (job_key j) (state_value to) now (is_terminal to)
             (ttl * 1000) (state_value <$> default (PREDECESSORS to) af) fs w in
  let tr := {| tr_ok := rp_ok p; tr_observed := rp_observed p; tr_done_count := rp_done p;
               tr_total_pages := rp_total p; tr_requested := to |} in
  job_ok j n (view w') /\ out w' = out w /\ (done w <= done w')%nat /\
  completed_job tr = bool_decide (done w < n /\ done w' = n)%nat /\
  (completed_job tr = true -> is_terminal to = true).
Proof using Type.
  intros Hl Hok. pose proof (transition_lua_effect j n ttl now index to af fs w Hl Hok) as (Hok' & Hs & _).
  destruct (transition_job_step ttl now j index to af fs w n Hl Hok) as (t & w2 & E & _ & _ & Ht).
  destruct (transition_count ttl now j index to af fs w n t w2 Hl Hok E) as (_ & Hle & Hc).
  unfold transition in E.
  assert (exists s l, default (PREDECESSORS to) af = s :: l) as (s0 & l0 & Hsrc).
  { destruct Hl as [_ Hl]. destruct af as [[|s l]|]; [by destruct Hl|by eexists _, _|].
    apply PREDECESSORS_nonempty. }
  rewrite Hsrc in *. destruct (transition_lua _ _ _ _ _ _ _ _ w) as [w1 p]. cbn [fst] in *.
  injection E as <- <-. set (w2 := if (0 <? rp_sweep p) then _ else _) in *.
  assert (done w2 = done w1) as Hd.
  { refine (proj2 (job_ok_frame j n _ _ _ Hok')). intros k _. unfold w2.
    destruct (0 <? rp_sweep p); [apply view_renew_pages|done]. }
  rewrite Hd in Hle, Hc. cbv zeta. split_and!; [done|unfold out_entries; by rewrite Hs|done|exact Hc|].
  intros Hcomp. destruct (tr_ok _) eqn:Eok in Ht.
  - destruct Ht as (_ & _ & _ & _ & Ht). rewrite Ht in Hcomp. by apply andb_prop in Hcomp as [? _].
  - cbn in Eok. unfold completed_job in Hcomp. cbn in Hcomp. by rewrite Eok in Hcomp.
Qed.

(** Publishing. *)
Lemma publish_said ttl event data w : job_ok j n (view w) ->
  let w' := (publish_lua j (pc_maxlen cfg) ttl event data w).1 in
  job_ok j n (view w') /\ done w' = done w /\
  (completions w' <= completions w + token (bool_decide (event = JOB_COMPLETE)))%nat /\
  (heard w -> heard w') /\ (event = JOB_COMPLETE -> 1 <= pc_maxlen cfg -> heard w').
Proof using Type.
  intros Hok w'.
  destruct (job_ok_frame j n (view w) (view w')) as [Hok' Hd]; [|done|].
  { intros k _. apply publish_lua_records. }
  pose proof (publish_lua_view j (pc_maxlen cfg) ttl event data w) as Hv. unfold w' in *. clear w'.
  destruct (publish_lua _ _ _ _ _ w) as [w' [id seq]]. cbn [fst] in *.
  destruct Hv as (_ & _ & (d & Hdrop & Ho) & _). split_and!; [done..| | |].
  - unfold completions. rewrite Ho.
    assert (forall (l : list sentry) m, (countb is_complete (drop m l) <= countb is_complete l)%nat) as Hc.
    { induction l as [|e l IH]; intros [|m]; cbn [drop countb]; [lia..|]. specialize (IH m). lia. }
    etrans; [apply Hc|]. rewrite countb_app. cbn [countb]. unfold is_complete at 2, publish_fields.
    cbn [se_fields]. simpl_map. unfold token. repeat case_bool_decide; simplify_eq; lia.
  - unfold heard, completions. rewrite Ho. destruct Hdrop as [->|Hfull]; [|intros _; right; exact Hfull].
    rewrite drop_0, countb_app, length_app. intros [|]; [left|right]; lia.
  - intros -> Hmax. unfold heard, completions. rewrite Ho.
    destruct Hdrop as [->|Hfull]; [|right; exact Hfull].
    left. rewrite drop_0, countb_app. cbn [countb]. unfold is_complete at 2, publish_fields.
    cbn [se_fields]. simpl_map. rewrite bool_decide_true by done. lia.
Qed.

(** ** The programs, for a ledger *)

Section ledger.
Context (L : bool -> W -> W -> bool -> Prop) (fault : exn -> Prop) (fin : bool -> Prop).
#[local] Abbreviation pays := (pays L fault).
Let post {A} (_ : result A) (b : bool) : Prop := fin b.
Context (fin_false : fin false) (fin_fault : forall e b, fault e -> fin b).
Context (L_silent : forall b w w', silent w w' -> L b w w' b).
Context (L_held : fin true -> forall w w' b, L false w w' b -> L true w w' b).
Context (L_script : forall ttl now index to af fs w, legal_call to af fs ->
  let '(w', p) := transition_lua (page_key j index) (job_key j) (state_value to) now (is_terminal to)
             (ttl * 1000) (state_value <$> default (PREDECESSORS to) af) fs w in
  let tr := {| tr_ok := rp_ok p; tr_observed := rp_observed p; tr_done_count := rp_done p;
               tr_total_pages := rp_total p; tr_requested := to |} in
  L false w w' (completed_job tr)).
Context (L_event : forall b maxlen_ttl event data w, event <> JOB_COMPLETE ->
  L b w (publish_lua j (pc_maxlen cfg) maxlen_ttl event data w).1 b).
Context (L_complete : forall ttl data w, L true w (publish_lua j (pc_maxlen cfg) ttl JOB_COMPLETE data w).1 false).
Context (L_publishes : pc_publishes cfg = true \/ fin true).

(** [p] starts without a token and ends with none it must give up. *)
Definition clears {A} (p : prog W A) : Prop := pays p false post.

(** So does [p] after a transition that returned [tr]. *)
Definition clears_after (to : PageState) (tr : TransitionResult) {A} (p : prog W A) : Prop :=
  (completed_job tr = true -> is_terminal to = true) -> pays p (completed_job tr) post.

Lemma clears_fin {A} (p : prog W A) b : fin b -> clears p -> pays p b post.
Proof using L_held.
  destruct b; [|done]. intros Hf. apply pays_holding; [by apply L_held|done].
Qed.

Lemma clears_ret {A} (a : A) : clears (Ret a).
Proof using fin_false. exact fin_false. Qed.

Lemma clears_raise {A} e : clears (@Raise W A e).
Proof using fin_false. exact fin_false. Qed.

Lemma clears_of_result {A} (x : result A) : clears (of_result x).
Proof using fin_false. by destruct x. Qed.

Lemma clears_bind {A B} (p : prog W A) (c : A -> prog W B) :
  clears p -> (forall a, clears (c a)) -> clears (pbind p c).
Proof using L_held.
  intros Hp Hc. apply pays_bind. eapply pays_mono; [|exact Hp]. intros [e|a] b Hb; [exact Hb|].
  by apply clears_fin.
Qed.

Lemma clears_catch {A} (p : prog W A) (h : exn -> prog W A) :
  clears p -> (forall e, clears (h e)) -> clears (catch p h).
Proof using L_held.
  intros Hp Hc. apply pays_catch. eapply pays_mono; [|exact Hp]. intros [e|a] b Hb; [|exact Hb].
  by apply clears_fin.
Qed.

Lemma clears_silent {A} (p : prog W A) : guar silent p -> clears p.
Proof using fin_false L_silent.
  intros Hp. by apply (pays_guar L fault silent); [apply silent_refl|intros; apply L_silent| |].
Qed.

Lemma clears_finally {A} (p : prog W A) f : (forall w, silent w (f w)) -> clears p -> clears (finally p f).
Proof using fin_false L_silent L_held.
  intros Hf Hp. apply clears_bind.
  - apply clears_catch; [apply clears_bind; [done|]|]; intros; apply clears_ret.
  - intros r. apply clears_bind; [|intros _; apply clears_of_result]. apply clears_silent.
    by split; [intros w; apply Hf|].
Qed.

Lemma silent_renew ttl total w : silent w (renew_job_pages ttl j total w).
Proof using Type.
  split; [intros k _; apply view_renew_pages|]. apply vstream_renew.
Qed.

Lemma renew_keeps total b : pays (_renew_job_pages cfg j total) b
  (λ x b', match x with inl _ => fin b' | inr _ => b' = b end).
Proof using fin_fault L_silent.
  apply pays_catch. intros w. cbn [fst snd]. split.
  { exists b. split; [apply L_silent, silent_renew|done]. }
  intros e He. assert (pays (if is_Exception e then Ret tt else Raise e) b
    (λ x b', match x with inl _ => fin b' | inr _ => b' = b end)) as Hh
    by (destruct (is_Exception e); [done|by apply (fin_fault e)]).
  split; exists b; (split; [apply L_silent|exact Hh]); [apply silent_refl|apply silent_renew].
Qed.

(** Only a transition to a terminal state completes the job. *)
Lemma script_terminal page job new now terminal ttl allowed fs w :
  let p := (transition_lua page job new now terminal ttl allowed fs w).2 in
  rp_ok p && ((0 <? rp_total p) && (rp_total p <=? rp_done p)) = true -> terminal = true.
Proof using Type.
  unfold transition_lua. destruct (hget page "state" w) as [cur|]; [|done].
  destruct (negb _); [done|]. destruct (ttl <? _); destruct terminal; try done; cbn;
    by destruct (hincrby _ _ _ _).
Qed.

Lemma transition_pays index to af fs : legal_call to af fs ->
  pays (store_transition cfg j index to af fs) false (λ x b, match x with
    | inl _ => fin b
    | inr tr => b = completed_job tr /\ (completed_job tr = true -> is_terminal to = true)
    end).
Proof using fin_false fin_fault L_silent L_script.
  intros Hl. unfold store_transition.
  destruct (default (PREDECESSORS to) af) as [|s0 l] eqn:Hsrc; [exact fin_false|].
  cbn [pbind sample own pays]. intros w0. exists false. split; [apply L_silent, silent_refl|]. intros w.
  pose proof (L_script (pc_ttl_s cfg) (now_ms w0) index to af fs w Hl) as Hs. rewrite Hsrc in Hs.
  pose proof (script_terminal (page_key j index) (job_key j) (state_value to) (now_ms w0) (is_terminal to)
    (pc_ttl_s cfg * 1000) (state_value <$> s0 :: l) fs w) as Ht.
  cbn [fst snd].
  destruct (transition_lua _ _ _ _ _ _ _ _ w) as [w1 p]. cbn [fst snd of_result pbind] in *.
  set (tr := {| tr_ok := rp_ok p |}) in *. change (completed_job tr = true -> is_terminal to = true) in Ht.
  split.
  - exists (completed_job tr). split; [exact Hs|]. apply pays_bind.
    destruct (0 <? rp_sweep p); [|by split].
    eapply pays_mono; [|apply renew_keeps]. intros [e|[]] b; [done|]. by intros ->.
  - intros e He. split; [exists false|exists (completed_job tr)]; (split; [|by apply (fin_fault e)]).
    + apply L_silent, silent_refl.
    + exact Hs.
Qed.

Lemma clears_transition {A} index to af fs (c : TransitionResult -> prog W A) :
  legal_call to af fs -> (forall tr, clears_after to tr (c tr)) ->
  clears (pbind (store_transition cfg j index to af fs) c).
Proof using fin_false fin_fault L_silent L_script.
  intros Hl Hc. apply pays_bind. eapply pays_mono; [|by apply transition_pays].
  intros [e|tr] b; [done|]. intros [-> Ht]. by apply Hc.
Qed.

Lemma after_claim {A} to tr (p : prog W A) : is_terminal to = false -> clears p -> clears_after to tr p.
Proof using Type.
  intros Ht Hp Hc. destruct (completed_job tr); [|exact Hp]. by rewrite Ht in Hc; discriminate Hc.
Qed.

Lemma after_rejected {A} to tr (p : prog W A) : tr_ok tr = false -> clears p -> clears_after to tr p.
Proof using Type. intros Ht Hp _. unfold completed_job. by rewrite Ht. Qed.

Lemma publish_pays ttl event payload b b' :
  (forall data w, L b w (publish_lua j (pc_maxlen cfg) ttl event data w).1 b') ->
  pays (publish (pc_maxlen cfg) ttl j event payload) b
    (λ x b1, match x with inl e => fault e | inr _ => b1 = b' end).
Proof using L_silent.
  intros HL. cbn [publish pbind sample own pays]. intros w0. exists b.
  split; [apply L_silent, silent_refl|]. intros w.
  specialize (HL (event_data j (now_ms w0) payload) w). cbn [fst snd].
  destruct (publish_lua _ _ _ _ _ w) as [w1 [id seq]]. cbn [fst snd of_result pbind] in *.
  split; [by exists b'|]. intros e He. split; [exists b|exists b']; (split; [|exact He]).
  - apply L_silent, silent_refl.
  - exact HL.
Qed.

(** The announcement. *)
Lemma emit_pays event tr index payload : event <> JOB_COMPLETE ->
  pays (_emit cfg event tr j index payload) (completed_job tr) (λ x b, fin b).
Proof using fin_false fin_fault L_silent L_event L_complete L_publishes.
  intros Hev. unfold _emit. destruct (negb (pc_publishes cfg) || negb (tr_ok tr)) eqn:E.
  { cbn. destruct (completed_job tr) eqn:Ec; [|done]. destruct L_publishes as [Hp|]; [|done].
    rewrite Hp in E. cbn in E. unfold completed_job in Ec. by destruct (tr_ok tr). }
  apply pays_catch.
  assert (forall e b, fault e -> pays (if is_Exception e then Ret tt else Raise e) b
    (λ (x : result unit) b, fin b)) as Hh by (intros e b He; destruct (is_Exception e); by apply (fin_fault e)).
  apply pays_bind. eapply pays_mono; [|apply (publish_pays _ _ _ _ (completed_job tr)); intros; by apply L_event].
  intros [e|ev] b; [intros He; by apply Hh|]. intros ->. destruct (completed_job tr); [|exact fin_false].
  apply pays_bind. eapply pays_mono; [|apply (publish_pays _ _ _ _ false); intros; by apply L_complete].
  intros [e|ev'] b; [intros He; by apply Hh|]. intros ->. exact fin_false.
Qed.

Lemma after_emit {A} to event tr index payload (p : prog W A) : event <> JOB_COMPLETE -> clears p ->
  clears_after to tr (pbind (_emit cfg event tr j index payload) (λ _, p)).
Proof using fin_false fin_fault L_silent L_event L_complete L_publishes L_held.
  intros Hev Hp _. apply pays_bind. eapply pays_mono; [|by apply emit_pays].
  intros [e|[]] b Hb; [exact Hb|]. by apply clears_fin.
Qed.

(** *** The pipeline *)

Context (layout vlm : string -> Z -> option string -> option json -> prog W json).
Context (exn_str : exn -> string) (str_json : json -> string).
Context (Hlayout : forall i r c, guar silent (layout j i r c)).
Context (Hvlm : forall i r c, guar silent (vlm j i r c)).

#[local] Hint Resolve clears_ret clears_raise clears_of_result : core.

Lemma clears_get_page index : clears (ask (get_page j index)).
Proof using fin_false L_silent. apply clears_silent, guar_ask, silent_refl. Qed.

Lemma clears_degrade index e : clears (_degrade cfg j index e).
Proof using fin_false fin_fault L_silent L_script L_event L_complete L_publishes L_held.
  apply clears_transition; [by apply legal_default|]. intros tr. by apply after_emit.
Qed.

Lemma clears_fail index d e : clears (fail_page cfg j index d e).
Proof using fin_false fin_fault L_silent L_script L_event L_complete L_publishes L_held.
  apply clears_transition; [by apply legal_default|]. intros tr. by apply after_emit.
Qed.

Lemma clears_release index : clears (release_claim cfg j index).
Proof using fin_false fin_fault L_silent L_script L_held.
  apply clears_bind; [apply clears_get_page|]. intros page. case_bool_decide; [done|].
  apply clears_bind; [done|]. intros s. destruct (RECLAIM_TARGET s) as [t|] eqn:E; [|done].
  apply clears_transition.
  - split; [apply not_elem_of_nil|]. split; [done|]. intros s' ->%list_elem_of_singleton.
    by apply RECLAIM_TARGET_pred.
  - intros tr. apply after_claim; [destruct s; cbn in E; by simplify_eq|done].
Qed.

Lemma clears_force index reason : clears (force_terminal cfg j index reason).
Proof using fin_false fin_fault L_silent L_script L_event L_complete L_publishes L_held.
  apply clears_bind; [apply clears_get_page|]. intros page. case_bool_decide; [done|].
  apply clears_bind; [done|]. intros s. destruct (is_terminal s); [done|].
  apply clears_transition; [by destruct (can_transition s FALLBACK_DONE); apply legal_default|].
  intros tr. destruct (tr_ok tr) eqn:E; cbn [negb]; [by apply after_emit|by apply after_rejected].
Qed.

Lemma clears_layout index page_ref content handoff :
  clears (layout_stage layout cfg j index page_ref content handoff).
Proof using fin_false fin_fault L_silent L_script L_event L_complete L_publishes L_held Hlayout.
  apply clears_transition; [by apply legal_default|]. intros tr. apply after_claim; [done|].
  destruct (negb (tr_ok tr)); [done|]. apply clears_bind; [apply clears_silent, Hlayout|]. intros out.
  apply clears_transition; [by apply legal_default|]. intros tr'. apply after_emit; [done|].
  by destruct handoff.
Qed.

Lemma clears_vlm index page_ref content final :
  clears (vlm_stage vlm str_json cfg j index page_ref content final).
Proof using fin_false fin_fault L_silent L_script L_event L_complete L_publishes L_held Hvlm.
  apply clears_transition; [by apply legal_default|]. intros tr. apply after_claim; [done|].
  destruct (negb (tr_ok tr)); [done|]. apply clears_bind.
  - apply clears_catch; [by apply clears_bind; [apply clears_silent, Hvlm|]|].
    intros e. assert (clears (let! r := _degrade cfg j index e in Ret (A := PageResult + json) (inl r)))
      as Hd by by apply clears_bind; [apply clears_degrade|].
    destruct e; try exact Hd; by destruct final.
  - intros [r|out]; [done|]. apply clears_bind; [done|]. intros conf.
    apply clears_transition; [by apply legal_default|]. intros tr'. by apply after_emit.
Qed.

Lemma clears_stages index page_ref content final handoff s :
  clears (run_stages layout vlm exn_str str_json cfg j index page_ref content final handoff s).
Proof using fin_false fin_fault L_silent L_script L_event L_complete L_publishes L_held Hlayout Hvlm.
  apply clears_bind; [|by intros [r|]]. apply clears_catch.
  - apply clears_bind; [destruct (bool_decide _); [apply clears_layout|done]|].
    intros [r|]; [done|apply clears_vlm].
  - intros e. unfold stages_except.
    destruct e; cbn [is_Exception]; first [apply clears_fail|apply clears_raise|apply clears_bind];
      first [by apply clears_release|intros _; destruct final; [apply clears_fail|done]].
Qed.

Lemma clears_process index page_ref content final handoff reclaim :
  clears (process_page layout vlm exn_str str_json cfg j index page_ref content final handoff reclaim).
Proof using fin_false fin_fault L_silent L_script L_event L_complete L_publishes L_held Hlayout Hvlm.
  apply clears_bind; [apply clears_get_page|]. intros page. case_bool_decide; [done|].
  apply clears_bind; [done|]. intros s. destruct (is_terminal s); [done|].
  destruct (is_running s); [|apply clears_stages]. destruct (negb reclaim); [done|].
  apply clears_bind; [apply clears_release|]. intros _.
  apply clears_bind; [apply clears_get_page|]. intros page'. case_bool_decide; [done|].
  apply clears_bind; [done|]. intros s'. destruct (is_terminal s'); [done|].
  destruct (is_running s'); [done|apply clears_stages].
Qed.

(** *** The worker and the reaper *)

Context `{Memory disk W} `{Memory ReaperStats W} `{Memory worker_state W} `{!MemoryLaws disk W}
  `{!MemoryLaws ReaperStats W} `{!MemoryLaws worker_state W}.
Context (num : Q -> string) (pdf_reader : string -> result pdf_document) (pdf_message : exn -> string).
Context (sleep : Q -> W -> W) (Hsleep : forall q w, view (sleep q w) = view w).
Context (record_page : W -> W) (Hrecord : forall w, view (record_page w) = view w).
Context (settings : Settings).
Implicit Types t : PageTask.

Lemma view_silent w w' : view w' = view w -> silent w w'.
Proof using Type. intros Hv. split; [intros k _|]; by rewrite Hv. Qed.

Lemma clears_same {A} (p : prog W A) : guar same_view p -> clears p.
Proof using fin_false L_silent. intros Hp. apply clears_silent. eapply guar_mono; [|exact Hp]. apply view_silent. Qed.

Lemma ack_silent i k : k <> out_stream j -> guar silent (ack (R := W) i k).
Proof using Type.
  intros Hk. apply guar_bind; [apply guar_act|intros _; apply guar_act]; intros w;
    (split; [intros k' _|]); by rewrite ?view_xack, ?view_xdel, ?vhash_vset_stream, ?vstream_vset_stream_ne.
Qed.

Lemma requeue_silent t b : task_stream t <> out_stream j -> guar silent (requeue (R := W) t b).
Proof using Type.
  intros Ht. apply guar_bind; [apply guar_call|intros i; by apply guar_bind; [apply ack_silent|]].
  intros w. destruct (xadd_view STREAM (requeue_fields t (now_ms w)
    (if b then attempt t + 1 else attempt t)%Z) w) as [_ Hv].
  split; [intros k _|]; by rewrite Hv, ?vhash_vset_stream, ?vstream_vset_stream_ne.
Qed.

Lemma clears_count f k : clears (count (W := W) f k).
Proof using fin_false L_silent MemoryLaws1.
  apply clears_silent. split; [|done]. intros w. apply view_silent, view_set_mem.
Qed.

Lemma clears_recover t : job_id t = j -> task_stream t <> out_stream j -> clears (_recover cfg settings t).
Proof using fin_false fin_fault L_silent L_script L_event L_complete L_publishes L_held MemoryLaws1.
  intros Hj Ht. unfold _recover. rewrite Hj.
  pose proof (clears_silent _ (ack_silent (entry_id t) _ Ht)) as Hack.
  apply clears_bind; [apply clears_get_page|]. intros page. case_bool_decide.
  { by apply clears_bind; [apply clears_count|]. }
  apply clears_bind; [done|]. intros s. destruct (is_terminal s).
  { by apply clears_bind; [apply clears_count|]. }
  apply clears_bind; [by apply clears_silent, guar_sample, silent_refl|]. intros now.
  destruct (exhausted settings now t).
  - apply clears_bind; [apply clears_force|]. intros _. by apply clears_bind; [apply clears_count|].
  - apply clears_bind; [apply clears_release|]. intros _.
    apply clears_bind; [by apply clears_silent, requeue_silent|]. intros _. apply clears_count.
Qed.

Lemma clears_settle t o : job_id t = j -> task_stream t <> out_stream j -> clears (settle_task settings t o).
Proof using fin_false L_silent L_held MemoryLaws0 MemoryLaws2.
  intros Hj Ht. apply clears_bind; [by apply clears_silent, ack_silent|]. intros _.
  apply clears_bind; [by apply clears_same, guar_note_update|]. intros _. by apply clears_same, guar_maybe_delete.
Qed.

Lemma clears_handle t : job_id t = j -> task_stream t <> out_stream j ->
  clears (_handle layout vlm exn_str str_json num pdf_reader pdf_message record_page sleep cfg settings t).
Proof using fin_false fin_fault L_silent L_script L_event L_complete L_publishes L_held Hlayout Hvlm
  MemoryLaws0 MemoryLaws2 Hsleep Hrecord.
  intros Hj Ht. apply clears_finally.
  { intros w. apply view_silent. rewrite Hrecord. apply view_set_mem. }
  apply clears_bind; [by apply clears_silent, guar_sample, silent_refl|]. intros now.
  apply clears_bind; [by apply clears_same, guar_resolve|]. intros [reference content].
  pose proof (clears_silent _ (requeue_silent t true Ht)) as Hrequeue.
  rewrite Hj. apply clears_bind; [apply clears_catch|].
  - by apply clears_bind; [apply clears_process|].
  - intros e. by destruct (is_Exception e).
  - intros [e|r].
    + unfold crashed. rewrite Hj. destruct (final_attempt settings now t).
      * apply clears_bind; [apply clears_force|]. intros _.
        apply clears_bind; [by apply clears_silent, ack_silent|]. intros _. by apply clears_same, guar_maybe_delete.
      * apply clears_bind; [apply clears_release|]. intros _. by apply clears_bind.
    + unfold dispose. destruct (pr_outcome r); try by apply clears_settle.
      * apply clears_bind; [by apply clears_silent, requeue_silent|]. intros _.
        by apply clears_same, guar_note_update.
      * destruct (negb _); [|by apply clears_settle]. apply clears_bind; [done|]. intros _.
        apply clears_bind; [by apply clears_same, guar_note_update|]. intros _.
        destruct (negb _); [|done]. apply clears_same, guar_act. intros w. apply Hsleep.
Qed.
End ledger.

(** ** The two ledgers *)

Lemma entitles_script ttl now index to af fs w : legal_call to af fs ->
  let '(w', p) := transition_lua (page_key j index) (job_key j) (state_value to) now (is_terminal to)
             (ttl * 1000) (state_value <$> default (PREDECESSORS to) af) fs w in
  entitles false w w' (completed_job {| tr_ok := rp_ok p; tr_observed := rp_observed p;
    tr_done_count := rp_done p; tr_total_pages := rp_total p; tr_requested := to |}).
Proof using Type.
  intros Hl. pose proof (script_completes ttl now index to af fs w Hl) as Hs.
  destruct (transition_lua _ _ _ _ _ _ _ _ w) as [w' p]. intros Hok.
  destruct (Hs Hok) as (Hok' & Ho & Hd & Hc & _). split_and!; [done..|].
  pose proof (done_pages_le (view w') j n).
  rewrite Hc. unfold completions, all_done. rewrite Ho. repeat case_bool_decide; cbn [token]; lia.
Qed.

Lemma obliges_script ttl now index to af fs w : legal_call to af fs ->
  let '(w', p) := transition_lua (page_key j index) (job_key j) (state_value to) now (is_terminal to)
             (ttl * 1000) (state_value <$> default (PREDECESSORS to) af) fs w in
  obliges false w w' (completed_job {| tr_ok := rp_ok p; tr_observed := rp_observed p;
    tr_done_count := rp_done p; tr_total_pages := rp_total p; tr_requested := to |}).
Proof using Type.
  intros Hl. pose proof (script_completes ttl now index to af fs w Hl) as Hs.
  destruct (transition_lua _ _ _ _ _ _ _ _ w) as [w' p]. intros Hok.
  destruct (Hs Hok) as (Hok' & Ho & Hd & Hc & _). split_and!; [done|..].
  - unfold heard, completions. by rewrite Ho.
  - intros Hall. rewrite Hc. case_bool_decide as E; [by left|right; right].
    split; [|done]. unfold all_done in *. pose proof (done_pages_le (view w) j n). lia.
Qed.

Lemma entitles_publish b b' ttl event data w :
  (token b' + token (bool_decide (event = JOB_COMPLETE)) <= token b)%nat ->
  entitles b w (publish_lua j (pc_maxlen cfg) ttl event data w).1 b'.
Proof using Type.
  intros Hb Hok. destruct (publish_said ttl event data w Hok) as (Hok' & Hd & Hc & _).
  split_and!; [done|lia|]. unfold all_done. rewrite Hd. lia.
Qed.

Lemma obliges_publish ttl event data w b : 
  obliges b w (publish_lua j (pc_maxlen cfg) ttl event data w).1 b.
Proof using Type.
  intros Hok. destruct (publish_said ttl event data w Hok) as (Hok' & Hd & _ & Hh & _).
  split_and!; [done..|]. unfold all_done. rewrite Hd. intros. destruct b; auto.
Qed.

(** What a process of the system may be doing about the job, or elsewhere. *)
Inductive fleet_task `{Memory disk W} `{Memory ReaperStats W} `{Memory worker_state W}
  layout vlm exn_str str_json num pdf_reader pdf_message sleep record_page settings : prog W unit -> Prop :=
| handles t : job_id t = j -> task_stream t <> out_stream j ->
    fleet_task layout vlm exn_str str_json num pdf_reader pdf_message sleep record_page settings
      (_handle layout vlm exn_str str_json num pdf_reader pdf_message record_page sleep cfg settings t)
| recovers t : job_id t = j -> task_stream t <> out_stream j ->
    fleet_task layout vlm exn_str str_json num pdf_reader pdf_message sleep record_page settings
      (_recover cfg settings t)
| minds_others p : guar silent p ->
    fleet_task layout vlm exn_str str_json num pdf_reader pdf_message sleep record_page settings p.

(** Announcements, and tokens that entitle to one. *)
Definition accounted (bs : list bool) w : Prop :=
  job_ok j n (view w) /\
  (completions w + countb id bs <= token (bool_decide (all_done w)))%nat.

Lemma ledger_accounted bs bs' w w' mortal : accounted bs w ->
  ledger_step entitles mortal (bs, w) (bs', w') -> accounted bs' w'.
Proof using Type.
  intros [Hok Hc]. inversion 1 as [l1 b b' l2 w1 w2 HL|l1 b l2 w1 _|l w1]; subst.
  - destruct (HL Hok) as (Hok' & _ & Hle). split; [done|].
    rewrite !countb_app in *. cbn [countb] in *. unfold id in *. destruct b, b'; cbn [token] in *; lia.
  - split; [done|]. rewrite !countb_app in *. cbn [countb] in *. lia.
  - by split.
Qed.

(** Whoever owes the announcement is there. *)
Definition owed (bs : list bool) w : Prop :=
  job_ok j n (view w) /\ (all_done w -> heard w \/ true ∈ bs).

Lemma ledger_owed bs bs' w w' : owed bs w -> ledger_step obliges False (bs, w) (bs', w') -> owed bs' w'.
Proof using Type.
  intros [Hok Hc]. inversion 1 as [l1 b b' l2 w1 w2 HL|l1 b l2 w1 []|l w1]; subst.
  - destruct (HL Hok) as (Hok' & Hh & Hall). split; [done|]. intros Hd.
    destruct (Hall Hd) as [-> |[|[Hd0 ->]]]; [right; apply elem_of_app; right; in_list|by left|].
    destruct (Hc Hd0) as [|Hin]; [left; auto|right].
    rewrite !elem_of_app, !elem_of_cons in *. by destruct Hin as [|[|]]; auto.
  - split; [done|]. intros Hd. destruct (Hc Hd); [by left|right; by apply list_elem_of_further].
Qed.
End completion.

(** ** Properties *)

Section properties.
Context {W : Type} `{RedisLaws W} `{Clock W} `{Memory disk W} `{Memory ReaperStats W}
  `{Memory worker_state W} `{!MemoryLaws disk W} `{!MemoryLaws ReaperStats W} `{!MemoryLaws worker_state W}.
Context (j : string) (n : nat) (cfg : pipeline_config).
Context (layout vlm : string -> Z -> option string -> option json -> prog W json).
Context (exn_str : exn -> string) (str_json : json -> string) (num : Q -> string).
Context (pdf_reader : string -> result pdf_document) (pdf_message : exn -> string).
Context (sleep : Q -> W -> W) (record_page : W -> W) (settings : Settings).
(** The models, the clock and the metrics leave the job alone. *)
Context (Hlayout : forall i r c, guar (silent j) (layout j i r c)).
Context (Hvlm : forall i r c, guar (silent j) (vlm j i r c)).
Context (Hsleep : forall q w, view (sleep q w) = view w).
Context (Hrecord : forall w, view (record_page w) = view w).
Implicit Types w : W.
#[local] Abbreviation task :=
  (fleet_task j cfg layout vlm exn_str str_json num pdf_reader pdf_message sleep record_page settings).

Lemma task_entitled p : task p -> pays (entitles j n) (λ _, True) p false (λ _ _, True).
Proof using All.
  intros Hp. pose proof (silent_entitles j n) as Hs. pose proof (entitles_script j n) as Hscript.
  assert (forall b ttl event data w, event <> JOB_COMPLETE ->
    entitles j n b w (publish_lua j (pc_maxlen cfg) ttl event data w).1 b) as Hevent.
  { intros. apply entitles_publish. rewrite bool_decide_false by done. cbn [token]. lia. }
  assert (forall ttl data w, entitles j n true w (publish_lua j (pc_maxlen cfg) ttl JOB_COMPLETE data w).1 false)
    as Hsay by (intros; apply entitles_publish; by rewrite bool_decide_true).
  assert (forall w w' b, entitles j n false w w' b -> entitles j n true w w' b) as Hheld.
  { intros w w' b Hb Hok. destruct (Hb Hok) as (? & ? & ?). split_and!; [done..|]. cbn [token] in *. lia. }
  destruct Hp as [t Hj Ht|t Hj Ht|p Hp].
  - apply (clears_handle j cfg (entitles j n) (λ _, True) (λ _, True)); auto.
  - apply (clears_recover j cfg (entitles j n) (λ _, True) (λ _, True)); auto.
  - by apply (clears_silent j (entitles j n) (λ _, True) (λ _, True)).
Qed.

Lemma task_obliged p : pc_publishes cfg = true -> 1 <= pc_maxlen cfg -> task p ->
  pays (obliges j n cfg) (λ _, False) p false (λ _ b, b = false).
Proof using All.
  intros Hpub Hmax Hp. pose proof (silent_obliges j n cfg) as Hs. pose proof (obliges_script j n cfg) as Hscript.
  assert (forall b ttl event data w, event <> JOB_COMPLETE ->
    obliges j n cfg b w (publish_lua j (pc_maxlen cfg) ttl event data w).1 b) as Hevent
    by (intros; apply obliges_publish).
  assert (forall ttl data w, obliges j n cfg true w (publish_lua j (pc_maxlen cfg) ttl JOB_COMPLETE data w).1 false)
    as Hsay.
  { intros ttl data w Hok. destruct (publish_said j n cfg ttl JOB_COMPLETE data w Hok) as (? & _ & _ & ? & Hsaid).
    split_and!; [done..|]. intros _. right. left. by apply Hsaid. }
  destruct Hp as [t Hj Ht|t Hj Ht|p Hp].
  - apply (clears_handle j cfg (obliges j n cfg) (λ _, False) (λ b, b = false)); by auto.
  - apply (clears_recover j cfg (obliges j n cfg) (λ _, False) (λ b, b = false)); by auto.
  - by apply (clears_silent j (obliges j n cfg) (λ _, False) (λ b, b = false)).
Qed.

(** C6: [job.complete] is announced at most once, and never early.  Any number of
    workers handle and reapers recover the job's pages, their commands interleaved in
    any order, each failing or not with or without its effect, each process dying at any
    point: the stream of the job holds at most one [job.complete], and if it holds one
    every page is terminal. *)
Theorem completion_announced_once w w' programs : job_ok j n (view w) -> completions j w = 0%nat ->
  rtc (fleet_step (λ _, True) True task) ([], w) (programs, w') ->
  (completions j w' <= 1)%nat /\
  ((0 < completions j w')%nat -> forall i : nat, (i < n)%nat -> page_terminal (view w') j i = true).
Proof using All.
  intros Hok Hc Hs. destruct (fleet_ledger _ _ _ _ _ task_entitled [] programs [] w w' Hs) as (bs & _ & Hl);
    [constructor|].
  apply (ledger_invariant _ _ (accounted j n)) in Hl as [Hok' Hc'];
    [|intros * HI; by apply ledger_accounted|split; [done|]; rewrite Hc; cbn; lia].
  unfold all_done in Hc'. case_bool_decide as E; cbn [token] in Hc'; (split; [lia|]).
  - intros _. by apply done_pages_full.
  - lia.
Qed.

(** C5: a finished job is announced.  If no command fails and no process dies, then
    however many workers and reapers handle the job's pages and however their commands
    interleave: once they have returned and every page is terminal, [job.complete] is in
    the job's stream - or the stream is at the limit of events it retains. *)
Theorem completion_announced w w' programs : pc_publishes cfg = true -> 1 <= pc_maxlen cfg ->
  job_ok j n (view w) -> ~ all_done j n w ->
  rtc (fleet_step (λ _, False) False task) ([], w) (programs, w') ->
  Forall returned programs -> (forall i : nat, (i < n)%nat -> page_terminal (view w') j i = true) ->
  (0 < completions j w')%nat \/ pc_maxlen cfg <= Z.of_nat (length (out_entries j (view w'))).
Proof using All.
  intros Hpub Hmax Hok Hopen Hs Hret Hall.
  destruct (fleet_ledger _ _ _ _ _ (λ p, task_obliged p Hpub Hmax) [] programs [] w w' Hs) as (bs & Hp & Hl);
    [constructor|].
  apply (ledger_invariant _ _ (owed j n cfg)) in Hl as [Hok' Ho];
    [|intros * HI; by apply ledger_owed|by split].
  destruct Ho as [|Ht]; [by apply done_pages_full|done|]. exfalso.
  apply list_elem_of_lookup in Ht as [k Hk].
  destruct (Forall2_lookup_r _ _ _ _ _ Hp Hk) as (p & Hpk & Hb).
  rewrite Forall_lookup in Hret. specialize (Hret k p Hpk). destruct p; [done|done|destruct Hret..].
Qed.
End properties.

(** ** Witnesses *)

Definition demo_task_handle : prog demo_world unit :=
  _handle demo_vlm demo_vlm exn_name dumps (λ _, "") demo_reader exn_name id (λ _ w, w) demo_cfg
    default_settings demo_task.

Lemma demo_job_ok : job_ok "j" 1 (view demo_delivered).
Proof. apply demo_delivered_page. Qed.

#[local] Abbreviation demo_fleet_task :=
  (fleet_task (W := demo_world) "j" demo_cfg demo_vlm demo_vlm exn_name dumps (λ _, "") demo_reader exn_name
    (λ _ w, w) id default_settings).

Definition demo_end : demo_world := (run_faults [] demo_task_handle demo_delivered).2.

Lemma demo_fleet (fault : exn -> Prop) mortal faults : (forall e b, Some (e, b) ∈ faults -> fault e) ->
  rtc (fleet_step fault mortal demo_fleet_task) ([], demo_delivered)
    ([of_result (run_faults faults demo_task_handle demo_delivered).1],
     (run_faults faults demo_task_handle demo_delivered).2).
Proof.
  intros Hf. eapply rtc_l; [|by apply fleet_alone]. by apply fleet_spawn, handles.
Qed.

Example completion_announced_once_witness : (completions "j" demo_end <= 1)%nat.
Proof.
  assert (forall e b, Some (e, b) ∈ ([] : list (option (exn * bool))) -> True) as Hf by done.
  refine (proj1 (completion_announced_once "j" 1 demo_cfg demo_vlm demo_vlm exn_name dumps (λ _, "") demo_reader
    exn_name (λ _ w, w) id default_settings _ _ _ _ demo_delivered demo_end _ demo_job_ok _
    (demo_fleet (λ _, True) True [] Hf))); done.
Defined.

Example completion_announced_witness :
  (0 < completions "j" demo_end)%nat \/ 100 <= Z.of_nat (length (out_entries "j" (view demo_end))).
Proof.
  assert (forall e b, Some (e, b) ∈ ([] : list (option (exn * bool))) -> False) as Hf.
  { intros e b Hin. by apply elem_of_nil in Hin. }
  refine (completion_announced "j" 1 demo_cfg demo_vlm demo_vlm exn_name dumps (λ _, "") demo_reader
    exn_name (λ _ w, w) id default_settings _ _ _ _ demo_delivered demo_end _ _ _ demo_job_ok _
    (demo_fleet (λ _, False) False [] Hf) _ _); try done.
  - vm_compute. by repeat constructor.
  - intros [|i] Hi; [vm_compute; reflexivity|lia].
Defined.

(** That nothing fails is needed.  [job.complete] is published after the [page.final] of
    the last page, in one [try]: when the first publish is lost so is the second, and the
    job ends, its entry settled, without an announcement.  Its clients are told all the
    same ([Closing.finished_job_told]). *)
Example final_lost_unannounced :
  let (x, w) := run_faults [None; None; None; Some (RedisError "down", false)] demo_task_handle demo_delivered in
  x = inr tt /\ page_terminal (view w) "j" 0 = true /\ settled demo_task w /\ completions "j" w = 0%nat.
Proof. vm_compute. split_and!; try done; intros Hin; by apply elem_of_nil in Hin. Qed.
