(* ===== verification/Text.v ===== *)
(** * Character and word error rates ([app/eval/text.py])

    Segmentation into grapheme clusters, the two-row edit distance, the scores
    and their aggregation.  A text is a list of code points; the Unicode tables
    are parameters.  Theorems: the clusters partition the text at exactly the
    boundaries of the rule; the two-row routine computes the cost of the cheapest
    edit script, and is a metric; aggregation is the score of the whole corpus. *)

From S2P Require Import Prelude Py.
From Stdlib Require Import QArith Lqa.
#[local] Open Scope nat_scope.

(** ** Segmentation *)

Section segmentation.
(** [unicodedata.category(ch) in _MARK_CATEGORIES], [unicodedata.combining(ch)]
    and [str.isspace]. *)
Context (is_mark : N -> bool) (combining : N -> N) (is_space : N -> bool).

Definition ZWJ : N := 8205.
Definition ZWNJ : N := 8204.
Definition VIRAMA_COMBINING_CLASS : N := 9.

Definition _joins_following (ch : N) : bool :=
  (ch =? ZWJ)%N || (combining ch =? VIRAMA_COMBINING_CLASS)%N.

(** [clusters[-1] += ch] *)
Definition extend_last (ch : N) (clusters : list (list N)) : list (list N) :=
  match reverse clusters with
  | [] => [[ch]]
  | c :: before => reverse before ++ [c ++ [ch]]
  end.

Definition extends (join_next : bool) (ch : N) : bool :=
  join_next || (ch =? ZWJ)%N || (ch =? ZWNJ)%N || is_mark ch.

Fixpoint graphemes_loop (text : list N) (clusters : list (list N)) (join_next : bool)
  : list (list N) :=
  match text with
  | [] => clusters
  | ch :: rest =>
      let clusters :=
        if negb (bool_decide (clusters = [])) && extends join_next ch
        then extend_last ch clusters
        else clusters ++ [[ch]] in
      graphemes_loop rest clusters (_joins_following ch)
  end.

Definition graphemes (text : list N) : list (list N) := graphemes_loop text [] false.

(** [str.split()]: the maximal runs of non-space characters. *)
Fixpoint words_loop (text : list N) (word : list N) : list (list N) :=
  match text with
  | [] => if bool_decide (word = []) then [] else [word]
  | ch :: rest =>
      if is_space ch
      then (if bool_decide (word = []) then [] else [word]) ++ words_loop rest []
      else words_loop rest (word ++ [ch])
  end.

Definition words (text : list N) : list (list N) := words_loop text [].
End segmentation.

(** ** The two-row distance *)

Section distance.
Context {A : Type} `{EqDecision A}.
Implicit Types (x y z : list A) (a b : A).

(** The inner loop: [up] is [previous[j:]], [diag] is [previous[j-1]], [left] is
    [current[j-1]]. *)
Fixpoint row_loop (ref_unit : A) (hyp : list A) (diag : nat) (up : list nat) (left : nat)
  : list nat :=
  match hyp, up with
  | hyp_unit :: hyp', u :: up' =>
      let cell := Nat.min (Nat.min (u + 1) (left + 1))
                    (diag + (if bool_decide (ref_unit = hyp_unit) then 0 else 1)) in
      cell :: row_loop ref_unit hyp' u up' cell
  | _, _ => []
  end.

Definition next_row (hyp : list A) (i : nat) (ref_unit : A) (previous : list nat) : list nat :=
  i :: row_loop ref_unit hyp (hd 0 previous) (tl previous) i.

Fixpoint rows_loop (ref hyp : list A) (i : nat) (previous : list nat) : list nat :=
  match ref with
  | [] => previous
  | ref_unit :: ref' => rows_loop ref' hyp (S i) (next_row hyp (S i) ref_unit previous)
  end.

Definition levenshtein (reference hypothesis : list A) : nat :=
  let '(reference, hypothesis) :=
    if (length reference <? length hypothesis)%nat then (hypothesis, reference)
    else (reference, hypothesis) in
  match hypothesis with
  | [] => length reference
  | _ => List.last (rows_loop reference hypothesis 0 (seq 0 (length hypothesis + 1))) 0
  end.
End distance.

(** ** Scores *)

Record TextScore := { errors : nat; ts_length : nat; ts_unit : string }.

(** [None] is [inf]. *)
Definition rate (s : TextScore) : option Q :=
  if (ts_length s =? 0)%nat then if (errors s =? 0)%nat then Some 0%Q else None
  else Some (inject_Z (Z.of_nat (errors s)) / inject_Z (Z.of_nat (ts_length s)))%Q.

Section scores.
Context (is_mark : N -> bool) (combining : N -> N) (is_space : N -> bool).

Definition cer_score (reference hypothesis : list N) (unit : string) : result TextScore :=
  if (unit =? "grapheme")%string then
    let r := graphemes is_mark combining reference in
    inr {| errors := levenshtein r (graphemes is_mark combining hypothesis);
           ts_length := length r; ts_unit := unit |}
  else if (unit =? "codepoint")%string then
    inr {| errors := levenshtein reference hypothesis; ts_length := length reference; ts_unit := unit |}
  else inl (ValueError ("unit must be 'grapheme' or 'codepoint', got '" +:+ unit +:+ "'")).

Definition wer_score (reference hypothesis : list N) : TextScore :=
  let r := words is_space reference in
  {| errors := levenshtein r (words is_space hypothesis); ts_length := length r; ts_unit := "word" |}.

Definition cer (reference hypothesis : list N) (unit : string) : result (option Q) :=
  let* s := cer_score reference hypothesis unit in inr (rate s).

Definition wer (reference hypothesis : list N) : option Q := rate (wer_score reference hypothesis).
End scores.

Definition aggregate (scores : list TextScore) : result TextScore :=
  match scores with
  | [] => inr {| errors := 0; ts_length := 0; ts_unit := "empty" |}
  | s :: _ =>
      if forallb (λ t, (ts_unit t =? ts_unit s)%string) scores
      then inr {| errors := sum_list (errors <$> scores); ts_length := sum_list (ts_length <$> scores);
                  ts_unit := ts_unit s |}
      else inl (ValueError "cannot aggregate mixed units")
  end.

(** ** The reference: edit scripts *)

Section scripts.
Context {A : Type} `{EqDecision A}.
Implicit Types (x y z : list A) (a b : A) (n m : nat).

(** [script x y n]: insertions, deletions and substitutions turn [x] into [y] at
    cost [n]. *)
Inductive script : list A -> list A -> nat -> Prop :=
| script_nil : script [] [] 0
| script_delete a x y n : script x y n -> script (a :: x) y (S n)
| script_insert b x y n : script x y n -> script x (b :: y) (S n)
| script_match a x y n : script x y n -> script (a :: x) (a :: y) n
| script_change a b x y n : script x y n -> script (a :: x) (b :: y) (S n).

(** The recurrence. *)
Fixpoint lev x : list A -> nat :=
  fix lev_x y : nat :=
    match x, y with
    | [], _ => length y
    | _, [] => length x
    | a :: x', b :: y' =>
        Nat.min (Nat.min (S (lev x' y)) (S (lev_x y')))
          (lev x' y' + (if bool_decide (a = b) then 0 else 1))
    end.

Lemma lev_nil_l y : lev [] y = length y.
Proof. by destruct y. Qed.
Lemma lev_nil_r x : lev x [] = length x.
Proof. by destruct x. Qed.
Lemma lev_cons a b x y :
  lev (a :: x) (b :: y) = Nat.min (Nat.min (S (lev x (b :: y))) (S (lev (a :: x) y)))
    (lev x y + (if bool_decide (a = b) then 0 else 1)).
Proof. done. Qed.

Lemma script_deletes x : script x [] (length x).
Proof. induction x; simpl; by constructor. Qed.

Lemma script_inserts y : script [] y (length y).
Proof. induction y; simpl; by constructor. Qed.

Lemma script_lev x : forall y, script x y (lev x y).
Proof.
  induction x as [|a x IHx]; intros y; [rewrite lev_nil_l; apply script_inserts|].
  induction y as [|b y IHy]; [rewrite lev_nil_r; apply script_deletes|].
  rewrite lev_cons.
  destruct (Nat.min_spec (Nat.min (S (lev x (b :: y))) (S (lev (a :: x) y)))
    (lev x y + (if bool_decide (a = b) then 0 else 1))) as [[_ ->]|[_ ->]].
  - destruct (Nat.min_spec (S (lev x (b :: y))) (S (lev (a :: x) y))) as [[_ ->]|[_ ->]];
      by constructor.
  - case_bool_decide as E; [subst; rewrite Nat.add_0_r|rewrite Nat.add_1_r]; by constructor.
Qed.

Lemma lev_delete a x y : lev (a :: x) y <= S (lev x y).
Proof. destruct y as [|b y]; [by rewrite !lev_nil_r|]. rewrite lev_cons. lia. Qed.

Lemma lev_insert b x y : lev x (b :: y) <= S (lev x y).
Proof. destruct x as [|a x]; [by rewrite !lev_nil_l|]. rewrite lev_cons. lia. Qed.

Lemma lev_script x y n : script x y n -> lev x y <= n.
Proof.
  induction 1 as [|a x y n _ IH|b x y n _ IH|a x y n _ IH|a b x y n _ IH]; [done| | | |].
  - pose proof (lev_delete a x y). lia.
  - pose proof (lev_insert b x y). lia.
  - rewrite lev_cons. rewrite bool_decide_true by done. lia.
  - rewrite lev_cons. case_bool_decide; lia.
Qed.

Lemma edits_app x1 y1 n1 x2 y2 n2 :
  script x1 y1 n1 -> script x2 y2 n2 -> script (x1 ++ x2) (y1 ++ y2) (n1 + n2).
Proof. induction 1; simpl; intros; auto using script. Qed.

Lemma script_rev x y n : script x y n -> script (rev x) (rev y) n.
Proof.
  induction 1 as [|a x y n _ IH|b x y n _ IH|a x y n _ IH|a b x y n _ IH]; simpl; [constructor| | | |].
  - rewrite <- (app_nil_r (rev y)), <- Nat.add_1_r. by apply edits_app; [|apply (script_deletes [a])].
  - rewrite <- (app_nil_r (rev x)), <- Nat.add_1_r. by apply edits_app; [|apply (script_inserts [b])].
  - rewrite <- (Nat.add_0_r n). apply edits_app; [done|]. apply script_match. constructor.
  - rewrite <- Nat.add_1_r. apply edits_app; [done|]. apply script_change. constructor.
Qed.

Lemma lev_rev x y : lev (rev x) (rev y) = lev x y.
Proof.
  apply Nat.le_antisymm.
  - apply lev_script, script_rev, script_lev.
  - rewrite <- (rev_involutive x) at 1. rewrite <- (rev_involutive y) at 1.
    apply lev_script, script_rev, script_lev.
Qed.

Lemma script_sym x y n : script x y n -> script y x n.
Proof. induction 1; auto using script. Qed.

Lemma lev_sym x y : lev x y = lev y x.
Proof. apply Nat.le_antisymm; apply lev_script, script_sym, script_lev. Qed.

Lemma script_trans x y n : script x y n -> forall z m, script y z m ->
  exists k, k <= n + m /\ script x z k.
Proof.
  induction 1 as [|a x y n Hs IH|b x y n Hs IH|a x y n Hs IH|a b x y n Hs IH]; intros z m Hyz.
  - exists m. split; [lia|done].
  - destruct (IH _ _ Hyz) as (k & Hk & Hxz). exists (S k). split; [lia|by constructor].
  - remember (b :: y) as by_ eqn:E. revert E.
    induction Hyz as [|c y' z m Hy' IHz|c y' z m Hy' IHz|c y' z m Hy' IHz|c d y' z m Hy' IHz];
      intros E; simplify_eq.
    + destruct (IH _ _ Hy') as (k & Hk & Hxz). exists k. split; [lia|done].
    + destruct (IHz eq_refl) as (k & Hk & Hxz). exists (S k). split; [lia|by constructor].
    + destruct (IH _ _ Hy') as (k & Hk & Hxz). exists (S k). split; [lia|by constructor].
    + destruct (IH _ _ Hy') as (k & Hk & Hxz). exists (S k). split; [lia|by constructor].
  - remember (a :: y) as by_ eqn:E. revert E.
    induction Hyz as [|c y' z m Hy' IHz|c y' z m Hy' IHz|c y' z m Hy' IHz|c d y' z m Hy' IHz];
      intros E; simplify_eq.
    + destruct (IH _ _ Hy') as (k & Hk & Hxz). exists (S k). split; [lia|by constructor].
    + destruct (IHz eq_refl) as (k & Hk & Hxz). exists (S k). split; [lia|by constructor].
    + destruct (IH _ _ Hy') as (k & Hk & Hxz). exists k. split; [lia|by constructor].
    + destruct (IH _ _ Hy') as (k & Hk & Hxz). exists (S k). split; [lia|by constructor].
  - remember (b :: y) as by_ eqn:E. revert E.
    induction Hyz as [|c y' z m Hy' IHz|c y' z m Hy' IHz|c y' z m Hy' IHz|c d y' z m Hy' IHz];
      intros E; simplify_eq.
    + destruct (IH _ _ Hy') as (k & Hk & Hxz). exists (S k). split; [lia|by constructor].
    + destruct (IHz eq_refl) as (k & Hk & Hxz). exists (S k). split; [lia|by constructor].
    + destruct (IH _ _ Hy') as (k & Hk & Hxz). exists (S k). split; [lia|by constructor].
    + destruct (IH _ _ Hy') as (k & Hk & Hxz). exists (S k). split; [lia|by constructor].
Qed.

Lemma script_zero x y : script x y 0 -> x = y.
Proof. remember 0 as n eqn:E. induction 1; simplify_eq; [done|]. f_equal. auto. Qed.
End scripts.

(** ** The rows *)

Section rows.
Context {A : Type} `{EqDecision A}.
Implicit Types (x y : list A).

(** [lev x] of the growing prefixes of [hyp], reversed, after [y]. *)
Fixpoint row x (hyp : list A) y : list nat :=
  match hyp with
  | [] => []
  | b :: hyp' => lev x (b :: y) :: row x hyp' (b :: y)
  end.

Lemma row_loop_row a hyp : forall x y,
  row_loop a hyp (lev x y) (row x hyp y) (lev (a :: x) y) = row (a :: x) hyp y.
Proof.
  induction hyp as [|b hyp IH]; intros x y; [done|]. cbn [row row_loop].
  replace (Nat.min (Nat.min (lev x (b :: y) + 1) (lev (a :: x) y + 1))
    (lev x y + (if bool_decide (a = b) then 0 else 1))) with (lev (a :: x) (b :: y))
    by (rewrite lev_cons; lia).
  by rewrite IH.
Qed.

Lemma rows_loop_row ref hyp : forall x,
  rows_loop ref hyp (length x) (lev x [] :: row x hyp []) =
  lev (rev ref ++ x) [] :: row (rev ref ++ x) hyp [].
Proof.
  induction ref as [|a ref IH]; intros x; [done|]. cbn [rows_loop rev].
  unfold next_row. cbn [hd tl]. specialize (IH (a :: x)). rewrite lev_nil_r in IH at 1. cbn [length] in IH.
  pose proof (row_loop_row a hyp x []) as Hr. rewrite (lev_nil_r (a :: x)) in Hr. cbn [length] in Hr.
  rewrite Hr, IH, <- app_assoc. done.
Qed.

Lemma row_nil hyp : forall y, row [] hyp y = seq (S (length y)) (length hyp).
Proof. induction hyp as [|b hyp IH]; intros y; [done|]. cbn [row length seq]. by rewrite IH. Qed.

Lemma last_row x hyp : forall y d, List.last (lev x y :: row x hyp y) d = lev x (rev hyp ++ y).
Proof.
  induction hyp as [|b hyp IH]; intros y d; [done|]. cbn [rev]. rewrite <- app_assoc.
  exact (IH (b :: y) d).
Qed.

Lemma levenshtein_lev x y : levenshtein x y = lev x y.
Proof.
  assert (forall x y, match y with
                      | [] => length x
                      | _ => List.last (rows_loop x y 0 (seq 0 (length y + 1))) 0
                      end = lev x y) as Hd.
  { clear x y. intros x [|b y]; [by rewrite lev_nil_r|].
    pose proof (rows_loop_row x (b :: y) []) as Hr. rewrite row_nil, lev_nil_l in Hr. cbn [length] in Hr.
    rewrite Nat.add_1_r. cbn [length seq] in *. rewrite Hr, last_row, !app_nil_r. apply lev_rev. }
  unfold levenshtein. destruct (length x <? length y)%nat; rewrite Hd; [apply lev_sym|done].
Qed.
End rows.

(** ** Clusters *)

Section clusters.
Context (is_mark : N -> bool) (combining : N -> N).

Lemma extend_last_concat ch l : concat (extend_last ch l) = concat l ++ [ch].
Proof.
  unfold extend_last. destruct l as [|c l _] using rev_ind; [done|].
  rewrite reverse_snoc, reverse_involutive, !concat_app. simpl. by rewrite !app_nil_r, <- app_assoc.
Qed.

Lemma extend_last_nonempty ch l : Forall (λ c, c ≠ []) l -> Forall (λ c, c ≠ []) (extend_last ch l).
Proof.
  unfold extend_last. destruct l as [|c l _] using rev_ind; [by repeat constructor|].
  rewrite reverse_snoc, reverse_involutive, !Forall_app, !Forall_singleton. intros [Hl Hc].
  split; [done|]. by destruct c.
Qed.

Lemma graphemes_loop_spec text : forall l join,
  Forall (λ c, c ≠ []) l ->
  concat (graphemes_loop is_mark combining text l join) = concat l ++ text /\
  Forall (λ c, c ≠ []) (graphemes_loop is_mark combining text l join).
Proof.
  induction text as [|ch text IH]; intros l join Hl; [by rewrite app_nil_r|]. cbn [graphemes_loop].
  destruct (negb _ && _).
  - destruct (IH (extend_last ch l) (_joins_following combining ch)) as [Hc Hn];
      [by apply extend_last_nonempty|]. split; [|done]. by rewrite Hc, extend_last_concat, <- app_assoc.
  - destruct (IH (l ++ [[ch]]) (_joins_following combining ch)) as [Hc Hn].
    { apply Forall_app. by repeat constructor. }
    split; [|done]. by rewrite Hc, concat_app, <- app_assoc.
Qed.

(** The clusters begin where the rule says: at the first character and at each
    character that does not extend the one before it. *)
Fixpoint boundaries (text : list N) (first join : bool) : nat :=
  match text with
  | [] => 0
  | ch :: rest =>
      (if negb first && extends is_mark join ch then 0 else 1)
      + boundaries rest false (_joins_following combining ch)
  end.

Lemma extend_last_length ch l : l <> [] -> length (extend_last ch l) = length l.
Proof.
  unfold extend_last. destruct l as [|c l _] using rev_ind; [done|]. intros _.
  by rewrite reverse_snoc, reverse_involutive, !length_app.
Qed.

Lemma graphemes_loop_length text : forall l join,
  length (graphemes_loop is_mark combining text l join) =
  length l + boundaries text (bool_decide (l = [])) join.
Proof.
  induction text as [|ch text IH]; intros l join; cbn [graphemes_loop boundaries]; [lia|].
  destruct (bool_decide (l = [])) eqn:E; cbn [negb andb].
  - rewrite IH, length_app, bool_decide_false by by destruct l. simpl. lia.
  - apply bool_decide_eq_false in E. destruct (extends _ _ _).
    + rewrite IH, extend_last_length by done. rewrite bool_decide_false; [lia|].
      intros El. apply (f_equal length) in El. rewrite extend_last_length in El by done. by destruct l.
    + rewrite IH, length_app, bool_decide_false by by destruct l. simpl. lia.
Qed.
End clusters.

(** ** Properties *)

(** C22: the two-row routine is the edit distance: its result is the cost of some
    script of insertions, deletions and substitutions that turns the reference
    into the hypothesis, and no script is cheaper. *)
Theorem levenshtein_optimal {A} `{EqDecision A} (x y : list A) :
  script x y (levenshtein x y) /\ forall n, script x y n -> levenshtein x y <= n.
Proof.
  rewrite levenshtein_lev. split; [apply script_lev|]. intros n. apply lev_script.
Qed.

(** it is a metric, between the length difference and the longer length. *)
Theorem levenshtein_metric {A} `{EqDecision A} (x y z : list A) :
  (levenshtein x y = 0 <-> x = y) /\
  levenshtein x y = levenshtein y x /\
  levenshtein x z <= levenshtein x y + levenshtein y z /\
  Nat.max (length x) (length y) - Nat.min (length x) (length y) <= levenshtein x y /\
  levenshtein x y <= Nat.max (length x) (length y).
Proof.
  rewrite !levenshtein_lev. split_and!.
  - split; [intros E; apply script_zero; rewrite <- E; apply script_lev|]. intros <-.
    assert (script x x 0) as Hs by (induction x; by constructor). apply lev_script in Hs. lia.
  - apply lev_sym.
  - destruct (script_trans x y _ (script_lev x y) z _ (script_lev y z)) as (k & Hk & Hs).
    apply lev_script in Hs. lia.
  - assert (forall n, script x y n ->
      Nat.max (length x) (length y) - Nat.min (length x) (length y) <= n) as Hn
      by (clear z; induction 1; cbn [length] in *; lia).
    apply Hn, script_lev.
  - revert y. induction x as [|a x IH]; intros y; [rewrite lev_nil_l; cbn [length]; lia|].
    destruct y as [|b y]; [rewrite lev_nil_r; cbn [length]; lia|]. rewrite lev_cons. cbn [length].
    specialize (IH y). case_bool_decide; lia.
Qed.

(** grapheme clusters partition the text: none is empty, together they are the
    text, and there are as many as there are characters that begin a cluster. *)
Theorem graphemes_partition is_mark combining (text : list N) :
  concat (graphemes is_mark combining text) = text /\
  Forall (λ c, c ≠ []) (graphemes is_mark combining text) /\
  length (graphemes is_mark combining text) = boundaries is_mark combining text true false.
Proof.
  destruct (graphemes_loop_spec is_mark combining text [] false (Forall_nil_2 _)) as [Hc Hn].
  split_and!; [exact Hc|exact Hn|]. apply (graphemes_loop_length is_mark combining text [] false).
Qed.

(** aggregation is a micro-average: scores of one unit aggregate to the sums,
    in any grouping, and mixed units are refused. *)
Theorem aggregate_sums (a b : list TextScore) unit :
  Forall (λ s, ts_unit s = unit) (a ++ b) -> a <> [] -> b <> [] ->
  exists sa sb s, aggregate a = inr sa /\ aggregate b = inr sb /\ aggregate (a ++ b) = inr s /\
    aggregate [sa; sb] = inr s /\
    errors s = errors sa + errors sb /\ ts_length s = ts_length sa + ts_length sb /\ ts_unit s = unit.
Proof.
  assert (forall l, Forall (λ s, ts_unit s = unit) l -> l <> [] ->
    aggregate l = inr {| errors := sum_list (errors <$> l); ts_length := sum_list (ts_length <$> l);
                         ts_unit := unit |}) as Hagg.
  { intros [|s l] Hl; [done|]. intros _. unfold aggregate. pose proof (Forall_inv Hl) as Hs. cbn beta in Hs.
    replace (forallb _ _) with true; [by rewrite Hs|]. symmetry. apply forallb_forall. intros t Ht.
    apply list_elem_of_In in Ht. rewrite Forall_forall in Hl. rewrite (Hl t Ht), Hs. apply String.eqb_refl. }
  assert (forall (l k : list nat), sum_list (l ++ k) = sum_list l + sum_list k) as Hsum
    by (intros l k; induction l as [|n l IH]; simpl; lia).
  intros Hu Ha Hb. pose proof Hu as [Hua Hub]%Forall_app.
  eexists _, _, _. rewrite !Hagg by (done || by destruct a).
  split_and!; [done|done|done| |cbn; by rewrite fmap_app, Hsum..|done].
  cbn. rewrite String.eqb_refl. cbn. by rewrite !fmap_app, !Hsum, !Nat.add_0_r.
Qed.

Definition one_error : TextScore := {| errors := 1; ts_length := 3; ts_unit := "word" |}.

Example aggregate_sums_witness :
  exists sa sb s, aggregate [one_error] = inr sa /\ aggregate [one_error] = inr sb /\
    aggregate [one_error; one_error] = inr s /\ aggregate [sa; sb] = inr s /\
    errors s = errors sa + errors sb /\ ts_length s = ts_length sa + ts_length sb /\ ts_unit s = "word".
Proof.
  apply (aggregate_sums [one_error] [one_error] "word"); [by repeat constructor|done|done].
Defined.
