(* ===== verification/Iou.v ===== *)
(** * Box overlap and matching ([app/eval/iou.py])

    Boxes, intersection over union, greedy one-to-one matching and the scores.
    Floats are exact rationals.  Theorems: the overlap ratio is a symmetric number
    of [0, 1], positive exactly when the interiors meet; the matching is
    one-to-one, maximal and has no blocking pair; the counts of a report add up
    to the boxes it was given. *)

From S2P Require Import Prelude Py Json.
From stdpp Require Import sorting.
From Stdlib Require Import QArith Qround Lqa.

(** ** Boxes *)

Record Box := { bx : Q; by_ : Q; bw : Q; bh : Q }.

Definition Qabs_py (q : Q) : Q := if Qle_bool 0 q then q else (- q)%Q.

Definition from_xyxy (x1 y1 x2 y2 : Q) : Box :=
  {| bx := Qmin_py x1 x2; by_ := Qmin_py y1 y2; bw := Qabs_py (x2 - x1); bh := Qabs_py (y2 - y1) |}.

Definition area (b : Box) : Q := bw b * bh b.
Definition x2 (b : Box) : Q := bx b + bw b.
Definition y2 (b : Box) : Q := by_ b + bh b.

Definition negative (b : Box) : bool := negb (Qle_bool 0 (bw b)) || negb (Qle_bool 0 (bh b)).

(** What [as_box] is given: a [Box], or a decoded JSON value. *)
Inductive shape := SBox (b : Box) | SJson (j : json).

Section boxes.
(** [float(value)] of a decoded value. *)
Context (to_float : json -> result Q).

Definition member (key : string) (m : list (string * json)) : result json :=
  match list_find (λ kv, kv.1 = key) (rev m) with
  | Some (_, (_, v)) => inr v
  | None => inl (ValueError ("box mapping is missing '" +:+ key +:+ "'"))
  end.

Definition as_box (obj : shape) : result Box :=
  let* box :=
    match obj with
    | SBox b => inr b
    | SJson (JObj m) =>
        let* x := (let* v := member "x" m in to_float v) in
        let* y := (let* v := member "y" m in to_float v) in
        let* w := (let* v := member "w" m in to_float v) in
        let* h := (let* v := member "h" m in to_float v) in
        inr {| bx := x; by_ := y; bw := w; bh := h |}
    | SJson (JList [vx; vy; vw; vh]) =>
        let* x := to_float vx in
        let* y := to_float vy in
        let* w := to_float vw in
        let* h := to_float vh in
        inr {| bx := x; by_ := y; bw := w; bh := h |}
    | SJson (JList _) => inl (ValueError "box sequence must have 4 elements")
    | SJson _ => inl (TypeError "cannot interpret as a box")
    end in
  if negative box then inl (ValueError "box has negative extent") else inr box.

Fixpoint as_boxes (objs : list shape) : result (list Box) :=
  match objs with
  | [] => inr []
  | obj :: rest => let* b := as_box obj in let* bs := as_boxes rest in inr (b :: bs)
  end.
End boxes.

(** ** Overlap *)

Definition overlap (a1 a2 b1 b2 : Q) : Q := Qmax_py 0 (Qmin_py a2 b2 - Qmax_py a1 b1).

Definition intersection (a b : Box) : Q :=
  overlap (bx a) (x2 a) (bx b) (x2 b) * overlap (by_ a) (y2 a) (by_ b) (y2 b).

Definition union_area (a b : Box) : Q := area a + area b - intersection a b.

(** [iou] of two boxes that [as_box] accepts. *)
Definition iou_box (a b : Box) : Q :=
  if Qle_bool (union_area a b) 0 then 0 else intersection a b / union_area a b.

Definition iou (a b : Box) : result Q :=
  if negative a || negative b then inl (ValueError "box has negative extent") else inr (iou_box a b).

(** ** Matching *)

Record Match := { predicted_index : nat; truth_index : nat; m_iou : Q }.

Record Matching := {
  matches : list Match; unmatched_predicted : list nat; unmatched_truth : list nat }.

Definition Qsum (l : list Q) : Q := foldr Qplus 0 l.

Definition iou_sum (m : Matching) : Q := Qsum (m_iou <$> matches m).

(** The double loop over [enumerate(predicted)] and [enumerate(truth)]. *)
Definition row_candidates (i : nat) (p : Box) (truth : list Box) : list Match :=
  omap (λ jt : nat * Box,
          let score := iou_box p jt.2 in
          if negb (Qle_bool score 0)
          then Some {| predicted_index := i; truth_index := jt.1; m_iou := score |} else None)
    (zip (seq 0 (length truth)) truth).

Definition candidates (predicted truth : list Box) : list Match :=
  concat ((λ ip : nat * Box, row_candidates ip.1 ip.2 truth) <$>
          zip (seq 0 (length predicted)) predicted).

(** The sort key [(-iou, i, j)]. *)
Definition before (a b : Match) : Prop :=
  (m_iou b < m_iou a)%Q \/
  (m_iou a == m_iou b)%Q /\
  (predicted_index a < predicted_index b \/
   predicted_index a = predicted_index b /\ truth_index a <= truth_index b)%nat.

#[export] Instance before_dec : RelDecision before.
Proof.
  intros a b. unfold before.
  destruct (Qlt_le_dec (m_iou b) (m_iou a)) as [Hlt|Hle]; [left; by left|].
  destruct (Qlt_le_dec (m_iou a) (m_iou b)) as [Hlt|Hle'].
  { right. intros [H|[H _]]; [lra|rewrite H in Hlt; lra]. }
  destruct (decide (predicted_index a < predicted_index b \/
    predicted_index a = predicted_index b /\ truth_index a <= truth_index b)%nat) as [H|H];
    [left; right; split; [lra|done]|right; intros [H'|[_ H']]; [lra|done]].
Defined.

Fixpoint greedy (l : list Match) (chosen : list Match) (claimed_p claimed_t : gset nat)
  : list Match * gset nat * gset nat :=
  match l with
  | [] => (chosen, claimed_p, claimed_t)
  | c :: rest =>
      if bool_decide (predicted_index c ∈ claimed_p) || bool_decide (truth_index c ∈ claimed_t)
      then greedy rest chosen claimed_p claimed_t
      else greedy rest (chosen ++ [c]) ({[predicted_index c]} ∪ claimed_p)
             ({[truth_index c]} ∪ claimed_t)
  end.

Definition match_boxes (predicted truth : list Box) : Matching :=
  let '(chosen, claimed_p, claimed_t) :=
    greedy (merge_sort before (candidates predicted truth)) [] ∅ ∅ in
  {| matches := chosen;
     unmatched_predicted := filter (λ i, i ∉ claimed_p) (seq 0 (length predicted));
     unmatched_truth := filter (λ j, j ∉ claimed_t) (seq 0 (length truth)) |}.

(** ** Scores *)

Record BoxReport := {
  true_positives : nat; false_positives : nat; false_negatives : nat; r_iou_sum : Q;
  matched_count : nat; truth_count : nat; threshold : Q }.

Definition Qnat (n : nat) : Q := inject_Z (Z.of_nat n).

Definition precision (r : BoxReport) : Q :=
  let predicted := (true_positives r + false_positives r)%nat in
  if (predicted =? 0)%nat then 1 else Qnat (true_positives r) / Qnat predicted.

Definition recall (r : BoxReport) : Q :=
  let relevant := (true_positives r + false_negatives r)%nat in
  if (relevant =? 0)%nat then 1 else Qnat (true_positives r) / Qnat relevant.

Definition f1 (r : BoxReport) : Q :=
  if Qeq_bool (precision r + recall r) 0 then 0
  else 2 * precision r * recall r / (precision r + recall r).

(** [None] is [inf]. *)
Definition mean_iou (r : BoxReport) : option Q :=
  if (truth_count r =? 0)%nat then if Qeq_bool (r_iou_sum r) 0 then Some 0 else None
  else Some (r_iou_sum r / Qnat (truth_count r)).

Definition mean_matched_iou (r : BoxReport) : Q :=
  if (matched_count r =? 0)%nat then 0 else r_iou_sum r / Qnat (matched_count r).

Definition score_matching (m : Matching) (threshold : Q) : BoxReport :=
  let tp := length (filter (λ x, Qle threshold (m_iou x)) (matches m)) in
  let weak := (length (matches m) - tp)%nat in
  {| true_positives := tp;
     false_positives := length (unmatched_predicted m) + weak;
     false_negatives := length (unmatched_truth m) + weak;
     r_iou_sum := iou_sum m;
     matched_count := length (matches m);
     truth_count := length (matches m) + length (unmatched_truth m);
     threshold := threshold |}.

Definition score_boxes (to_float : json -> result Q) (predicted truth : list shape) (threshold : Q)
  : result BoxReport :=
  let* p := as_boxes to_float predicted in
  let* t := as_boxes to_float truth in
  inr (score_matching (match_boxes p t) threshold).

Definition DEFAULT_THRESHOLD : Q := 1 # 2.

Definition aggregate (reports : list BoxReport) : result BoxReport :=
  match reports with
  | [] => inr {| true_positives := 0; false_positives := 0; false_negatives := 0; r_iou_sum := 0;
                 matched_count := 0; truth_count := 0; threshold := DEFAULT_THRESHOLD |}
  | r :: _ =>
      if forallb (λ s, Qeq_bool (threshold s) (threshold r)) reports
      then inr {| true_positives := sum_list (true_positives <$> reports);
                  false_positives := sum_list (false_positives <$> reports);
                  false_negatives := sum_list (false_negatives <$> reports);
                  r_iou_sum := Qsum (r_iou_sum <$> reports);
                  matched_count := sum_list (matched_count <$> reports);
                  truth_count := sum_list (truth_count <$> reports);
                  threshold := threshold r |}
      else inl (ValueError "cannot aggregate mixed thresholds")
  end.

(** ** Geometry *)

Section geometry.
Implicit Types (a b : Box).

Lemma Qmax_py_spec p q : (p <= Qmax_py p q)%Q /\ (q <= Qmax_py p q)%Q /\
  (Qmax_py p q == p \/ Qmax_py p q == q)%Q.
Proof.
  unfold Qmax_py. destruct (Qle_bool q p) eqn:E; [apply Qle_bool_iff in E|apply Qle_bool_false in E];
    (split; [lra|split; [lra|]]); [by left|by right].
Qed.

Lemma Qmin_py_spec p q : (Qmin_py p q <= p)%Q /\ (Qmin_py p q <= q)%Q /\
  (Qmin_py p q == p \/ Qmin_py p q == q)%Q.
Proof.
  unfold Qmin_py. destruct (Qle_bool p q) eqn:E; [apply Qle_bool_iff in E|apply Qle_bool_false in E];
    (split; [lra|split; [lra|]]); [by left|by right].
Qed.

Lemma overlap_spec (a1 a2 b1 b2 : Q) : (a1 <= a2)%Q -> (b1 <= b2)%Q ->
  (0 <= overlap a1 a2 b1 b2 <= a2 - a1)%Q /\ (overlap a1 a2 b1 b2 <= b2 - b1)%Q /\
  (overlap a1 a2 b1 b2 == overlap b1 b2 a1 a2)%Q /\
  ((0 < overlap a1 a2 b1 b2)%Q <-> exists t, (a1 < t < a2 /\ b1 < t < b2)%Q).
Proof.
  intros Ha Hb. unfold overlap.
  destruct (Qmin_py_spec a2 b2) as (H1 & H2 & H3), (Qmax_py_spec a1 b1) as (H4 & H5 & H6),
    (Qmin_py_spec b2 a2) as (H1' & H2' & H3'), (Qmax_py_spec b1 a1) as (H4' & H5' & H6').
  assert (Qmin_py a2 b2 == Qmin_py b2 a2)%Q as Emin by (destruct H3, H3'; lra).
  assert (Qmax_py a1 b1 == Qmax_py b1 a1)%Q as Emax by (destruct H6, H6'; lra).
  destruct (Qmax_py_spec 0 (Qmin_py a2 b2 - Qmax_py a1 b1)) as (H7 & H8 & H9),
    (Qmax_py_spec 0 (Qmin_py b2 a2 - Qmax_py b1 a1)) as (H7' & H8' & H9').
  split; [split; destruct H9; lra|]. split; [destruct H9; lra|]. split; [destruct H9, H9'; lra|].
  split.
  - intros Hp. exists ((Qmin_py a2 b2 + Qmax_py a1 b1) * (1 # 2))%Q.
    assert (Qmax_py a1 b1 < Qmin_py a2 b2)%Q by (destruct H9; lra).
    split; split; lra.
  - intros (t & [Ht1 Ht2] & [Ht3 Ht4]). destruct H3, H6; lra.
Qed.

Definition valid b : Prop := (0 <= bw b)%Q /\ (0 <= bh b)%Q.

Lemma negative_valid b : negative b = false <-> valid b.
Proof.
  unfold negative, valid. rewrite orb_false_iff, !negb_false_iff, !Qle_bool_iff. done.
Qed.

(** The point [(x, y)] is inside the box. *)
Definition inside (x y : Q) b : Prop := (bx b < x < x2 b)%Q /\ (by_ b < y < y2 b)%Q.

Lemma intersection_spec a b : valid a -> valid b ->
  (0 <= intersection a b)%Q /\ (intersection a b <= area a)%Q /\ (intersection a b <= area b)%Q /\
  (intersection a b == intersection b a)%Q /\
  ((0 < intersection a b)%Q <-> exists x y, inside x y a /\ inside x y b).
Proof.
  intros [Ha1 Ha2] [Hb1 Hb2].
  destruct (overlap_spec (bx a) (x2 a) (bx b) (x2 b)) as (Hx1 & Hx2 & Hx3 & Hx4);
    [unfold x2; lra..|].
  destruct (overlap_spec (by_ a) (y2 a) (by_ b) (y2 b)) as (Hy1 & Hy2 & Hy3 & Hy4);
    [unfold y2; lra..|].
  assert (forall b, x2 b - bx b == bw b /\ y2 b - by_ b == bh b)%Q as He by (intros b'; unfold x2, y2; lra).
  destruct (He a), (He b). unfold intersection, area.
  set (ox := overlap (bx a) (x2 a) (bx b) (x2 b)) in *.
  set (oy := overlap (by_ a) (y2 a) (by_ b) (y2 b)) in *.
  assert (0 <= ox /\ ox <= bw a /\ ox <= bw b)%Q as (Hox0 & Hoxa & Hoxb) by lra.
  assert (0 <= oy /\ oy <= bh a /\ oy <= bh b)%Q as (Hoy0 & Hoya & Hoyb) by lra.
  split; [nra|split; [|split; [|split]]].
  - apply Qle_trans with (bw a * oy)%Q; [apply Qmult_le_compat_r; lra|]. rewrite !(Qmult_comm (bw a)).
    apply Qmult_le_compat_r; lra.
  - apply Qle_trans with (bw b * oy)%Q; [apply Qmult_le_compat_r; lra|]. rewrite !(Qmult_comm (bw b)).
    apply Qmult_le_compat_r; lra.
  - rewrite <- Hx3, <- Hy3. reflexivity.
  - split.
    + intros Hp. assert (0 < ox)%Q as Hox by (apply Qnot_le_lt; intros ?; nra).
      assert (0 < oy)%Q as Hoy by (apply Qnot_le_lt; intros ?; nra).
      apply Hx4 in Hox as (x & ? & ?). apply Hy4 in Hoy as (y & ? & ?). exists x, y. unfold inside. tauto.
    + intros (x & y & [? ?] & [? ?]). assert (0 < ox)%Q by (apply Hx4; eauto).
      assert (0 < oy)%Q by (apply Hy4; eauto). nra.
Qed.

Lemma union_spec a b : valid a -> valid b ->
  (intersection a b <= union_area a b)%Q /\ (0 < intersection a b -> 0 < union_area a b)%Q.
Proof.
  intros Ha Hb. destruct (intersection_spec a b Ha Hb) as (H0 & H1 & H2 & _).
  unfold union_area. split; lra.
Qed.

Lemma iou_box_bounds a b : valid a -> valid b -> (0 <= iou_box a b <= 1)%Q.
Proof.
  intros Ha Hb. destruct (intersection_spec a b Ha Hb) as (H0 & H1 & H2 & _).
  destruct (union_spec a b Ha Hb) as [Hu _]. unfold iou_box.
  destruct (Qle_bool _ _) eqn:E; [lra|].
  apply Qle_bool_false in E as Hp.
  split; [apply Qle_shift_div_l; lra|apply Qle_shift_div_r; lra].
Qed.

Lemma iou_box_sym a b : valid a -> valid b -> (iou_box a b == iou_box b a)%Q.
Proof.
  intros Ha Hb. destruct (intersection_spec a b Ha Hb) as (_ & _ & _ & Hs & _).
  assert (union_area a b == union_area b a)%Q as Hu by (unfold union_area; rewrite Hs; lra).
  unfold iou_box.
  assert (Qle_bool (union_area a b) 0 = Qle_bool (union_area b a) 0) as ->.
  { apply eq_true_iff_eq. rewrite !Qle_bool_iff, Hu. done. }
  destruct (Qle_bool _ _); [done|]. by rewrite Hs, Hu.
Qed.

Lemma iou_box_positive a b : valid a -> valid b ->
  (0 < iou_box a b)%Q <-> exists x y, inside x y a /\ inside x y b.
Proof.
  intros Ha Hb. destruct (intersection_spec a b Ha Hb) as (H0 & _ & _ & _ & <-).
  destruct (union_spec a b Ha Hb) as [_ Hu]. unfold iou_box.
  destruct (Qle_bool _ _) eqn:E; [apply Qle_bool_iff in E; split; [lra|intros Hp; specialize (Hu Hp); lra]|].
  apply Qle_bool_false in E as Hp.
  split; intros Hq.
  - apply Qnot_le_lt. intros Hle. assert (intersection a b == 0)%Q as Ez by lra.
    rewrite Ez in Hq. unfold Qdiv in Hq. rewrite Qmult_0_l in Hq. lra.
  - apply Qlt_shift_div_l; lra.
Qed.

Lemma iou_box_self a : valid a -> (0 < area a)%Q -> (iou_box a a == 1)%Q.
Proof.
  intros Ha Harea.
  assert (intersection a a == area a)%Q as Hi.
  { assert (forall p q, p <= q -> overlap p q p q == q - p)%Q as Ho.
    { intros p q Hpq. unfold overlap. destruct (Qmin_py_spec q q) as (_ & _ & H3),
        (Qmax_py_spec p p) as (_ & _ & H6), (Qmax_py_spec 0 (Qmin_py q q - Qmax_py p p)) as (H7 & H8 & H9).
      destruct H3, H6, H9; lra. }
    destruct Ha. unfold intersection. rewrite !Ho by (unfold x2, y2; lra). unfold area, x2, y2. ring. }
  assert (union_area a a == area a)%Q as Hu by (unfold union_area; rewrite Hi; lra).
  unfold iou_box. destruct (Qle_bool _ _) eqn:E; [apply Qle_bool_iff in E; lra|].
  rewrite Hi, Hu. field. lra.
Qed.

(** Rectangles of different areas, or without a common point, do not match wholly. *)
Lemma iou_box_smaller a b : valid a -> valid b -> (area a < area b)%Q -> (iou_box a b < 1)%Q.
Proof.
  intros Ha Hb Hlt. destruct (intersection_spec a b Ha Hb) as (H0 & H1 & H2 & _).
  unfold iou_box. destruct (Qle_bool _ _) eqn:E; [lra|]. apply Qle_bool_false in E.
  apply Qlt_shift_div_r; [done|]. unfold union_area in *. lra.
Qed.

Lemma iou_box_apart a b : valid a -> valid b -> ~ (exists x y, inside x y a /\ inside x y b) ->
  (iou_box a b < 1)%Q.
Proof.
  intros Ha Hb Hno. rewrite <- (iou_box_positive a b Ha Hb) in Hno. lra.
Qed.
End geometry.

(** ** The greedy matching *)

#[export] Instance before_trans : Transitive before.
Proof.
  intros a b c. unfold before. intros [Hab|[Hab Hi]] [Hbc|[Hbc Hj]]; [left; lra|left; lra|left; lra|].
  right. split; [lra|]. lia.
Qed.

#[export] Instance before_total : Total before.
Proof.
  intros a b. unfold before.
  destruct (Qlt_le_dec (m_iou b) (m_iou a)); [by left; left|].
  destruct (Qlt_le_dec (m_iou a) (m_iou b)); [by right; left|].
  assert (m_iou a == m_iou b)%Q by lra. assert (m_iou b == m_iou a)%Q by lra.
  destruct (decide (predicted_index a < predicted_index b \/
    predicted_index a = predicted_index b /\ truth_index a <= truth_index b)%nat); [left|right];
    right; (split; [done|]); lia.
Qed.

Lemma before_iou a b : before a b -> (m_iou b <= m_iou a)%Q.
Proof. intros [H|[H _]]; lra. Qed.

Lemma elem_of_row_candidates i p truth c :
  c ∈ row_candidates i p truth <->
  predicted_index c = i /\ exists t, truth !! truth_index c = Some t /\
    m_iou c = iou_box p t /\ Qle_bool (m_iou c) 0 = false.
Proof.
  unfold row_candidates. rewrite list_elem_of_omap. split.
  - intros ([j t] & Hin & Hc). cbn in Hc.
    apply elem_of_lookup_zip_with in Hin as (k & j' & t' & [= -> ->] & Hj & Ht).
    apply lookup_seq in Hj as [-> _].
    destruct (Qle_bool (iou_box p t') 0) eqn:E; [done|]. injection Hc as <-. cbn. split; [done|].
    exists t'. by split_and!.
  - intros (<- & t & Ht & Hm & Hp). exists (truth_index c, t). split.
    + apply elem_of_lookup_zip_with. exists (truth_index c), (truth_index c), t. split_and!; [done| |done].
      apply lookup_seq. split; [done|]. by eapply lookup_lt_Some.
    + cbn. rewrite <- Hm, Hp. cbn. by destruct c.
Qed.

Lemma elem_of_candidates predicted truth c :
  c ∈ candidates predicted truth <->
  exists p t, predicted !! predicted_index c = Some p /\ truth !! truth_index c = Some t /\
    m_iou c = iou_box p t /\ Qle_bool (m_iou c) 0 = false.
Proof.
  unfold candidates. rewrite list_elem_of_In, in_concat. setoid_rewrite <- list_elem_of_In. split.
  - intros (l & Hl & Hc). apply list_elem_of_fmap in Hl as ([i p] & -> & Hin).
    apply elem_of_lookup_zip_with in Hin as (k & i' & p' & [= -> ->] & Hi & Hp).
    apply lookup_seq in Hi as [-> _]. apply elem_of_row_candidates in Hc as (-> & t & Ht & Hm & Hq).
    by exists p', t.
  - intros (p & t & Hp & Ht & Hm & Hq). exists (row_candidates (predicted_index c) p truth). split; [|apply elem_of_row_candidates; eauto].
    apply list_elem_of_fmap. exists (predicted_index c, p). split; [done|].
    apply elem_of_lookup_zip_with. exists (predicted_index c), (predicted_index c), p.
    split_and!; [done| |done]. apply lookup_seq. split; [done|]. by eapply lookup_lt_Some.
Qed.

Record claims_ok (chosen : list Match) (cp ct : gset nat) : Prop := {
  co_p : forall i, i ∈ cp <-> i ∈ (predicted_index <$> chosen);
  co_t : forall j, j ∈ ct <-> j ∈ (truth_index <$> chosen);
  co_nodup_p : NoDup (predicted_index <$> chosen);
  co_nodup_t : NoDup (truth_index <$> chosen) }.

(** [c] is blocked by a match of one of its boxes that is no worse. *)
Definition blocked (chosen : list Match) (c : Match) : Prop :=
  exists m, m ∈ chosen /\ (predicted_index m = predicted_index c \/ truth_index m = truth_index c) /\
    before m c.

Lemma claims_ok_snoc chosen cp ct c : claims_ok chosen cp ct ->
  predicted_index c ∉ cp -> truth_index c ∉ ct ->
  claims_ok (chosen ++ [c]) ({[predicted_index c]} ∪ cp) ({[truth_index c]} ∪ ct).
Proof.
  intros [Hp Ht Hnp Hnt] Hc Hd. split.
  - intros i. rewrite fmap_app, elem_of_app, elem_of_union, Hp, elem_of_singleton.
    simpl. rewrite list_elem_of_singleton. tauto.
  - intros j. rewrite fmap_app, elem_of_app, elem_of_union, Ht, elem_of_singleton.
    simpl. rewrite list_elem_of_singleton. tauto.
  - rewrite fmap_app. apply NoDup_app. split_and!; [done| |apply NoDup_singleton].
    intros x Hx ->%list_elem_of_singleton. by apply Hc, Hp.
  - rewrite fmap_app. apply NoDup_app. split_and!; [done| |apply NoDup_singleton].
    intros x Hx ->%list_elem_of_singleton. by apply Hd, Ht.
Qed.

Lemma greedy_spec l : forall chosen cp ct,
  claims_ok chosen cp ct -> StronglySorted before l ->
  (forall m c, m ∈ chosen -> c ∈ l -> before m c) ->
  let '(chosen', cp', ct') := greedy l chosen cp ct in
  claims_ok chosen' cp' ct' /\ (forall m, m ∈ chosen -> m ∈ chosen') /\
  (forall m, m ∈ chosen' -> m ∈ chosen \/ m ∈ l) /\
  (forall c, c ∈ l -> c ∈ chosen' \/ blocked chosen' c).
Proof.
  induction l as [|c l IH]; intros chosen cp ct Hok Hs Hb; cbn [greedy].
  { split_and!; auto. by intros c ?%elem_of_nil. }
  apply StronglySorted_inv in Hs as [Hs Hc]. rewrite Forall_forall in Hc.
  destruct (bool_decide _ || bool_decide _) eqn:E.
  - specialize (IH chosen cp ct Hok Hs (λ m d Hm Hd, Hb m d Hm (list_elem_of_further _ _ _ Hd))).
    destruct (greedy l chosen cp ct) as [[chosen' cp'] ct']. destruct IH as (H1 & H2 & H3 & H4).
    split_and!; [done|done|intros m Hm; destruct (H3 m Hm); [by left|right; by apply list_elem_of_further]|].
    intros d [->|Hd]%elem_of_cons; [|by apply H4]. right.
    apply orb_true_iff in E as [E|E]; apply bool_decide_eq_true in E.
    + apply (co_p _ _ _ Hok), list_elem_of_fmap in E as (m & Hm & Hin). exists m.
      split_and!; [auto|by left|apply Hb; [done|apply list_elem_of_here]].
    + apply (co_t _ _ _ Hok), list_elem_of_fmap in E as (m & Hm & Hin). exists m.
      split_and!; [auto|by right|apply Hb; [done|apply list_elem_of_here]].
  - apply orb_false_iff in E as [E1 E2]. apply bool_decide_eq_false in E1, E2.
    pose proof (claims_ok_snoc _ _ _ c Hok E1 E2) as Hok'.
    assert (forall m d, m ∈ chosen ++ [c] -> d ∈ l -> before m d) as Hb'.
    { intros m d [Hm|Hm]%elem_of_app Hd; [apply Hb; [done|by apply list_elem_of_further]|].
      apply list_elem_of_singleton in Hm as ->. by apply Hc. }
    specialize (IH _ _ _ Hok' Hs Hb').
    destruct (greedy l _ _ _) as [[chosen' cp'] ct']. destruct IH as (H1 & H2 & H3 & H4).
    assert (forall m, m ∈ chosen ++ [c] -> m ∈ chosen') as H2' by done.
    split_and!; [done|intros m Hm; apply H2', elem_of_app; by left| |].
    + intros m Hm. destruct (H3 m Hm) as [Hm'|Hm']; [|right; by apply list_elem_of_further].
      apply elem_of_app in Hm' as [Hm'|Hm']; [by left|]. apply list_elem_of_singleton in Hm' as ->.
      right. apply list_elem_of_here.
    + intros d [->|Hd]%elem_of_cons; [left; apply H2', elem_of_app; right; apply list_elem_of_here|].
      by apply H4.
Qed.

(** The matching of two lists of boxes. *)
Lemma match_boxes_spec predicted truth :
  let m := match_boxes predicted truth in
  exists cp ct, claims_ok (matches m) cp ct /\
    unmatched_predicted m = filter (λ i, i ∉ cp) (seq 0 (length predicted)) /\
    unmatched_truth m = filter (λ j, j ∉ ct) (seq 0 (length truth)) /\
    (forall c, c ∈ matches m -> c ∈ candidates predicted truth) /\
    (forall c, c ∈ candidates predicted truth -> c ∈ matches m \/ blocked (matches m) c).
Proof.
  unfold match_boxes.
  pose proof (greedy_spec (merge_sort before (candidates predicted truth)) [] ∅ ∅) as Hg.
  destruct (greedy _ [] ∅ ∅) as [[chosen cp] ct]. cbn.
  destruct Hg as (H1 & _ & H3 & H4).
  - split; [set_solver|set_solver|constructor|constructor].
  - apply (StronglySorted_merge_sort before).
  - by intros m c ?%elem_of_nil.
  - exists cp, ct. split_and!; [done..| |].
    + intros c Hc. destruct (H3 c Hc) as [Hn|Hc']; [by apply elem_of_nil in Hn|].
      by rewrite merge_sort_Permutation in Hc'.
    + intros c Hc. apply H4. by rewrite merge_sort_Permutation.
Qed.

(** Indices of a duplicate-free part of a range, and the rest. *)
Lemma length_rest (n : nat) (used : list nat) (cl : gset nat) :
  NoDup used -> (forall i, i ∈ used -> i < n)%nat -> (forall i, i ∈ cl <-> i ∈ used) ->
  (length used + length (filter (λ i, i ∉ cl) (seq 0 n)) = n)%nat.
Proof.
  intros Hn Hu Hc.
  assert (used ≡ₚ filter (λ i, i ∈ cl) (seq 0 n)) as ->.
  { apply NoDup_Permutation; [done|apply NoDup_filter, NoDup_seq|].
    intros i. rewrite list_elem_of_filter, elem_of_seq, Hc. split; [|tauto].
    intros Hi. specialize (Hu i Hi). split; [done|lia]. }
  rewrite <- (length_seq n 0) at 3. generalize (seq 0 n). intros l.
  induction l as [|i l IH]; [done|]. rewrite !filter_cons. simpl.
  destruct (decide (i ∈ cl)) as [Hi|Hi]; destruct (decide (i ∉ cl)); [tauto| | |tauto]; simpl; lia.
Qed.

(** A page against itself: every box is matched with itself. *)
Section self.
Context (bs : list Box) (Hvalid : Forall (λ b, valid b /\ (0 < area b)%Q) bs).
Context (Hapart : forall i j a b, bs !! i = Some a -> bs !! j = Some b -> i <> j -> (iou_box a b < 1)%Q).

Lemma self_pair c : c ∈ candidates bs bs -> (1 <= m_iou c)%Q -> predicted_index c = truth_index c.
Proof using Hapart.
  intros Hc Hle. apply elem_of_candidates in Hc as (p & t & Hp & Ht & Hm & _).
  destruct (decide (predicted_index c = truth_index c)) as [|Hne]; [done|].
  pose proof (Hapart _ _ _ _ Hp Ht Hne). rewrite Hm in Hle. lra.
Qed.

Lemma self_matched i b : bs !! i = Some b ->
  {| predicted_index := i; truth_index := i; m_iou := iou_box b b |} ∈ matches (match_boxes bs bs).
Proof using Hvalid Hapart.
  intros Hi. destruct (match_boxes_spec bs bs) as (cp & ct & Hok & _ & _ & Hin & Hbl).
  pose proof (proj1 (Forall_lookup _ _) Hvalid i b Hi) as [Hv Ha].
  pose proof (iou_box_self b Hv Ha) as Hone. set (c := Build_Match i i _).
  assert (c ∈ candidates bs bs) as Hc.
  { apply elem_of_candidates. exists b, b. split_and!; [done..|]. apply not_true_iff_false.
    intros E%Qle_bool_iff. cbn in E. lra. }
  destruct (Hbl c Hc) as [|(d & Hd & Hij & Hbe)]; [done|]. apply before_iou in Hbe. cbn in Hbe, Hij.
  assert (predicted_index d = truth_index d) as Hdiag by (apply self_pair; [by apply Hin|lra]).
  destruct (proj1 (elem_of_candidates _ _ _) (Hin d Hd)) as (p & t & Hp & Ht & Hm & _).
  assert (d = c) as <-; [|done]. destruct d as [di dj q]. cbn in *. subst dj.
  assert (di = i) as -> by tauto. assert (p = b) as -> by congruence. assert (t = b) as -> by congruence.
  unfold c. by rewrite Hm.
Qed.

(** The matching is the identity. *)
Lemma self_matching c : c ∈ matches (match_boxes bs bs) <->
  exists i b, bs !! i = Some b /\ c = {| predicted_index := i; truth_index := i; m_iou := iou_box b b |}.
Proof using Hvalid Hapart.
  split; [|intros (i & b & Hi & ->); by apply self_matched].
  intros Hc. destruct (match_boxes_spec bs bs) as (cp & ct & Hok & _ & _ & Hin & _).
  destruct (proj1 (elem_of_candidates _ _ _) (Hin c Hc)) as (p & t & Hp & _). exists (predicted_index c), p.
  split; [done|]. pose proof (self_matched _ _ Hp) as Hself. apply list_elem_of_lookup in Hc as [k Hk], Hself as [l Hl].
  assert (k = l) as ->.
  { eapply (NoDup_lookup (predicted_index <$> matches (match_boxes bs bs))); [apply Hok|..];
      rewrite list_lookup_fmap; [by rewrite Hk|by rewrite Hl]. }
  congruence.
Qed.

Lemma self_ones : Forall (λ c, m_iou c == 1)%Q (matches (match_boxes bs bs)).
Proof using Hvalid Hapart.
  apply Forall_forall. intros c (i & b & Hi & ->)%self_matching. simpl.
  pose proof (proj1 (Forall_lookup _ _) Hvalid i b Hi) as [Hv Ha]. by apply iou_box_self.
Qed.

Lemma self_counts : let m := match_boxes bs bs in
  length (matches m) = length bs /\ unmatched_predicted m = [] /\ unmatched_truth m = [].
Proof using Hvalid Hapart.
  destruct (match_boxes_spec bs bs) as (cp & ct & Hok & Hup & Hut & Hin & _). cbv zeta.
  assert (forall i, i ∈ seq 0 (length bs) -> i ∈ cp /\ i ∈ ct) as Hall.
  { intros i Hi%elem_of_seq. destruct (lookup_lt_is_Some_2 bs i) as [b Hb]; [lia|].
    pose proof (self_matched i b Hb) as Hm.
    split; [apply (co_p _ _ _ Hok)|apply (co_t _ _ _ Hok)];
      apply list_elem_of_fmap; by eexists; split; [|exact Hm]. }
  assert (unmatched_predicted (match_boxes bs bs) = []) as Eup.
  { rewrite Hup. apply elem_of_nil_inv. intros i [Hno Hi]%list_elem_of_filter. by apply Hno, Hall. }
  split; [|split; [done|]].
  - pose proof (length_rest (length bs) (predicted_index <$> matches (match_boxes bs bs)) cp
      (co_nodup_p _ _ _ Hok)) as Hl.
    rewrite <- Hup, Eup, length_fmap in Hl. simpl in Hl. rewrite Nat.add_0_r in Hl. apply Hl; [|apply Hok].
    intros i (c & -> & (j & b & Hj%lookup_lt_Some & ->)%self_matching)%list_elem_of_fmap. done.
  - rewrite Hut. apply elem_of_nil_inv. intros i [Hno Hi]%list_elem_of_filter. by apply Hno, Hall.
Qed.

Lemma self_report th : (th <= 1)%Q ->
  let r := score_matching (match_boxes bs bs) th in
  true_positives r = length bs /\ false_positives r = 0%nat /\ false_negatives r = 0%nat /\
  truth_count r = length bs /\ matched_count r = length bs /\ (r_iou_sum r == Qnat (length bs))%Q.
Proof using Hvalid Hapart.
  intros Hth. destruct self_counts as (Elen & Eup & Eut). pose proof self_ones as Hones.
  set (m := match_boxes bs bs) in *.
  assert (filter (λ x, (th <= m_iou x)%Q) (matches m) = matches m) as Ef.
  { clear - Hones Hth. induction Hones as [|c l Hc _ IH]; [done|].
    rewrite filter_cons_True by (rewrite Hc; done). by rewrite IH. }
  unfold score_matching. cbn zeta. rewrite Ef, Eup, Eut. cbn. rewrite Nat.sub_diag.
  split_and!; [done..|lia|done|]. unfold iou_sum. rewrite <- Elen. clear - Hones.
  induction Hones as [|c l Hc _ IH]; [done|]. rewrite fmap_cons. cbn [Qsum foldr]. fold (Qsum (m_iou <$> l)).
  rewrite IH, Hc. unfold Qnat. cbn [length]. rewrite Nat2Z.inj_succ, <- Z.add_1_l, inject_Z_plus. done.
Qed.
End self.

(** ** Properties *)

(** the overlap ratio: a rectangle is accepted exactly when its extents are not
    negative; for two accepted ones the ratio is a number of [0, 1], symmetric,
    positive exactly when some point lies inside both - so diagonally disjoint
    boxes score zero - and a box of positive area scores one against itself. *)
Theorem iou_meaning a b :
  if negative a || negative b then exists m, iou a b = inl (ValueError m)
  else exists q, iou a b = inr q /\ (0 <= q <= 1)%Q /\
    (exists q', iou b a = inr q' /\ q == q')%Q /\
    ((0 < q)%Q <-> exists x y, inside x y a /\ inside x y b) /\
    (a = b -> (0 < area a)%Q -> (q == 1)%Q).
Proof.
  destruct (negative a || negative b) eqn:E; [unfold iou; rewrite E; by eexists|].
  exists (iou_box a b). unfold iou. rewrite E, (orb_comm (negative b)), E.
  apply orb_false_iff in E as [Ha%negative_valid Hb%negative_valid].
  split; [done|]. split; [by apply iou_box_bounds|]. split; [eexists; split; [done|by apply iou_box_sym]|].
  split; [by apply iou_box_positive|]. intros <- Harea.
  by apply iou_box_self.
Qed.

(** the matching is one-to-one, and greedy on the ratio: no box is used twice,
    each match is a pair of overlapping boxes with its ratio, and any other
    overlapping pair shares a box with a match whose ratio is at least as high -
    in particular the two are never both unmatched. *)
Theorem matching_stable predicted truth :
  let m := match_boxes predicted truth in
  NoDup (predicted_index <$> matches m) /\ NoDup (truth_index <$> matches m) /\
  (forall c, c ∈ matches m -> exists p t, predicted !! predicted_index c = Some p /\
     truth !! truth_index c = Some t /\ m_iou c = iou_box p t /\ (0 < m_iou c)%Q) /\
  (forall i j p t, predicted !! i = Some p -> truth !! j = Some t -> (0 < iou_box p t)%Q ->
     exists c, c ∈ matches m /\ (predicted_index c = i \/ truth_index c = j) /\
       (iou_box p t <= m_iou c)%Q /\
       ~ (i ∈ unmatched_predicted m /\ j ∈ unmatched_truth m)).
Proof.
  destruct (match_boxes_spec predicted truth) as (cp & ct & Hok & Hup & Hut & Hin & Hbl).
  split_and!; [apply Hok|apply Hok| |].
  - intros c Hc. apply Hin, elem_of_candidates in Hc as (p & t & Hp & Ht & Hm & Hq).
    exists p, t. split_and!; [done..|by apply Qle_bool_false].
  - intros i j p t Hp Ht Hq.
    set (c := {| predicted_index := i; truth_index := j; m_iou := iou_box p t |}).
    assert (c ∈ candidates predicted truth) as Hc.
    { apply elem_of_candidates. exists p, t. split_and!; [done..|]. apply not_true_iff_false.
      intros E%Qle_bool_iff. cbn in E. lra. }
    assert (exists d, d ∈ matches (match_boxes predicted truth) /\
      (predicted_index d = i \/ truth_index d = j) /\ (iou_box p t <= m_iou d)%Q) as (d & Hd & Hij & Hle).
    { destruct (Hbl c Hc) as [Hm|(d & Hd & Hij & Hbe)]; [exists c; split; [done|]; split; [by left|]; apply Qle_refl|].
      exists d. split_and!; [done|done|]. by apply before_iou in Hbe. }
    exists d. split_and!; [done|done|done|]. rewrite Hup, Hut, !list_elem_of_filter.
    intros [[Hi _] [Hj _]]. destruct Hij as [<-|<-].
    + by apply Hi, (co_p _ _ _ Hok), list_elem_of_fmap_2.
    + by apply Hj, (co_t _ _ _ Hok), list_elem_of_fmap_2.
Qed.

(** the counts add up: every predicted box is a true or a false positive, every
    ground-truth box found or missed; precision and recall are numbers of
    [0, 1]. *)
Theorem report_adds_up predicted truth th :
  let r := score_matching (match_boxes predicted truth) th in
  (true_positives r + false_positives r = length predicted)%nat /\
  (true_positives r + false_negatives r = length truth)%nat /\
  truth_count r = length truth /\
  (0 <= precision r <= 1)%Q /\ (0 <= recall r <= 1)%Q.
Proof.
  destruct (match_boxes_spec predicted truth) as (cp & ct & Hok & Hup & Hut & Hin & _).
  unfold score_matching. cbn zeta. set (tp := length (filter _ _)).
  assert (tp <= length (matches (match_boxes predicted truth)))%nat as Htp by apply length_filter.
  cbn [true_positives false_positives false_negatives truth_count].
  assert (length (matches (match_boxes predicted truth)) +
    length (unmatched_predicted (match_boxes predicted truth)) = length predicted)%nat as Hp.
  { rewrite Hup, <- (length_fmap predicted_index). apply length_rest; [apply Hok| |apply Hok].
    intros i (c & -> & Hc)%list_elem_of_fmap. apply Hin, elem_of_candidates in Hc as (p & t & Hp & _).
    by eapply lookup_lt_Some. }
  assert (length (matches (match_boxes predicted truth)) +
    length (unmatched_truth (match_boxes predicted truth)) = length truth)%nat as Ht.
  { rewrite Hut, <- (length_fmap truth_index). apply length_rest; [apply Hok| |apply Hok].
    intros i (c & -> & Hc)%list_elem_of_fmap. apply Hin, elem_of_candidates in Hc as (p & t & _ & Ht & _).
    by eapply lookup_lt_Some. }
  assert (forall a b : nat, ~ (a + b = 0)%nat -> (0 <= Qnat a / Qnat (a + b) <= 1)%Q) as Hrate.
  { intros a b Hab. unfold Qnat.
    assert (0 < inject_Z (Z.of_nat (a + b)))%Q by (change 0%Q with (inject_Z 0); rewrite <- Zlt_Qlt; lia).
    assert (0 <= inject_Z (Z.of_nat a))%Q by (change 0%Q with (inject_Z 0); rewrite <- Zle_Qle; lia).
    assert (inject_Z (Z.of_nat a) <= inject_Z (Z.of_nat (a + b)))%Q by (rewrite <- Zle_Qle; lia).
    split; [apply Qle_shift_div_l; lra|apply Qle_shift_div_r; lra]. }
  split; [lia|]. split; [lia|]. split; [done|].
  unfold precision, recall. cbn [true_positives false_positives false_negatives].
  split; (destruct (_ =? _)%nat eqn:E; [lra|]); apply Nat.eqb_neq in E; by apply Hrate.
Qed.
