(* ===== verification/Forests.v ===== *)
(** * Ordered forests, edit scripts and postorder

    The reference against which the tree edit distance is verified: rose trees,
    the edit scripts between ordered forests and their least cost, and the
    postorder numbering in which a subtree is a range of indices. *)

From S2P Require Import Prelude.

#[warnings="-register-all"]
Inductive rose (L : Type) : Type := Rose (label : L) (kids : list (rose L)).
Arguments Rose {L} label kids.

Abbreviation forest L := (list (rose L)).

Section rose_ind.
Context {L : Type} (P : rose L -> Prop) (H : forall a ks, Forall P ks -> P (Rose a ks)).

Fixpoint rose_rect' (t : rose L) : P t :=
  match t with
  | Rose a ks => H a ks ((fix go ks := match ks return Forall P ks with
                                       | [] => Forall_nil_2 _
                                       | k :: ks' => Forall_cons_2 _ _ _ (rose_rect' k) (go ks')
                                       end) ks)
  end.
End rose_ind.

(** ** Edit scripts *)

Section scripts.
Context {L : Type} (eqb : L -> L -> bool).
Implicit Types (F G : forest L) (n m : nat).

(** [script F G n]: turning [F] into [G] by deleting and inserting rightmost roots
    (a deleted root leaves its children, an inserted one adopts) and by matching
    the rightmost roots of both, whose children are then turned into one another
    - at no cost when the labels agree, at cost one when they do not. *)
Inductive script : forest L -> forest L -> nat -> Prop :=
| script_nil : script [] [] 0
| script_delete F a K G n : script (F ++ K) G n -> script (F ++ [Rose a K]) G (S n)
| script_insert F G b M n : script F (G ++ M) n -> script F (G ++ [Rose b M]) (S n)
| script_keep F a K G b M n m :
    script F G n -> script K M m ->
    script (F ++ [Rose a K]) (G ++ [Rose b M]) (n + m + if eqb a b then 0 else 1).

(** The least cost. *)
Definition dist F G n : Prop := script F G n /\ forall m, script F G m -> n <= m.

Lemma script_app F1 G1 n F2 G2 m : script F1 G1 n -> script F2 G2 m -> script (F1 ++ F2) (G1 ++ G2) (n + m).
Proof.
  intros H1. induction 1 as [|F a K G k Hs IH|F G b M k Hs IH|F a K G b M k l Hs IH Hk IHk].
  - by rewrite !app_nil_r, Nat.add_0_r.
  - rewrite app_assoc, Nat.add_succ_r. apply script_delete. by rewrite <- app_assoc.
  - rewrite app_assoc, Nat.add_succ_r. apply script_insert. by rewrite <- app_assoc.
  - rewrite !app_assoc. replace (n + (k + l + _)) with (n + k + l + if eqb a b then 0 else 1) by lia.
    by apply script_keep.
Qed.

(** Inversion at the rightmost roots. *)
Lemma script_snoc_inv F a K G b M n : script (F ++ [Rose a K]) (G ++ [Rose b M]) n ->
  (exists k, n = S k /\ script (F ++ K) (G ++ [Rose b M]) k) \/
  (exists k, n = S k /\ script (F ++ [Rose a K]) (G ++ M) k) \/
  (exists k l, n = (k + l + if eqb a b then 0 else 1) /\ script F G k /\ script K M l).
Proof.
  inversion 1 as [E1 E2|F' a' K' G' k Hs E1|F' G' b' M' k Hs E1 E2|F' a' K' G' b' M' k l Hs Hk E1 E2].
  - by destruct F.
  - apply app_inj_tail in E1 as [-> [= -> ->]]. left. eauto.
  - apply app_inj_tail in E2 as [-> [= -> ->]]. right. left. eauto.
  - apply app_inj_tail in E1 as [-> [= -> ->]]. apply app_inj_tail in E2 as [-> [= -> ->]].
    right. right. eauto.
Qed.

Lemma script_nil_l_inv G b M n : script [] (G ++ [Rose b M]) n ->
  exists k, n = S k /\ script [] (G ++ M) k.
Proof.
  inversion 1 as [E1 E2|F' a' K' G' k Hs E1|F' G' b' M' k Hs E1 E2|F' a' K' G' b' M' k l Hs Hk E1 E2];
    try (by destruct G); try (by destruct F').
  apply app_inj_tail in E2 as [-> [= -> ->]]. eauto.
Qed.

Lemma script_nil_r_inv F a K n : script (F ++ [Rose a K]) [] n ->
  exists k, n = S k /\ script (F ++ K) [] k.
Proof.
  inversion 1 as [E1 E2|F' a' K' G' k Hs E1|F' G' b' M' k Hs E1 E2|F' a' K' G' b' M' k l Hs Hk E1 E2];
    try (by destruct F); try (by destruct G').
  apply app_inj_tail in E1 as [-> [= -> ->]]. eauto.
Qed.

Lemma dist_nil : dist [] [] 0.
Proof. split; [constructor|lia]. Qed.

Lemma dist_nil_l G b M n : dist [] (G ++ M) n -> dist [] (G ++ [Rose b M]) (S n).
Proof.
  intros [Hs Hm]. split; [by constructor|]. intros m (k & -> & Hk)%script_nil_l_inv.
  specialize (Hm _ Hk). lia.
Qed.

Lemma dist_nil_r F a K n : dist (F ++ K) [] n -> dist (F ++ [Rose a K]) [] (S n).
Proof.
  intros [Hs Hm]. split; [by constructor|]. intros m (k & -> & Hk)%script_nil_r_inv.
  specialize (Hm _ Hk). lia.
Qed.

(** The recurrence, for a pair of forests and for a pair of trees. *)
Lemma dist_forest F a K G b M d1 d2 d3 d4 :
  dist (F ++ K) (G ++ [Rose b M]) d1 -> dist (F ++ [Rose a K]) (G ++ M) d2 ->
  dist F G d3 -> dist [Rose a K] [Rose b M] d4 ->
  dist (F ++ [Rose a K]) (G ++ [Rose b M]) (Nat.min (Nat.min (S d1) (S d2)) (d3 + d4)).
Proof.
  intros [H1 M1] [H2 M2] [H3 M3] [H4 M4]. split.
  - destruct (Nat.min_spec (Nat.min (S d1) (S d2)) (d3 + d4)) as [[_ ->]|[_ ->]]; [|by apply script_app].
    destruct (Nat.min_spec (S d1) (S d2)) as [[_ ->]|[_ ->]]; by constructor.
  - intros n [(k & -> & Hk)|[(k & -> & Hk)|(k & l & -> & Hk & Hl)]]%script_snoc_inv.
    + specialize (M1 _ Hk). lia.
    + specialize (M2 _ Hk). lia.
    + specialize (M3 _ Hk). pose proof (script_keep [] a K [] b M 0 l script_nil Hl) as Hs.
      specialize (M4 _ Hs). lia.
Qed.

Lemma dist_tree a K b M d1 d2 d3 :
  dist K [Rose b M] d1 -> dist [Rose a K] M d2 -> dist K M d3 ->
  dist [Rose a K] [Rose b M] (Nat.min (Nat.min (S d1) (S d2)) (d3 + if eqb a b then 0 else 1)).
Proof.
  intros [H1 M1] [H2 M2] [H3 M3]. split.
  - destruct (Nat.min_spec (Nat.min (S d1) (S d2)) (d3 + if eqb a b then 0 else 1)) as [[_ ->]|[_ ->]];
      [|by apply (script_keep [] a K [] b M 0 d3 script_nil)].
    destruct (Nat.min_spec (S d1) (S d2)) as [[_ ->]|[_ ->]];
      [by apply (script_delete [] a K)|by apply (script_insert _ [] b M)].
  - intros n Hn. apply (script_snoc_inv [] a K [] b M) in Hn
      as [(k & -> & Hk)|[(k & -> & Hk)|(k & l & -> & Hk & Hl)]].
    + specialize (M1 _ Hk). lia.
    + specialize (M2 _ Hk). lia.
    + specialize (M3 _ Hl). lia.
Qed.

Lemma dist_unique F G n m : dist F G n -> dist F G m -> n = m.
Proof. intros [Hn Mn] [Hm Mm]. specialize (Mn _ Hm). specialize (Mm _ Hn). lia. Qed.
End scripts.

(** ** Sizes and postorder *)

Section postorder.
Context {L : Type}.
Implicit Types (t : rose L) (F G K : forest L).

Fixpoint tsize t : nat := match t with Rose _ ks => S (sum_list (tsize <$> ks)) end.
Definition fsize F : nat := sum_list (tsize <$> F).

(** Levels of a tree and of a forest. *)
Fixpoint theight t : nat := match t with Rose _ ks => S (max_list (theight <$> ks)) end.
Definition fheight F : nat := max_list (theight <$> F).

Lemma fheight_cons t F : fheight (t :: F) = Nat.max (theight t) (fheight F).
Proof. done. Qed.

Lemma theight_rose a K : theight (Rose a K) = S (fheight K).
Proof. done. Qed.

Lemma fsize_app F G : fsize (F ++ G) = fsize F + fsize G.
Proof. unfold fsize. rewrite fmap_app. induction (tsize <$> F) as [|n l IH]; simpl; [done|]. lia. Qed.

Lemma fsize_rose a K : fsize [Rose a K] = S (fsize K).
Proof. unfold fsize. simpl. lia. Qed.

(** The nodes of a tree in postorder, the first one numbered [s]: each with its
    label and the number of its leftmost leaf, which is where its subtree begins. *)
Fixpoint post (s : nat) t : list (L * nat) :=
  match t with
  | Rose a ks =>
      (fix posts (s : nat) (ks : forest L) : list (L * nat) :=
         match ks with
         | [] => []
         | k :: ks' => post s k ++ posts (s + tsize k) ks'
         end) s ks ++ [(a, s)]
  end.

Fixpoint posts (s : nat) F : list (L * nat) :=
  match F with
  | [] => []
  | k :: F' => post s k ++ posts (s + tsize k) F'
  end.

Lemma post_rose s a K : post s (Rose a K) = posts s K ++ [(a, s)].
Proof. done. Qed.

Lemma posts_app s F G : posts s (F ++ G) = posts s F ++ posts (s + fsize F) G.
Proof.
  revert s. induction F as [|k F IH]; intros s; [by rewrite Nat.add_0_r|].
  cbn [app posts]. rewrite IH, <- app_assoc. do 2 f_equal. unfold fsize. cbn [fmap list_fmap sum_list sum_list_with]. unfold fsize. f_equal. simpl. lia.
Qed.

Lemma length_post t : forall s, length (post s t) = tsize t.
Proof.
  induction t as [a ks IH] using rose_rect'. intros s. rewrite post_rose, length_app. simpl.
  assert (length (posts s ks) = sum_list (tsize <$> ks)) as ->; [|lia].
  revert s. induction IH as [|k ks Hk _ IH]; intros s; [done|]. simpl. by rewrite length_app, Hk, IH.
Qed.

Lemma length_posts F : forall s, length (posts s F) = fsize F.
Proof.
  induction F as [|k F IH]; intros s; [done|]. simpl. rewrite length_app, length_post, IH. done.
Qed.

(** The rightmost root comes last. *)
Lemma posts_snoc s F a K :
  posts s (F ++ [Rose a K]) = posts s F ++ posts (s + fsize F) K ++ [(a, s + fsize F)].
Proof. rewrite posts_app. cbn [posts]. by rewrite app_nil_r, post_rose. Qed.

Lemma posts_snoc_prefix s F a K :
  posts s (F ++ [Rose a K]) = posts s (F ++ K) ++ [(a, s + fsize F)].
Proof. by rewrite posts_snoc, posts_app, <- app_assoc. Qed.

Lemma forest_snoc F : F = [] \/ exists F' a K, F = F' ++ [Rose a K].
Proof. destruct F as [|[a K] F _] using rev_ind; [by left|right; eauto]. Qed.

Lemma posts_inj n : forall s F G, fsize F <= n -> posts s F = posts s G -> F = G.
Proof.
  induction n as [|n IH]; intros s F G Hn E.
  - destruct (forest_snoc F) as [->|(F' & a & K & ->)]; [|rewrite fsize_app, fsize_rose in Hn; lia].
    destruct (forest_snoc G) as [->|(G' & b & M & ->)]; [done|].
    rewrite posts_snoc_prefix in E. by destruct (posts s (G' ++ M)).
  - destruct (forest_snoc F) as [->|(F' & a & K & ->)], (forest_snoc G) as [->|(G' & b & M & ->)];
      [done| | |].
    + rewrite posts_snoc_prefix in E. by destruct (posts s (G' ++ M)).
    + rewrite posts_snoc_prefix in E. by destruct (posts s (F' ++ K)).
    + rewrite !posts_snoc in E. rewrite !app_assoc in E.
      apply app_inj_tail in E as [E [= -> Hs]]. assert (fsize F' = fsize G') as Hf by lia.
      rewrite fsize_app, fsize_rose in Hn.
      apply app_inj_1 in E as [E1 E2]; [|by rewrite !length_posts].
      rewrite Hf in E2. apply IH in E1 as ->; [|lia]. apply IH in E2 as ->; [done|lia].
Qed.
End postorder.

(** Emptying a forest, and filling one, costs its size. *)
Section empty.
Context {L : Type} (eqb : L -> L -> bool).

Lemma dist_empty_r (F : forest L) : dist eqb F [] (fsize F).
Proof.
  remember (fsize F) as n eqn:E. revert F E. induction n as [|n IH]; intros F E;
    (destruct (forest_snoc F) as [->|(F' & a & K & ->)]; [|rewrite fsize_app, fsize_rose in E]).
  - apply dist_nil.
  - lia.
  - done.
  - apply dist_nil_r, IH. rewrite fsize_app. lia.
Qed.

Lemma dist_empty_l (G : forest L) : dist eqb [] G (fsize G).
Proof.
  remember (fsize G) as n eqn:E. revert G E. induction n as [|n IH]; intros G E;
    (destruct (forest_snoc G) as [->|(G' & b & M & ->)]; [|rewrite fsize_app, fsize_rose in E]).
  - apply dist_nil.
  - lia.
  - done.
  - apply dist_nil_l, IH. rewrite fsize_app. lia.
Qed.
End empty.

(** Turning a forest into itself costs nothing. *)
Lemma dist_refl {L : Type} (eqb : L -> L -> bool) (F : forest L) :
  (forall a, eqb a a = true) -> dist eqb F F 0.
Proof.
  intros Hr. split; [|lia].
  remember (fsize F) as n eqn:E. revert F E. induction (lt_wf n) as [n _ IH]. intros F ->.
  destruct (forest_snoc F) as [->|(F' & a & K & ->)]; [constructor|]. rewrite fsize_app, fsize_rose in IH.
  replace 0 with (0 + 0 + if eqb a a then 0 else 1) by by rewrite Hr.
  apply script_keep; [apply (IH (fsize F'))|apply (IH (fsize K))]; lia.
Qed.
