(* ===== verification/Ted.v ===== *)
(** * Tree edit distance ([app/eval/ted.py])

    [parse_tree], which flattens a decoded document into the postorder arrays of
    Zhang and Shasha, and [tree_edit_distance], their dynamic programme over pairs
    of keyroots.  The tables are total functions.  Theorems: parsing ends, and
    yields the arrays of the document's tree; the programme returns the cost of
    the cheapest edit script between the two trees. *)

From S2P Require Import Prelude Py Json Forests.
From Stdlib Require Import Ascii QArith Sorted.
#[local] Open Scope nat_scope.

(** ** Documents as trees *)

(** [bool(value)] of a decoded value; a number is zero when its digits before any
    exponent are. *)
Fixpoint zero_number (s : string) : bool :=
  match s with
  | EmptyString => true
  | String c s' =>
      if Ascii.eqb c "e" || Ascii.eqb c "E" then true
      else (Ascii.eqb c "0" || Ascii.eqb c "." || Ascii.eqb c "-") && zero_number s'
  end.

Definition truthy (j : json) : bool :=
  match j with
  | JNull => false
  | JBool b => b
  | JNum t => negb (zero_number t)
  | JStr s => negb (s =? "")%string
  | JList l => negb (bool_decide (l = []))
  | JObj m => negb (bool_decide (m = []))
  end.

(** [mapping.get(key)]: the last member of that name. *)
Definition obj_get (key : string) (m : list (string * json)) : option json :=
  (λ x, x.2.2) <$> list_find (λ kv, kv.1 = key) (rev m).

Definition _label_of (label_key : string) (node : json) : result json :=
  match node with
  | JObj m => match obj_get label_key m with
              | Some v => inr v
              | None => inl (ValueError ("tree node is missing '" +:+ label_key +:+ "'"))
              end
  | _ => inr node
  end.

Definition _children_of (children_key : string) (node : json) : result (list json) :=
  match node with
  | JObj m =>
      match obj_get children_key m with
      | Some v =>
          if truthy v then
            match v with
            | JList l => inr l
            | _ => inl (ValueError ("'" +:+ children_key +:+ "' must be a sequence"))
            end
          else inr []
      | None => inr []
      end
  | _ => inr []
  end.

(** ** The arrays *)

(** 1-indexed, with a sentinel at position 0. *)
Record Tree := {
  labels : list (option json); leftmost : list nat; keyroots : list nat; depth : nat }.

Definition size (t : Tree) : nat := length (labels t) - 1.

Definition left_of (t : Tree) (i : nat) : nat := nth i (leftmost t) 0.
Definition label_at (t : Tree) (i : nat) : option json := nth i (labels t) None.

Definition leaf_count (t : Tree) : nat :=
  length (filter (λ i, left_of t i = i) (seq 1 (size t))).

Definition keyroot_weight (t : Tree) : nat :=
  sum_list ((λ k, k - left_of t k + 1) <$> keyroots t).

(** The scan for keyroots, from the last node down to the first; consing puts them
    in ascending order. *)
Fixpoint scan_keyroots (leftmost : list nat) (k : nat) (seen found : list nat) : list nat :=
  match k with
  | O => found
  | S k' =>
      let l := nth k leftmost 0 in
      if bool_decide (l ∈ seen) then scan_keyroots leftmost k' seen found
      else scan_keyroots leftmost k' (l :: seen) (k :: found)
  end.

Section parse.
Context (label_key children_key : string).

Record frame := Frame { f_node : json; f_expanded : bool; f_start : nat; f_depth : nat }.

Record parse_state := {
  p_labels : list (option json); p_leftmost : list nat; p_depth : nat; p_stack : list frame }.

(** One round of [while stack]. *)
Definition parse_step (s : parse_state) (f : frame) (rest : list frame) : result parse_state :=
  if f_expanded f then
    let* l := _label_of label_key (f_node f) in
    inr {| p_labels := p_labels s ++ [Some l]; p_leftmost := p_leftmost s ++ [f_start f];
           p_depth := p_depth s; p_stack := rest |}
  else
    let here := length (p_labels s) in
    let* children := _children_of children_key (f_node f) in
    inr {| p_labels := p_labels s; p_leftmost := p_leftmost s;
           p_depth := Nat.max (p_depth s) (f_depth f);
           p_stack := ((λ c, Frame c false 0 (f_depth f + 1)) <$> children)
                      ++ Frame (f_node f) true here (f_depth f) :: rest |}.

(** [None]: out of fuel. *)
Fixpoint parse_loop (fuel : nat) (s : parse_state) : option (result parse_state) :=
  match p_stack s with
  | [] => Some (inr s)
  | f :: rest =>
      match fuel with
      | O => None
      | S fuel =>
          match parse_step s f rest with
          | inl e => Some (inl e)
          | inr s' => parse_loop fuel s'
          end
      end
  end.

Fixpoint json_size (j : json) : nat :=
  match j with
  | JList l => S (sum_list (json_size <$> l))
  | JObj m => S (sum_list ((λ kv, json_size kv.2) <$> m))
  | _ => 1
  end.

Definition parse_tree (root : option json) : option (result Tree) :=
  match root with
  | None => Some (inr {| labels := [None]; leftmost := [0]; keyroots := []; depth := 0 |})
  | Some root =>
      match parse_loop (2 * json_size root)
              {| p_labels := [None]; p_leftmost := [0]; p_depth := 0;
                 p_stack := [Frame root false 0 1] |} with
      | None => None
      | Some (inl e) => Some (inl e)
      | Some (inr s) =>
          Some (inr {| labels := p_labels s; leftmost := p_leftmost s;
                       keyroots := scan_keyroots (p_leftmost s) (length (p_labels s) - 1) [] [];
                       depth := p_depth s |})
      end
  end.
End parse.

(** ** The dynamic programme *)

Section distance.
(** [==] on labels. *)
Context (label_eq : option json -> option json -> bool).

Definition table := nat -> nat -> nat.

Definition put (t : table) (i j v : nat) : table :=
  λ i' j', if (i' =? i) && (j' =? j) then v else t i' j'.

Record tables := { forestdist : table; treedist : table }.

Section pass.
Context (a b : Tree) (root_a root_b : nat).

Definition spine_a : nat := left_of a root_a.
Definition spine_b : nat := left_of b root_b.
Definition offset_a : nat := spine_a - 1.
Definition offset_b : nat := spine_b - 1.

Definition cell (i j : nat) (t : tables) : tables :=
  let fd := forestdist t in
  let node_a := i + offset_a in
  let node_b := j + offset_b in
  let delete := fd (i - 1) j + 1 in
  let insert := fd i (j - 1) + 1 in
  let value := if delete <? insert then delete else insert in
  if (left_of a node_a =? spine_a) && (left_of b node_b =? spine_b) then
    let relabel := fd (i - 1) (j - 1)
                   + (if label_eq (label_at a node_a) (label_at b node_b) then 0 else 1) in
    let value := if relabel <? value then relabel else value in
    {| forestdist := put fd i j value; treedist := put (treedist t) node_a node_b value |}
  else
    let detached := fd (left_of a node_a - 1 - offset_a) (left_of b node_b - 1 - offset_b)
                    + treedist t node_a node_b in
    let value := if detached <? value then detached else value in
    {| forestdist := put fd i j value; treedist := treedist t |}.

(** The base cases: a column, then a row. *)
Definition init_column (rows : nat) (fd : table) : table :=
  fold_left (λ fd i, put fd i 0 (fd (i - 1) 0 + 1)) (seq 1 rows) (put fd 0 0 0).

Definition init_row (cols : nat) (fd : table) : table :=
  fold_left (λ fd j, put fd 0 j (fd 0 (j - 1) + 1)) (seq 1 cols) fd.

Definition pass (t : tables) : tables :=
  let rows := root_a - offset_a in
  let cols := root_b - offset_b in
  let t := {| forestdist := init_row cols (init_column rows (forestdist t)); treedist := treedist t |} in
  fold_left (λ t i, fold_left (λ t j, cell i j t) (seq 1 cols) t) (seq 1 rows) t.
End pass.

Definition tree_edit_distance (a b : Tree) : nat :=
  if (size a =? 0) then size b
  else if (size b =? 0) then size a
  else
    let t := fold_left (λ t root_a,
               fold_left (λ t root_b, pass a b root_a root_b t) (keyroots b) t)
               (keyroots a) {| forestdist := λ _ _, 0; treedist := λ _ _, 0 |} in
    treedist t (size a) (size b).
End distance.

(** ** Scores *)

Record TreeScore := { distance : nat; truth_nodes : nat; predicted_nodes : nat }.

Definition normalised (s : TreeScore) : Q :=
  let scale := Nat.max (truth_nodes s) (predicted_nodes s) in
  if (scale =? 0) then 0%Q
  else (inject_Z (Z.of_nat (distance s)) / inject_Z (Z.of_nat scale))%Q.

Definition tree_score label_eq (label_key children_key : string) (predicted truth : option json)
  : option (result TreeScore) :=
  match parse_tree label_key children_key predicted with
  | None => None
  | Some (inl e) => Some (inl e)
  | Some (inr p) =>
      match parse_tree label_key children_key truth with
      | None => None
      | Some (inl e) => Some (inl e)
      | Some (inr t) =>
          Some (inr {| distance := tree_edit_distance label_eq p t; truth_nodes := size t;
                       predicted_nodes := size p |})
      end
  end.

Definition aggregate (scores : list TreeScore) : TreeScore :=
  {| distance := sum_list (distance <$> scores); truth_nodes := sum_list (truth_nodes <$> scores);
     predicted_nodes := sum_list (predicted_nodes <$> scores) |}.

(** ** Ranges of nodes *)

(** [t] holds the postorder arrays of [T]. *)
Record arrays_of (T : rose json) (t : Tree) : Prop := {
  ar_labels : labels t = None :: ((λ x, Some x.1) <$> post 1 T);
  ar_leftmost : leftmost t = 0 :: (snd <$> post 1 T);
  ar_keyroots : keyroots t = scan_keyroots (leftmost t) (tsize T) [] [];
  ar_depth : depth t = theight T }.

Section ranges.
Context (T : rose json) (t : Tree) (Ht : arrays_of T t).
Implicit Types (F G K : forest json).

Lemma arrays_size : size t = tsize T.
Proof using Ht. unfold size. rewrite (ar_labels _ _ Ht). simpl. rewrite length_fmap, length_post. lia. Qed.

(** The nodes [s..i] are those of the forest [F]. *)
Definition range (s i : nat) F : Prop :=
  exists pre suf, post 1 T = pre ++ posts s F ++ suf /\ length pre + 1 = s /\ s + fsize F = i + 1.

Lemma range_whole : range 1 (tsize T) [T].
Proof using Type.
  exists [], []. split_and!; [simpl; by rewrite !app_nil_r|done|]. unfold fsize. simpl. lia.
Qed.

Lemma range_inj s i F G : range s i F -> range s i G -> F = G.
Proof using Type.
  intros (p1 & q1 & E1 & L1 & N1) (p2 & q2 & E2 & L2 & N2). rewrite E1 in E2.
  apply app_inj_1 in E2 as [_ E2]; [|lia].
  apply app_inj_1 in E2 as [E2 _]; [|rewrite !length_posts; lia].
  by apply (posts_inj (fsize F)) in E2.
Qed.

Lemma range_size s i F : range s i F -> s + fsize F = i + 1.
Proof using Type. by intros (p & q & _ & _ & N). Qed.

Lemma range_bounds s i F : range s i F -> 1 <= s <= i + 1 /\ i <= tsize T.
Proof using Type.
  intros (p & q & E & L & N). apply (f_equal length) in E.
  rewrite length_post, !length_app, length_posts in E. lia.
Qed.

(** The last node of a range and the ranges it splits it into. *)
Lemma range_snoc s i F a K : range s i (F ++ [Rose a K]) ->
  left_of t i = s + fsize F /\ label_at t i = Some a /\ s + fsize F <= i /\
  range s (i - 1) (F ++ K) /\ range s (s + fsize F - 1) F /\ range (s + fsize F) (i - 1) K /\
  range (s + fsize F) i [Rose a K].
Proof using Ht.
  intros (p & q & E & L & N). rewrite fsize_app, fsize_rose in N.
  assert (post 1 T !! (i - 1) = Some (a, s + fsize F)) as Hi.
  { rewrite E, posts_snoc_prefix, <- app_assoc.
    assert (length (posts s (F ++ K)) = fsize F + fsize K) as Hl by by rewrite length_posts, fsize_app.
    rewrite lookup_app_r by lia. rewrite lookup_app_r by lia. rewrite Hl.
    by replace (i - 1 - length p - (fsize F + fsize K)) with 0 by lia. }
  assert (forall (A : Type) (l : list A) k d x, l !! k = Some x -> nth k l d = x) as Hnth.
  { intros A l k d x Hx. by rewrite nth_lookup, Hx. }
  split_and!.
  - unfold left_of. rewrite (ar_leftmost _ _ Ht). destruct i as [|i]; [lia|]. cbn [nth].
    apply Hnth. rewrite list_lookup_fmap. by replace i with (S i - 1) by lia; rewrite Hi.
  - unfold label_at. rewrite (ar_labels _ _ Ht). destruct i as [|i]; [lia|]. cbn [nth].
    apply Hnth. rewrite list_lookup_fmap. by replace i with (S i - 1) by lia; rewrite Hi.
  - lia.
  - exists p, ([(a, s + fsize F)] ++ q). rewrite fsize_app.
    split_and!; [by rewrite E, posts_snoc_prefix, <- !app_assoc|lia|lia].
  - exists p, (posts (s + fsize F) K ++ [(a, s + fsize F)] ++ q).
    split_and!; [by rewrite E, posts_snoc, <- !app_assoc|lia|lia].
  - exists (p ++ posts s F), ([(a, s + fsize F)] ++ q).
    split_and!; [by rewrite E, posts_snoc, <- !app_assoc|rewrite length_app, length_posts; lia|lia].
  - exists (p ++ posts s F), q. cbn [posts]. rewrite post_rose, app_nil_r, fsize_rose.
    split_and!; [by rewrite E, posts_snoc, <- !app_assoc|rewrite length_app, length_posts; lia|lia].
Qed.

Lemma range_nonempty s i F : range s i F -> s <= i -> exists F' a K, F = F' ++ [Rose a K].
Proof using Type.
  intros (p & q & E & L & N) Hs. destruct (forest_snoc F) as [->|Hf]; [|done]. unfold fsize in N. simpl in N. lia.
Qed.

Lemma range_empty s i F : range s i F -> i < s -> F = [].
Proof using Type.
  intros (p & q & E & L & N) Hs. destruct (forest_snoc F) as [->|(F' & a & K & ->)]; [done|].
  rewrite fsize_app, fsize_rose in N. lia.
Qed.

Lemma range_down s r F i : range s r F -> s <= i + 1 -> i <= r -> exists F', range s i F'.
Proof using Ht.
  intros HF Hs Hi. remember (r - i) as d eqn:Ed. revert r F HF Hi Ed.
  induction d as [|d IH]; intros r F HF Hi Ed; [replace i with r by lia; eauto|].
  destruct (range_nonempty s r F HF) as (F' & a & K & ->); [lia|].
  apply range_snoc in HF as (_ & _ & _ & HF & _). apply (IH (r - 1) _ HF); lia.
Qed.

(** Every node is the root of its range. *)
Lemma subtree i : 1 <= i <= tsize T ->
  exists a K, label_at t i = Some a /\ 1 <= left_of t i <= i /\ range (left_of t i) i [Rose a K].
Proof using Ht.
  intros Hi. destruct (range_down 1 (tsize T) [T] i range_whole) as [F HF]; [lia..|].
  destruct (range_nonempty 1 i F HF) as (F' & a & K & ->); [lia|].
  destruct (range_snoc _ _ _ _ _ HF) as (Hl & Ha & Hle & _ & _ & _ & HK).
  exists a, K. rewrite Hl. split_and!; [done|lia|lia|done].
Qed.

(** Ranges nest. *)
Lemma nested r i : 1 <= r <= tsize T -> left_of t r <= i <= r -> left_of t r <= left_of t i <= i.
Proof using Ht.
  intros Hr Hi. destruct (subtree r Hr) as (a & K & _ & Hl & HF).
  destruct (range_down _ _ _ i HF) as [F' HF']; [lia..|].
  destruct (range_nonempty _ _ _ HF') as (F'' & b & M & ->); [lia|].
  destruct (range_snoc _ _ _ _ _ HF') as (-> & _ & Hle & _). lia.
Qed.

(** *** Keyroots *)

Definition is_keyroot (k : nat) : Prop :=
  1 <= k <= tsize T /\ forall k', k < k' <= tsize T -> left_of t k' <> left_of t k.

Lemma scan_keyroots_spec k : forall seen found,
  k <= tsize T ->
  (forall l, l ∈ seen <-> exists k', k < k' <= tsize T /\ left_of t k' = l) ->
  (forall x, x ∈ found <-> is_keyroot x /\ k < x) -> StronglySorted lt found ->
  (forall x, x ∈ scan_keyroots (leftmost t) k seen found <-> is_keyroot x) /\
  StronglySorted lt (scan_keyroots (leftmost t) k seen found).
Proof using Type.
  induction k as [|k IH]; intros seen found Hk Hseen Hfound Hs; cbn [scan_keyroots].
  { split; [|done]. intros x. rewrite Hfound. split; [tauto|]. intros Hx. split; [done|].
    destruct Hx. lia. }
  fold (left_of t (S k)). case_bool_decide as E.
  - apply IH; [lia| | |done].
    + intros l. rewrite Hseen. split; intros (k' & Hk' & <-); [exists k'; split; [lia|done]|].
      destruct (decide (k' = S k)) as [->|Hne]; [by apply Hseen in E|]. exists k'. split; [lia|done].
    + intros x. rewrite Hfound. split; intros [Hx Hlt]; (split; [done|]); [lia|].
      destruct (decide (x = S k)) as [->|Hne]; [|lia].
      apply Hseen in E as (k' & Hk' & Hl). by apply Hx in Hl.
  - apply IH; [lia| | |].
    + intros l. rewrite elem_of_cons, Hseen. split.
      * intros [->|(k' & Hk' & <-)]; [exists (S k); split; [lia|done]|exists k'; split; [lia|done]].
      * intros (k' & Hk' & <-). destruct (decide (k' = S k)) as [->|Hne]; [by left|].
        right. exists k'. split; [lia|done].
    + assert (is_keyroot (S k)) as Hkey.
      { split; [lia|]. intros k' Hk' Hl. apply E, Hseen. eauto. }
      intros x. rewrite elem_of_cons, Hfound. split; [intros [->|[Hx Hlt]]; (split; [done|lia])|].
      intros [Hx Hlt]. destruct (decide (x = S k)) as [->|Hne]; [by left|]. right. split; [done|lia].
    + constructor; [done|]. apply Forall_forall. intros x Hx. by apply Hfound.
Qed.

Lemma keyroots_spec : (forall k, k ∈ keyroots t <-> is_keyroot k) /\ StronglySorted lt (keyroots t).
Proof using Ht.
  rewrite (ar_keyroots _ _ Ht). apply scan_keyroots_spec; [lia| | |constructor].
  - intros l. split; [by intros ?%elem_of_nil|]. intros (k' & Hk' & _). lia.
  - intros x. split; [by intros ?%elem_of_nil|]. intros [[Hx _] Hlt]. lia.
Qed.

(** The keyroot whose spine a node is on. *)
Lemma keyroot_of i : 1 <= i <= tsize T -> exists k, is_keyroot k /\ i <= k /\ left_of t k = left_of t i.
Proof using Type.
  intros Hi. remember (tsize T - i) as d eqn:Ed. revert i Hi Ed.
  induction (lt_wf d) as [d _ IH]. intros i Hi Ed.
  destruct (decide (left_of t i ∈ left_of t <$> seq (S i) (tsize T - i))) as
    [(k' & Hl%eq_sym & Hk')%list_elem_of_fmap|Hno].
  - rewrite elem_of_seq in Hk'. destruct (IH (tsize T - k') ltac:(lia) k') as (k & Hk & Hle & Hkl); [lia|done|].
    exists k. split_and!; [done|lia|]. by rewrite Hkl.
  - exists i. split_and!; [|lia|done]. split; [done|]. intros k' Hk' Hl. apply Hno. rewrite <- Hl.
    apply list_elem_of_fmap_2, elem_of_seq. lia.
Qed.

(** A keyroot inside the range of another comes before it. *)
Lemma keyroot_inside r i k : 1 <= r <= tsize T -> is_keyroot r -> left_of t r <= i <= r ->
  is_keyroot k -> i <= k -> left_of t k = left_of t i ->
  k <= r /\ (left_of t i = left_of t r -> k = r).
Proof using Ht.
  intros Hr [_ Hrk] Hi [Hk Hkk] Hik Hl. pose proof (nested r i Hr Hi) as Hn.
  assert (left_of t i = left_of t r -> k = r) as Heq.
  { intros E. destruct (decide (k = r)) as [|Hne]; [done|]. destruct (decide (k < r)).
    - exfalso. apply (Hkk r); [lia|]. congruence.
    - exfalso. apply (Hrk k); [lia|]. congruence. }
  split; [|done]. destruct (decide (left_of t i = left_of t r)) as [E|Hne]; [rewrite (Heq E); lia|].
  destruct (decide (k <= r)) as [|Hgt]; [done|]. exfalso.
  pose proof (nested k r Hk). lia.
Qed.
End ranges.

Lemma init_values rows cols fd :
  let fd' := init_row cols (init_column rows fd) in
  (forall i, i <= rows -> fd' i 0 = i) /\ (forall j, j <= cols -> fd' 0 j = j).
Proof.
  assert (forall i, i <= rows -> init_column rows fd i 0 = i) as Hcol.
  { unfold init_column.
    apply (fold_seq (λ r (fd : table), forall i, i <= r -> fd i 0 = i)).
    - intros i Hi. by replace i with 0 by lia.
    - intros r fd' Hr IH i Hi. unfold put. destruct (Nat.eqb_spec i (S r)) as [->|Hne]; simpl.
      + rewrite Nat.sub_0_r, IH; lia.
      + apply IH. lia. }
  unfold init_row.
  apply (fold_seq (λ c (fd : table), (forall i, i <= rows -> fd i 0 = i) /\
                                     forall j, j <= c -> fd 0 j = j)).
  - split; [done|]. intros j Hj. replace j with 0 by lia. apply Hcol. lia.
  - intros c fd' Hc [IH1 IH2]. unfold put. split; intros i Hi.
    + rewrite andb_comm. by apply IH1.
    + destruct (Nat.eqb_spec i (S c)) as [->|Hne]; simpl; [|apply IH2; lia].
      rewrite Nat.sub_0_r, IH2; lia.
Qed.

Lemma before_in (l pre suf : list nat) (x k : nat) :
  StronglySorted lt l -> l = pre ++ x :: suf -> k ∈ l -> k < x -> k ∈ pre.
Proof.
  intros Hs -> Hk Hlt. apply elem_of_app in Hk as [|Hk]; [done|]. exfalso.
  assert (StronglySorted lt (x :: suf)) as Hs'.
  { clear Hk. induction pre as [|p pre IH]; [done|]. apply IH. by inversion Hs. }
  inversion Hs' as [|? ? _ HF]; subst. rewrite Forall_forall in HF.
  apply elem_of_cons in Hk as [->|Hk]; [lia|]. specialize (HF k Hk). lia.
Qed.

(** The forests ending at a node, split at it. *)
Lemma node_split T t r x : arrays_of T t -> 1 <= r <= tsize T -> left_of t r <= x <= r ->
  exists F c K, range T (left_of t r) x (F ++ [Rose c K]) /\ label_at t x = Some c /\
    left_of t x = left_of t r + fsize F /\ left_of t r + fsize F <= x /\
    range T (left_of t r) (x - 1) (F ++ K) /\ range T (left_of t r) (left_of t r + fsize F - 1) F /\
    range T (left_of t x) x [Rose c K].
Proof.
  intros Ht Hr Hx. destruct (subtree T t Ht r Hr) as (? & ? & _ & Hl & HR).
  destruct (range_down T t Ht _ _ _ x HR) as [F HF]; [lia..|].
  destruct (range_nonempty T _ _ _ HF) as (F' & c & K & ->); [lia|].
  destruct (range_snoc T t Ht _ _ _ _ _ HF) as (E & Hc & Hle & H1 & H2 & _ & H3).
  exists F', c, K. rewrite E. split_and!; done.
Qed.

Lemma fsize_zero (F : forest json) : fsize F = 0 -> F = [].
Proof.
  destruct (forest_snoc F) as [->|(F' & c & K & ->)]; [done|]. rewrite fsize_app, fsize_rose. lia.
Qed.

(** ** The programme *)

Section programme.
Context (label_eq : option json -> option json -> bool) (A B : rose json) (a b : Tree).
Context (Ha : arrays_of A a) (Hb : arrays_of B b).

#[local] Abbreviation cost := (dist (λ x y, label_eq (Some x) (Some y))).

(** [treedist] holds the distance of the subtrees at [x] and [y]. *)
Definition tree_ok (td : table) (x y : nat) : Prop :=
  exists X Y, range A (left_of a x) x [X] /\ range B (left_of b y) y [Y] /\ cost [X] [Y] (td x y).

(** A correct write spoils nothing. *)
Lemma tree_ok_put td x y X Y v x' y' :
  range A (left_of a x) x [X] -> range B (left_of b y) y [Y] -> cost [X] [Y] v ->
  tree_ok td x' y' \/ x' = x /\ y' = y -> tree_ok (put td x y v) x' y'.
Proof using Type.
  intros HX HY Hv H. unfold tree_ok, put.
  destruct (Nat.eqb_spec x' x) as [->|Hx], (Nat.eqb_spec y' y) as [->|Hy]; cbn [andb];
    destruct H as [H|[? ?]]; try done; by exists X, Y.
Qed.

Lemma least x y : (if y <? x then y else x) = Nat.min x y.
Proof using Type. destruct (Nat.ltb_spec y x); lia. Qed.

Section one_pass.
Context (ra rb : nat).
Context (Hra : 1 <= ra <= tsize A) (Hrb : 1 <= rb <= tsize B).
#[local] Abbreviation sa := (left_of a ra).
#[local] Abbreviation sb := (left_of b rb).

(** [forestdist] holds the distance of the first [i] nodes under [ra] and the first
    [j] under [rb]. *)
Definition forest_ok (fd : table) (i j : nat) : Prop :=
  exists F G, range A sa (i + sa - 1) F /\ range B sb (j + sb - 1) G /\ cost F G (fd i j).

Lemma forest_ok_at fd i j F G : forest_ok fd i j ->
  range A sa (i + sa - 1) F -> range B sb (j + sb - 1) G -> cost F G (fd i j).
Proof using Type.
  intros (F' & G' & HF' & HG' & H) HF HG.
  by rewrite (range_inj A _ _ F F' HF HF'), (range_inj B _ _ G G' HG HG').
Qed.

Lemma starts : 1 <= sa <= ra /\ 1 <= sb <= rb.
Proof using Ha Hb Hra Hrb.
  destruct (subtree A a Ha ra Hra) as (? & ? & _ & ? & _).
  by destruct (subtree B b Hb rb Hrb) as (? & ? & _ & ? & _).
Qed.

Definition on_spines (x y : nat) : Prop := left_of a x = sa /\ left_of b y = sb.

(** After the cell [(i, j)]: the cells before it hold distances, and so do the
    subtrees below both spines. *)
Record pass_inv (td : table) (i j : nat) (t : tables) : Prop := {
  pi_forest i' j' : i' + sa <= S ra -> j' + sb <= S rb ->
    (i' < i \/ i' = i /\ j' <= j \/ j' = 0) -> forest_ok (forestdist t) i' j';
  pi_kept x y : tree_ok td x y -> tree_ok (treedist t) x y;
  pi_spines x y : sa <= x <= ra -> sb <= y <= rb -> on_spines x y ->
    (S x < i + sa \/ S x = i + sa /\ S y <= j + sb) -> tree_ok (treedist t) x y }.

Lemma forest_ok_put fd i j v i' j' F G :
  range A sa (i + sa - 1) F -> range B sb (j + sb - 1) G -> cost F G v ->
  (i' = i /\ j' = j \/ forest_ok fd i' j') -> forest_ok (put fd i j v) i' j'.
Proof using Type.
  intros HF HG Hv H. unfold forest_ok, put.
  destruct (Nat.eqb_spec i' i) as [->|Hi], (Nat.eqb_spec j' j) as [->|Hj]; cbn [andb];
    destruct H as [[? ?]|H]; try done; by exists F, G.
Qed.

(** The value of a cell is the distance of its two forests. *)
Lemma cell_value i j t x y F c K G d M : x = i + sa -> y = j + sb ->
  left_of a x = sa + fsize F -> left_of b y = sb + fsize G ->
  label_at a x = Some c -> label_at b y = Some d ->
  cost (F ++ K) (G ++ [Rose d M]) (forestdist t i (S j)) ->
  cost (F ++ [Rose c K]) (G ++ M) (forestdist t (S i) j) ->
  cost (F ++ K) (G ++ M) (forestdist t i j) ->
  cost F G (forestdist t (fsize F) (fsize G)) ->
  (~ on_spines x y -> cost [Rose c K] [Rose d M] (treedist t x y)) ->
  exists v, cost (F ++ [Rose c K]) (G ++ [Rose d M]) v /\
    cell label_eq a b ra rb (S i) (S j) t =
    {| forestdist := put (forestdist t) (S i) (S j) v;
       treedist := if (left_of a x =? sa) && (left_of b y =? sb) then put (treedist t) x y v
                   else treedist t |}.
Proof using Ha Hb Hra Hrb.
  intros Ex Ey Hlx Hly Hc Hd H1 H2 H12 H3 H4. pose proof starts as [Hsa Hsb].
  unfold cell, offset_a, offset_b, spine_a, spine_b.
  replace (S i + (sa - 1)) with x by lia. replace (S j + (sb - 1)) with y by lia. rewrite !least.
  replace (S i - 1) with i by lia. replace (S j - 1) with j by lia. rewrite !Nat.add_1_r, Hc, Hd.
  destruct ((left_of a x =? sa) && (left_of b y =? sb)) eqn:E; eexists; (split; [|reflexivity]);
    rewrite (Nat.min_comm (S (forestdist t (S i) j))).
  - apply andb_prop in E as [E1%Nat.eqb_eq E2%Nat.eqb_eq].
    assert (F = []) as -> by (apply fsize_zero; lia). assert (G = []) as -> by (apply fsize_zero; lia).
    by apply (dist_tree (λ x y, label_eq (Some x) (Some y))).
  - apply andb_false_iff in E. rewrite !Nat.eqb_neq in E.
    replace (left_of a x - 1 - (sa - 1)) with (fsize F) by lia.
    replace (left_of b y - 1 - (sb - 1)) with (fsize G) by lia.
    apply dist_forest; try done. apply H4. unfold on_spines. lia.
Qed.

Lemma cell_ok td i j t :
  (forall x y, sa <= x <= ra -> sb <= y <= rb -> ~ on_spines x y -> tree_ok td x y) ->
  i + sa <= ra -> j + sb <= rb ->
  pass_inv td (S i) j t -> pass_inv td (S i) (S j) (cell label_eq a b ra rb (S i) (S j) t).
Proof using Ha Hb Hra Hrb.
  intros Htd Hi Hj [If Ik Is]. pose proof starts as [Hsa Hsb].
  assert (exists x y, x = i + sa /\ y = j + sb) as (x & y & Ex & Ey) by eauto.
  assert (S i + sa - 1 = x /\ i + sa - 1 = x - 1 /\ S j + sb - 1 = y /\ j + sb - 1 = y - 1)
    as (Ex1 & Ex0 & Ey1 & Ey0) by lia.
  assert (sa <= x <= ra /\ sb <= y <= rb) as [Hx Hy] by lia.
  destruct (node_split A a ra x Ha Hra Hx) as (F & c & K & HF & Hc & Hlx & HFx & HFK & HF0 & HX).
  destruct (node_split B b rb y Hb Hrb Hy) as (G & d & M & HG & Hd & Hly & HGy & HGM & HG0 & HY).
  destruct (cell_value i j t x y F c K G d M Ex Ey Hlx Hly Hc Hd) as (v & Hv & ->).
  { apply (forest_ok_at _ i (S j)); [apply If; lia|by rewrite Ex0|by rewrite Ey1]. }
  { apply (forest_ok_at _ (S i) j); [apply If; lia|by rewrite Ex1|by rewrite Ey0]. }
  { apply (forest_ok_at _ i j); [apply If; lia|by rewrite Ex0|by rewrite Ey0]. }
  { apply forest_ok_at; [apply If; lia|by rewrite (Nat.add_comm (fsize F))|by rewrite (Nat.add_comm (fsize G))]. }
  { intros Hno. destruct (Ik x y) as (X & Y & HX' & HY' & Hxy); [by apply Htd|].
    by rewrite (range_inj A _ _ _ _ HX HX'), (range_inj B _ _ _ _ HY HY'). }
  assert (on_spines x y -> forall x' y', tree_ok (treedist t) x' y' \/ x' = x /\ y' = y ->
    tree_ok (put (treedist t) x y v) x' y') as Hput.
  { intros [S1 S2] x' y'. rewrite (fsize_zero F), (fsize_zero G) in Hv by lia.
    exact (tree_ok_put _ _ _ _ _ _ _ _ HX HY Hv). }
  assert (Decision (on_spines x y)) by (unfold on_spines; apply _).
  replace ((left_of a x =? sa) && (left_of b y =? sb)) with (bool_decide (on_spines x y)); swap 1 2.
  { apply eq_true_iff_eq. by rewrite bool_decide_eq_true, andb_true_iff, !Nat.eqb_eq. }
  rewrite <- Ex1 in HF. rewrite <- Ey1 in HG. split; cbn [forestdist treedist].
  - intros i' j' Hi' Hj' Hbefore. apply (forest_ok_put _ _ _ _ _ _ _ _ HF HG Hv).
    destruct (decide (i' = S i /\ j' = S j)); [by left|right]. apply If; lia.
  - intros x' y' Hok. case_bool_decide; [|by apply Ik]. apply Hput; [done|]. left. by apply Ik.
  - intros x' y' Hx' Hy' Hs Hbefore.
    assert (x' = x /\ y' = y \/ tree_ok (treedist t) x' y') as Hold.
    { clear - Is Hx' Hy' Hs Hbefore Ex Ey. destruct (decide (x' = x /\ y' = y)); [by left|right].
      apply Is; [done..|lia]. }
    case_bool_decide as E; [apply Hput; tauto|]. destruct Hold as [[-> ->]|]; done.
Qed.

(** The base cases: one forest emptied. *)
Lemma base_cells fd i j :
  i + sa <= S ra -> j + sb <= S rb -> i = 0 \/ j = 0 -> fd i j = i + j -> forest_ok fd i j.
Proof using Ha Hb Hra Hrb.
  intros Hi Hj H0 E. pose proof starts as [Hsa Hsb].
  destruct (subtree A a Ha ra Hra) as (? & ? & _ & _ & HA).
  destruct (subtree B b Hb rb Hrb) as (? & ? & _ & _ & HB).
  destruct (range_down A a Ha _ _ _ (i + sa - 1) HA) as [F HF]; [lia..|].
  destruct (range_down B b Hb _ _ _ (j + sb - 1) HB) as [G HG]; [lia..|].
  exists F, G. split_and!; [done..|]. rewrite E.
  pose proof (range_size _ _ _ _ HF). pose proof (range_size _ _ _ _ HG). destruct H0 as [-> | ->].
  - rewrite (fsize_zero F) by lia. replace (0 + j) with (fsize G) by lia. apply dist_empty_l.
  - rewrite (fsize_zero G) by lia. replace (i + 0) with (fsize F) by lia. apply dist_empty_r.
Qed.
(** A pass keeps the distances found, and finds those along the two spines. *)
Lemma pass_ok t :
  (forall x y, sa <= x <= ra -> sb <= y <= rb -> ~ on_spines x y -> tree_ok (treedist t) x y) ->
  let t' := pass label_eq a b ra rb t in
  (forall x y, tree_ok (treedist t) x y -> tree_ok (treedist t') x y) /\
  (forall x y, sa <= x <= ra -> sb <= y <= rb -> on_spines x y -> tree_ok (treedist t') x y).
Proof using Ha Hb Hra Hrb.
  intros Htd t'. pose proof starts as [Hsa Hsb].
  assert (pass_inv (treedist t) (S ra - sa) (S rb - sb) t') as [_ Hk Hs].
  { unfold t', pass, offset_a, offset_b, spine_a, spine_b.
    replace (ra - (sa - 1)) with (S ra - sa) by lia. replace (rb - (sb - 1)) with (S rb - sb) by lia.
    apply (fold_seq (λ i, pass_inv (treedist t) i (S rb - sb))).
    - destruct (init_values (S ra - sa) (S rb - sb) (forestdist t)) as [Hc Hr].
      split; cbn [forestdist treedist]; [|done|lia].
      intros i' j' Hi Hj Hb'. apply base_cells; [done..|lia|].
      destruct (decide (j' = 0)) as [->|Hne]; [rewrite Hc; lia|].
      assert (i' = 0) as -> by lia. rewrite Hr; lia.
    - intros i t1 Hi H1. apply (fold_seq (λ j, pass_inv (treedist t) (S i) j)).
      + destruct H1 as [F K P]. split; [|done|].
        * intros i' j' Hi' Hj' Hb'. apply F; [done..|lia].
        * intros x y Hx Hy Hxy Hb'. apply P; [done..|lia].
      + intros j t2 Hj. apply cell_ok; [done|lia..]. }
  split; [done|]. intros x y Hx Hy Hxy. apply Hs; [done..|lia].
Qed.
End one_pass.

(** The subtrees whose keyroots are among the pairs done. *)
Definition found (done : nat -> nat -> Prop) (t : tables) : Prop :=
  forall x y ka kb, 1 <= x <= tsize A -> 1 <= y <= tsize B ->
    is_keyroot A a ka -> x <= ka -> left_of a ka = left_of a x ->
    is_keyroot B b kb -> y <= kb -> left_of b kb = left_of b y ->
    done ka kb -> tree_ok (treedist t) x y.

Lemma pass_found pa qa ra pb qb rb t :
  keyroots a = pa ++ ra :: qa -> keyroots b = pb ++ rb :: qb ->
  found (λ ka kb, ka ∈ pa \/ ka = ra /\ kb ∈ pb) t ->
  found (λ ka kb, ka ∈ pa \/ ka = ra /\ kb ∈ pb ++ [rb]) (pass label_eq a b ra rb t).
Proof using Ha Hb.
  intros Ea Eb Hf.
  destruct (keyroots_spec A a Ha) as [Ka Sa], (keyroots_spec B b Hb) as [Kb Sb].
  assert (is_keyroot A a ra) as Kra by (apply Ka; rewrite Ea, elem_of_app, elem_of_cons; tauto).
  assert (is_keyroot B b rb) as Krb by (apply Kb; rewrite Eb, elem_of_app, elem_of_cons; tauto).
  destruct (pass_ok ra rb (proj1 Kra) (proj1 Krb) t) as [Hk Hs].
  - pose proof (starts ra rb (proj1 Kra) (proj1 Krb)) as [? ?]. destruct (proj1 Kra), (proj1 Krb).
    intros x y Hx Hy Hno.
    destruct (keyroot_of A a x) as (ka & Kka & Hxa & Hla); [lia|].
    destruct (keyroot_of B b y) as (kb & Kkb & Hyb & Hlb); [lia|].
    destruct (keyroot_inside A a Ha ra x ka (proj1 Kra) Kra Hx Kka Hxa Hla) as [Ha1 Ha2].
    destruct (keyroot_inside B b Hb rb y kb (proj1 Krb) Krb Hy Kkb Hyb Hlb) as [Hb1 Hb2].
    apply (Hf x y ka kb); [lia|lia|done..|].
    destruct (decide (ka = ra)) as [->|Hna].
    + right. split; [done|]. apply (before_in _ _ _ _ kb Sb Eb); [by apply Kb|].
      destruct (decide (kb = rb)) as [->|]; [|lia]. by destruct Hno.
    + left. apply (before_in _ _ _ _ ka Sa Ea); [by apply Ka|lia].
  - intros x y ka kb Hx Hy Kka Hxa Hla Kkb Hyb Hlb Hd.
    destruct (decide (ka ∈ pa \/ ka = ra /\ kb ∈ pb)) as [Hold|Hnew]; [by apply Hk, (Hf x y ka kb)|].
    rewrite elem_of_app, list_elem_of_singleton in Hd. assert (ka = ra /\ kb = rb) as [-> ->] by tauto.
    destruct (subtree A a Ha x Hx) as (? & ? & _ & ? & _), (subtree B b Hb y Hy) as (? & ? & _ & ? & _).
    by apply Hs; [lia..|].
Qed.

Lemma all_found :
  found (λ ka kb, ka ∈ keyroots a /\ kb ∈ keyroots b)
    (fold_left (λ t ra, fold_left (λ t rb, pass label_eq a b ra rb t) (keyroots b) t)
       (keyroots a) {| forestdist := λ _ _, 0; treedist := λ _ _, 0 |}).
Proof using Ha Hb.
  assert (forall (d d' : nat -> nat -> Prop) t, (forall x y, y ∈ keyroots b -> d' x y -> d x y) ->
            found d t -> found d' t) as Hmono.
  { intros d d' t Hd Hf x y ka kb Hx Hy Kka Hxa Hla Kkb Hyb Hlb Hdone.
    apply (Hf x y ka kb); try done. apply Hd; [|done]. by apply (keyroots_spec B b Hb). }
  apply (fold_prefix (λ pa, found (λ ka kb, ka ∈ pa /\ kb ∈ keyroots b))).
  - intros x y ka kb _ _ _ _ _ _ _ _ [[]%elem_of_nil _].
  - intros pa ra qa t Ea Hpa.
    assert (found (λ ka kb, ka ∈ pa \/ ka = ra /\ kb ∈ keyroots b)
              (fold_left (λ t rb, pass label_eq a b ra rb t) (keyroots b) t)) as H.
    + apply (fold_prefix (λ pb, found (λ ka kb, ka ∈ pa \/ ka = ra /\ kb ∈ pb))).
      * eapply Hmono, Hpa. intros x y Hy [?|[_ []%elem_of_nil]]. done.
      * intros pb rb qb t' Eb. by apply (pass_found pa qa ra pb qb rb).
    + eapply Hmono, H. intros x y Hy [Hx _]. rewrite elem_of_app, list_elem_of_singleton in Hx. tauto.
Qed.

Lemma distance_least : cost [A] [B] (tree_edit_distance label_eq a b).
Proof using Ha Hb.
  assert (forall T t, arrays_of T t -> 1 <= tsize T /\ left_of t (tsize T) = 1 /\ is_keyroot T t (tsize T)) as Hroot.
  { intros [c K] t Ht. assert (1 <= tsize (Rose c K)) by (simpl; lia). split_and!; [done| |].
    - destruct (range_snoc _ t Ht _ _ [] c K (range_whole (Rose c K))) as [-> _]. done.
    - split; [lia|]. lia. }
  destruct (Hroot A a Ha) as (Na & La & Ka), (Hroot B b Hb) as (Nb & Lb & Kb).
  unfold tree_edit_distance. rewrite (arrays_size A a Ha), (arrays_size B b Hb).
  destruct (Nat.eqb_spec (tsize A) 0) as [|_]; [lia|]. destruct (Nat.eqb_spec (tsize B) 0) as [|_]; [lia|].
  destruct (all_found (tsize A) (tsize B) (tsize A) (tsize B)) as (X & Y & HX & HY & H); try done.
  { split; [by apply (keyroots_spec A a Ha)|by apply (keyroots_spec B b Hb)]. }
  rewrite La in HX. rewrite Lb in HY.
  by rewrite (range_inj A _ _ _ _ (range_whole A) HX), (range_inj B _ _ _ _ (range_whole B) HY).
Qed.
End programme.

(** ** Parsing *)

Section parsing.
Context (label_key children_key : string).

(** The tree a document denotes; none, when a node of it has no label or has
    children that are no list. *)
#[warnings="-register-all"]
Inductive tree_of : json -> rose json -> Prop :=
| tree_of_node j l cs Ks :
    _label_of label_key j = inr l -> _children_of children_key j = inr cs ->
    Forall2 tree_of cs Ks -> tree_of j (Rose l Ks).

Lemma children_smaller j cs :
  _children_of children_key j = inr cs -> sum_list (json_size <$> cs) < json_size j.
Proof using Type.
  destruct j as [| | | | |m]; simpl; intros E; try (injection E as <-; simpl; lia).
  unfold obj_get in E. destruct (list_find _ (rev m)) as [[i [k v]]|] eqn:Ef; simpl in E;
    [|injection E as <-; simpl; lia].
  destruct (truthy v); [|injection E as <-; simpl; lia].
  destruct v as [| | | |l|]; try discriminate. injection E as ->.
  apply list_find_Some in Ef as (Hi & _ & _).
  assert ((k, JList cs) ∈ m) as Hm by (apply list_elem_of_In, in_rev, list_elem_of_In, list_elem_of_lookup; eauto).
  pose proof (sum_list_in (λ kv : string * json, json_size kv.2) m _ Hm) as Hle. simpl in Hle. lia.
Qed.

Lemma parse_loop_step s f rest n : p_stack s = f :: rest ->
  parse_loop label_key children_key (S n) s =
  match parse_step label_key children_key s f rest with
  | inl e => Some (inl e)
  | inr s' => parse_loop label_key children_key n s'
  end.
Proof using Type. intros E. simpl. by rewrite E. Qed.

Lemma parse_step_node s j d rest :
  parse_step label_key children_key s (Frame j false 0 d) rest =
  (let* cs := _children_of children_key j in
   inr {| p_labels := p_labels s; p_leftmost := p_leftmost s; p_depth := Nat.max (p_depth s) d;
          p_stack := ((λ c, Frame c false 0 (d + 1)) <$> cs)
                     ++ Frame j true (length (p_labels s)) d :: rest |}).
Proof using Type. done. Qed.

(** The state once nodes have been emitted. *)
Definition emitted (s : parse_state) (L : list (json * nat)) (d : nat) (rest : list frame) : parse_state :=
  {| p_labels := p_labels s ++ ((λ x, Some x.1) <$> L); p_leftmost := p_leftmost s ++ (snd <$> L);
     p_depth := Nat.max (p_depth s) d; p_stack := rest |}.

(** From [s], [n] rounds lead to [s'], or to an error. *)
Definition runs (n : nat) (s s' : parse_state) : Prop :=
  forall fuel, parse_loop label_key children_key (n + fuel) s = parse_loop label_key children_key fuel s'.

Definition dies (n : nat) (s : parse_state) : Prop :=
  exists e, forall fuel, parse_loop label_key children_key (n + fuel) s = Some (inl e).

Lemma dies_after n m s s' : runs n s s' -> dies m s' -> dies (n + m) s.
Proof using Type. intros Hr [e He]. exists e. intros fuel. by rewrite <- Nat.add_assoc, Hr. Qed.

Definition parses (j : json) : Prop :=
  forall s d rest, p_stack s = Frame j false 0 (d + 1) :: rest ->
    (exists T n, tree_of j T /\ n <= 2 * json_size j /\
       runs n s (emitted s (post (length (p_labels s)) T) (d + theight T) rest)) \/
    ((forall T, ~ tree_of j T) /\ exists n, n <= 2 * json_size j /\ dies n s).

Lemma parses_forest cs : Forall parses cs ->
  forall s d rest, p_stack s = ((λ c, Frame c false 0 (d + 1)) <$> cs) ++ rest -> d <= p_depth s ->
    (exists F n, Forall2 tree_of cs F /\ n <= 2 * sum_list (json_size <$> cs) /\
       runs n s (emitted s (posts (length (p_labels s)) F) (d + fheight F) rest)) \/
    ((forall F, ~ Forall2 tree_of cs F) /\ exists n, n <= 2 * sum_list (json_size <$> cs) /\ dies n s).
Proof using Type.
  induction 1 as [|c cs Hc _ IH]; intros s d rest Es Hd.
  { left. exists [], 0. split_and!; [constructor|lia|]. intros fuel. unfold emitted, fheight. simpl in *.
    rewrite !app_nil_r, Nat.max_l by lia. destruct s. simpl in *. by rewrite Es. }
  destruct (Hc s d _ Es) as [(T & n & HT & Hn & Hr)|(Hno & n & Hn & Hdie)]; cycle 1.
  { right. split; [intros F HF; inversion HF; subst; by eapply Hno|]. exists n. rewrite sum_fmap_cons. split; [lia|done]. }
  set (s1 := emitted s _ _ _) in Hr.
  destruct (IH s1 d rest eq_refl) as [(F & m & HF & Hm & Hr')|(Hno & m & Hm & Hdie)].
  { unfold s1. simpl. lia. }
  - left. exists (T :: F), (n + m). split_and!; [by constructor|rewrite sum_fmap_cons; lia|].
    intros fuel. rewrite <- Nat.add_assoc, Hr, Hr', fheight_cons. f_equal. unfold s1, emitted. simpl.
    rewrite length_app, length_fmap, length_post, !fmap_app, !app_assoc. f_equal. lia.
  - right. split; [intros F HF; inversion HF; subst; by eapply Hno|]. exists (n + m). rewrite sum_fmap_cons.
    split; [lia|]. by eapply dies_after.
Qed.

Lemma parses_all j : parses j.
Proof using Type.
  remember (json_size j) as k eqn:Ek. revert j Ek. induction (lt_wf k) as [k _ IH]. intros j -> s d rest Es.
  destruct (_children_of children_key j) as [e|cs] eqn:Ec; cycle 1.
  2: { right. split; [intros T HT; inversion HT; congruence|]. exists 1.
    assert (1 <= json_size j) by (destruct j; simpl; lia). split; [lia|]. exists e. intros fuel.
    by rewrite (parse_loop_step _ _ _ _ Es), parse_step_node, Ec. }
  pose proof (children_smaller j cs Ec) as Hsize.
  assert (Forall parses cs) as Hcs.
  { apply Forall_forall. intros c Hc. pose proof (sum_list_in json_size cs c Hc).
    apply (IH (json_size c)); [lia|done]. }
  set (s1 := {| p_labels := p_labels s; p_leftmost := p_leftmost s; p_depth := Nat.max (p_depth s) (d + 1);
                p_stack := ((λ c, Frame c false 0 (d + 1 + 1)) <$> cs)
                           ++ Frame j true (length (p_labels s)) (d + 1) :: rest |}).
  assert (runs 1 s s1) as Hr1.
  { intros fuel. cbn [Nat.add]. by rewrite (parse_loop_step _ _ _ _ Es), parse_step_node, Ec. }
  destruct (parses_forest cs Hcs s1 (d + 1) _ eq_refl) as [(F & n & HF & Hn & Hr)|(Hno & n & Hn & Hdie)].
  { simpl. lia. }
  2: { right. split; [intros T HT; inversion HT as [? l cs' Ks _ Ec' HK]; subst; assert (cs' = cs) as -> by congruence; by eapply Hno|]. exists (1 + n).
    split; [lia|]. by eapply dies_after. }
  set (s2 := emitted s1 _ _ _) in Hr.
  destruct (_label_of label_key j) as [e|l] eqn:El.
  - right. split; [intros T HT; inversion HT; congruence|]. exists (1 + (n + 1)). split; [lia|].
    eapply dies_after, dies_after; [done..|]. exists e. intros fuel.
    cbn [Nat.add]. rewrite (parse_loop_step s2 _ _ _ eq_refl). unfold parse_step. simpl. by rewrite El.
  - left. exists (Rose l F), (1 + (n + 1)). split_and!; [by econstructor|lia|]. intros fuel.
    rewrite <- Nat.add_assoc, Hr1, <- Nat.add_assoc, Hr, post_rose, theight_rose.
    cbn [Nat.add]. rewrite (parse_loop_step s2 _ _ _ eq_refl). unfold parse_step. simpl. rewrite El.
    f_equal. unfold emitted. simpl. rewrite !fmap_app, !app_assoc. simpl. f_equal. lia.
Qed.

(** Parsing ends, with the arrays of the tree or, when the document denotes none,
    with an error. *)
Lemma parse_tree_spec root :
  exists r, parse_tree label_key children_key (Some root) = Some r /\
    match r with
    | inr t => exists T, tree_of root T /\ arrays_of T t
    | inl _ => forall T, ~ tree_of root T
    end.
Proof using Type.
  unfold parse_tree. set (s := Build_parse_state _ _ _ _).
  destruct (parses_all root s 0 [] eq_refl) as [(T & n & HT & Hn & Hr)|(Hno & n & Hn & e & He)].
  - replace (2 * json_size root) with (n + (2 * json_size root - n)) by lia. rewrite Hr.
    eexists. split; [by destruct (2 * json_size root - n)|]. exists T. split; [done|].
    split; try done. simpl. rewrite length_fmap, length_post. f_equal. lia.
  - replace (2 * json_size root) with (n + (2 * json_size root - n)) by lia. rewrite He.
    by exists (inl e).
Qed.

Lemma tree_of_unique j T U : tree_of j T -> tree_of j U -> T = U.
Proof using Type.
  remember (json_size j) as k eqn:Ek. revert j Ek T U.
  induction (lt_wf k) as [k _ IH]. intros j -> T U HT HU.
  inversion HT as [? l cs Ks El Ec HK]; subst. inversion HU as [? l' cs' Ms El' Ec' HM]; subst.
  assert (l' = l) as -> by congruence. assert (cs' = cs) as -> by congruence. f_equal.
  pose proof (children_smaller j cs Ec) as Hsize. clear - IH HK HM Hsize.
  revert Ms HM Hsize. induction HK as [|c K cs Ks Hc _ IHK]; intros Ms HM Hsize; inversion HM; subst; [done|].
  rewrite sum_fmap_cons in Hsize. f_equal; [eapply (IH (json_size c)); [lia|done..]|]. apply IHK; [done|lia].
Qed.
End parsing.

(** ** What the module promises *)

Section promises.
Context (label_key children_key : string).

(** The forest of a document: empty for [None]. *)
Definition denotes (root : option json) (F : forest json) : Prop :=
  match root with
  | None => F = []
  | Some j => exists T, tree_of label_key children_key j T /\ F = [T]
  end.

Definition holds (F : forest json) (t : Tree) : Prop :=
  F = [] /\ t = {| labels := [None]; leftmost := [0]; keyroots := []; depth := 0 |} \/ exists T, F = [T] /\ arrays_of T t.

Lemma parse_denotes root :
  exists r, parse_tree label_key children_key root = Some r /\
    match r with
    | inr t => exists F, denotes root F /\ holds F t
    | inl _ => forall F, ~ denotes root F
    end.
Proof using Type.
  destruct root as [j|]; cycle 1.
  - eexists. split; [done|]. exists []. split; [done|]. by left.
  - destruct (parse_tree_spec label_key children_key j) as ([e|t] & E & H); eexists; (split; [done|]).
    + intros F (T & HT & _). by eapply H.
    + destruct H as (T & HT & Ha). exists [T]. split; [eexists; eauto|]. right. eauto.
Qed.

Lemma holds_size F t : holds F t -> size t = fsize F.
Proof using Type.
  intros [[-> ->]|(T & -> & Ht)]; [done|]. rewrite (arrays_size T t Ht). unfold fsize. simpl. lia.
Qed.

Lemma distance_correct label_eq F G a b : holds F a -> holds G b ->
  dist (λ x y, label_eq (Some x) (Some y)) F G (tree_edit_distance label_eq a b).
Proof using Type.
  intros HF HG. pose proof (holds_size F a HF) as Ea. pose proof (holds_size G b HG) as Eb.
  destruct HF as [[-> ->]|(A & -> & Ha)].
  - unfold tree_edit_distance. rewrite Ea, Eb. apply dist_empty_l.
  - destruct HG as [[-> ->]|(B & -> & Hb)]; [|by apply distance_least].
    unfold tree_edit_distance. rewrite Ea, Eb.
    replace (if fsize [A] =? 0 then _ else _) with (fsize [A]); [apply dist_empty_r|].
    by destruct (Nat.eqb_spec (fsize [A]) 0).
Qed.

(** [parse_tree] ends on every document: with the postorder arrays, the keyroots
    and the depth of the tree the document denotes - an empty tree for [None] - or, when
    some node has no label or has children that are no list, with an error. *)
Theorem parse_tree_total root :
  (exists e, parse_tree label_key children_key root = Some (inl e) /\ forall F, ~ denotes root F) \/
  (exists t F, parse_tree label_key children_key root = Some (inr t) /\ denotes root F /\ holds F t /\
     size t = fsize F).
Proof using Type.
  destruct (parse_denotes root) as ([e|t] & E & H); [left; eauto|right].
  destruct H as (F & HF & Ht). exists t, F. split_and!; [done..|]. by apply holds_size.
Qed.

(** C21: [tree_score] scores every pair of documents that denote trees with the least
    number of node inserts, deletes and relabels that turn one tree into the other,
    next to the sizes of both; it fails exactly when one denotes none. *)
Theorem tree_score_optimal label_eq predicted truth :
  exists r, tree_score label_eq label_key children_key predicted truth = Some r /\
    match r with
    | inr s => exists P T, denotes predicted P /\ denotes truth T /\
        dist (λ x y, label_eq (Some x) (Some y)) P T (distance s) /\
        predicted_nodes s = fsize P /\ truth_nodes s = fsize T
    | inl _ => (forall P, ~ denotes predicted P) \/ (forall T, ~ denotes truth T)
    end.
Proof using Type.
  unfold tree_score.
  destruct (parse_denotes predicted) as ([e|a] & -> & HP); [eexists; split; [done|by left]|].
  destruct (parse_denotes truth) as ([e2|b] & -> & HT); [eexists; split; [done|by right]|].
  destruct HP as (F & HF & Ha), HT as (G & HG & Hb). eexists. split; [done|]. exists F, G.
  split_and!; [done..|by apply distance_correct|by apply holds_size|by apply holds_size].
Qed.
End promises.

(** *** The work *)

(** The cells a pass visits, in its order. *)
Definition pass_cells (a b : Tree) (ra rb : nat) : list (nat * nat) :=
  list_prod (seq 1 (ra - offset_a a ra)) (seq 1 (rb - offset_b b rb)).

Lemma fold_prod {X Y S} (f : S -> X -> Y -> S) (l : list X) (k : list Y) (s : S) :
  fold_left (λ s x, fold_left (λ s y, f s x y) k s) l s =
  fold_left (λ s c, f s c.1 c.2) (list_prod l k) s.
Proof.
  revert s. induction l as [|x l IH]; intros s; [done|]. simpl. rewrite fold_left_app, IH. f_equal.
  clear. revert s. induction k as [|y k IH]; intros s; [done|]. simpl. by rewrite IH.
Qed.

Lemma sum_prod {X Y} (f : X -> nat) (g : Y -> nat) (l : list X) (k : list Y) :
  sum_list ((λ c, f c.1 * g c.2) <$> list_prod l k) = sum_list (f <$> l) * sum_list (g <$> k).
Proof.
  induction l as [|x l IH]; [done|]. cbn [list_prod]. rewrite fmap_app, sum_list_app, IH, sum_fmap_cons.
  assert (sum_list ((λ c, f c.1 * g c.2) <$> map (λ y, (x, y)) k) = f x * sum_list (g <$> k)) as ->; [|lia].
  clear. induction k as [|y k IH]; [simpl; lia|]. cbn [map]. rewrite !sum_fmap_cons, IH. simpl. lia.
Qed.

Lemma holds_weight F t k : holds F t -> k ∈ keyroots t -> k - (left_of t k - 1) = k - left_of t k + 1.
Proof.
  intros [[-> ->]|(T & -> & Ht)] Hk; [by apply elem_of_nil in Hk|].
  apply (keyroots_spec T t Ht) in Hk as [Hk _].
  destruct (subtree T t Ht k Hk) as (_ & _ & _ & Hl & _). lia.
Qed.

(** the product of the two keyroot weights, on which a comparison is refused before
    it is begun, is the number of cells the comparison visits. *)
Theorem work_exact label_eq F G a b :
  holds F a -> holds G b ->
  (forall ra rb t, pass label_eq a b ra rb t =
     fold_left (λ t c, cell label_eq a b ra rb c.1 c.2 t) (pass_cells a b ra rb)
       {| forestdist := init_row (rb - offset_b b rb) (init_column (ra - offset_a a ra) (forestdist t));
          treedist := treedist t |}) /\
  sum_list ((λ r, length (pass_cells a b r.1 r.2)) <$> list_prod (keyroots a) (keyroots b)) =
  keyroot_weight a * keyroot_weight b.
Proof.
  intros Ha Hb. split; [intros ra rb t; apply (fold_prod (λ t i j, cell label_eq a b ra rb i j t))|].
  unfold keyroot_weight. rewrite <- sum_prod. f_equal. apply list_fmap_ext. intros i [ra rb] Hr.
  apply list_elem_of_lookup_2, list_elem_of_In, in_prod_iff in Hr as [Hra%list_elem_of_In Hrb%list_elem_of_In].
  unfold pass_cells, offset_a, offset_b, spine_a, spine_b. rewrite length_prod, !length_seq.
  simpl. by rewrite (holds_weight F a ra Ha Hra), (holds_weight G b rb Hb Hrb).
Qed.

(** A root with two leaves. *)
Definition cherry : rose json := Rose (JStr "r") [Rose (JStr "a") []; Rose (JStr "b") []].

Definition cherry_tree : Tree :=
  {| labels := [None; Some (JStr "a"); Some (JStr "b"); Some (JStr "r")]; leftmost := [0; 1; 2; 1];
     keyroots := [2; 3]; depth := 2 |}.

Example work_exact_witness :
  sum_list ((λ r, length (pass_cells cherry_tree cherry_tree r.1 r.2)) <$>
            list_prod (keyroots cherry_tree) (keyroots cherry_tree)) = 16.
Proof.
  refine (proj2 (work_exact (λ _ _, true) [cherry] [cherry] cherry_tree cherry_tree _ _));
    right; exists cherry; (split; [done|]); split; reflexivity.
Defined.

(** [normalised] can exceed one: against a chain of five nodes with the same
    labels, a root with four leaves is six edits away. *)
Theorem normalised_above_one :
  let leaf := JObj [("type", JStr "p")] in
  let over cs := JObj [("type", JStr "p"); ("children", JList cs)] in
  let star := over [leaf; leaf; leaf; leaf] in
  let chain := over [over [over [over [leaf]]]] in
  exists s, tree_score (λ _ _, true) "type" "children" (Some star) (Some chain) = Some (inr s) /\
    normalised s == 6 # 5.
Proof. eexists. split; [vm_compute; reflexivity|reflexivity]. Qed.
