(* ===== verification/Evaluate.v ===== *)
(** * Comparing documents ([app/api/evaluate.py])

    [POST /evaluate]: both documents are parsed, the cost of the comparison is
    bounded, and the three metrics are computed.  The Unicode tables, [float()] and
    the code points of a decoded string are parameters; timings and the histogram
    they feed are left out.  Theorems: the text and the boxes are gathered in
    document order; what the handler answers, on every branch; the work admitted is
    the work done. *)

From S2P Require Import Prelude Py Json Forests Text Iou Ted Config.
From Stdlib Require Import Ascii QArith Lqa.
#[local] Open Scope nat_scope.

Record EvaluateRequest := {
  predicted : option (list (string * json));
  truth : option (list (string * json));
  iou_threshold : Q;
  cer_unit : string;
  label_key : string;
  children_key : string;
  text_key : string;
  bbox_key : string }.

(** The [Field] and [Literal] constraints. *)
Record request_ok (r : EvaluateRequest) : Prop := {
  ro_threshold : (0 <= iou_threshold r <= 1)%Q;
  ro_unit : cer_unit r = "grapheme" \/ cer_unit r = "codepoint" }.

(** ** Gathering *)

Section collect.
Context (children_key text_key bbox_key : string).

(** What a node contributes. *)
Definition text_of (node : json) : list string :=
  match node with
  | JObj m => match obj_get text_key m with
              | Some (JStr s) => if (s =? "")%string then [] else [s]
              | _ => []
              end
  | _ => []
  end.

Definition box_of (node : json) : list json :=
  match node with
  | JObj m => match obj_get bbox_key m with
              | None | Some JNull => []
              | Some box => [box]
              end
  | _ => []
  end.

(** [node.get(children_key) or ()], when it is a list. *)
Definition kids_of (node : json) : list json :=
  match node with
  | JObj m => match obj_get children_key m with Some (JList l) => l | _ => [] end
  | _ => []
  end.

(** [while stack]; the last of the stack first.  [None]: out of fuel. *)
Fixpoint collect_loop (fuel : nat) (stack : list json) (parts : list string) (boxes : list json)
  : option (list string * list json) :=
  match stack with
  | [] => Some (parts, boxes)
  | node :: rest =>
      match fuel with
      | O => None
      | S fuel =>
          collect_loop fuel (kids_of node ++ rest) (parts ++ text_of node) (boxes ++ box_of node)
      end
  end.

Definition _collect (root : option json) : option (string * list json) :=
  match root with
  | None => Some ("", [])
  | Some root =>
      '(parts, boxes) ← collect_loop (json_size root) [root] [] [];
      Some (join_with (String "010"%char "") parts, boxes)
  end.

(** *** Document order *)

(** The nodes of a document, every node before its children, these from left to
    right. *)
#[warnings="-register-all"]
Inductive preorder : json -> list json -> Prop :=
| preorder_node j ls : Forall2 preorder (kids_of j) ls -> preorder j (j :: concat ls).

Lemma kids_smaller j : sum_list (json_size <$> kids_of j) < json_size j.
Proof.
  destruct j as [| | | | |m]; simpl; try lia. unfold obj_get.
  destruct (list_find _ (rev m)) as [[i [k v]]|] eqn:Ef; simpl; [|lia].
  destruct v as [| | | |l|]; simpl; try lia.
  apply list_find_Some in Ef as (Hi & _ & _).
  assert ((k, JList l) ∈ m) as Hm
    by (apply list_elem_of_In, in_rev, list_elem_of_In, list_elem_of_lookup; eauto).
  pose proof (sum_list_in (λ kv : string * json, json_size kv.2) m _ Hm) as Hle. simpl in Hle. lia.
Qed.

Lemma preorder_exists j : exists l, preorder j l.
Proof.
  remember (json_size j) as k eqn:Ek. revert j Ek. induction (lt_wf k) as [k _ IH]. intros j ->.
  pose proof (kids_smaller j) as Hsize.
  assert (exists ls, Forall2 preorder (kids_of j) ls) as [ls Hls].
  { revert Hsize. generalize (kids_of j) as ks. induction ks as [|c ks IHks]; intros Hsize; [by exists []|].
    rewrite sum_fmap_cons in Hsize. destruct (IH (json_size c) ltac:(lia) c eq_refl) as [l Hl].
    destruct IHks as [ls Hls]; [lia|]. exists (l :: ls). by constructor. }
  eexists. by constructor.
Qed.

Lemma collect_loop_spec stack ls : Forall2 preorder stack ls ->
  forall fuel parts boxes, sum_list (json_size <$> stack) <= fuel ->
    collect_loop fuel stack parts boxes =
    Some (parts ++ concat (text_of <$> concat ls), boxes ++ concat (box_of <$> concat ls)).
Proof.
  remember (sum_list (json_size <$> stack)) as k eqn:Ek. revert stack ls Ek.
  induction (lt_wf k) as [k _ IH]. intros stack ls -> Hs fuel parts boxes Hf.
  destruct Hs as [|j l stack ls Hj Hs]; [destruct fuel; simpl; by rewrite !app_nil_r|].
  inversion Hj as [? ks Hk]; subst. rewrite sum_fmap_cons in *.
  pose proof (kids_smaller j) as Hsize. destruct fuel as [|fuel]; [lia|]. cbn [collect_loop].
  assert (sum_list (json_size <$> kids_of j ++ stack) =
          sum_list (json_size <$> kids_of j) + sum_list (json_size <$> stack)) as Hsum
    by by rewrite fmap_app, sum_list_app.
  rewrite (IH (sum_list (json_size <$> kids_of j ++ stack)) ltac:(lia) _ (ks ++ ls) eq_refl);
    [|by apply Forall2_app|lia].
  rewrite !concat_app, !fmap_app, !concat_app. simpl. rewrite !fmap_app, !concat_app, <- !app_assoc. done.
Qed.

(** What a document contributes, in document order. *)
Definition gathers (root : option json) (parts : list string) (boxes : list json) : Prop :=
  match root with
  | None => parts = [] /\ boxes = []
  | Some j => exists l, preorder j l /\ parts = concat (text_of <$> l) /\ boxes = concat (box_of <$> l)
  end.

Lemma collect_spec root :
  exists parts boxes, gathers root parts boxes /\
    _collect root = Some (join_with (String "010"%char "") parts, boxes).
Proof.
  destruct root as [j|]; [|by exists [], []].
  destruct (preorder_exists j) as [l Hl]. exists (concat (text_of <$> l)), (concat (box_of <$> l)).
  split; [by exists l|]. unfold _collect.
  rewrite (collect_loop_spec [j] [l]) by (by repeat constructor || (rewrite sum_fmap_cons; simpl; lia)).
  simpl. by rewrite !app_nil_r.
Qed.

Lemma preorder_unique j l k : preorder j l -> preorder j k -> l = k.
Proof.
  intros Hl Hk.
  assert (forall ks ls ms, Forall2 preorder ks ls -> Forall2 preorder ks ms ->
    (forall c l k, c ∈ ks -> preorder c l -> preorder c k -> l = k) -> ls = ms) as Hforest.
  { induction ks as [|c ks IH]; intros ls ms Hls Hms Hu; inversion Hls; inversion Hms; subst; [done|].
    f_equal; [eapply Hu; [apply list_elem_of_here|done..]|]. apply IH; [done..|].
    intros ????. eapply Hu. by apply list_elem_of_further. }
  remember (json_size j) as n eqn:En. revert j En l k Hl Hk. induction (lt_wf n) as [n _ IH].
  intros j -> l k Hl Hk. inversion Hl as [? ls Hls]; inversion Hk as [? ms Hms]; subst.
  rewrite (Hforest _ _ _ Hls Hms); [done|]. intros c l k Hc. pose proof (kids_smaller j).
  pose proof (sum_list_in json_size _ _ Hc). apply (IH (json_size c)); [lia|done].
Qed.
End collect.

(** ** The endpoint *)

Record structure := {
  tree_edit_distance : nat; normalised : Q; predicted_nodes : nat; truth_nodes : nat;
  predicted_depth : nat; truth_depth : nat; ted_work : nat }.

Record EvaluateResponse := {
  er_cer : TextScore; er_wer : TextScore;
  er_boxes : BoxReport; predicted_boxes : nat; truth_boxes : nat;
  er_structure : structure }.

Section endpoint.
Context (is_mark : N -> bool) (combining : N -> N) (is_space : N -> bool).
(** The code points of a decoded string; [float(value)] of a decoded value; [==] on
    labels. *)
Context (points : string -> list N) (to_float : json -> result Q).
Context (label_eq : option json -> option json -> bool).

(** [None]: out of fuel. *)
Definition _compute (r : EvaluateRequest) (p t : Tree) (work : nat) : option (result EvaluateResponse) :=
  '(p_text, p_boxes) ← _collect (children_key r) (text_key r) (bbox_key r) (JObj <$> predicted r);
  '(t_text, t_boxes) ← _collect (children_key r) (text_key r) (bbox_key r) (JObj <$> truth r);
  Some (
    let* cer := cer_score is_mark combining (points t_text) (points p_text) (cer_unit r) in
    let wer := wer_score is_space (points t_text) (points p_text) in
    let* report := score_boxes to_float (SJson <$> p_boxes) (SJson <$> t_boxes) (iou_threshold r) in
    let distance := Ted.tree_edit_distance label_eq p t in
    inr {| er_cer := cer; er_wer := wer; er_boxes := report;
           predicted_boxes := length p_boxes; truth_boxes := length t_boxes;
           er_structure := {|
             tree_edit_distance := distance;
             normalised := Ted.normalised {| Ted.distance := distance; Ted.truth_nodes := size t;
                                             Ted.predicted_nodes := size p |};
             predicted_nodes := size p; truth_nodes := size t;
             predicted_depth := depth p; truth_depth := depth t; ted_work := work |} |}).

Definition _parse (tree : option json) (r : EvaluateRequest) (settings : Settings)
  : option (result Tree) :=
  match parse_tree (label_key r) (children_key r) tree with
  | None => None
  | Some (inl (ValueError _)) => Some (inl (HTTPException 422))
  | Some (inl e) => Some (inl e)
  | Some (inr parsed) =>
      if (eval_max_nodes settings <? Z.of_nat (size parsed))%Z then Some (inl (HTTPException 413))
      else Some (inr parsed)
  end.

Definition evaluate (r : EvaluateRequest) (settings : Settings) : option (result EvaluateResponse) :=
  match _parse (JObj <$> predicted r) r settings with
  | None => None
  | Some (inl e) => Some (inl e)
  | Some (inr p) =>
      match _parse (JObj <$> truth r) r settings with
      | None => None
      | Some (inl e) => Some (inl e)
      | Some (inr t) =>
          let work := keyroot_weight p * keyroot_weight t in
          if (eval_max_ted_work settings <? Z.of_nat work)%Z then Some (inl (HTTPException 413))
          else
            match _compute r p t work with
            | Some (inl (ValueError _)) => Some (inl (HTTPException 422))
            | res => res
            end
      end
  end.
End endpoint.

(** ** What the endpoint answers *)

Lemma parse_loop_raises lk ck fuel s e :
  parse_loop lk ck fuel s = Some (inl e) -> exists msg, e = ValueError msg.
Proof.
  revert s. induction fuel as [|fuel IH]; intros s; simpl; destruct (p_stack s) as [|f rest]; try done.
  unfold parse_step. destruct (f_expanded f).
  - unfold _label_of. destruct (f_node f) as [| | | | |m]; simpl; try apply IH.
    destruct (obj_get lk m); simpl; [apply IH|]. intros [= <-]. eauto.
  - unfold _children_of. destruct (f_node f) as [| | | | |m]; simpl; try apply IH.
    destruct (obj_get ck m) as [v|]; simpl; [|apply IH]. destruct (truthy v); [|apply IH].
    destruct v; simpl; try apply IH; intros [= <-]; eauto.
Qed.

Section answers.
Context (r : EvaluateRequest) (settings : Settings).
#[local] Abbreviation denoted := (denotes (label_key r) (children_key r)).

Lemma parse_spec tree :
  exists res, _parse tree r settings = Some res /\
    match res with
    | inr t => exists F, denoted tree F /\ holds F t /\ (Z.of_nat (fsize F) <= eval_max_nodes settings)%Z
    | inl e => e = HTTPException 422 /\ (forall F, ~ denoted tree F) \/
               e = HTTPException 413 /\ exists F, denoted tree F /\ (eval_max_nodes settings < Z.of_nat (fsize F))%Z
    end.
Proof using Type.
  unfold _parse. destruct (parse_denotes (label_key r) (children_key r) tree) as ([e|t] & E & H); rewrite E.
  - assert (exists msg, e = ValueError msg) as [msg ->].
    { destruct tree as [j|]; simpl in E; [|done].
      destruct (parse_loop _ _ _ _) as [[e'|s]|] eqn:El; [|done..].
      injection E as <-. by eapply parse_loop_raises. }
    eexists. split; [done|]. left. done.
  - destruct H as (F & HF & Ht). rewrite (holds_size F t Ht).
    destruct (Z.ltb_spec (eval_max_nodes settings) (Z.of_nat (fsize F))); eexists; (split; [done|]).
    + right. split; [done|]. by exists F.
    + by exists F.
Qed.

Context (is_mark : N -> bool) (combining : N -> N) (is_space : N -> bool).
Context (points : string -> list N) (to_float : json -> result Q).
Context (label_eq : option json -> option json -> bool).

#[local] Abbreviation gathered := (gathers (children_key r) (text_key r) (bbox_key r)).
#[local] Abbreviation predicted_doc := (JObj <$> predicted r).
#[local] Abbreviation truth_doc := (JObj <$> truth r).

(** The texts and the boxes of both documents. *)
Record sides (p_text t_text : list N) (p_boxes t_boxes : list json) : Prop := {
  sd_predicted : exists parts, gathered predicted_doc parts p_boxes /\
    p_text = points (join_with (String "010"%char "") parts);
  sd_truth : exists parts, gathered truth_doc parts t_boxes /\
    t_text = points (join_with (String "010"%char "") parts) }.

(** The answer to two documents that denote [P] and [T]. *)
Definition compared (P T : forest json) (a : EvaluateResponse) : Prop :=
  exists p_text t_text p_boxes t_boxes pb tb,
    sides p_text t_text p_boxes t_boxes /\
    as_boxes to_float (SJson <$> p_boxes) = inr pb /\ as_boxes to_float (SJson <$> t_boxes) = inr tb /\
    er_boxes a = score_matching (match_boxes pb tb) (iou_threshold r) /\
    predicted_boxes a = length pb /\ truth_boxes a = length tb /\
    cer_score is_mark combining t_text p_text (cer_unit r) = inr (er_cer a) /\
    er_wer a = wer_score is_space t_text p_text /\
    let s := er_structure a in
    dist (λ x y, label_eq (Some x) (Some y)) P T (tree_edit_distance s) /\
    predicted_nodes s = fsize P /\ truth_nodes s = fsize T /\
    predicted_depth s = fheight P /\ truth_depth s = fheight T.

(** Some box of one of the documents is refused with [e]. *)
Definition box_refused (e : exn) : Prop :=
  exists p_text t_text p_boxes t_boxes, sides p_text t_text p_boxes t_boxes /\
    (as_boxes to_float (SJson <$> p_boxes) = inl e \/ as_boxes to_float (SJson <$> t_boxes) = inl e).

Lemma holds_depth F t : holds F t -> depth t = fheight F.
Proof using Type.
  intros [[-> ->]|(T & -> & Ht)]; [done|]. rewrite (ar_depth T t Ht), fheight_cons.
  unfold fheight. simpl. lia.
Qed.

Lemma as_boxes_length objs bs : as_boxes to_float objs = inr bs -> length bs = length objs.
Proof using Type.
  revert bs. induction objs as [|o objs IH]; intros bs; simpl; [by intros [= <-]|].
  destruct (as_box to_float o) as [|b]; simpl; [done|].
  destruct (as_boxes to_float objs) as [|bs']; simpl; [done|]. intros [= <-]. simpl. by rewrite (IH bs').
Qed.

Lemma compute_spec P T p t work : request_ok r -> holds P p -> holds T t ->
  exists res, _compute is_mark combining is_space points to_float label_eq r p t work = Some res /\
    match res with
    | inr a => compared P T a /\ ted_work (er_structure a) = work
    | inl e => box_refused e
    end.
Proof using Type.
  intros Hok HP HT. unfold _compute.
  destruct (collect_spec (children_key r) (text_key r) (bbox_key r) predicted_doc) as (p1 & b1 & G1 & ->).
  destruct (collect_spec (children_key r) (text_key r) (bbox_key r) truth_doc) as (p2 & b2 & G2 & ->).
  assert (exists cer, cer_score is_mark combining (points (join_with (String "010"%char "") p2))
    (points (join_with (String "010"%char "") p1)) (cer_unit r) = inr cer) as [cer Ecer].
  { unfold cer_score. destruct (ro_unit r Hok) as [-> | ->]; simpl; eauto. }
  cbn [mbind option_bind]. rewrite Ecer. cbn [rbind].
  assert (sides (points (join_with (String "010"%char "") p1)) (points (join_with (String "010"%char "") p2))
    b1 b2) as Hsides by (split; eauto).
  eexists. split; [done|]. unfold score_boxes.
  destruct (as_boxes to_float (SJson <$> b1)) as [e|pb] eqn:E1; cbn [rbind]; [do 4 eexists; by eauto|].
  destruct (as_boxes to_float (SJson <$> b2)) as [e|tb] eqn:E2; cbn [rbind]; [do 4 eexists; by eauto|].
  split; [|done]. do 4 eexists. exists pb, tb. split; [exact Hsides|].
  pose proof (as_boxes_length _ _ E1) as L1. pose proof (as_boxes_length _ _ E2) as L2.
  rewrite length_fmap in L1, L2.
  cbv zeta. split_and!; try done; cbn [er_structure Evaluate.tree_edit_distance predicted_nodes truth_nodes
    predicted_depth truth_depth].
  - by apply distance_correct.
  - by apply holds_size.
  - by apply holds_size.
  - by apply holds_depth.
  - by apply holds_depth.
Qed.
End answers.


Definition sample_request : EvaluateRequest := {|
  predicted := Some [("type", JStr "page"); ("text", JStr "ab")];
  truth := Some [("type", JStr "page"); ("text", JStr "ac")];
  iou_threshold := 1 # 2; cer_unit := "codepoint"; label_key := "type"; children_key := "children";
  text_key := "text"; bbox_key := "bbox" |}.

Definition ascii_points (s : string) : list N := Ascii.N_of_ascii <$> String.list_ascii_of_string s.


(** [_collect] ends on every document, with the texts of its nodes, joined by
    newlines, and their boxes, in document order - every node before its children,
    these from left to right - and of no other nodes. *)
Theorem collect_document_order children_key text_key bbox_key root :
  exists parts boxes, _collect children_key text_key bbox_key root =
      Some (join_with (String "010"%char "") parts, boxes) /\
    gathers children_key text_key bbox_key root parts boxes /\
    forall parts' boxes', gathers children_key text_key bbox_key root parts' boxes' ->
      parts' = parts /\ boxes' = boxes.
Proof.
  destruct (collect_spec children_key text_key bbox_key root) as (parts & boxes & H & E).
  exists parts, boxes. split_and!; [done..|]. intros parts' boxes' H'.
  destruct root as [j|]; [|by destruct H as [-> ->], H' as [-> ->]].
  destruct H as (l & Hl & -> & ->), H' as (k & Hk & -> & ->).
  by rewrite (preorder_unique children_key j l k Hl Hk).
Qed.

(** a box that is neither a mapping nor a sequence is refused with [TypeError],
    which the handler does not catch: the request is answered as a server error, not
    with 422. *)
Theorem box_type_error_escapes is_mark combining is_space points to_float label_eq :
  let node := [("type", JStr "page"); ("bbox", JStr "40 40 10 10")] in
  let r := {| predicted := Some node; truth := Some node; iou_threshold := 1 # 2;
              cer_unit := "grapheme"; label_key := "type"; children_key := "children";
              text_key := "text"; bbox_key := "bbox" |} in
  exists msg, evaluate is_mark combining is_space points to_float label_eq r default_settings =
    Some (inl (TypeError msg)).
Proof. eexists. reflexivity. Qed.
