(* ===== verification/Shapes.v ===== *)
(** * What a comparison costs, by the shape of the documents

    The weight on which [POST /evaluate] admits a comparison ([Tree.keyroot_weight]
    of [app/eval/ted.py]), as a function of the tree: it is settled by who is whose
    first child.  With it, the documents [scripts/verify.py] probes the guard with,
    and what the endpoint answers when a document is compared with itself. *)

From S2P Require Import Prelude Py Json Forests Text Iou Ted Config Evaluate.
From Stdlib Require Import Ascii QArith.
#[local] Open Scope nat_scope.

(** ** The weight of a tree *)

Section weight.
Context {L : Type}.
Implicit Types (t : rose L) (F : forest L).

(** What the keyroots below the root add up to: every node that is not a first child
    is the root of a pass over its own subtree. *)
Fixpoint inner t : nat :=
  match t with
  | Rose _ ks => match ks with
                 | [] => 0
                 | c :: cs => inner c + sum_list ((λ c, tsize c + inner c) <$> cs)
                 end
  end.

Definition weight t : nat := tsize t + inner t.

(** The same for a forest, with or without a pass over its first tree. *)
Definition forest_weight (skip : bool) F : nat :=
  match F with
  | [] => 0
  | c :: cs => (if skip then 0 else tsize c) + inner c + sum_list (weight <$> cs)
  end.

Lemma inner_rose a F : inner (Rose a F) = forest_weight true F.
Proof. by destruct F. Qed.

Lemma forest_weight_all F : forest_weight false F = sum_list (weight <$> F).
Proof. by destruct F. Qed.

Lemma tsize_pos t : 1 <= tsize t.
Proof. destruct t. simpl. lia. Qed.
End weight.

(** ** The scan for keyroots, block by block *)

Section scan.
Context {L : Type} (lm : list nat).
Implicit Types (t : rose L) (F : forest L).

(** From index [s] on, [lm] holds the leftmost leaves of [l]. *)
Definition covers (s : nat) (l : list (L * nat)) : Prop :=
  forall i x, l !! i = Some x -> nth (s + i) lm 0 = x.2.

Lemma covers_app s l k : covers s (l ++ k) -> covers s l /\ covers (s + length l) k.
Proof using Type.
  intros H. split; intros i x Hi.
  - apply H. by apply lookup_app_l_Some.
  - rewrite <- Nat.add_assoc. apply H. rewrite lookup_app_r by lia. by replace (_ + i - _) with i by lia.
Qed.

Definition keyroots_weight (ks : list nat) : nat := sum_list ((λ k, k - nth k lm 0 + 1) <$> ks).

Lemma keyroots_weight_app ks ks' :
  keyroots_weight (ks ++ ks') = keyroots_weight ks + keyroots_weight ks'.
Proof using Type. unfold keyroots_weight. by rewrite fmap_app, sum_list_app. Qed.

(** Scanning the [n] nodes from [s] on finds keyroots that weigh [w]; what it has seen
    below [s] is what had been seen. *)
Definition scans (s n w : nat) (seen : list nat) : Prop :=
  forall found, exists ks seen',
    scan_keyroots lm (s + n - 1) seen found = scan_keyroots lm (s - 1) seen' (ks ++ found) /\
    keyroots_weight ks = w /\ forall v, v < s -> v ∈ seen' <-> v ∈ seen.

Definition fresh (s n : nat) (seen : list nat) : Prop := forall v, s < v < s + n -> v ∉ seen.

Definition tree_scans t : Prop := forall s seen,
  1 <= s -> covers s (post s t) -> fresh s (tsize t) seen ->
  scans s (tsize t) ((if bool_decide (s ∈ seen) then 0 else tsize t) + inner t) seen.

Lemma forest_scans F : Forall tree_scans F -> forall s seen,
  1 <= s -> covers s (posts s F) -> fresh s (fsize F) seen ->
  scans s (fsize F) (forest_weight (bool_decide (s ∈ seen)) F) seen.
Proof using Type.
  induction 1 as [|t F Ht _ IH]; intros s seen Hs Hc Hf found.
  { exists [], seen. split_and!; [|done..]. unfold fsize. simpl. by rewrite Nat.add_0_r. }
  assert (fsize (t :: F) = tsize t + fsize F) as E by done. rewrite E in *.
  cbn [posts] in Hc. apply covers_app in Hc as [Hct Hcf]. rewrite length_post in Hcf.
  pose proof (tsize_pos t) as Hpos.
  destruct (IH (s + tsize t) seen) with (found := found) as (ks & seen1 & E1 & W1 & S1); [lia|done| |].
  { intros v Hv. apply Hf. lia. }
  destruct (Ht s seen1) with (found := ks ++ found) as (ks2 & seen2 & E2 & W2 & S2); [done..| |].
  { intros v Hv. rewrite S1 by lia. apply Hf. lia. }
  exists (ks2 ++ ks), seen2. rewrite Nat.add_assoc, E1, E2, <- app_assoc. split_and!; [done| |].
  - rewrite keyroots_weight_app, W1, W2. cbn [forest_weight].
    rewrite (bool_decide_ext (s ∈ seen1) (s ∈ seen)) by (apply S1; lia).
    destruct F as [|u F]; [simpl; lia|].
    rewrite (bool_decide_eq_false_2 (s + tsize t ∈ seen)), forest_weight_all; [lia|].
    apply Hf. unfold fsize. simpl. pose proof (tsize_pos u). lia.
  - intros v Hv. rewrite S2 by done. apply S1. lia.
Qed.

Lemma all_scan t : tree_scans t.
Proof using Type.
  induction t as [a F HF] using rose_rect'. intros s seen Hs Hc Hf found.
  rewrite post_rose in Hc. apply covers_app in Hc as [Hcf Hca]. rewrite length_posts in Hca.
  specialize (Hca 0 (a, s) eq_refl). rewrite Nat.add_0_r in Hca.
  assert (tsize (Rose a F) = S (fsize F)) as E by done. rewrite E in *. rewrite inner_rose.
  assert (s + S (fsize F) - 1 = S (s + fsize F - 1)) as -> by lia. cbn [scan_keyroots].
  assert (S (s + fsize F - 1) = s + fsize F) as -> by lia. cbn [snd] in Hca. rewrite Hca.
  assert (forall seen', fresh s (fsize F) seen' -> scans s (fsize F) (forest_weight (bool_decide (s ∈ seen')) F) seen')
    as Hscan by (intros; by apply forest_scans).
  destruct (decide (s ∈ seen)) as [Hin|Hin];
    [rewrite !(bool_decide_eq_true_2 (s ∈ seen)) by done|rewrite !(bool_decide_eq_false_2 (s ∈ seen)) by done].
  - destruct (Hscan seen) with (found := found) as (ks & seen' & E1 & W1 & S1); [intros v Hv; apply Hf; lia|].
    exists ks, seen'. rewrite !bool_decide_eq_true_2 in * by done. by split_and!.
  - destruct (Hscan (s :: seen)) with (found := s + fsize F :: found) as (ks & seen' & E1 & W1 & S1).
    { intros v Hv [->|Hv']%elem_of_cons; [lia|]. apply (Hf v); [lia|done]. }
    rewrite bool_decide_eq_true_2 in W1 by apply list_elem_of_here.
    exists (ks ++ [s + fsize F]), seen'. rewrite E1, <- app_assoc. split_and!; [done| |].
    + rewrite keyroots_weight_app, W1. unfold keyroots_weight. simpl. rewrite Hca. lia.
    + intros v Hv. rewrite S1, elem_of_cons by done. split; [intros [->|]; [lia|done]|by right].
Qed.
End scan.

(** The weight [Tree.keyroot_weight] computes is that of the tree. *)
Lemma keyroot_weight_spec T t : arrays_of T t -> keyroot_weight t = weight T.
Proof.
  intros Ht. unfold keyroot_weight, left_of. rewrite (ar_keyroots _ _ Ht).
  destruct (all_scan (leftmost t) T 1 []) with (found := @nil nat) as (ks & seen & E & W & _).
  - done.
  - intros i x Hi. rewrite (ar_leftmost _ _ Ht). cbn [nth Nat.add].
    by rewrite nth_lookup, list_lookup_fmap, Hi.
  - intros v _ ?%elem_of_nil. done.
  - replace (1 + tsize T - 1) with (tsize T) in E by lia. rewrite E, app_nil_r. exact W.
Qed.

(** *** How large it can be *)

Lemma squares_sum (l : list nat) : Forall (le 1) l ->
  sum_list ((λ m, (m + 1) * (m + 1)) <$> l) <=
  sum_list l * sum_list l + 2 * sum_list l + Nat.min 1 (sum_list l).
Proof.
  induction 1 as [|m l Hm _ IH]; [simpl; lia|]. rewrite sum_fmap_cons.
  change (sum_list (m :: l)) with (m + sum_list l). revert IH. generalize (sum_list l) as S. intros S IH.
  destruct S as [|S]; nia.
Qed.

(** A node counts at least once, and at most as often as in the caterpillar of the same
    size. *)
Lemma weight_bounds {L} (T : rose L) : tsize T <= weight T /\ 4 * weight T <= (tsize T + 1) * (tsize T + 1).
Proof.
  split; [unfold weight; lia|]. unfold weight.
  induction T as [a F HF] using rose_rect'. rewrite inner_rose.
  change (tsize (Rose a F)) with (S (sum_list (tsize <$> F))).
  destruct F as [|c cs]; [simpl; lia|]. apply Forall_cons in HF as [Hc HF].
  rewrite sum_fmap_cons. cbn [forest_weight].
  assert (4 * sum_list (weight <$> cs) <= sum_list ((λ m, (m + 1) * (m + 1)) <$> (tsize <$> cs))) as Hcs.
  { clear Hc. induction HF as [|t cs Ht _ IH]; [simpl; lia|].
    rewrite (fmap_cons tsize), !sum_fmap_cons. unfold weight at 1. lia. }
  assert (Forall (le 1) (tsize <$> cs)) as Hpos
    by (apply Forall_fmap, Forall_true; intros t; apply tsize_pos).
  pose proof (squares_sum _ Hpos) as Hsq. pose proof (tsize_pos c). unfold weight in Hcs |- *.
  revert Hcs Hsq. generalize (sum_list (tsize <$> cs)) as S. intros S Hcs Hsq. destruct S as [|S]; nia.
Qed.

(** ** The documents of [scripts/verify.py] *)

Definition cell (r c : nat) : json :=
  JObj [("type", JStr "cell"); ("text", JStr ("r" +:+ py_str (Z.of_nat r) +:+ "c" +:+ py_str (Z.of_nat c)))].

Definition row (r : nat) : json :=
  JObj [("type", JStr "row"); ("children", JList (cell r <$> seq 0 3))].

Definition block_box (y : nat) (h : string) : json :=
  JList [JNum "40"; JNum (py_str (Z.of_nat y) +:+ ".0"); JNum "500"; JNum h].

(** The block [i], with its top at [y]. *)
Definition block (i y : nat) : json :=
  if i mod 3 =? 2 then
    JObj [("type", JStr "table"); ("bbox", block_box y "90"); ("children", JList (row <$> seq 0 3))]
  else
    JObj [("type", JStr (nth (i mod 3) ["paragraph"; "title"; "figure"] ""));
          ("bbox", block_box y "60");
          ("text", JStr ("block " +:+ py_str (Z.of_nat i) +:+ " body text for scoring"))].

(** [for i in range(blocks)], from [i] and [y] on. *)
Fixpoint page_blocks (n i y : nat) : list json :=
  match n with
  | O => []
  | S n => block i y :: page_blocks n (i + 1) (y + 70)
  end.

Definition _page_tree (blocks : nat) : list (string * json) :=
  [("type", JStr "page"); ("bbox", JList [JNum "0"; JNum "0"; JNum "595"; JNum "842"]);
   ("children", JList (page_blocks blocks 0 40))].

Definition spine (node : json) : list (string * json) :=
  [("type", JStr "spine"); ("children", JList [JObj [("type", JStr "leaf")]; node])].

Fixpoint _caterpillar (n : nat) : list (string * json) :=
  match n with
  | O => [("type", JStr "tip")]
  | S n => spine (JObj (_caterpillar n))
  end.

(** *** The trees they denote *)

#[local] Abbreviation is_tree := (tree_of "type" "children").
#[local] Abbreviation leaf l := (Rose (JStr l) []).

Fixpoint caterpillar (n : nat) : rose json :=
  match n with
  | O => leaf "tip"
  | S n => Rose (JStr "spine") [leaf "leaf"; caterpillar n]
  end.

Lemma caterpillar_tree n : is_tree (JObj (_caterpillar n)) (caterpillar n).
Proof.
  induction n as [|n IH]; [by econstructor|].
  cbn [_caterpillar caterpillar]. econstructor; [reflexivity..|]. repeat constructor; [by econstructor|exact IH].
Qed.

Lemma caterpillar_size n : tsize (caterpillar n) = 2 * n + 1.
Proof.
  induction n as [|n IH]; [done|]. cbn [caterpillar tsize fmap list_fmap].
  rewrite IH. simpl. lia.
Qed.

Lemma caterpillar_height n : theight (caterpillar n) = n + 1.
Proof.
  induction n as [|n IH]; [done|]. cbn [caterpillar theight fmap list_fmap].
  rewrite IH. simpl. lia.
Qed.

Lemma caterpillar_weight n : weight (caterpillar n) = (n + 1) * (n + 1).
Proof.
  induction n as [|n IH]; [done|]. unfold weight in *. rewrite caterpillar_size in *.
  cbn [caterpillar inner fmap list_fmap].
  rewrite caterpillar_size. simpl. lia.
Qed.

Definition row_tree : rose json := Rose (JStr "row") [leaf "cell"; leaf "cell"; leaf "cell"].

Definition block_tree (i : nat) : rose json :=
  if i mod 3 =? 2 then Rose (JStr "table") [row_tree; row_tree; row_tree]
  else leaf (nth (i mod 3) ["paragraph"; "title"; "figure"] "").

Definition page_tree (blocks : nat) : rose json := Rose (JStr "page") (block_tree <$> seq 0 blocks).

Lemma block_is_tree i y : is_tree (block i y) (block_tree i).
Proof.
  unfold block, block_tree. destruct (i mod 3 =? 2); [|by econstructor].
  econstructor; [reflexivity..|]. repeat constructor;
    (econstructor; [reflexivity..|]; repeat constructor; by econstructor).
Qed.

Lemma page_tree_tree n : is_tree (JObj (_page_tree n)) (page_tree n).
Proof.
  assert (forall n i y, Forall2 is_tree (page_blocks n i y) (block_tree <$> seq i n)) as Hblocks.
  { clear n. induction n as [|n IH]; intros i y; [constructor|]. cbn [page_blocks seq fmap list_fmap].
    constructor; [apply block_is_tree|]. rewrite Nat.add_1_r. apply IH. }
  apply (tree_of_node _ _ _ _ (page_blocks n 0 40)); [reflexivity|by destruct n|apply Hblocks].
Qed.

Lemma block_facts i :
  tsize (block_tree i) = (if i mod 3 =? 2 then 13 else 1) /\
  weight (block_tree i) = (if i mod 3 =? 2 then 27 else 1).
Proof. unfold block_tree. by destruct (i mod 3 =? 2). Qed.

(** Every third block is a table. *)
Lemma block_sums n :
  sum_list (tsize <$> (block_tree <$> seq 0 n)) = n + 12 * (n / 3) /\
  sum_list (weight <$> (block_tree <$> seq 0 n)) = n + 26 * (n / 3).
Proof.
  induction n as [|n [IH1 IH2]]; [done|].
  rewrite seq_S, !fmap_app, !sum_list_app, IH1, IH2. cbn [Nat.add fmap list_fmap sum_list sum_list_with].
  destruct (block_facts n) as [-> ->].
  pose proof (Nat.div_mod_eq n 3). pose proof (Nat.div_mod_eq (S n) 3).
  pose proof (Nat.mod_upper_bound n 3 ltac:(lia)). pose proof (Nat.mod_upper_bound (S n) 3 ltac:(lia)).
  destruct (Nat.eqb_spec (n mod 3) 2); unfold id; lia.
Qed.

Lemma page_tree_size n : tsize (page_tree n) = n + 12 * (n / 3) + 1.
Proof. cbn [page_tree tsize]. rewrite (proj1 (block_sums n)). lia. Qed.

Lemma page_tree_weight n : 0 < n -> weight (page_tree n) = 2 * n + 38 * (n / 3).
Proof.
  intros Hn. unfold weight. rewrite page_tree_size. destruct n as [|n]; [lia|].
  pose proof (proj2 (block_sums (S n))) as Hs. unfold page_tree. rewrite inner_rose.
  change (block_tree <$> seq 0 (S n)) with (block_tree 0 :: (block_tree <$> seq 1 n)) in *.
  rewrite sum_fmap_cons in Hs. change (weight (block_tree 0)) with 1 in Hs.
  cbn [forest_weight]. change (inner (block_tree 0)) with 0. lia.
Qed.

(** ** What is compared *)

(** The guard of the endpoint. *)
Definition too_costly (settings : Settings) (P T : rose json) : bool :=
  (eval_max_nodes settings <? Z.of_nat (tsize P))%Z || (eval_max_nodes settings <? Z.of_nat (tsize T))%Z ||
  (eval_max_ted_work settings <? Z.of_nat (weight P) * Z.of_nat (weight T))%Z.

Section compare.
Context (is_mark : N -> bool) (combining : N -> N) (is_space : N -> bool).
Context (points : string -> list N) (to_float : json -> result Q).
Context (label_eq : option json -> option json -> bool).

#[local] Abbreviation ask r settings :=
  (evaluate is_mark combining is_space points to_float label_eq r settings).

Lemma parse_known r m T settings : tree_of (label_key r) (children_key r) (JObj m) T ->
  exists t, arrays_of T t /\
    Evaluate._parse (Some (JObj m)) r settings =
    Some (if (eval_max_nodes settings <? Z.of_nat (tsize T))%Z then inl (HTTPException 413) else inr t).
Proof using Type.
  intros HT. unfold Evaluate._parse.
  destruct (parse_tree_spec (label_key r) (children_key r) (JObj m)) as ([e|t] & E & H); rewrite E.
  { by apply H in HT. }
  destruct H as (U & HU & Ht). rewrite (tree_of_unique _ _ _ _ _ HU HT) in Ht.
  exists t. split; [done|]. rewrite (arrays_size T t Ht). by destruct (_ <? _)%Z.
Qed.

(** The request compares the documents of [P] and [T]. *)
Record compares (r : EvaluateRequest) (P T : rose json) : Prop := {
  cm_ok : request_ok r;
  cm_predicted : exists m, predicted r = Some m /\ tree_of (label_key r) (children_key r) (JObj m) P;
  cm_truth : exists m, truth r = Some m /\ tree_of (label_key r) (children_key r) (JObj m) T }.

Lemma asked r P T settings : compares r P T ->
  if too_costly settings P T then ask r settings = Some (inl (HTTPException 413))
  else (exists a, compared r is_mark combining is_space points to_float label_eq [P] [T] a /\
          Z.of_nat (ted_work (er_structure a)) = (Z.of_nat (weight P) * Z.of_nat (weight T))%Z /\
          ask r settings = Some (inr a)) \/
       (exists e, box_refused r points to_float e /\
          ask r settings = Some (inl match e with ValueError _ => HTTPException 422 | _ => e end)).
Proof using Type.
  intros [Hok (mp & Ep & HP) (mt & Et & HT)]. unfold evaluate, too_costly. rewrite Ep, Et.
  cbn [fmap option_fmap option_map].
  destruct (parse_known r mp P settings HP) as (p & Hp & ->).
  destruct (parse_known r mt T settings HT) as (t & Ht & ->).
  destruct (eval_max_nodes settings <? _)%Z; [done|].
  destruct (eval_max_nodes settings <? _)%Z; [done|].
  rewrite (keyroot_weight_spec P p Hp), (keyroot_weight_spec T t Ht). cbn [orb]. rewrite <- Nat2Z.inj_mul.
  destruct (eval_max_ted_work settings <? _)%Z; [done|].
  destruct (compute_spec r is_mark combining is_space points to_float label_eq [P] [T] p t
    (weight P * weight T) Hok) as ([e|a] & -> & H); [by right; eauto..| |].
  - right. exists e. split; [done|]. by destruct e.
  - destruct H as [H <-]. left. by exists a.
Qed.

(** how far the sizes of two documents decide whether they are compared.  When a size
    is above the limit on nodes, or the product of the sizes above the limit on cells,
    the request is refused with 413; when both sizes are within it and the two
    caterpillars of those sizes could be compared, it is not - it is answered, unless a
    box is refused - whatever the shapes. *)
Theorem admitted_by_size r P T settings : compares r P T ->
  let n := Z.of_nat (tsize P) in let m := Z.of_nat (tsize T) in
  let limit := eval_max_ted_work settings in
  ((eval_max_nodes settings < n \/ eval_max_nodes settings < m \/ limit < n * m)%Z ->
     ask r settings = Some (inl (HTTPException 413))) /\
  ((n <= eval_max_nodes settings /\ m <= eval_max_nodes settings /\
    (n + 1) * (n + 1) * ((m + 1) * (m + 1)) <= 16 * limit)%Z ->
     (exists a, ask r settings = Some (inr a) /\
        compared r is_mark combining is_space points to_float label_eq [P] [T] a) \/
     (exists e, box_refused r points to_float e /\
        ask r settings = Some (inl match e with ValueError _ => HTTPException 422 | _ => e end))).
Proof using Type.
  intros Hr n m limit. pose proof (asked r P T settings Hr) as H. unfold too_costly in H.
  destruct (weight_bounds P) as [P1 P2], (weight_bounds T) as [T1 T2].
  assert (n * m <= Z.of_nat (weight P) * Z.of_nat (weight T))%Z as Hlow by (unfold n, m; nia).
  assert (16 * (Z.of_nat (weight P) * Z.of_nat (weight T)) <= (n + 1) * (n + 1) * ((m + 1) * (m + 1)))%Z as Hhigh.
  { assert (4 * Z.of_nat (weight P) <= (n + 1) * (n + 1))%Z by (unfold n; nia).
    assert (4 * Z.of_nat (weight T) <= (m + 1) * (m + 1))%Z by (unfold m; nia). nia. }
  fold n m limit in H.
  destruct (Z.ltb_spec (eval_max_nodes settings) n), (Z.ltb_spec (eval_max_nodes settings) m),
    (Z.ltb_spec limit (Z.of_nat (weight P) * Z.of_nat (weight T))); cbn [orb] in H;
    (split; intros Hb; try done; try lia).
  destruct H as [(a & Hc & _ & E)|H]; [left; by exists a|by right].
Qed.
End compare.

(** ** A document compared with itself *)

Section self.
Context (is_mark : N -> bool) (combining : N -> N) (is_space : N -> bool).
Context (points : string -> list N) (to_float : json -> result Q).
Context (label_eq : option json -> option json -> bool) (Heq : forall l, label_eq l l = true).

(** The request with the defaults of [EvaluateRequest]. *)
Definition both (m : list (string * json)) : EvaluateRequest := {|
  predicted := Some m; truth := Some m; iou_threshold := 1 # 2; cer_unit := "grapheme";
  label_key := "type"; children_key := "children"; text_key := "text"; bbox_key := "bbox" |}.

Lemma both_compares m T : is_tree (JObj m) T -> compares (both m) T T.
Proof using Type. intros HT. split; [split; [split; discriminate|by left]|by exists m..]. Qed.

#[local] Abbreviation answer m settings :=
  (evaluate is_mark combining is_space points to_float label_eq (both m) settings).

(** *** The probes *)

(** [float] reads the decimals of the probes. *)
Definition reads_numbers : Prop := forall n : nat,
  to_float (JNum (py_str (Z.of_nat n))) = inr (inject_Z (Z.of_nat n)) /\
  to_float (JNum (py_str (Z.of_nat n) +:+ ".0")) = inr (inject_Z (Z.of_nat n)).

Definition a_box (j : json) : Prop := exists b, as_box to_float (SJson j) = inr b.

Lemma boxes_taken js : Forall a_box js -> exists bs, as_boxes to_float (SJson <$> js) = inr bs.
Proof using Type.
  induction 1 as [|j js [b E] _ [bs IH]]; [by exists []|]. exists (b :: bs).
  rewrite fmap_cons. cbn [as_boxes]. rewrite E. cbn [rbind]. by rewrite IH.
Qed.

#[local] Abbreviation nodes_of := (Evaluate.preorder "children").
#[local] Abbreviation boxes_of l := (concat (box_of "bbox" <$> l)).

Lemma not_refused m l e : nodes_of (JObj m) l -> Forall a_box (boxes_of l) ->
  ~ box_refused (both m) points to_float e.
Proof using Type.
  intros Hl Hb (? & ? & b1 & b2 & [(? & G1 & _) (? & G2 & _)] & H).
  destruct G1 as (l1 & H1 & _ & ->), G2 as (l2 & H2 & _ & ->).
  rewrite (preorder_unique _ _ _ _ H1 Hl), (preorder_unique _ _ _ _ H2 Hl) in H.
  destruct (boxes_taken _ Hb) as [bs E]. cbn [bbox_key both] in H. rewrite E in H. by destruct H.
Qed.

Lemma caterpillar_nodes n : exists l, nodes_of (JObj (_caterpillar n)) l /\ boxes_of l = [].
Proof using Type.
  induction n as [|n (l & Hl & Hb)]; [eexists; split; [by constructor; constructor|done]|].
  exists (JObj (_caterpillar (S n)) :: concat [[JObj [("type", JStr "leaf")]]; l]). split.
  - constructor. constructor; [by apply (preorder_node _ _ [])|by constructor].
  - simpl. by rewrite app_nil_r.
Qed.

Lemma block_nodes i y : exists l, nodes_of (block i y) l /\
  boxes_of l = [block_box y (if i mod 3 =? 2 then "90" else "60")].
Proof using Type.
  unfold block. destruct (i mod 3 =? 2).
  - eexists. split; [|shelve]. constructor. cbn. repeat constructor.
    Unshelve. reflexivity.
  - eexists. split; [by constructor; constructor|]. done.
Qed.

Lemma block_box_ok y h : reads_numbers -> h = "60" \/ h = "90" -> a_box (block_box y h).
Proof using Type.
  intros Hf Hh. unfold a_box, block_box, as_box.
  rewrite (proj1 (Hf 40) : to_float (JNum "40") = _). cbn [rbind].
  rewrite (proj2 (Hf y)), (proj1 (Hf 500) : to_float (JNum "500") = _). cbn [rbind].
  destruct Hh as [-> | ->];
    [rewrite (proj1 (Hf 60) : to_float (JNum "60") = _)|rewrite (proj1 (Hf 90) : to_float (JNum "90") = _)];
    cbn [rbind]; by eexists.
Qed.

Lemma page_nodes n : reads_numbers -> exists l, nodes_of (JObj (_page_tree n)) l /\
  Forall a_box (boxes_of l) /\ length (boxes_of l) = S n.
Proof using Type.
  intros Hf.
  assert (forall n i y, exists ls, Forall2 nodes_of (page_blocks n i y) ls /\
    Forall a_box (boxes_of (concat ls)) /\ length (boxes_of (concat ls)) = n) as Hblocks.
  { clear n. induction n as [|n IH]; intros i y; [by exists []|].
    destruct (block_nodes i y) as (l & Hl & Hb), (IH (i + 1) (y + 70)) as (ls & Hls & Hbs & Hlen).
    exists (l :: ls). split; [by constructor|]. simpl. rewrite fmap_app, concat_app, Hb. split.
    - constructor; [|done]. apply block_box_ok; [done|]. destruct (_ =? 2); auto.
    - simpl. by rewrite Hlen. }
  destruct (Hblocks n 0 40) as (ls & Hls & Hbs & Hlen). eexists. split; [constructor; exact Hls|].
  cbn [fmap list_fmap concat]. fold (@fmap list _). split.
  - constructor; [|exact Hbs]. change (a_box (JList [JNum "0"; JNum "0"; JNum "595"; JNum "842"])).
    unfold a_box, as_box.
    rewrite (proj1 (Hf 0) : to_float (JNum "0") = _), (proj1 (Hf 595) : to_float (JNum "595") = _),
      (proj1 (Hf 842) : to_float (JNum "842") = _). by eexists.
  - exact (f_equal S Hlen).
Qed.

(** What the endpoint answers when a document is compared with itself: 413 past the
    limits, else that nothing was edited. *)
Definition guarded (m : list (string * json)) (settings : Settings) (nodes depth w : nat) : Prop :=
  if (eval_max_nodes settings <? Z.of_nat nodes)%Z || (eval_max_ted_work settings <? Z.of_nat w * Z.of_nat w)%Z
  then answer m settings = Some (inl (HTTPException 413))
  else exists a, answer m settings = Some (inr a) /\
    let s := er_structure a in
    tree_edit_distance s = 0 /\ Z.of_nat (ted_work s) = (Z.of_nat w * Z.of_nat w)%Z /\ truth_nodes s = nodes /\ truth_depth s = depth.

Lemma guarded_self m T l settings : is_tree (JObj m) T -> nodes_of (JObj m) l -> Forall a_box (boxes_of l) ->
  guarded m settings (tsize T) (theight T) (weight T).
Proof using Heq.
  intros HT Hl Hb.
  pose proof (asked is_mark combining is_space points to_float label_eq _ T T settings (both_compares m T HT)) as H.
  unfold guarded, too_costly in *. rewrite orb_diag in H.
  destruct (_ || _)%bool; [done|]. destruct H as [(a & Hc & Hw & E)|(e & He & _)]; cycle 1.
  { by apply (not_refused m l e Hl Hb) in He. }
  exists a. split; [done|].
  destruct Hc as (? & ? & ? & ? & ? & ? & _ & _ & _ & _ & _ & _ & _ & _ & Hd & _ & Hn & _ & Ht).
  cbv zeta. rewrite Hn, Ht, Hw. unfold fsize, fheight. simpl. split_and!; [|lia|lia|lia].
  eapply dist_unique; [exact Hd|]. by apply dist_refl.
Qed.

Lemma page_tree_height n : 0 < n -> theight (page_tree n) = if 3 <=? n then 4 else 2.
Proof using Type.
  intros Hn. unfold page_tree. rewrite theight_rose. unfold fheight.
  destruct (Nat.leb_spec 3 n) as [H|H]; [|destruct n as [|[|[|n]]]; [lia|done|done|lia]].
  replace n with (3 + (n - 3)) by lia. rewrite seq_app, !fmap_app. f_equal.
  change (theight <$> (block_tree <$> seq 0 3)) with [1; 1; 3]. cbn [Nat.add].
  assert (forall k i, max_list (theight <$> (block_tree <$> seq i k)) <= 3) as Hk.
  { induction k as [|k IH]; intros i; [simpl; lia|]. specialize (IH (S i)).
    assert (theight (block_tree i) <= 3) by (unfold block_tree; destruct (_ =? 2); simpl; lia).
    change (Nat.max (theight (block_tree i)) (max_list (theight <$> (block_tree <$> seq (S i) k))) <= 3). lia. }
  specialize (Hk (n - 3) 3). revert Hk. generalize (theight <$> (block_tree <$> seq 3 (n - 3))).
  intros l Hl. change (Nat.max 1 (Nat.max 1 (Nat.max 3 (max_list l))) = 3). lia.
Qed.

(** C35: the guard of [POST /evaluate] on the two families [scripts/verify.py] probes it
    with, compared with themselves.  A caterpillar with a spine of [n] has [2n + 1] nodes
    and a comparison of it costs [(n+1)^4] cells; a page of [b] blocks has
    [b + 12(b/3) + 1] nodes and costs [(2b + 38(b/3))^2].  Each is refused with 413 when
    it has too many nodes or its cost is above the limit, and otherwise answered: no
    edits, its size, its depth and its cost. *)
Theorem guard_by_shape n b settings : reads_numbers -> 0 < b ->
  guarded (_caterpillar n) settings (2 * n + 1) (n + 1) ((n + 1) * (n + 1)) /\
  guarded (_page_tree b) settings (b + 12 * (b / 3) + 1) (if 3 <=? b then 4 else 2) (2 * b + 38 * (b / 3)).
Proof using Heq.
  intros Hf Hb. split.
  - destruct (caterpillar_nodes n) as (l & Hl & E).
    rewrite <- caterpillar_weight, <- caterpillar_size, <- caterpillar_height.
    apply (guarded_self _ _ l); [apply caterpillar_tree|done|]. by rewrite E.
  - destruct (page_nodes b Hf) as (l & Hl & H & _).
    rewrite <- page_tree_size, <- page_tree_weight, <- page_tree_height by done.
    by apply (guarded_self _ _ l); [apply page_tree_tree|..].
Qed.
End self.

(** [float] on decimals that end in [.0] or have no point. *)
Fixpoint before_point (s : string) : string :=
  match s with
  | EmptyString => ""
  | String c s' => if Ascii.eqb c "." then "" else String c (before_point s')
  end.

Definition sample_float (j : json) : result Q :=
  match j with
  | JNum t => inr (inject_Z (default 0%Z (py_int (before_point t))))
  | _ => inl (TypeError "float")
  end.

Lemma before_point_digits s t : str_forall is_digit s = true -> before_point t = "" ->
  before_point s = s /\ before_point (s +:+ t) = s.
Proof.
  intros Hs Ht. induction s as [|c s IH]; [done|]. cbn [str_forall] in Hs. apply andb_prop in Hs as [Hc Hs].
  destruct (IH Hs) as [E1 E2]. cbn [before_point]. rewrite E1.
  change (String c s +:+ t) with (String c (s +:+ t)). cbn [before_point]. rewrite E2.
  by destruct (Ascii.eqb_spec c "."%char) as [->|_].
Qed.

Lemma sample_float_reads : reads_numbers sample_float.
Proof.
  intros n. assert (str_forall is_digit (py_str (Z.of_nat n)) = true) as Hd.
  { destruct n as [|n]; [done|]. apply (pretty_N_digits (N.pos (Pos.of_succ_nat n))). }
  destruct (before_point_digits _ ".0" Hd eq_refl) as [E1 E2].
  unfold sample_float. by rewrite E1, E2, py_int_str.
Qed.

(** With the default limits a caterpillar with a spine of 19 is compared and one of 20
    is not; a page of 29 blocks, which has 138 nodes, is, and one of 30 is not. *)
Example guard_by_shape_witness :
  let answer m := evaluate (λ _, false) (λ _, 0%N) (λ c, (c =? 32)%N) ascii_points sample_float
                    (λ _ _, true) (both m) default_settings in
  (exists a, answer (_caterpillar 19) = Some (inr a) /\ Z.of_nat (ted_work (er_structure a)) = 160000%Z) /\
  answer (_caterpillar 20) = Some (inl (HTTPException 413)) /\
  (exists a, answer (_page_tree 29) = Some (inr a) /\ truth_nodes (er_structure a) = 138) /\
  answer (_page_tree 30) = Some (inl (HTTPException 413)).
Proof.
  intros answer.
  destruct (guard_by_shape (λ _, false) (λ _, 0%N) (λ c, (c =? 32)%N) ascii_points sample_float (λ _ _, true)
    (λ _, eq_refl) 19 29 default_settings sample_float_reads ltac:(lia)) as [(a & E1 & H1) (b & E2 & H2)].
  destruct (guard_by_shape (λ _, false) (λ _, 0%N) (λ c, (c =? 32)%N) ascii_points sample_float (λ _ _, true)
    (λ _, eq_refl) 20 30 default_settings sample_float_reads ltac:(lia)) as [E3 E4].
  split; [exists a; split; [exact E1|apply H1]|]. split; [exact E3|]. split; [|exact E4].
  exists b. split; [exact E2|apply H2].
Defined.

(** A page of 33 nodes is small enough for its shape not to matter; a spine of 1000 is
    refused for its nodes alone. *)
Example admitted_by_size_witness :
  let answer m := evaluate (λ _, false) (λ _, 0%N) (λ c, (c =? 32)%N) ascii_points sample_float
                    (λ _ _, true) (both m) default_settings in
  (exists a, answer (_page_tree 8) = Some (inr a)) /\
  answer (_caterpillar 1000) = Some (inl (HTTPException 413)).
Proof.
  intros answer. split.
  - pose proof (proj2 (admitted_by_size (λ _, false) (λ _, 0%N) (λ c, (c =? 32)%N) ascii_points
      sample_float (λ _ _, true) _ _ _ default_settings (both_compares _ _ (page_tree_tree 8)))) as H.
    destruct H as [(a & E & _)|(e & He & _)]; [vm_compute; split_and!; discriminate|by exists a|].
    destruct (page_nodes sample_float 8 sample_float_reads) as (l & Hl & Hb & _).
    by apply (not_refused ascii_points sample_float _ l e Hl Hb) in He.
  - refine (proj1 (admitted_by_size (λ _, false) (λ _, 0%N) (λ c, (c =? 32)%N) ascii_points
      sample_float (λ _ _, true) _ _ _ default_settings (both_compares _ _ (caterpillar_tree 1000))) _).
    left. rewrite caterpillar_size. by vm_compute.
Defined.
