(* ===== verification/Draw.v ===== *)
(** * Drawing at random ([random.Random])

    The generator of Python's [random] as the source uses it: a class of its operations
    and of the ranges their documentation gives, and computations that draw.  A theorem
    about such a computation holds whatever is drawn. *)

From S2P Require Import Prelude Py.
From Stdlib Require Import QArith Lqa.
#[local] Open Scope nat_scope.

(** A computation that draws. *)
Definition gen (G A : Type) : Type := G -> A * G.

(** [random.Random]: the state of a generator, and what a call draws from it.
    [choice_index n] is the position [choice] picks in a sequence of [n]. *)
Class Random (G : Type) := {
  Random_of : N -> G;
  randint : Z -> Z -> gen G Z;
  uniform : Q -> Q -> gen G Q;
  choice_index : nat -> gen G nat }.

Class RandomLaws (G : Type) `{Random G} : Prop := {
  randint_range a b g : (a <= b)%Z -> (a <= (randint a b g).1 <= b)%Z;
  uniform_range a b g : (a <= b)%Q -> (a <= (uniform a b g).1 <= b)%Q;
  choice_range n g : 0 < n -> (choice_index n g).1 < n }.

#[export] Instance gen_ret G : MRet (gen G) := λ A x g, (x, g).
#[export] Instance gen_bind G : MBind (gen G) := λ A B k m g, let '(x, g) := m g in k x g.

(** Whatever is drawn, the result is in [P]. *)
Definition always {G A} (m : gen G A) (P : A -> Prop) : Prop := forall g, P (m g).1.

Lemma always_ret {G A} (x : A) (P : A -> Prop) : P x -> always (mret x : gen G A) P.
Proof. by intros H g. Qed.

Lemma always_bind {G A B} (m : gen G A) (k : A -> gen G B) P Q :
  always m P -> (forall x, P x -> always (k x) Q) -> always (m ≫= k) Q.
Proof.
  intros Hm Hk g. unfold mbind, gen_bind. specialize (Hm g). destruct (m g) as [x g'].
  by apply Hk.
Qed.

Lemma always_impl {G A} (m : gen G A) (P Q : A -> Prop) :
  always m P -> (forall x, P x -> Q x) -> always m Q.
Proof. intros H HPQ g. apply HPQ, H. Qed.

Section drawing.
Context {G : Type} `{RandomLaws G}.

(** [rng.choice(l)]. *)
Definition choice {A} (d : A) (l : list A) : gen G A :=
  i ← choice_index (length l); mret (nth i l d).

(** [[m() for _ in range(n)]]. *)
Fixpoint times {A} (n : nat) (m : gen G A) : gen G (list A) :=
  match n with
  | O => mret []
  | S n => x ← m; xs ← times n m; mret (x :: xs)
  end.

Lemma always_randint a b : (a <= b)%Z -> always (randint a b) (λ n, (a <= n <= b)%Z).
Proof using Type*. intros Hab g. by apply randint_range. Qed.

Lemma always_uniform a b : (a <= b)%Q -> always (uniform a b) (λ q, (a <= q <= b)%Q).
Proof using Type*. intros Hab g. by apply uniform_range. Qed.

Lemma always_choice {A} (d : A) l : l <> [] -> always (choice d l) (λ x, x ∈ l).
Proof using Type*.
  intros Hl g. unfold choice, mbind, gen_bind. pose proof (choice_range (length l) g) as Hc.
  destruct (choice_index (length l) g) as [i g']. simpl in *.
  apply list_elem_of_In, nth_In, Hc. destruct l; [done|simpl; lia].
Qed.

Lemma always_times {A} n (m : gen G A) P : always m P ->
  always (times n m) (λ l, length l = n /\ Forall P l).
Proof using Type.
  intros Hm. induction n as [|n IH]; [by apply always_ret|].
  eapply always_bind; [exact Hm|]. intros x Hx. eapply always_bind; [exact IH|].
  intros xs [Hn Hxs]. apply always_ret. split; [simpl; by f_equal|by constructor].
Qed.
End drawing.

(** One draw of a computation, whose result the rule describes. *)
Tactic Notation "draw" uconstr(rule) ident(x) ident(Hx) := eapply always_bind; [by apply rule|]; intros x Hx; cbv beta in Hx.

(** ** An instance *)

(** A linear congruential generator. *)
Definition lcg (g : N) : N := ((1103515245 * g + 12345) mod 2147483648)%N.

#[export] Instance lcg_random : Random N := {
  Random_of := λ n, n;
  randint := λ a b g, ((a + Z.of_N (g / 65536) mod (b - a + 1))%Z, lcg g);
  uniform := λ a b g, ((a + (b - a) * (Z.of_N (g / 65536 mod 1024) # 1024))%Q, lcg g);
  choice_index := λ n g, (N.to_nat (g / 65536 mod N.of_nat n)%N, lcg g) }.

#[export] Instance lcg_laws : RandomLaws N.
Proof.
  split; cbn.
  - intros a b g Hab. pose proof (Z.mod_pos_bound (Z.of_N (g / 65536)) (b - a + 1) ltac:(lia)) as Hb.
    revert Hb. generalize (Z.of_N (g / 65536) mod (b - a + 1))%Z. lia.
  - intros a b g Hab. pose proof (N.mod_lt (g / 65536) 1024 ltac:(done)) as Hlt.
    revert Hlt. generalize (g / 65536 mod 1024)%N. intros m Hm.
    assert (0 <= Z.of_N m # 1024 <= 1)%Q as [H0 H1] by (unfold Qle; simpl; lia). nra.
  - intros n g Hn. pose proof (N.mod_lt (g / 65536) (N.of_nat n) ltac:(lia)) as Hlt.
    revert Hlt. generalize (g / 65536 mod N.of_nat n)%N. lia.
Qed.
