(* ===== verification/Payloads.v ===== *)
(** * What the mock models invent ([mock_model/payloads.py])

    The synthetic layout and the synthetic VLM output of a page.  [hashlib.sha256]
    and [repr] of a float are parameters; the generator is that of [Draw.v].  Floats are
    exact rationals.  Theorems: the boxes of a layout lie on the page one below the other,
    in reading order; the tree of a VLM output is one the evaluation accepts, with a
    bounded size and cost; a page compared with its replay scores perfectly. *)

From S2P Require Import Prelude Py Json Draw Forests Text Iou Ted Config Evaluate Shapes.
From Stdlib Require Import Ascii QArith Qround Lqa.
#[local] Open Scope nat_scope.

(** ** The page *)

Definition PAGE_WIDTH : Q := 612.
Definition PAGE_HEIGHT : Q := 792.

Definition _WORDS : list string :=
  ["invoice"; "total"; "amount"; "due"; "date"; "vendor"; "address"; "quantity"; "unit"; "price"; "tax";
   "subtotal"; "discount"; "payment"; "terms"; "net"; "remittance"; "purchase"; "order"; "item";
   "description"; "reference"; "account"; "currency"; "balance"; "credit"; "debit"].

Record LayoutBox := {
  b_id : nat; b_type : string; b_x : Q; b_y : Q; b_w : Q; b_h : Q; b_confidence : Q }.

Record LayoutPayload := {
  l_page_index : Z; l_boxes : list LayoutBox; reading_order : list nat; page_size : Q * Q }.

Record VlmPayload := {
  v_page_index : Z; v_text : string; v_tables : list string; v_key_values : list (string * string);
  v_tree : list (string * json); v_confidence : Q }.

Definition block_types : list string := ["title"; "paragraph"; "paragraph"; "table"; "figure"].

Section payloads.
Context {G : Type} `{Random G}.
(** [sha256(text.encode()).digest()], and [repr] of a float. *)
Context (sha256 : string -> list Byte.byte) (repr : Q -> string).

(** [int.from_bytes(bytes, "big")]. *)
Definition from_bytes (l : list Byte.byte) : N :=
  fold_left (λ n b, (256 * n + Byte.to_N b)%N) l 0%N.

Definition _rng (job_id : string) (page_index : Z) (salt : string) : G :=
  Random_of (from_bytes (take 8 (sha256 (job_id +:+ ":" +:+ py_str page_index +:+ ":" +:+ salt)))).

Definition _sentence (words : nat) : gen G string :=
  l ← times words (choice "" _WORDS); mret (join_with " " l).

(** [for i in range(n_blocks)], from [i] and [y] on, with [n] rounds left. *)
Fixpoint layout_loop (n i : nat) (y : Q) (boxes : list LayoutBox) : gen G (list LayoutBox) :=
  match n with
  | O => mret boxes
  | S n =>
      height ← uniform 30 90;
      if Qltb (PAGE_HEIGHT - 40) (y + height) then mret boxes
      else
        type ← choice "" block_types;
        x ← uniform 40 80;
        w ← uniform 400 500;
        confidence ← uniform (82 # 100) (99 # 100);
        gap ← uniform 8 20;
        layout_loop n (S i) (y + (height + gap))%Q
          (boxes ++ [{| b_id := i; b_type := type; b_x := round_to 100 x; b_y := round_to 100 y;
                        b_w := round_to 100 w; b_h := round_to 100 height;
                        b_confidence := round_to 1000 confidence |}])
  end.

Definition layout_payload (job_id : string) (page_index : Z) : LayoutPayload :=
  let boxes := ((n_blocks ← randint 4 9; layout_loop (Z.to_nat n_blocks) 0 40 [])
                  (_rng job_id page_index "layout")).1 in
  {| l_page_index := page_index; l_boxes := boxes; reading_order := b_id <$> boxes;
     page_size := (PAGE_WIDTH, PAGE_HEIGHT) |}.

(** *** The VLM *)

Definition num (q : Q) : json := JNum (repr q).
Definition bbox (b : LayoutBox) : json := JList (num <$> [b_x b; b_y b; b_w b; b_h b]).

(** A row of a table, as a node and as markdown. *)
Definition table_row (n_cols : nat) : gen G (json * string) :=
  cells ← times n_cols (_sentence 1);
  mret (JObj [("type", JStr "row");
              ("children", JList ((λ c, JObj [("type", JStr "cell"); ("text", JStr c)]) <$> cells))],
        "| " +:+ join_with " | " cells +:+ " |").

Definition separator (n_cols : nat) : string :=
  "|" +:+ join_with "|" (replicate n_cols "---") +:+ "|".

Definition newline : string := String "010"%char "".

(** The children, texts and tables gathered so far. *)
Definition gathered : Type := list json * list string * list string.

(** One box of the layout. *)
Definition vlm_box (acc : gathered) (b : LayoutBox) : gen G gathered :=
  let '(children, text_parts, tables) := acc in
  if (b_type b =? "table")%string then
    n_rows ← randint 2 4;
    n_cols ← randint 2 4;
    rows ← times (Z.to_nat n_rows) (table_row (Z.to_nat n_cols));
    let md_rows := snd <$> rows in
    let md_rows := take 1 md_rows ++ [separator (Z.to_nat n_cols)] ++ drop 1 md_rows in
    mret (children ++ [JObj [("type", JStr "table"); ("bbox", bbox b); ("children", JList (fst <$> rows))]],
          text_parts, tables ++ [join_with newline md_rows])
  else if (b_type b =? "figure")%string then
    mret (children ++ [JObj [("type", JStr "figure"); ("bbox", bbox b); ("text", JStr "")]], text_parts, tables)
  else
    n ← randint 6 14;
    text ← _sentence (Z.to_nat n);
    mret (children ++ [JObj [("type", JStr (b_type b)); ("bbox", bbox b); ("text", JStr text)]],
          text_parts ++ [text], tables).

Fixpoint vlm_loop (boxes : list LayoutBox) (acc : gathered) : gen G gathered :=
  match boxes with
  | [] => mret acc
  | b :: boxes => acc ← vlm_box acc b; vlm_loop boxes acc
  end.

(** The comprehension: a key drawn again keeps its place and takes the new value. *)
Fixpoint key_values_loop (n : nat) (m : list (string * string)) : gen G (list (string * string)) :=
  match n with
  | O => mret m
  | S n => k ← choice "" _WORDS; v ← _sentence 2; key_values_loop n (assoc_put k v m)
  end.

Definition vlm_payload (job_id : string) (page_index : Z) : VlmPayload :=
  let layout := layout_payload job_id page_index in
  ((acc ← vlm_loop (l_boxes layout) ([], [], []);
    let '(children, text_parts, tables) := acc in
    n_kv ← randint 1 3;
    key_values ← key_values_loop (Z.to_nat n_kv) [];
    confidence ← uniform (88 # 100) (99 # 100);
    mret {| v_page_index := page_index; v_text := join_with newline text_parts; v_tables := tables;
            v_key_values := key_values;
            v_tree := [("type", JStr "page");
                       ("bbox", JList (num <$> [0%Q; 0%Q; PAGE_WIDTH; PAGE_HEIGHT]));
                       ("children", JList children)];
            v_confidence := round_to 1000 confidence |})
     (_rng job_id page_index "vlm")).1.
End payloads.

(** ** Layouts *)

(** The boxes of a page from number [i] and height [y] down. *)
Record drawn (i : nat) (y h : Q) (b : LayoutBox) : Prop := {
  dr_id : b_id b = i;
  dr_type : b_type b ∈ block_types;
  dr_x : (40 <= b_x b <= 80)%Q;
  dr_w : (400 <= b_w b <= 500)%Q;
  dr_y : b_y b = round_to 100 y;
  dr_h : b_h b = round_to 100 h;
  dr_height : (30 <= h <= 90)%Q;
  dr_confidence : (82 # 100 <= b_confidence b <= 99 # 100)%Q }.

Inductive stacked : nat -> Q -> list LayoutBox -> Prop :=
| stacked_nil i y : stacked i y []
| stacked_cons i y h y' b bs :
    drawn i y h b -> (y + h <= 752)%Q -> (y + h + 8 <= y' <= y + h + 20)%Q ->
    stacked (S i) y' bs -> stacked i y (b :: bs).

Section layouts.
Context {G : Type} `{RandomLaws G} (sha256 : string -> list Byte.byte).

Lemma layout_loop_spec n : forall i y boxes,
  always (layout_loop n i y boxes) (λ bs, exists tail, bs = boxes ++ tail /\ stacked i y tail /\
    length tail <= n /\ ((y <= 40 + 110 * inject_Z (Z.of_nat i))%Q -> Nat.min n (6 - i) <= length tail)).
Proof using Type*.
  induction n as [|n IH]; intros i y boxes; cbn [layout_loop].
  { apply always_ret. exists []. rewrite app_nil_r. split_and!; [done|constructor|simpl; lia..]. }
  draw always_uniform h Hh.
  destruct (Qltb _ (y + h)) eqn:E.
  { apply always_ret. exists []. rewrite app_nil_r. split_and!; [done|constructor|simpl; lia|].
    intros Hy. apply Qltb_true in E. unfold PAGE_HEIGHT in E.
    destruct (decide (i <= 5)) as [Hi|Hi]; [|cbn [length]; lia]. exfalso.
    assert (inject_Z (Z.of_nat i) <= 5)%Q by (change 5%Q with (inject_Z 5); rewrite <- Zle_Qle; lia).
    lra. }
  apply Qltb_false in E. unfold PAGE_HEIGHT in E.
  draw always_choice type Ht.
  draw always_uniform x Hx.
  draw always_uniform w Hw.
  draw always_uniform c Hc.
  draw always_uniform gap Hgap.
  set (b := Build_LayoutBox _ _ _ _ _ _ _). eapply always_impl; [apply IH|].
  intros bs (tail & -> & Hs & Hlen & Hmin). exists (b :: tail). rewrite <- app_assoc. split; [done|].
  split; [|split; [simpl; lia|]].
  - apply (stacked_cons i y h (y + (h + gap))%Q); [|lra|lra|done].
    pose proof (round_to_between 100 4000 8000 x ltac:(lra)).
    pose proof (round_to_between 100 40000 50000 w ltac:(lra)).
    pose proof (round_to_between 1000 820 990 c ltac:(lra)). split; try done; cbn; lra.
  - intros Hy. cbn [length]. rewrite Nat2Z.inj_succ, <- Z.add_1_l, inject_Z_plus in Hmin.
    change (inject_Z 1) with 1%Q in Hmin. specialize (Hmin ltac:(lra)). lia.
Qed.

Lemma layout_boxes job_id page_index : let bs := l_boxes (layout_payload sha256 job_id page_index) in
  stacked 0 40 bs /\ 4 <= length bs <= 9.
Proof using Type*.
  assert (always (n_blocks ← randint 4 9; layout_loop (Z.to_nat n_blocks) 0 40 [] : gen G _)
    (λ bs, stacked 0 40 bs /\ 4 <= length bs <= 9)) as H'; [|apply H'].
  draw always_randint n Hn.
  eapply always_impl; [apply layout_loop_spec|]. intros bs (tail & -> & Hs & Hlen & Hmin).
  split; [done|].
  assert (Nat.min (Z.to_nat n) 6 <= length tail) 
    by (apply Hmin; change (inject_Z (Z.of_nat 0)) with 0%Q; lra).
  cbn [app]. lia.
Qed.

Lemma stacked_ids i y bs : stacked i y bs -> b_id <$> bs = seq i (length bs).
Proof using Type. induction 1 as [|i y h y' b bs Hb _ _ _ IH]; [done|]. rewrite fmap_cons, IH, (dr_id _ _ _ _ Hb). done. Qed.

(** Every box is on the page, below [y] and above those that follow. *)
Lemma stacked_on_page i y bs : (40 <= y)%Q -> stacked i y bs ->
  Forall (λ b, b_type b ∈ block_types /\ (40 <= b_x b <= 80)%Q /\ (400 <= b_w b <= 500)%Q /\
            (30 <= b_h b <= 90)%Q /\ (40 <= b_y b)%Q /\ (y - (1 # 200) <= b_y b)%Q /\
            (b_y b + b_h b <= PAGE_HEIGHT - 39)%Q /\ (82 # 100 <= b_confidence b <= 99 # 100)%Q) bs.
Proof using Type.
  intros Hy. induction 1 as [|i y h y' b bs Hb Hend Hgap Hs IH]; [constructor|].
  pose proof (dr_height _ _ _ _ Hb) as Hh.
  pose proof (round_to_between 100 3000 9000 h) as Hh'.
  pose proof (round_to_between 100 4000 72200 y) as Hy'.
  pose proof (round_to_close 100 h) as Rh. pose proof (round_to_close 100 y) as Ry.
  rewrite <- (dr_h _ _ _ _ Hb) in *. rewrite <- (dr_y _ _ _ _ Hb) in *. unfold PAGE_HEIGHT. constructor.
  - change (1 # 2 * 100)%Q with (1 # 200)%Q in *.
    split_and!; try apply Hb; lra.
  - eapply Forall_impl; [apply IH; lra|]. intros c Hc. unfold PAGE_HEIGHT in Hc. split_and!; try apply Hc; lra.
Qed.

Lemma stacked_below i y bs : stacked i y bs -> forall j k a b, bs !! j = Some a -> bs !! k = Some b -> j < k ->
  (b_y a + b_h a + 7 <= b_y b)%Q.
Proof using Type.
  induction 1 as [|i y h y' c bs Hc Hend Hgap Hs IH]; intros j k a b Ha Hb Hjk; [done|].
  destruct k as [|k]; [lia|]. destruct j as [|j]; [|by apply (IH j k); [..|lia]]. injection Ha as ->.
  assert (exists z, (y' <= z)%Q /\ (z - (1 # 200) <= b_y b)%Q) as (z & Hz & Hzb).
  { clear - Hs Hb. revert k Hb. induction Hs as [|i0 z h0 z' c0 bs Hc Hend Hgap Hs IH]; intros k Hb; [done|].
    destruct k as [|k].
    - injection Hb as ->. exists z. split; [lra|]. rewrite (dr_y _ _ _ _ Hc). apply (round_to_close 100 z).
    - destruct (IH k Hb) as (z2 & Hz2 & Hb2). exists z2. pose proof (dr_height _ _ _ _ Hc). split; lra. }
  rewrite (dr_y _ _ _ _ Hc), (dr_h _ _ _ _ Hc).
  pose proof (round_to_close 100 h) as Rh. pose proof (round_to_close 100 y) as Ry.
  change (1 # 2 * 100)%Q with (1 # 200)%Q in *. lra.
Qed.

(** a layout is a page.  Whatever is drawn, it has four to nine boxes, numbered from
    zero; each lies inside the page and has a positive area; each ends above the next, so
    no two overlap; and the reading order is the order of the boxes, from top to bottom. *)
Theorem layout_is_a_page job_id page_index :
  let l := layout_payload sha256 job_id page_index in let bs := l_boxes l in
  l_page_index l = page_index /\ page_size l = (PAGE_WIDTH, PAGE_HEIGHT) /\
  4 <= length bs <= 9 /\ b_id <$> bs = seq 0 (length bs) /\ reading_order l = seq 0 (length bs) /\
  Forall (λ b, b_type b ∈ block_types /\ (82 # 100 <= b_confidence b <= 99 # 100)%Q /\
            (0 < b_x b /\ 0 < b_w b /\ b_x b + b_w b < PAGE_WIDTH)%Q /\
            (0 < b_y b /\ 0 < b_h b /\ b_y b + b_h b < PAGE_HEIGHT)%Q) bs /\
  forall i j a b, bs !! i = Some a -> bs !! j = Some b -> i < j -> (b_y a + b_h a < b_y b)%Q.
Proof using Type*.
  intros l bs. destruct (layout_boxes job_id page_index) as [Hs Hlen]. fold l bs in Hs, Hlen.
  split_and!; [done|done|lia|lia|by apply (stacked_ids 0 40)|by apply (stacked_ids 0 40)| |].
  - eapply Forall_impl; [by apply (stacked_on_page 0 40)|].
    intros b (H1 & H2 & H3 & H4 & H5 & _ & H6 & H7). unfold PAGE_WIDTH, PAGE_HEIGHT in *.
    split_and!; try apply H1; try apply H7; lra.
  - intros i j a b Ha Hb Hij. pose proof (stacked_below 0 40 bs Hs i j a b Ha Hb Hij). lra.
Qed.
End layouts.

(** ** VLM outputs *)

#[local] Abbreviation is_tree := (tree_of "type" "children").
#[local] Abbreviation nodes_of := (Evaluate.preorder "children").
#[local] Abbreviation boxes_of l := (concat (box_of "bbox" <$> l)).
#[local] Abbreviation leaf l := (Rose (JStr l) []).

Definition cell_node (c : string) : json := JObj [("type", JStr "cell"); ("text", JStr c)].
Definition row_node (cells : list string) : json :=
  JObj [("type", JStr "row"); ("children", JList (cell_node <$> cells))].
Definition table_node (box : json) (rows : list (list string)) : json :=
  JObj [("type", JStr "table"); ("bbox", box); ("children", JList (row_node <$> rows))].

Definition row_rose (c : nat) : rose json := Rose (JStr "row") (replicate c (leaf "cell")).
Definition table_rose (r c : nat) : rose json := Rose (JStr "table") (replicate r (row_rose c)).

Lemma children_list (m : list (string * json)) l :
  obj_get "children" m = Some (JList l) -> _children_of "children" (JObj m) = inr l.
Proof. unfold _children_of. intros ->. by destruct l. Qed.

Lemma table_tree box rows c : Forall (λ r, length r = c) rows ->
  is_tree (table_node box rows) (table_rose (length rows) c).
Proof.
  intros Hrows. apply (tree_of_node _ _ _ _ (row_node <$> rows)); [done|by apply children_list|].
  induction Hrows as [|r rows <- _ IH]; [constructor|]. constructor; [|exact IH].
  apply (tree_of_node _ _ _ _ (cell_node <$> r)); [done|by apply children_list|].
  clear IH. induction r as [|s r IH]; constructor; [by econstructor|exact IH].
Qed.

Lemma table_nodes box rows : box <> JNull -> exists l, nodes_of (table_node box rows) l /\ boxes_of l = [box].
Proof.
  intros Hbox.
  assert (exists ls, Forall2 nodes_of (row_node <$> rows) ls /\ boxes_of (concat ls) = []) as (ls & Hls & E).
  { induction rows as [|r rows (ls & Hls & E)]; [by exists []|].
    assert (exists ks, Forall2 nodes_of (cell_node <$> r) ks /\ boxes_of (concat ks) = []) as (ks & Hks & Ek).
    { induction r as [|s r (ks & Hks & Ek)]; [by exists []|].
      exists ([cell_node s] :: ks). split; [constructor; [by apply (preorder_node _ _ [])|done]|done]. }
    exists ((row_node r :: concat ks) :: ls). split; [constructor; [by constructor|done]|].
    cbn [concat]. rewrite fmap_app, concat_app, E, app_nil_r. exact Ek. }
  exists (table_node box rows :: concat ls). split; [by constructor|].
  rewrite fmap_cons. cbn [concat]. rewrite E, app_nil_r. unfold box_of, table_node. cbn. by destruct box.
Qed.

Lemma table_bounds r c : 2 <= r <= 4 -> 2 <= c <= 4 ->
  tsize (table_rose r c) <= 21 /\ theight (table_rose r c) = 3 /\
  weight (table_rose r c) <= 48 /\ inner (table_rose r c) <= 27.
Proof.
  intros Hr Hc.
  assert ((r = 2 \/ r = 3 \/ r = 4) /\ (c = 2 \/ c = 3 \/ c = 4)) as [[->|[->| ->]] [->|[->| ->]]] by lia;
    vm_compute; lia.
Qed.

Section outputs.
Context {G : Type} `{RandomLaws G} (sha256 : string -> list Byte.byte) (repr : Q -> string).

(** The node a box of the layout becomes. *)
Record block_node (b : LayoutBox) (j : json) (T : rose json) : Prop := {
  bn_tree : is_tree j T;
  bn_label : exists ks, T = Rose (JStr (b_type b)) ks;
  bn_boxes : exists l, nodes_of j l /\ boxes_of l = [bbox repr b];
  bn_size : tsize T <= 21; bn_height : theight T <= 3; bn_weight : weight T <= 48; bn_inner : inner T <= 27 }.

Lemma leaf_node b text : let j := JObj [("type", JStr (b_type b)); ("bbox", bbox repr b); ("text", JStr text)] in
  block_node b j (leaf (b_type b)).
Proof using Type.
  split; try (vm_compute; lia); [by econstructor|by eexists|].
  eexists. split; [by apply (preorder_node _ _ [])|done].
Qed.

Lemma always_row c :
  always (table_row c : gen G _) (λ x, exists cells, x.1 = row_node cells /\ length cells = c).
Proof using Type*.
  eapply always_bind; [apply (always_times c (_sentence 1) (λ _, True)); by intros g|].
  intros cells [Hlen _]. apply always_ret. by exists cells.
Qed.

(** A table is written as markdown, any other block but a figure as text. *)
Definition tables_in (bs : list LayoutBox) : nat := length (filter (λ b, b_type b = "table") bs).
Definition texts_in (bs : list LayoutBox) : nat :=
  length (filter (λ b, b_type b <> "table" /\ b_type b <> "figure") bs).

Definition grown (bs : list LayoutBox) (acc acc' : gathered) : Prop :=
  exists js Ts texts tabs, acc' = (acc.1.1 ++ js, acc.1.2 ++ texts, acc.2 ++ tabs) /\
    Forall2 (λ b jT, block_node b jT.1 jT.2) bs (zip js Ts) /\ length js = length bs /\ length Ts = length bs /\
    length texts = texts_in bs /\ length tabs = tables_in bs.

Lemma vlm_box_spec acc b : always (vlm_box repr acc b : gen G _) (grown [b] acc).
Proof using Type*.
  destruct acc as [[ch tx] tb]. unfold vlm_box. destruct (String.eqb_spec (b_type b) "table") as [Et|Et].
  - draw always_randint r Hr. draw always_randint c Hc.
    eapply always_bind; [apply always_times, always_row|]. intros rows [Hlen Hrows]. apply always_ret.
    assert (exists cells, fst <$> rows = row_node <$> cells /\ length cells = length rows /\
      Forall (λ x, length x = Z.to_nat c) cells) as (cells & E & El & Hcells).
    { clear Hlen. induction Hrows as [|x rows (cs & Ex & Hcs) _ (cells & E & El & HF)]; [by exists []|].
      exists (cs :: cells). rewrite !fmap_cons, Ex, E. split_and!; [done|simpl; by f_equal|by constructor]. }
    destruct (table_bounds (length cells) (Z.to_nat c)) as (B1 & B2 & B3 & B4); [lia..|].
    eexists [_], [_], [], [_]. cbn [fst snd]. rewrite E, app_nil_r. split_and!; [done| |done|done|..].
    + constructor; [|constructor]. split; cbn [fst snd]; [by apply table_tree| |by apply table_nodes|done| |done|done].
      * rewrite Et. by eexists.
      * lia.
    + unfold texts_in. rewrite filter_cons_False by tauto. done.
    + unfold tables_in. by rewrite filter_cons_True.
  - destruct (String.eqb_spec (b_type b) "figure") as [Ef|Ef].
    + apply always_ret. eexists [_], [_], [], []. cbn [fst snd]. rewrite !app_nil_r.
      split_and!; [done|constructor; [|constructor]|done|done|..].
      * rewrite <- Ef. apply leaf_node.
      * unfold texts_in. rewrite filter_cons_False by tauto. done.
      * unfold tables_in. by rewrite filter_cons_False.
    + draw always_randint n Hn.
      eapply (always_bind _ _ (λ _, True)); [by intros g|]. intros text _.
      apply always_ret. eexists [_], [_], [_], []. cbn [fst snd]. rewrite !app_nil_r.
      split_and!; [done|constructor; [apply leaf_node|constructor]|done|done|..].
      * unfold texts_in. by rewrite filter_cons_True.
      * unfold tables_in. by rewrite filter_cons_False.
Qed.

Lemma grown_app bs bs' acc acc1 acc2 : grown bs acc acc1 -> grown bs' acc1 acc2 -> grown (bs ++ bs') acc acc2.
Proof using Type.
  intros (js & Ts & tx & tb & -> & HF & L1 & L2 & L3 & L4) (js' & Ts' & tx' & tb' & -> & HF' & L1' & L2' & L3' & L4').
  exists (js ++ js'), (Ts ++ Ts'), (tx ++ tx'), (tb ++ tb'). cbn [fst snd]. rewrite !app_assoc.
  unfold texts_in, tables_in in *. rewrite !filter_app, !length_app, zip_with_app by lia.
  split_and!; [done|by apply Forall2_app|lia..].
Qed.

Lemma vlm_loop_spec bs : forall acc, always (vlm_loop repr bs acc : gen G _) (grown bs acc).
Proof using Type*.
  induction bs as [|b bs IH]; intros acc.
  - apply always_ret. exists [], [], [], []. rewrite !app_nil_r. destruct acc as [[? ?] ?].
    split_and!; [done|constructor|done..].
  - eapply always_bind; [apply vlm_box_spec|]. intros acc1 H1. eapply always_impl; [apply IH|].
    intros acc2 H2. by apply (grown_app [b] bs _ acc1).
Qed.

Lemma key_values_spec n : forall m,
  always (key_values_loop n m : gen G _)
    (λ m', length m <= length m' <= length m + n /\ (0 < n -> 0 < length m')).
Proof using Type.
  induction n as [|n IH]; intros m; [apply always_ret; lia|].
  eapply (always_bind _ _ (λ _, True)); [by intros g|]. intros k _.
  eapply (always_bind _ _ (λ _, True)); [by intros g|]. intros v _.
  eapply always_impl; [apply IH|]. cbv beta. intros m' [Hm _].
  assert (length m <= length (assoc_put k v m) <= length m + 1 /\ 0 < length (assoc_put k v m)) as Hput.
  { clear. induction m as [|[k' v'] m IH]; [simpl; lia|]. cbn [assoc_put]. destruct (decide _); cbn [length]; lia. }
  lia.
Qed.

(** What is so of every output. *)
Record output_ok (bs : list LayoutBox) (v : VlmPayload) : Prop := {
  oo_tree : exists js ks, v_tree v = [("type", JStr "page");
      ("bbox", JList (num repr <$> [0%Q; 0%Q; PAGE_WIDTH; PAGE_HEIGHT])); ("children", JList js)] /\
    Forall2 (λ b jT, block_node b jT.1 jT.2) bs (zip js ks) /\ length js = length bs /\ length ks = length bs;
  oo_tables : length (v_tables v) = tables_in bs;
  oo_text : exists parts, v_text v = join_with newline parts /\ length parts = texts_in bs;
  oo_key_values : 1 <= length (v_key_values v) <= 3;
  oo_confidence : (88 # 100 <= v_confidence v <= 99 # 100)%Q }.

Lemma vlm_output job_id page_index :
  output_ok (l_boxes (layout_payload sha256 job_id page_index)) (vlm_payload sha256 repr job_id page_index).
Proof using Type*.
  unfold vlm_payload. set (bs := l_boxes _).
  assert (forall m : gen G VlmPayload, always m (output_ok bs) -> forall g, output_ok bs (m g).1) as Hrun by (intros m Hm g; apply Hm).
  apply Hrun. eapply always_bind; [apply vlm_loop_spec|].
  intros acc (js & Ts & tx & tb & -> & HF & L1 & L2 & L3 & L4). cbn [fst snd app].
  draw always_randint n Hn. eapply always_bind; [apply key_values_spec|]. intros kv Hkv. cbv beta in Hkv.
  cbn [length] in Hkv. draw always_uniform c Hc. apply always_ret. split; cbn.
  - exists js, Ts. done.
  - done.
  - by exists tx.
  - lia.
  - pose proof (round_to_between 1000 880 990 c ltac:(lra)). lra.
Qed.

(** The tree of an output, with its nodes in document order. *)
Lemma output_tree bs v : output_ok bs v -> length bs <= 9 -> exists ks l,
  let T := Rose (JStr "page") ks in
  is_tree (JObj (v_tree v)) T /\ Forall2 (λ b t, exists js, t = Rose (JStr (b_type b)) js) bs ks /\
  tsize T <= 190 /\ theight T <= 4 /\ weight T <= 601 /\
  nodes_of (JObj (v_tree v)) l /\
  boxes_of l = JList (num repr <$> [0%Q; 0%Q; PAGE_WIDTH; PAGE_HEIGHT]) :: (bbox repr <$> bs).
Proof using Type.
  intros [(js & ks & -> & HF & L1 & L2) _ _ _ _] Hlen.
  assert (Forall2 is_tree js ks /\ Forall2 (λ b t, exists js, t = Rose (JStr (b_type b)) js) bs ks /\
    (exists ls, Forall2 nodes_of js ls /\ boxes_of (concat ls) = bbox repr <$> bs) /\
    Forall (λ t, tsize t <= 21 /\ theight t <= 3 /\ weight t <= 48 /\ inner t <= 27) ks)
    as (Htree & Hlabels & (ls & Hls & Eb) & Hks).
  { clear Hlen. revert js ks L1 L2 HF. induction bs as [|b bs IH]; intros [|j js] [|T ks] L1 L2 HF; try done.
    - split_and!; try constructor. by exists [].
    - inversion HF as [|? ? ? ? Hb HF' E1 E2]; subst. cbn [fst snd] in Hb.
      destruct (IH js ks) as (H1 & H2 & (ls & H3 & E) & H4); [by injection L1|by injection L2|done|].
      destruct (bn_boxes _ _ _ Hb) as (l & Hl & El).
      split_and!; [constructor; [apply Hb|done]|constructor; [apply Hb|done]| |constructor; [split_and!; apply Hb|done]].
      exists (l :: ls). split; [by constructor|]. cbn [concat]. by rewrite fmap_app, concat_app, El, E. }
  exists ks, (JObj [("type", JStr "page"); ("bbox", JList (num repr <$> [0%Q; 0%Q; PAGE_WIDTH; PAGE_HEIGHT]));
                    ("children", JList js)] :: concat ls).
  cbv zeta. split; [by apply (tree_of_node _ _ _ _ js); [done|by apply children_list|]|]. split; [done|].
  assert (sum_list (tsize <$> ks) <= 21 * length ks /\ sum_list (weight <$> ks) <= 48 * length ks /\
    max_list (theight <$> ks) <= 3) as (S1 & S2 & S3).
  { clear - Hks. induction Hks as [|t ks (B1 & B2 & B3 & _) _ (I1 & I2 & I3)]; [simpl; lia|].
    rewrite !sum_fmap_cons. cbn [length]. split_and!; [lia|lia|].
    change (Nat.max (theight t) (max_list (theight <$> ks)) <= 3). lia. }
  assert (inner (Rose (JStr "page") ks) <= 27 + 48 * (length ks - 1)) as S4.
  { rewrite inner_rose. destruct Hks as [|t ks (B1 & B2 & B3 & B4) Hks]; [simpl; lia|].
    cbn [forest_weight length]. assert (sum_list (weight <$> ks) <= 48 * length ks); [|lia].
    clear - Hks. induction Hks as [|t ks (B1 & B2 & B3 & _) _ IH]; [simpl; lia|].
    rewrite sum_fmap_cons. cbn [length]. lia. }
  unfold weight. change (tsize (Rose (JStr "page") ks)) with (S (sum_list (tsize <$> ks))).
  change (theight (Rose (JStr "page") ks)) with (S (max_list (theight <$> ks))).
  split_and!; [lia|lia|lia|by constructor|]. rewrite fmap_cons. cbn [concat]. by rewrite Eb.
Qed.

(** the output of the VLM is a document the evaluation accepts.  Its tree is a page
    whose children are the blocks of the layout, of the same types in the same order, and
    the boxes of the tree are the page's and the layout's; it has at most 190 nodes on at
    most four levels, and costs at most 601 times as many cells as the other side weighs.
    There is one markdown table for each table, one line of text for each block that is
    no table or figure, and one to three keys. *)
Theorem vlm_output_bounded job_id page_index :
  let bs := l_boxes (layout_payload sha256 job_id page_index) in
  let v := vlm_payload sha256 repr job_id page_index in
  exists ks, let T := Rose (JStr "page") ks in
    is_tree (JObj (v_tree v)) T /\ Forall2 (λ b t, exists js, t = Rose (JStr (b_type b)) js) bs ks /\
    tsize T <= 190 /\ theight T <= 4 /\ weight T <= 601 /\
    (exists parts, gathers "children" "text" "bbox" (Some (JObj (v_tree v))) parts
       (JList (num repr <$> [0%Q; 0%Q; PAGE_WIDTH; PAGE_HEIGHT]) :: (bbox repr <$> bs))) /\
    length (v_tables v) = tables_in bs /\
    (exists lines, v_text v = join_with newline lines /\ length lines = texts_in bs) /\
    1 <= length (v_key_values v) <= 3.
Proof using Type*.
  intros bs v. pose proof (vlm_output job_id page_index) as Ho. fold bs v in Ho.
  destruct (output_tree bs v Ho) as (ks & l & H1 & H2 & H3 & H4 & H5 & H6 & H7).
  { apply (layout_boxes sha256 job_id page_index). }
  exists ks. split_and!; try done; try apply Ho. eexists. exists l. split; [exact H6|]. split; [done|].
  symmetry. exact H7.
Qed.
End outputs.

(** ** A replayed page *)

Section replay.
Context (is_mark : N -> bool) (combining : N -> N) (is_space : N -> bool).
Context (points : string -> list N) (to_float : json -> result Q).
Context (label_eq : option json -> option json -> bool).

#[local] Abbreviation answer m settings :=
  (evaluate is_mark combining is_space points to_float label_eq (both m) settings).

(** Boxes of which no two match wholly. *)
Record distinct (bs : list Box) : Prop := {
  di_valid : Forall (λ b, Iou.valid b /\ (0 < area b)%Q) bs;
  di_apart i j a b : bs !! i = Some a -> bs !! j = Some b -> i <> j -> (iou_box a b < 1)%Q }.

(** A perfect score, over [n] boxes. *)
Definition perfect (n : nat) (a : EvaluateResponse) : Prop :=
  errors (er_cer a) = 0 /\ errors (er_wer a) = 0 /\ tree_edit_distance (er_structure a) = 0 /\
  let r := er_boxes a in
  true_positives r = n /\ false_positives r = 0 /\ false_negatives r = 0 /\ truth_count r = n /\
  (r_iou_sum r == Qnat n)%Q.

Lemma levenshtein_refl {A} `{EqDecision A} (x : list A) : levenshtein x x = 0.
Proof using Type. by apply (levenshtein_metric x x x). Qed.

Lemma self_perfect m T l bs settings : (forall x, label_eq x x = true) ->
  is_tree (JObj m) T -> nodes_of (JObj m) l -> as_boxes to_float (SJson <$> boxes_of l) = inr bs ->
  distinct bs ->
  if too_costly settings T T then answer m settings = Some (inl (HTTPException 413))
  else exists a, answer m settings = Some (inr a) /\ perfect (length bs) a.
Proof using Type.
  intros Heq HT Hl Eb [Hv Ha].
  pose proof (asked is_mark combining is_space points to_float label_eq _ T T settings (both_compares m T HT)) as H.
  destruct (too_costly settings T T); [done|].
  assert (forall pt tt pb tb, sides (both m) points pt tt pb tb ->
    pt = tt /\ pb = boxes_of l /\ tb = boxes_of l) as Hsides.
  { intros pt tt pb tb [(? & (l1 & H1 & -> & ->) & ->) (? & (l2 & H2 & -> & ->) & ->)].
    by rewrite (preorder_unique _ _ _ _ H1 Hl), (preorder_unique _ _ _ _ H2 Hl). }
  destruct H as [(a & Hc & _ & E)|(e & (pt & tt & pb & tb & Hs & He) & _)]; cycle 1.
  { destruct (Hsides _ _ _ _ Hs) as (_ & -> & ->). rewrite Eb in He. by destruct He. }
  exists a. split; [done|]. destruct Hc as (pt & tt & pb & tb & p & t & Hs & Ep & Et & Er & _ & _ & Ec & Ew & Hd & _).
  destruct (Hsides _ _ _ _ Hs) as (-> & -> & ->). rewrite Eb in Ep, Et. injection Ep as <-. injection Et as <-.
  destruct (self_report bs Hv Ha (1 # 2) ltac:(lra)) as (R1 & R2 & R3 & R4 & _ & R5).
  split_and!.
  - unfold cer_score in Ec. cbn in Ec. injection Ec as <-. apply levenshtein_refl.
  - rewrite Ew. apply levenshtein_refl.
  - eapply dist_unique; [exact Hd|]. by apply dist_refl.
  - rewrite Er. by split_and!.
Qed.

(** *** The boxes of an output *)

Context {G : Type} `{RandomLaws G} (sha256 : string -> list Byte.byte) (repr : Q -> string).
(** [float(repr(x)) == x]. *)
Context (Hrepr : forall q, to_float (JNum (repr q)) = inr q).

Definition rect (b : LayoutBox) : Box := {| bx := b_x b; by_ := b_y b; bw := b_w b; bh := b_h b |}.
Definition page_rect : Box := {| bx := 0; by_ := 0; bw := PAGE_WIDTH; bh := PAGE_HEIGHT |}.

Lemma as_box_four x y w h : (0 <= w)%Q -> (0 <= h)%Q ->
  as_box to_float (SJson (JList (num repr <$> [x; y; w; h]))) = inr {| bx := x; by_ := y; bw := w; bh := h |}.
Proof using Hrepr.
  intros Hw Hh. cbn [fmap list_fmap]. unfold as_box, num. rewrite !Hrepr. cbn [rbind].
  unfold negative. cbn [bw bh]. apply Qle_bool_iff in Hw as ->, Hh as ->. done.
Qed.

Lemma layout_distinct bs : stacked 0 40 bs ->
  as_boxes to_float (SJson <$> JList (num repr <$> [0%Q; 0%Q; PAGE_WIDTH; PAGE_HEIGHT]) :: (bbox repr <$> bs))
    = inr (page_rect :: (rect <$> bs)) /\ distinct (page_rect :: (rect <$> bs)).
Proof using Hrepr.
  intros Hs. pose proof (stacked_on_page 0 40 bs ltac:(lra) Hs) as Hon.
  assert (Forall (λ b, Iou.valid b /\ (0 < area b < 400000)%Q) (rect <$> bs)) as Hv.
  { apply Forall_fmap. eapply Forall_impl; [exact Hon|]. intros b (_ & _ & Hw & Hh & _).
    unfold Iou.valid, area, rect. cbn. split; [lra|]. split; [|]; nra. }
  assert (forall b, b ∈ rect <$> bs -> (iou_box page_rect b < 1 /\ iou_box b page_rect < 1)%Q) as Hpage.
  { intros b Hb. pose proof (proj1 (Forall_forall _ _) Hv b Hb) as [Hvb [_ Ha]].
    assert (Iou.valid page_rect) as Hp by (split; discriminate).
    assert (area page_rect == 484704)%Q as Hpa by done.
    assert (iou_box b page_rect < 1)%Q as Hlt by (apply iou_box_smaller; [done..|]; lra).
    split; [|done]. by rewrite iou_box_sym. }
  split.
  - rewrite fmap_cons. cbn [as_boxes]. rewrite as_box_four by discriminate. cbn [rbind].
    assert (as_boxes to_float (SJson <$> (bbox repr <$> bs)) = inr (rect <$> bs)) as ->; [|done].
    clear - Hon Hrepr. induction Hon as [|b bs (_ & _ & Hw & Hh & _) _ IH]; [done|].
    rewrite !fmap_cons. cbn [as_boxes]. unfold bbox at 1. rewrite as_box_four by lra. cbn [rbind]. by rewrite IH.
  - split; [constructor; [by split; [split; discriminate|]|eapply Forall_impl; [exact Hv|]; by intros b [? [? _]]]|].
    assert (forall j k a b, (rect <$> bs) !! j = Some a -> (rect <$> bs) !! k = Some b -> j < k ->
      (iou_box a b < 1)%Q /\ (iou_box b a < 1)%Q) as Hpairs.
    { intros j k a b Ha Hb Hjk. pose proof (proj1 (Forall_lookup _ _) Hv _ _ Ha) as [Hva _].
      pose proof (proj1 (Forall_lookup _ _) Hv _ _ Hb) as [Hvb _].
      rewrite list_lookup_fmap in Ha, Hb. destruct (bs !! j) as [a'|] eqn:Ej; [|done].
      destruct (bs !! k) as [b'|] eqn:Ek; [|done]. injection Ha as <-. injection Hb as <-.
      pose proof (stacked_below 0 40 bs Hs j k a' b' Ej Ek Hjk) as Hbelow.
      split; (apply iou_box_apart; [done..|]); intros (x & y & [_ Hy1] & [_ Hy2]);
        unfold y2 in *; cbn in *; lra. }
    intros [|i] [|j] a b Ha Hb Hne; [done| | |].
    + injection Ha as <-. apply Hpage. by apply (list_elem_of_lookup_2 _ j).
    + injection Hb as <-. apply Hpage. by apply (list_elem_of_lookup_2 _ i).
    + destruct (decide (i < j)); [by destruct (Hpairs i j a b Ha Hb)|].
      destruct (Hpairs j i b a Hb Ha); [lia|done].
Qed.

End replay.

(** ** Witnesses *)

Definition sample_page : LayoutPayload := layout_payload String.list_byte_of_string "job-1" 0.

Example layout_is_a_page_witness :
  l_page_index sample_page = 0%Z /\ 4 <= length (l_boxes sample_page) <= 9 /\
  reading_order sample_page = seq 0 (length (l_boxes sample_page)).
Proof.
  destruct (layout_is_a_page (G := N) String.list_byte_of_string "job-1" 0)
    as (H1 & _ & H2 & _ & H3 & _).
  split; [exact H1|]. split; [exact H2|exact H3].
Defined.

Definition code_of (j : json) : result Q :=
  match j with JNum t => float_code t | _ => inl (TypeError "float") end.

Definition sample_output : VlmPayload := vlm_payload (G := N) String.list_byte_of_string show_code "job-1" 0.

Example vlm_output_bounded_witness :
  length (v_tables sample_output) = tables_in (l_boxes sample_page) /\
  1 <= length (v_key_values sample_output) <= 3.
Proof.
  destruct (vlm_output_bounded (G := N) String.list_byte_of_string show_code "job-1" 0)
    as (ks & _ & _ & _ & _ & _ & _ & H1 & _ & H2).
  split; [exact H1|exact H2].
Defined.

Lemma small_enough m T : is_tree (JObj m) T ->
  match parse_tree "type" "children" (Some (JObj m)) with
  | Some (inr t) => size t <= 190 /\ keyroot_weight t <= 400
  | _ => False
  end -> too_costly default_settings T T = false.
Proof.
  intros HT. destruct (parse_tree_spec "type" "children" (JObj m)) as ([e|t] & -> & Ht); [done|].
  intros [Hn Hw]. destruct Ht as (U & HU & Ht).
  rewrite (tree_of_unique _ _ _ _ _ HU HT) in Ht. rewrite (arrays_size T t Ht) in Hn.
  rewrite (keyroot_weight_spec T t Ht) in Hw. unfold too_costly.
  change (eval_max_nodes default_settings) with 2000%Z.
  change (eval_max_ted_work default_settings) with 180000%Z.
  rewrite !orb_false_iff, !Z.ltb_ge. nia.
Qed.

