(* ===== verification/MakePdf.v ===== *)
(** * The benchmark's documents ([bench/make_pdf.py])

    The PDF the memory benchmark and [scripts/verify.py] upload: numbered objects, the
    table of their offsets, the trailer.  The random text is drawn ([Draw.v]).  A byte
    is a character.  Theorem: a reader that follows the table from the end of the file
    finds every object, and the pages it asks for with contents of the stated length. *)

From S2P Require Import Prelude Py Json Draw Results.
From Stdlib Require Import Ascii.
#[local] Open Scope nat_scope.

(** [string.ascii_letters + string.digits + " "]. *)
Definition alphabet : list ascii :=
  String.list_ascii_of_string "abcdefghijklmnopqrstuvwxyzABCDEFGHIJKLMNOPQRSTUVWXYZ0123456789 ".

(** [str(n)] of a natural number. *)
Definition dec (n : nat) : string := py_str (Z.of_nat n).

(** [f"{n:010d}"]. *)
Definition dec10 (n : nat) : string :=
  chars (replicate (10 - String.length (dec n)) "0"%char) +:+ dec n.

Definition concat_strings (l : list string) : string := foldr String.append "" l.

Section build.
Context {G : Type} `{Random G}.

Definition text_line : gen G string :=
  body ← times 60 (choice " "%char alphabet);
  mret ("(" +:+ chars body +:+ ") Tj T*" +:+ LF).

Definition catalog_object : string := "<< /Type /Catalog /Pages 2 0 R >>".
Definition font_object : string := "<< /Type /Font /Subtype /Type1 /BaseFont /Helvetica >>".

Definition stream_object (content : string) : string :=
  "<< /Length " +:+ dec (String.length content) +:+ " >>" +:+ LF +:+ "stream" +:+ LF +:+ content
  +:+ LF +:+ "endstream".

Definition page_object (font_num stream_num : nat) : string :=
  "<< /Type /Page /Parent 2 0 R /MediaBox [0 0 612 792] /Resources << /Font << /F1 " +:+ dec font_num
  +:+ " 0 R >> >> /Contents " +:+ dec stream_num +:+ " 0 R >>".

Definition pages_object (pages : nat) (kids : list nat) : string :=
  "<< /Type /Pages /Count " +:+ dec pages +:+ " /Kids ["
  +:+ join_with " " ((λ k, dec k +:+ " 0 R") <$> kids) +:+ "] >>".

Definition page_content (ops_per_page : nat) : gen G string :=
  lines ← times ops_per_page text_line;
  mret ("BT /F1 9 Tf 12 TL 40 750 Td" +:+ LF +:+ concat_strings lines +:+ "ET").

(** [for _ in range(pages)]: the objects and the kids so far; the number of an object
    is the length of the list once it is in. *)
Fixpoint page_loop (n ops_per_page font_num : nat) (objects : list string) (kids : list nat)
  : gen G (list string * list nat) :=
  match n with
  | O => mret (objects, kids)
  | S n =>
      content ← page_content ops_per_page;
      let objects := objects ++ [stream_object content] in
      let stream_num := length objects in
      let objects := objects ++ [page_object font_num stream_num] in
      page_loop n ops_per_page font_num objects (kids ++ [length objects])
  end.

(** [for number, body in enumerate(objects, start=1)]. *)
Fixpoint write_objects (objects : list string) (number : nat) (out : string) (offsets : list nat)
  : string * list nat :=
  match objects with
  | [] => (out, offsets)
  | body :: objects =>
      write_objects objects (number + 1)
        (out +:+ (dec number +:+ " 0 obj" +:+ LF) +:+ body +:+ (LF +:+ "endobj" +:+ LF))
        (offsets ++ [String.length out])
  end.

Definition xref_entry (offset : nat) : string := dec10 offset +:+ " 00000 n " +:+ LF.

(** From the objects on. *)
Definition assemble (objects : list string) : string :=
  let '(out, offsets) := write_objects objects 1 ("%PDF-1.4" +:+ LF) [] in
  let xref_at := String.length out in
  out +:+ ("xref" +:+ LF +:+ "0 " +:+ dec (length objects + 1) +:+ LF)
  +:+ ("0000000000 65535 f " +:+ LF)
  +:+ concat_strings (xref_entry <$> offsets)
  +:+ ("trailer" +:+ LF +:+ "<< /Size " +:+ dec (length objects + 1) +:+ " /Root 1 0 R >>" +:+ LF
       +:+ "startxref" +:+ LF +:+ dec xref_at +:+ LF +:+ "%%EOF" +:+ LF).

Definition build_objects (pages kb_per_page : nat) : gen G (list string) :=
  probe ← text_line;
  let ops_per_page := Nat.max 1 (kb_per_page * 1024 / String.length probe) in
  '(objects, kids) ← page_loop pages ops_per_page 3 [""; ""; font_object] [];
  mret (<[0 := catalog_object]> (<[1 := pages_object pages kids]> objects)).

Definition build (pages kb_per_page : nat) (seed : N) : string :=
  assemble (build_objects pages kb_per_page (Random_of seed)).1.
End build.

(** ** Reading at a position *)

Lemma substring_at (pre t suf : string) :
  String.substring (String.length pre) (String.length t) (pre +:+ t +:+ suf) = t.
Proof.
  induction pre as [|c pre IH]; [|exact IH].
  change ("" +:+ t +:+ suf) with (t +:+ suf). induction t as [|c t IH]; [by destruct suf|].
  exact (f_equal (String c) IH).
Qed.

(** [t] is in [s] at [off]. *)
Definition at_offset (s : string) (off : nat) (t : string) : Prop :=
  exists pre suf, s = pre +:+ t +:+ suf /\ String.length pre = off.

Lemma at_offset_read s off t : at_offset s off t -> String.substring off (String.length t) s = t.
Proof. intros (pre & suf & -> & <-). apply substring_at. Qed.

Lemma at_offset_here s t : at_offset (t +:+ s) 0 t.
Proof. by exists "", s. Qed.

Lemma at_offset_left s off t k : at_offset s off t -> at_offset (s +:+ k) off t.
Proof. intros (pre & suf & -> & E). exists pre, (suf +:+ k). by rewrite !string_app_assoc. Qed.

Lemma at_offset_right s off t k : at_offset s off t -> at_offset (k +:+ s) (String.length k + off) t.
Proof.
  intros (pre & suf & -> & <-). exists (k +:+ pre), suf. by rewrite string_app_assoc, string_app_length.
Qed.

Lemma at_offset_prefix s off t k : at_offset s off (t +:+ k) -> at_offset s off t.
Proof. intros (pre & suf & -> & E). exists pre, (k +:+ suf). by rewrite !string_app_assoc. Qed.

(** *** Decimals *)

Lemma length_chars l : String.length (chars l) = length l.
Proof. induction l as [|c l IH]; [done|]. exact (f_equal S IH). Qed.

Lemma dec_digits n : str_forall is_digit (dec n) = true /\ dec n <> "".
Proof.
  split; [|apply py_str_nonempty]. unfold dec, py_str. destruct n as [|n]; [done|].
  apply (pretty_N_digits (N.pos (Pos.of_succ_nat n))).
Qed.

Lemma dec_length (k n : nat) : (Z.of_nat n < 10 ^ Z.of_nat (S k))%Z -> String.length (dec n) <= S k.
Proof.
  assert (forall k x s, (x < 10 ^ N.of_nat k)%N -> String.length (pretty_N_go x s) <= k + String.length s) as Hgo.
  { clear. induction k as [|k IH]; intros x s Hx.
    - assert (x = 0%N) as -> by (simpl in Hx; lia). by rewrite pretty_N_go_0.
    - destruct (decide (x = 0)%N) as [->|Hne]; [rewrite pretty_N_go_0; lia|].
      rewrite pretty_N_go_step by lia. rewrite Nat2N.inj_succ, N.pow_succ_r' in Hx.
      specialize (IH (x / 10)%N (String (pretty_N_char (x mod 10)) s)).
      assert (x / 10 < 10 ^ N.of_nat k)%N as Hlt by (apply N.Div0.div_lt_upper_bound; lia).
      specialize (IH Hlt). cbn [String.length] in IH. lia. }
  intros Hn. unfold dec, py_str. destruct n as [|n]; [simpl; lia|].
  change (pretty (Z.of_nat (S n))) with (pretty_N_go (N.pos (Pos.of_succ_nat n)) "").
  assert (N.pos (Pos.of_succ_nat n) < 10 ^ N.of_nat (S k))%N as Hlt.
  { apply N2Z.inj_lt. by rewrite N2Z.inj_pow, nat_N_Z. }
  specialize (Hgo (S k) _ "" Hlt). simpl in Hgo. lia.
Qed.

Lemma dec10_length n : (Z.of_nat n < 10 ^ 10)%Z -> String.length (dec10 n) = 10.
Proof.
  intros Hn. pose proof (dec_length 9 n Hn). unfold dec10.
  rewrite string_app_length, length_chars, length_replicate. lia.
Qed.

(** [int] of the ten digits. *)
Lemma dec10_read n : py_int (dec10 n) = Some (Z.of_nat n).
Proof.
  destruct (dec_digits n) as [Hd Hne]. unfold dec10. set (k := 10 - _). clearbody k.
  assert (str_forall is_digit (chars (replicate k "0"%char) +:+ dec n) = true) as Hall.
  { rewrite str_forall_app, Hd, andb_true_r. by induction k. }
  rewrite py_int_digits by done.
  pose proof (py_int_str (Z.of_nat n)) as Hn. fold (dec n) in Hn. rewrite py_int_digits in Hn by done.
  assert (forall b, int_digits 0 b (chars (replicate k "0"%char) +:+ dec n) = int_digits 0 false (dec n)) as ->;
    [|done].
  clear - Hd Hne. induction k as [|k IH]; intros b.
  - change (chars (replicate 0 "0"%char) +:+ dec n) with (dec n). destruct (dec n) as [|c s]; [done|].
    cbn [str_forall] in Hd. apply andb_prop in Hd as [Hc _]. by rewrite !int_digits_digit.
  - exact (IH true).
Qed.

(** ** The file *)

Definition obj_text (number : nat) (body : string) : string :=
  dec number +:+ " 0 obj" +:+ LF +:+ body +:+ LF +:+ "endobj" +:+ LF.

Lemma write_objects_spec objects : forall number out offsets,
  exists tail offs, write_objects objects number out offsets = (out +:+ tail, offsets ++ offs) /\
    length offs = length objects /\
    forall i body, objects !! i = Some body -> exists off,
      offs !! i = Some off /\ off <= String.length out + String.length tail /\
      at_offset (out +:+ tail) off (obj_text (number + i) body).
Proof.
  induction objects as [|body objects IH]; intros number out offsets.
  { exists "", []. split; [|done]. cbn [write_objects]. rewrite app_nil_r.
    assert (out +:+ "" = out) as ->; [|done]. induction out as [|c out IH]; [done|]. exact (f_equal (String c) IH). }
  cbn [write_objects].
  set (t := (dec number +:+ " 0 obj" +:+ LF) +:+ body +:+ LF +:+ "endobj" +:+ LF).
  assert (t = obj_text number body) as Et by (unfold t, obj_text; by rewrite !string_app_assoc).
  destruct (IH (number + 1) (out +:+ t) (offsets ++ [String.length out])) as (tail & offs & E & Hl & Hi).
  exists (t +:+ tail), (String.length out :: offs). rewrite E, string_app_assoc, <- app_assoc.
  split; [done|]. split; [simpl; by rewrite Hl|]. intros [|i] b Hb.
  - injection Hb as ->. exists (String.length out). split; [done|]. split; [lia|].
    rewrite Nat.add_0_r, <- Et. exists out, tail. done.
  - destruct (Hi i b Hb) as (off & Ho & Hle & Hat). exists off. split; [done|].
    rewrite !string_app_length in *. split; [lia|].
    rewrite string_app_assoc in Hat. by replace (number + S i) with (number + 1 + i) by lia.
Qed.

Lemma entry_length off : (Z.of_nat off < 10 ^ 10)%Z -> String.length (xref_entry off) = 20.
Proof. intros H. unfold xref_entry. by rewrite string_app_length, (dec10_length off H). Qed.

Lemma entry_at offs i off : Forall (λ o, (Z.of_nat o < 10 ^ 10)%Z) offs -> offs !! i = Some off ->
  at_offset (concat_strings (xref_entry <$> offs)) (20 * i) (dec10 off).
Proof.
  intros HF. revert i. induction HF as [|o offs Ho _ IH]; intros i Hi; [done|].
  rewrite fmap_cons. cbn [concat_strings foldr]. fold (concat_strings (xref_entry <$> offs)).
  destruct i as [|i].
  - injection Hi as ->. unfold xref_entry. rewrite !string_app_assoc. apply at_offset_here.
  - replace (20 * S i) with (String.length (xref_entry o) + 20 * i) by (rewrite entry_length by done; lia).
    by apply at_offset_right, IH.
Qed.

(** *** A reader *)

(** The offset the table at [xref_at] gives for object [number]; its heading takes a
    line for the word and one for the [count], and an entry is twenty bytes. *)
Definition entry_offset (doc : string) (xref_at count number : nat) : option Z :=
  py_int (String.substring (xref_at + (8 + String.length (dec count)) + 20 * number) 10 doc).

(** The reader finds [body] as the object [number]. *)
Definition finds (doc : string) (xref_at count number : nat) (body : string) : Prop :=
  exists off, entry_offset doc xref_at count number = Some (Z.of_nat off) /\
    at_offset doc off (obj_text number body).

Lemma assemble_reads objects : exists xref_at front,
  assemble objects = front +:+ "startxref" +:+ LF +:+ dec xref_at +:+ LF +:+ "%%EOF" +:+ LF /\
  at_offset (assemble objects) 0 ("%PDF-1.4" +:+ LF) /\
  at_offset (assemble objects) xref_at ("xref" +:+ LF +:+ "0 " +:+ dec (length objects + 1) +:+ LF) /\
  ((Z.of_nat xref_at < 10 ^ 10)%Z -> forall i body, objects !! i = Some body ->
     finds (assemble objects) xref_at (length objects + 1) (S i) body).
Proof.
  unfold assemble.
  destruct (write_objects_spec objects 1 ("%PDF-1.4" +:+ LF) []) as (tail & offs & -> & Hl & Hi).
  set (out := ("%PDF-1.4" +:+ LF) +:+ tail) in *. cbn [app].
  set (head := "xref" +:+ LF +:+ "0 " +:+ dec (length objects + 1) +:+ LF).
  set (free := "0000000000 65535 f " +:+ LF). set (table := concat_strings _).
  exists (String.length out), (out +:+ head +:+ free +:+ table +:+ "trailer" +:+ LF +:+ "<< /Size "
    +:+ dec (length objects + 1) +:+ " /Root 1 0 R >>" +:+ LF).
  split; [by rewrite !string_app_assoc|]. split; [|split].
  - apply at_offset_left. unfold out. apply at_offset_here.
  - rewrite <- (Nat.add_0_r (String.length out)). apply at_offset_right, at_offset_here.
  - intros Hlt i body Hb. destruct (Hi i body Hb) as (off & Ho & Hle & Hat). exists off.
    assert (forall j o, offs !! j = Some o -> (Z.of_nat o < 10 ^ 10)%Z) as Hsmall.
    { intros j o Hj. destruct (lookup_lt_is_Some_2 objects j) as [b Hbj].
      { rewrite <- Hl. by apply lookup_lt_Some in Hj. }
      destruct (Hi j b Hbj) as (o' & Ho' & Hle' & _). assert (o' = o) as -> by congruence.
      unfold out in Hlt. rewrite string_app_length in Hlt. lia. }
    split; [|by apply at_offset_left].
    assert (at_offset table (20 * i) (dec10 off)) as Htab
      by (apply entry_at; [by apply Forall_lookup_2|done]).
    unfold entry_offset.
    assert (forall rest, at_offset (out +:+ head +:+ free +:+ table +:+ rest)
      (String.length out + (String.length head + (String.length free + 20 * i))) (dec10 off)) as Hfull.
    { intros rest. apply at_offset_right, at_offset_right, at_offset_right. by apply at_offset_left. }
    replace (String.length out + (8 + String.length (dec (length objects + 1))) + 20 * S i)
      with (String.length out + (String.length head + (String.length free + 20 * i)))
      by (unfold head; rewrite !string_app_length; simpl; lia).
    assert (forall rest, _) as Hr by (intros rest; exact (at_offset_read _ _ _ (Hfull rest))).
    rewrite (dec10_length off) in Hr by (by eapply Hsmall). rewrite Hr. apply dec10_read.
Qed.

(** ** The pages *)

Lemma concat_strings_length l n : Forall (λ s, String.length s = n) l ->
  String.length (concat_strings l) = n * length l.
Proof.
  induction 1 as [|s l Hs _ IH]; [simpl; lia|]. cbn [concat_strings foldr].
  fold (concat_strings l). rewrite string_app_length, Hs, IH. simpl. lia.
Qed.

(** The objects of the pages, from the object numbered [at_ + 1] on, and the numbers of
    the page objects. *)
Fixpoint page_objects (at_ : nat) (contents : list string) : list string :=
  match contents with
  | [] => []
  | c :: contents => stream_object c :: page_object 3 (at_ + 1) :: page_objects (at_ + 2) contents
  end.

Fixpoint kid_numbers (at_ n : nat) : list nat :=
  match n with
  | O => []
  | S n => (at_ + 2) :: kid_numbers (at_ + 2) n
  end.

Section pages.
Context {G : Type} `{RandomLaws G}.

Lemma text_line_length : always (text_line : gen G string) (λ s, String.length s = 69).
Proof using Type.
  eapply always_bind; [by apply (always_times 60 _ (λ _, True))|]. intros body [Hlen _]. apply always_ret.
  by rewrite !string_app_length, length_chars, Hlen.
Qed.

Lemma page_content_length ops :
  always (page_content ops : gen G string) (λ s, String.length s = 30 + 69 * ops).
Proof using Type.
  eapply always_bind; [apply always_times, text_line_length|]. intros lines [Hlen Hl]. apply always_ret.
  rewrite !string_app_length, (concat_strings_length lines 69), Hlen by done. simpl. lia.
Qed.

Lemma page_loop_spec ops n : forall objects kids,
  always (page_loop n ops 3 objects kids : gen G _) (λ r, exists contents,
    r = (objects ++ page_objects (length objects) contents, kids ++ kid_numbers (length objects) n) /\
    length contents = n /\ Forall (λ c, String.length c = 30 + 69 * ops) contents).
Proof using Type.
  induction n as [|n IH]; intros objects kids.
  { apply always_ret. exists []. by rewrite !app_nil_r. }
  eapply always_bind; [apply page_content_length|]. intros c Hc. cbv beta in Hc.
  eapply always_impl; [apply IH|]. intros r (contents & -> & Hlen & Hcs). exists (c :: contents).
  rewrite !length_app. cbn [length page_objects kid_numbers]. rewrite <- !app_assoc. cbn [app].
  replace (length objects + 1 + 1) with (length objects + 2) by lia.
  split; [done|]. split; [by f_equal|by constructor].
Qed.

Lemma build_objects_spec pages kb :
  always (build_objects pages kb : gen G _) (λ objects, exists contents,
    objects = [catalog_object; pages_object pages (kid_numbers 3 pages); font_object] ++ page_objects 3 contents /\
    length contents = pages /\
    Forall (λ c, String.length c = 30 + 69 * Nat.max 1 (kb * 1024 / 69)) contents).
Proof using Type.
  eapply always_bind; [apply text_line_length|]. intros probe Hp. cbv beta in Hp. rewrite Hp.
  eapply always_bind; [apply page_loop_spec|]. intros r (contents & -> & Hlen & Hc). apply always_ret.
  by exists contents.
Qed.

Lemma page_objects_length at_ contents : length (page_objects at_ contents) = 2 * length contents.
Proof using Type. revert at_. induction contents as [|c cs IH]; intros at_; [done|]. simpl. rewrite IH. lia. Qed.

Lemma page_objects_lookup contents : forall at_ k c, contents !! k = Some c ->
  page_objects at_ contents !! (2 * k) = Some (stream_object c) /\
  page_objects at_ contents !! (2 * k + 1) = Some (page_object 3 (at_ + 2 * k + 1)).
Proof using Type.
  induction contents as [|c' cs IH]; intros at_ k c Hk; [done|]. destruct k as [|k].
  - injection Hk as ->. cbn [page_objects]. by rewrite Nat.add_0_r.
  - destruct (IH (at_ + 2) k c Hk) as [H1 H2].
    replace (2 * S k) with (S (S (2 * k))) by lia. replace (S (S (2 * k)) + 1) with (S (S (2 * k + 1))) by lia.
    cbn [page_objects lookup list_lookup]. split; [exact H1|].
    etrans; [exact H2|]. do 2 f_equal. lia.
Qed.

Lemma kid_numbers_lookup n : forall at_ k, k < n -> kid_numbers at_ n !! k = Some (at_ + 2 * k + 2).
Proof using Type.
  induction n as [|n IH]; intros at_ k Hk; [lia|]. destruct k as [|k].
  - cbn. do 2 f_equal. lia.
  - etrans; [apply (IH (at_ + 2) k); lia|]. f_equal. lia.
Qed.

(** C37: the document is one a reader can follow.  It begins with the header and ends with
    where its table is; through the table - whose entries are twenty bytes, the file being
    shorter than [10^10] - every object is found where it was written: the catalogue, the
    tree of the pages, the font, and for each page a stream, of the stated length, and the
    page that shows it, which the tree lists.  A page's content is the size asked for, to
    within a line, and never empty. *)
Theorem build_readable pages kb seed :
  let doc := build pages kb seed in
  let count := 3 + 2 * pages + 1 in
  exists front xref_at kids contents,
    doc = front +:+ "startxref" +:+ LF +:+ dec xref_at +:+ LF +:+ "%%EOF" +:+ LF /\
    at_offset doc 0 ("%PDF-1.4" +:+ LF) /\
    at_offset doc xref_at ("xref" +:+ LF +:+ "0 " +:+ dec count +:+ LF) /\
    length kids = pages /\ length contents = pages /\
    Forall (λ c, String.length c = 30 + 69 * Nat.max 1 (kb * 1024 / 69)) contents /\
    ((Z.of_nat xref_at < 10 ^ 10)%Z ->
       finds doc xref_at count 1 catalog_object /\
       finds doc xref_at count 2 (pages_object pages kids) /\
       finds doc xref_at count 3 font_object /\
       forall k content, contents !! k = Some content -> exists page stream, kids !! k = Some page /\
         finds doc xref_at count page (page_object 3 stream) /\
         finds doc xref_at count stream (stream_object content)).
Proof using Type.
  intros doc count.
  destruct (build_objects_spec pages kb (Random_of seed)) as (contents & E & Hlen & Hc).
  unfold doc, build. rewrite E. set (objects := _ ++ page_objects 3 contents).
  assert (length objects + 1 = count) as Hcount
    by (unfold objects, count; rewrite length_app, page_objects_length, Hlen; simpl; lia).
  destruct (assemble_reads objects) as (xref_at & front & H1 & H2 & H3 & H4). rewrite Hcount in *.
  exists front, xref_at, (kid_numbers 3 pages), contents. split_and!; try done.
  - clear. generalize 3. induction pages as [|n IH]; intros at_; [done|]. simpl. by rewrite IH.
  - intros Hlt. specialize (H4 Hlt).
    split_and!; [by apply (H4 0)|by apply (H4 1)|by apply (H4 2)|].
    intros k content Hk. destruct (page_objects_lookup contents 3 k content Hk) as [Hs Hp].
    apply lookup_lt_Some in Hk as Hkn. rewrite Hlen in Hkn.
    exists (3 + 2 * k + 2), (3 + 2 * k + 1). split_and!; [by apply kid_numbers_lookup| |].
    + replace (3 + 2 * k + 2) with (S (3 + (2 * k + 1))) by lia. apply H4. exact Hp.
    + replace (3 + 2 * k + 1) with (S (3 + 2 * k)) by lia. apply H4. exact Hs.
Qed.
End pages.
