(* ===== verification/Admission.v ===== *)
(** * Admission control ([app/api/admission.py])

    [_ADMISSION_LUA] as one atomic step of the server, over the hash it keeps and
    the lengths of the task lanes; the controller and its [Retry-After].  [gate] is
    the abstract state the script implements.  Theorems: the script refines the
    gate; over any history the gate trips and recovers in turn, admits within the
    high mark, refuses until the low mark is reached, and counts every decision;
    [Retry-After] is bounded, and long enough for the backlog to drain. *)

From S2P Require Import Prelude Py Redis Prog PageState Streams Adaptive Retry.
From Stdlib Require Import QArith Qround Lqa.
#[local] Open Scope Z_scope.

(** ** The script *)

Record admission_reply := {
  ar_admitted : bool; ar_depth : Z; ar_shedding : bool;
  ar_shed_jobs : Z; ar_shed_pages : Z; ar_admitted_jobs : Z }.

Section script.
Context {R : Type} `{Redis R}.

(** The sum of [XLEN] over the lanes. *)
Definition lanes_depth (lanes : list string) (r : R) : Z :=
  fold_left (λ depth k, depth + xlen k r) lanes 0.

(** [redis.call('HINCRBY', key, f, d)], its reply unused. *)
Definition count_up (key f : string) (d : Z) (r : R) : R := (hincrby key f d r).1.

Definition admission_lua (key : string) (lanes : list string) (pages high low ttl_ms : Z) (r : R)
  : R * admission_reply :=
  let depth := lanes_depth lanes r in
  let shedding := bool_decide (hget key "shedding" r = Some "1") in
  let '(shedding, r) :=
    if shedding && (depth <=? low) then (false, count_up key "recoveries" 1 r) else (shedding, r) in
  let '(admitted, shedding, r) :=
    if negb shedding then
      if depth + pages <=? high then (true, shedding, r)
      else (false, true, count_up key "trips" 1 r)
    else (false, shedding, r) in
  let r := if (admitted : bool)
           then count_up key "admitted_pages" pages (count_up key "admitted_jobs" 1 r)
           else count_up key "shed_pages" pages (count_up key "shed_jobs" 1 r) in
  let r := hset key {["shedding" := if (shedding : bool) then "1" else "0"]} r in
  let r := pexpire key ttl_ms r in
  let number f := default 0 (hget_number key f r) in
  (r, {| ar_admitted := admitted; ar_depth := depth; ar_shedding := shedding;
         ar_shed_jobs := number "shed_jobs"; ar_shed_pages := number "shed_pages";
         ar_admitted_jobs := number "admitted_jobs" |}).
End script.

(** ** The controller *)

Record admission_controller := {
  ac_key : string; high_watermark : Z; low_watermark : Z; drain_rate : Q;
  ac_controller : option aimd_args;
  retry_after_cap_s : Z; retry_after_jitter : Q; ac_ttl_ms : Z }.

(** [AdmissionController.__init__] *)
Definition make_admission (high : Z) (fraction drain_rate : Q) (controller : option aimd_args)
  (cap_s : Z) (jitter : Q) (ttl_s : Z) (key : string) : result admission_controller :=
  if high <? 1 then inl (ValueError "high_watermark must be positive")
  else if negb (negb (Qle_bool fraction 0) && negb (Qle_bool 1 fraction))
  then inl (ValueError "low_watermark_fraction must be in (0, 1)")
  else if Qle_bool drain_rate 0 then inl (ValueError "drain_rate must be positive")
  else inr {| ac_key := key; high_watermark := high;
              low_watermark := Z.max 1 (int_of_float (inject_Z high * fraction));
              drain_rate := drain_rate; ac_controller := controller;
              retry_after_cap_s := cap_s; retry_after_jitter := jitter; ac_ttl_ms := ttl_s * 1000 |}.

Record Verdict := {
  admitted : bool; vd_depth : Z; vd_shedding : bool; retry_after_s : Z;
  vd_shed_jobs : Z; vd_shed_pages : Z; vd_admitted_jobs : Z }.

Record admission_stats := {
  as_high : Z; as_low : Z; as_shedding : bool; as_admitted_jobs : Z; as_admitted_pages : Z;
  as_shed_jobs : Z; as_shed_pages : Z; as_trips : Z; as_recoveries : Z }.

Section controller.
Context {W : Type} `{Redis W} `{Clock W} `{Memory aimd W}.
(** [random.random()] *)
Context (random : W -> W * Q).
Context (a : admission_controller).

(** [_retry_after], for a draw [u] of [random.random()]. *)
Definition _retry_after (u : Q) (depth : Z) (rate : Q) : Z :=
  let excess := Z.max 0 (depth - low_watermark a) in
  let drain_s := (inject_Z excess / rate)%Q in
  let jittered := (drain_s * (1 + uniform u 0 (retry_after_jitter a)))%Q in
  Z.max 1 (Z.min (retry_after_cap_s a) (Qceiling jittered)).

Definition _service_rate : prog W Q :=
  match ac_controller a with
  | None => Ret (drain_rate a)
  | Some args =>
      catch (let! rate := call (λ w, let '(s, q) := current args (inject_Z (now_ms w)) (mem w) in
                                     (set_mem s w, q)) in
             Ret (Qmax_py (1 # 10) rate))
        (λ e, if is_Exception e then Ret (drain_rate a) else Raise e)
  end.

Definition evaluate (pages : Z) : prog W Verdict :=
  let! reply := call (admission_lua (ac_key a) STREAMS pages (high_watermark a) (low_watermark a)
                        (ac_ttl_ms a)) in
  let! retry_after :=
    if ar_admitted reply then Ret 0
    else
      let! rate := _service_rate in
      let! u := own random in
      Ret (_retry_after u (ar_depth reply) rate) in
  Ret {| admitted := ar_admitted reply; vd_depth := ar_depth reply; vd_shedding := ar_shedding reply;
         retry_after_s := retry_after; vd_shed_jobs := ar_shed_jobs reply;
         vd_shed_pages := ar_shed_pages reply; vd_admitted_jobs := ar_admitted_jobs reply |}.

(** [int(raw.get(k, 0))] *)
Definition raw_int (raw : fields) (k : string) : result Z :=
  match raw !! k with Some s => int s | None => inr 0 end.

Definition stats : prog W admission_stats :=
  let! raw := ask (hgetall (ac_key a)) in
  of_result (
    let* aj := raw_int raw "admitted_jobs" in
    let* ap := raw_int raw "admitted_pages" in
    let* sj := raw_int raw "shed_jobs" in
    let* sp := raw_int raw "shed_pages" in
    let* tr := raw_int raw "trips" in
    let* rc := raw_int raw "recoveries" in
    inr {| as_high := high_watermark a; as_low := low_watermark a;
           as_shedding := bool_decide (raw !! "shedding" = Some "1");
           as_admitted_jobs := aj; as_admitted_pages := ap; as_shed_jobs := sj;
           as_shed_pages := sp; as_trips := tr; as_recoveries := rc |}).

Definition reset : prog W unit := act (del (ac_key a)).
End controller.

(** ** What the script implements *)

Record gate := {
  shedding : bool; admitted_jobs : Z; admitted_pages : Z; shed_jobs : Z; shed_pages : Z;
  trips : Z; recoveries : Z }.

Definition new_gate : gate :=
  {| shedding := false; admitted_jobs := 0; admitted_pages := 0; shed_jobs := 0; shed_pages := 0;
     trips := 0; recoveries := 0 |}.

(** A decision at [depth]: recover at the low mark, then take what fits under the
    high one or trip. *)
Definition decide_job (pages high low depth : Z) (g : gate) : gate * bool :=
  let recovers := shedding g && (depth <=? low) in
  let open := negb (shedding g) || recovers in
  let fits := open && (depth + pages <=? high) in
  let trip := open && negb (depth + pages <=? high) in
  ({| shedding := negb fits;
      admitted_jobs := admitted_jobs g + Z.b2z fits;
      admitted_pages := admitted_pages g + (if fits then pages else 0);
      shed_jobs := shed_jobs g + Z.b2z (negb fits);
      shed_pages := shed_pages g + (if fits then 0 else pages);
      trips := trips g + Z.b2z trip; recoveries := recoveries g + Z.b2z recovers |}, fits).

Definition counter_names : list string :=
  ["admitted_jobs"; "admitted_pages"; "shed_jobs"; "shed_pages"; "trips"; "recoveries"].

Definition count_of (g : gate) (f : string) : Z :=
  if (f =? "admitted_jobs")%string then admitted_jobs g
  else if (f =? "admitted_pages")%string then admitted_pages g
  else if (f =? "shed_jobs")%string then shed_jobs g
  else if (f =? "shed_pages")%string then shed_pages g
  else if (f =? "trips")%string then trips g else recoveries g.

(** A counter of a hash; an absent one is zero. *)
Definition counter (h : fields) (f : string) (n : Z) : Prop :=
  h !! f = Some (py_str n) \/ h !! f = None /\ n = 0.

(** The gate a hash holds. *)
Record holds_gate (h : fields) (g : gate) : Prop := {
  hg_shedding : bool_decide (h !! "shedding" = Some "1") = shedding g;
  hg_counters f : f ∈ counter_names -> counter h f (count_of g f) }.

Section refinement.
Context {R : Type} `{RedisLaws R}.
Context (key : string).
Implicit Types r : R.

#[local] Abbreviation hash r := (vhash key (view r)).

(** Everything but the hash at [key] and the expiries. *)
Definition untouched r r' : Prop :=
  (forall k, k <> key -> vhash k (view r') = vhash k (view r)) /\
  (forall k, vstream k (view r') = vstream k (view r)).

Definition bump (f : string) (d : Z) (cnt : string -> Z) : string -> Z :=
  λ f', if (f' =? f)%string then cnt f' + d else cnt f'.

Lemma untouched_trans r1 r2 r3 : untouched r1 r2 -> untouched r2 r3 -> untouched r1 r3.
Proof using Type.
  intros [H1 S1] [H2 S2]. split; [intros k Hk; by rewrite H2, H1|intros k; by rewrite S2, S1].
Qed.

Lemma untouched_vhset r r' m : view r' = vhset key m (view r) -> untouched r r'.
Proof using Type.
  intros Hv. split; intros k; rewrite Hv; [intros Hk; by rewrite vhash_vhset_ne|by rewrite vstream_vhset].
Qed.

Lemma count_up_spec f d r cnt :
  f ∈ counter_names -> (forall f', f' ∈ counter_names -> counter (hash r) f' (cnt f')) ->
  (forall f', f' ∈ counter_names -> counter (hash (count_up key f d r)) f' (bump f d cnt f')) /\
  hash (count_up key f d r) !! "shedding" = hash r !! "shedding" /\
  untouched r (count_up key f d r).
Proof using Type.
  intros Hf Hc.
  assert (default (Some 0) (py_int <$> hash r !! f) = Some (cnt f)) as Hn.
  { destruct (Hc f Hf) as [-> | [-> ->]]; simpl; [apply py_int_str|done]. }
  destruct (hincrby_view key f d (cnt f) r Hn) as [_ Hv]. fold (count_up key f d r) in Hv.
  split_and!.
  - intros f' Hf'. rewrite Hv, vhash_vhset_eq. unfold bump, counter.
    destruct (String.eqb_spec f' f) as [->|Hne].
    + left. by rewrite lookup_union_singleton_eq.
    + rewrite lookup_union_singleton_ne by done. by apply Hc.
  - rewrite Hv, vhash_vhset_eq. apply lookup_union_singleton_ne. intros ->.
    by repeat (apply elem_of_cons in Hf as [Hf|Hf]; [discriminate|]); apply elem_of_nil in Hf.
  - by apply (untouched_vhset _ _ _ Hv).
Qed.
Lemma lanes_depth_view lanes r :
  lanes_depth lanes r = fold_left (λ n k, n + Z.of_nat (length (sv_entries (vstream k (view r))))) lanes 0.
Proof using Type.
  unfold lanes_depth. generalize 0. induction lanes as [|k lanes IH]; intros n; [done|]. simpl.
  by rewrite xlen_view, IH.
Qed.

Lemma hget_counter r f n : counter (hash r) f n -> default 0 (hget_number key f r) = n.
Proof using Type.
  intros Hc. rewrite hget_number_view. unfold vnumber.
  destruct Hc as [-> | [-> ->]]; [|done]. simpl. by rewrite py_int_str.
Qed.

(** The end of the script: the flag, the expiry and the reply. *)
Lemma script_end r g (shed : bool) ttl_ms :
  (forall f, f ∈ counter_names -> counter (hash r) f (count_of g f)) -> shedding g = shed ->
  let r' := pexpire key ttl_ms (hset key {["shedding" := if shed then "1" else "0"]} r) in
  holds_gate (hash r') g /\ untouched r r' /\
  default 0 (hget_number key "shed_jobs" r') = shed_jobs g /\
  default 0 (hget_number key "shed_pages" r') = shed_pages g /\
  default 0 (hget_number key "admitted_jobs" r') = admitted_jobs g.
Proof using Type.
  intros Hc Hs r'.
  assert (forall f, f ∈ counter_names -> counter (hash r') f (count_of g f)) as Hc'.
  { intros f Hf. unfold r'. rewrite view_pexpire, vhash_vpexpire, view_hset, vhash_vhset_eq. unfold counter.
    rewrite lookup_union_singleton_ne; [by apply Hc|]. intros <-.
    by repeat (apply elem_of_cons in Hf as [Hf|Hf]; [discriminate|]); apply elem_of_nil in Hf. }
  split_and!.
  - split; [|done]. unfold r'. rewrite view_pexpire, vhash_vpexpire, view_hset, vhash_vhset_eq.
    rewrite lookup_union_singleton_eq, Hs. by destruct shed.
  - unfold r'. split; [intros k Hk|intros k]; rewrite view_pexpire, view_hset.
    + by rewrite vhash_vpexpire, vhash_vhset_ne.
    + by rewrite vstream_vpexpire, vstream_vhset.
  - apply (hget_counter r' "shed_jobs" _), Hc'. by repeat constructor.
  - apply (hget_counter r' "shed_pages" _), Hc'. by repeat constructor.
  - apply (hget_counter r' "admitted_jobs" _), Hc'. by repeat constructor.
Qed.

Lemma counts_up_spec (l : list (string * Z)) r cnt :
  Forall (λ x, x.1 ∈ counter_names) l ->
  (forall f, f ∈ counter_names -> counter (hash r) f (cnt f)) ->
  let r' := fold_left (λ r x, count_up key x.1 x.2 r) l r in
  (forall f, f ∈ counter_names -> counter (hash r') f (fold_left (λ c x, bump x.1 x.2 c) l cnt f)) /\
  untouched r r'.
Proof using Type.
  intros Hl. revert r cnt. induction Hl as [|[f d] l Hf _ IH]; intros r cnt Hc; [done|].
  cbn [fold_left fst snd]. destruct (count_up_spec f d r cnt Hf Hc) as (Hc1 & _ & U1).
  destruct (IH (count_up key f d r) _ Hc1) as (Hc2 & U2). split; [exact Hc2|]. by eapply untouched_trans.
Qed.

(** The counters a decision moves. *)
Definition moved (pages : Z) (recovers trip fits : bool) : list (string * Z) :=
  (if recovers then [("recoveries", 1)] else []) ++ (if trip then [("trips", 1)] else []) ++
  if fits then [("admitted_jobs", 1); ("admitted_pages", pages)]
  else [("shed_jobs", 1); ("shed_pages", pages)].

Lemma moved_names pages recovers trip fits : Forall (λ x, x.1 ∈ counter_names) (moved pages recovers trip fits).
Proof using Type. destruct recovers, trip, fits; repeat constructor. Qed.

Lemma moved_counts pages recovers trip fits g f : f ∈ counter_names ->
  fold_left (λ c x, bump x.1 x.2 c) (moved pages recovers trip fits) (count_of g) f =
  count_of {| shedding := negb fits;
              admitted_jobs := admitted_jobs g + Z.b2z fits;
              admitted_pages := admitted_pages g + (if fits then pages else 0);
              shed_jobs := shed_jobs g + Z.b2z (negb fits);
              shed_pages := shed_pages g + (if fits then 0 else pages);
              trips := trips g + Z.b2z trip; recoveries := recoveries g + Z.b2z recovers |} f.
Proof using Type.
  intros Hf. destruct g.
  repeat (apply elem_of_cons in Hf as [-> |Hf]; [destruct recovers, trip, fits; cbv -[Z.add]; lia|]).
  by apply elem_of_nil in Hf.
Qed.

Lemma admission_lua_spec lanes pages high low ttl_ms r g :
  holds_gate (hash r) g ->
  let '(g', ok) := decide_job pages high low (lanes_depth lanes r) g in
  let '(r', reply) := admission_lua key lanes pages high low ttl_ms r in
  holds_gate (hash r') g' /\ untouched r r' /\
  reply = {| ar_admitted := ok; ar_depth := lanes_depth lanes r; ar_shedding := shedding g';
             ar_shed_jobs := shed_jobs g'; ar_shed_pages := shed_pages g';
             ar_admitted_jobs := admitted_jobs g' |}.
Proof using Type.
  intros [Hs Hc]. unfold decide_job. set (depth := lanes_depth lanes r).
  set (recovers := shedding g && (depth <=? low)).
  set (fits := depth + pages <=? high). set (open := negb (shedding g) || recovers).
  destruct (counts_up_spec (moved pages recovers (open && negb fits) (open && fits)) r (count_of g)
    (moved_names _ _ _ _) Hc) as [Hc1 U1].
  set (r1 := fold_left _ _ r) in *. set (g' := Build_gate _ _ _ _ _ _ _).
  destruct (script_end r1 g' (negb (open && fits)) ttl_ms) as (Hg & U2 & N1 & N2 & N3); [|done|].
  { intros f Hf. specialize (Hc1 f Hf). by rewrite (moved_counts _ _ _ _ g f Hf) in Hc1. }
  set (r2 := pexpire _ _ _) in *.
  assert (admission_lua key lanes pages high low ttl_ms r =
    (r2, {| ar_admitted := open && fits; ar_depth := depth; ar_shedding := negb (open && fits);
            ar_shed_jobs := default 0 (hget_number key "shed_jobs" r2);
            ar_shed_pages := default 0 (hget_number key "shed_pages" r2);
            ar_admitted_jobs := default 0 (hget_number key "admitted_jobs" r2) |})) as ->.
  { unfold admission_lua, r2, r1, open, recovers, fits, depth. rewrite hget_view, Hs.
    by destruct (shedding g), (lanes_depth lanes r <=? low), (lanes_depth lanes r + pages <=? high). }
  split; [exact Hg|]. split; [by eapply untouched_trans|]. by rewrite N1, N2, N3.
Qed.
End refinement.

(** ** Histories of the gate *)

Section history.
Context (high low : Z).

(** The decisions on jobs of the given pages at the given depths. *)
Fixpoint decisions (jobs : list (Z * Z)) (g : gate) : list bool * gate :=
  match jobs with
  | [] => ([], g)
  | (pages, depth) :: jobs' =>
      let '(g1, ok) := decide_job pages high low depth g in
      let '(oks, g2) := decisions jobs' g1 in (ok :: oks, g2)
  end.

Definition pages_of (keep : bool) (jobs : list (Z * Z)) (oks : list bool) : Z :=
  foldr (λ x n, (if eqb x.2 keep then x.1.1 else 0) + n) 0 (zip jobs oks).

Record counts_ok (g g' : gate) (jobs : list (Z * Z)) (oks : list bool) : Prop := {
  co_length : length oks = length jobs;
  co_flips : trips g' - trips g + Z.b2z (shedding g) = recoveries g' - recoveries g + Z.b2z (shedding g');
  co_admitted : admitted_jobs g' - admitted_jobs g = Z.of_nat (countb id oks);
  co_shed : shed_jobs g' - shed_jobs g = Z.of_nat (countb negb oks);
  co_admitted_pages : admitted_pages g' - admitted_pages g = pages_of true jobs oks;
  co_shed_pages : shed_pages g' - shed_pages g = pages_of false jobs oks }.

Lemma pages_of_cons keep p d jobs ok oks :
  pages_of keep ((p, d) :: jobs) (ok :: oks) = (if eqb ok keep then p else 0) + pages_of keep jobs oks.
Proof using Type. done. Qed.

Lemma decisions_counts jobs : forall g,
  let '(oks, g') := decisions jobs g in counts_ok g g' jobs oks.
Proof using Type.
  induction jobs as [|[pages depth] jobs IH]; intros g; cbn [decisions].
  - split; simpl; try done; unfold pages_of; simpl; lia.
  - destruct (decide_job pages high low depth g) as [g1 ok] eqn:E. specialize (IH g1).
    destruct (decisions jobs g1) as [oks g2]. destruct IH as [H1 H2 H3 H4 H5 H6].
    unfold decide_job in E. injection E as <- <-.
    destruct (shedding g) eqn:Es, (depth <=? low), (depth + pages <=? high);
      split; rewrite ?pages_of_cons; simpl in *; rewrite ?Es; simpl; lia.
Qed.

Lemma decisions_app jobs1 jobs2 g :
  decisions (jobs1 ++ jobs2) g =
  ((decisions jobs1 g).1 ++ (decisions jobs2 (decisions jobs1 g).2).1,
   (decisions jobs2 (decisions jobs1 g).2).2).
Proof using Type.
  revert g. induction jobs1 as [|[p d] jobs1 IH]; intros g; cbn [app decisions].
  - simpl. by destruct (decisions jobs2 g).
  - destruct (decide_job p high low d g) as [g1 ok]. rewrite IH. destruct (decisions jobs1 g1) as [oks1 g2]. reflexivity.
Qed.

(** A gate that sheds refuses every job met above the low mark. *)
Lemma shedding_refuses jobs : forall g, shedding g = true -> Forall (λ x, low < x.2) jobs ->
  (decisions jobs g).1 = replicate (length jobs) false /\ shedding (decisions jobs g).2 = true.
Proof using Type.
  induction jobs as [|[p d] jobs IH]; intros g Hs Hd; [done|]. inversion Hd as [|? ? Hlow Hd']; subst.
  cbn [decisions]. destruct (decide_job p high low d g) as [g1 ok] eqn:E. unfold decide_job in E.
  rewrite Hs, (proj2 (Z.leb_gt d low)) in E by done. simpl in E. injection E as E1 <-.
  destruct (IH g1) as [H1 H2]; [by rewrite <- E1|done|].
  destruct (decisions jobs g1) as [oks g2]. simpl in *. by rewrite H1.
Qed.

Lemma decisions_lookup jobs g i p d ok :
  jobs !! i = Some (p, d) -> (decisions jobs g).1 !! i = Some ok ->
  let before := (decisions (take i jobs) g).2 in
  (decide_job p high low d before).2 = ok /\
  (decisions (take (S i) jobs) g).2 = (decide_job p high low d before).1.
Proof using Type.
  revert g i. induction jobs as [|[p' d'] jobs IH]; intros g i Hj Ho; [done|].
  cbn [decisions] in Ho. destruct (decide_job p' high low d' g) as [g1 ok'] eqn:E.
  destruct (decisions jobs g1) as [oks g2] eqn:E2.
  destruct i as [|i]; cbn [take decisions fst snd]; rewrite E.
  - injection Hj as -> ->. injection Ho as <-. cbv zeta. by rewrite E.
  - destruct (IH g1 i Hj) as [H1 H2]; [by rewrite E2|].
    destruct (decisions (take i jobs) g1) as [o1 b] eqn:Eb. split; [exact H1|].
    cbn [snd] in *. rewrite <- H2. by destruct (decisions (take (S i) jobs) g1).
Qed.

Lemma decisions_length jobs g : length (decisions jobs g).1 = length jobs.
Proof using Type. pose proof (decisions_counts jobs g) as H. destruct (decisions jobs g). apply H. Qed.

(** Between a refusal and a later admission the low mark is reached. *)
Lemma refused_until_low jobs g i k p d : (i < k)%nat ->
  (decisions jobs g).1 !! i = Some false -> (decisions jobs g).1 !! k = Some true ->
  jobs !! k = Some (p, d) -> exists m x, (i < m <= k)%nat /\ jobs !! m = Some x /\ x.2 <= low.
Proof using Type.
  intros Hik Hi Hk Hj.
  destruct (lookup_lt_is_Some_2 jobs i) as [[pi di] Hji].
  { rewrite <- (decisions_length jobs g). by eapply lookup_lt_Some. }
  destruct (decisions_lookup jobs g i pi di false Hji Hi) as [H1 H2].
  set (g1 := (decisions (take (S i) jobs) g).2) in *.
  assert (shedding g1 = true) as Hs by (rewrite H2; unfold decide_job in *; simpl in *; by rewrite H1).
  set (seg := take (k - i) (drop (S i) jobs)).
  destruct (decide (Forall (λ x, low < x.2) seg)) as [Hall|Hno].
  - exfalso. destruct (shedding_refuses seg g1 Hs Hall) as [Hr _].
    assert (jobs = take (S i) jobs ++ seg ++ drop (k - i) (drop (S i) jobs)) as Ej
      by (unfold seg; by rewrite !take_drop).
    rewrite Ej, decisions_app in Hk. simpl fst in Hk. fold g1 in Hk.
    rewrite decisions_app in Hk. simpl fst in Hk. rewrite Hr in Hk.
    apply lookup_lt_Some in Hji as Hli. apply lookup_lt_Some in Hj as Hlk.
    assert (length (decisions (take (S i) jobs) g).1 = S i) as Hl1
      by (rewrite decisions_length, length_take; lia).
    rewrite lookup_app_r in Hk by lia. rewrite Hl1 in Hk.
    assert (length seg = (k - i)%nat) as Hls by (unfold seg; rewrite length_take, length_drop; lia).
    rewrite lookup_app_l in Hk by (rewrite length_replicate; lia).
    apply lookup_replicate in Hk as [? _]. done.
  - apply not_Forall_Exists in Hno; [|apply _]. apply Exists_exists in Hno as (x & Hx & Hlow).
    apply list_elem_of_lookup in Hx as [m Hm]. unfold seg in Hm.
    apply lookup_take_Some in Hm as [Hm Hlt]. rewrite lookup_drop in Hm.
    exists (S i + m)%nat, x. split; [lia|]. split; [done|]. simpl in Hlow. lia.
Qed.
End history.

Lemma new_gate_held : holds_gate ∅ new_gate.
Proof.
  split; [reflexivity|]. intros f Hf.
  repeat (apply elem_of_cons in Hf as [-> |Hf]; [by right|]). by apply elem_of_nil in Hf.
Qed.

(** Runs of the script, others changing the lanes in between. *)
Inductive served {R} `{RedisLaws R} (key : string) (lanes : list string) (high low ttl_ms : Z)
  : R -> list (Z * Z) -> list bool -> R -> Prop :=
| served_nil r : served key lanes high low ttl_ms r [] [] r
| served_job r r1 r2 r' pages reply jobs oks :
    vhash key (view r1) = vhash key (view r) ->
    admission_lua key lanes pages high low ttl_ms r1 = (r2, reply) ->
    served key lanes high low ttl_ms r2 jobs oks r' ->
    served key lanes high low ttl_ms r ((pages, ar_depth reply) :: jobs) (ar_admitted reply :: oks) r'.

Lemma served_decisions {R} `{RedisLaws R} key lanes high low ttl_ms (r : R) jobs oks r' :
  served key lanes high low ttl_ms r jobs oks r' -> forall g, holds_gate (vhash key (view r)) g ->
  exists g', decisions high low jobs g = (oks, g') /\ holds_gate (vhash key (view r')) g'.
Proof.
  induction 1 as [r|r r1 r2 r' pages reply jobs oks Hr Er _ IH]; intros g Hg; [by exists g|].
  rewrite <- Hr in Hg. pose proof (admission_lua_spec key lanes pages high low ttl_ms r1 g Hg) as Hs.
  rewrite Er in Hs. cbn [decisions].
  destruct (decide_job pages high low _ g) as [g1 ok] eqn:Ed. destruct Hs as (Hg1 & _ & ->).
  destruct (IH g1 Hg1) as (g' & E & Hg'). exists g'. cbn [ar_depth ar_admitted]. by rewrite Ed, E.
Qed.

(** ** Properties *)

(** C18: one run of the script is one decision of the gate, taken at the summed length
    of the lanes: the hash holds the new gate, the reply reports it, and neither
    another hash nor a stream is touched. *)
Theorem admission_refines {R} `{RedisLaws R} key lanes pages high low ttl_ms (r : R) g :
  holds_gate (vhash key (view r)) g ->
  let depth := fold_left (λ n k, n + Z.of_nat (length (sv_entries (vstream k (view r))))) lanes 0 in
  let '(g', ok) := decide_job pages high low depth g in
  let '(r', reply) := admission_lua key lanes pages high low ttl_ms r in
  holds_gate (vhash key (view r')) g' /\ untouched key r r' /\
  reply = {| ar_admitted := ok; ar_depth := depth; ar_shedding := shedding g';
             ar_shed_jobs := shed_jobs g'; ar_shed_pages := shed_pages g';
             ar_admitted_jobs := admitted_jobs g' |}.
Proof. intros Hg. rewrite <- lanes_depth_view. by apply admission_lua_spec. Qed.

(** over any history of runs of the script on a new hash - the lanes changing in
    between, the hash left alone - every job is counted once, as admitted or as shed,
    with its pages; trips and recoveries alternate; no admission exceeds the high
    mark; and after a refusal nothing is admitted until a job meets a depth at or
    below the low mark. *)
Theorem gate_history {R} `{RedisLaws R} key lanes high low ttl_ms (r r' : R) jobs oks :
  vhash key (view r) = ∅ -> served key lanes high low ttl_ms r jobs oks r' ->
  exists g, holds_gate (vhash key (view r')) g /\
  length oks = length jobs /\
  admitted_jobs g + shed_jobs g = Z.of_nat (length jobs) /\
  admitted_jobs g = Z.of_nat (countb id oks) /\
  admitted_pages g = pages_of true jobs oks /\ shed_pages g = pages_of false jobs oks /\
  trips g = recoveries g + Z.b2z (shedding g) /\
  (forall i p d, jobs !! i = Some (p, d) -> oks !! i = Some true -> d + p <= high) /\
  (forall i k p d, (i < k)%nat -> oks !! i = Some false -> oks !! k = Some true ->
     jobs !! k = Some (p, d) -> exists m x, (i < m <= k)%nat /\ jobs !! m = Some x /\ x.2 <= low).
Proof.
  intros E Hs. destruct (served_decisions _ _ _ _ _ _ _ _ _ Hs new_gate) as (g & Ed & Hg).
  { rewrite E. apply new_gate_held. }
  exists g. split; [exact Hg|].
  pose proof (decisions_counts high low jobs new_gate) as Hc.
  pose proof (refused_until_low high low jobs new_gate) as Hr.
  pose proof (decisions_lookup high low jobs new_gate) as Hl.
  rewrite Ed in *. destruct Hc as [H1' H2 H3 H4 H5 H6]. simpl in *.
  assert (countb id oks + countb negb oks = length oks)%nat as Hsum.
  { clear. induction oks as [|[] oks IH]; simpl; lia. }
  split_and!; try lia.
  - intros i p d Hj Ho. destruct (Hl i p d true Hj Ho) as [Hd _]. unfold decide_job in Hd. simpl in Hd.
    apply andb_prop in Hd as [_ Hd]. by apply Z.leb_le.
  - intros i k p d Hik Hi Hk Hj. by apply (Hr i k p d).
Qed.

(** the wait quoted to a refused client is a whole number of seconds between one
    and the cap, and unless the cap binds the backlog above the low mark drains
    within it at the given rate, whatever the draw. *)
Theorem retry_after_drains high fraction drain ctl cap jitter ttl_s key a u depth rate :
  make_admission high fraction drain ctl cap jitter ttl_s key = inr a ->
  (0 <= jitter)%Q -> (0 <= u)%Q -> (0 < rate)%Q ->
  let wait := _retry_after a u depth rate in
  1 <= low_watermark a <= Z.max 1 high /\
  1 <= wait <= Z.max 1 cap /\
  (wait < cap -> (inject_Z (depth - low_watermark a) <= inject_Z wait * rate)%Q) /\
  (depth <= low_watermark a -> wait = 1).
Proof.
  intros Ea Hj Hu Hr wait. unfold make_admission in Ea.
  destruct (Z.ltb_spec high 1) as [|Hhigh]; [done|].
  destruct (negb (Qle_bool fraction 0) && negb (Qle_bool 1 fraction)) eqn:Ef; [|done]. cbn [negb] in Ea.
  apply andb_prop in Ef as [F0%negb_true_iff F1%negb_true_iff]. apply Qle_bool_false in F0, F1.
  destruct (Qle_bool drain 0); [done|]. injection Ea as <-. unfold wait, _retry_after.
  cbn [low_watermark high_watermark retry_after_cap_s retry_after_jitter].
  set (low := Z.max 1 _). set (excess := Z.max 0 (depth - low)).
  set (jittered := (inject_Z excess / rate * (1 + uniform u 0 jitter))%Q).
  assert (0 < inject_Z high)%Q as Hhq by (change 0%Q with (inject_Z 0); rewrite <- Zlt_Qlt; lia).
  assert (0 <= inject_Z excess)%Q as Heq by (change 0%Q with (inject_Z 0); rewrite <- Zle_Qle; lia).
  split; [|split; [lia|split]].
  - unfold low. rewrite int_of_float_nonneg by nra. split; [lia|].
    assert (Qfloor (inject_Z high * fraction) <= high); [|lia].
    rewrite <- (Qfloor_Z high) at 2. apply Qfloor_resp_le. nra.
  - intros Hcap. assert (Qceiling jittered <= Z.max 1 (Z.min cap (Qceiling jittered))) as Hc by lia.
    rewrite Zle_Qle in Hc. pose proof (Qle_ceiling jittered) as Hq.
    assert (inject_Z excess / rate <= jittered)%Q as Hd.
    { unfold jittered, uniform. assert (0 <= inject_Z excess / rate)%Q by (by apply Qle_shift_div_l; lra).
      assert (0 <= jitter * u)%Q by nra. nra. }
    assert (inject_Z (depth - low) <= inject_Z excess)%Q as He by (rewrite <- Zle_Qle; lia).
    assert (inject_Z excess == inject_Z excess / rate * rate)%Q as Ee by (field; lra).
    eapply Qle_trans; [exact He|]. rewrite Ee. apply Qmult_le_compat_r; lra.
  - intros Hd. assert (excess = 0) as He by lia.
    assert (Qceiling jittered = 0) as ->; [|lia].
    assert (jittered == 0)%Q as -> by (unfold jittered; rewrite He; unfold Qdiv; rewrite Qmult_0_l, Qmult_0_l; reflexivity).
    done.
Qed.

(** *** A fresh server *)

(** A job of eleven pages met by a mark of ten, then one of two. *)
Example admission_refines_witness :
  let '(r, reply) := admission_lua "adm" STREAMS 11 10 8 60000 (rview_init 7) in
  ar_admitted reply = false /\ holds_gate (vhash "adm" r) (decide_job 11 10 8 0 new_gate).1 /\
  untouched "adm" (rview_init 7) r /\
  (admission_lua "adm" STREAMS 2 10 8 60000 r).2 =
  {| ar_admitted := true; ar_depth := 0; ar_shedding := false; ar_shed_jobs := 1; ar_shed_pages := 11;
     ar_admitted_jobs := 1 |}.
Proof.
  pose proof (admission_refines "adm" STREAMS 11 10 8 60000 (rview_init 7) new_gate new_gate_held) as H1.
  cbv zeta in H1. replace (fold_left _ STREAMS 0) with 0 in H1 by reflexivity.
  change (decide_job 11 10 8 0 new_gate) with ((decide_job 11 10 8 0 new_gate).1, false) in H1.
  destruct (admission_lua "adm" STREAMS 11 10 8 60000 (rview_init 7)) as [r reply].
  destruct H1 as (Hg & Hu & ->). split; [reflexivity|]. split; [exact Hg|]. split; [exact Hu|].
  pose proof (admission_refines "adm" STREAMS 2 10 8 60000 r _ Hg) as H2. cbv zeta in H2.
  replace (fold_left _ STREAMS 0) with 0 in H2 by (simpl; rewrite !(proj2 Hu); reflexivity).
  destruct (admission_lua "adm" STREAMS 2 10 8 60000 r) as [r2 reply2]. apply H2.
Defined.

Example retry_after_drains_witness :
  let wait := _retry_after {| ac_key := "adm"; high_watermark := 100; low_watermark := 80; drain_rate := 2;
    ac_controller := None; retry_after_cap_s := 300; retry_after_jitter := 1 # 5; ac_ttl_ms := 60000 |}
    (1 # 2) 140 2 in
  wait = 33 /\ (wait < 300 -> (inject_Z (140 - 80) <= inject_Z wait * 2)%Q).
Proof.
  split; [reflexivity|].
  refine (proj1 (proj2 (proj2 (retry_after_drains 100 (4 # 5) 2 None 300 (1 # 5) 60 "adm" _ (1 # 2) 140 2
    eq_refl _ _ _)))); vm_compute; first [discriminate | reflexivity].
Defined.

Example gate_history_witness :
  exists r' g, served "adm" STREAMS 10 8 60000 (rview_init 7) [(11, 0); (2, 0)] [false; true] r' /\
    holds_gate (vhash "adm" (view r')) g /\ admitted_jobs g + shed_jobs g = 2.
Proof.
  assert (exists r', served "adm" STREAMS 10 8 60000 (rview_init 7) [(11, 0); (2, 0)] [false; true] r')
    as [r' Hs].
  { eexists. change 0 with (ar_depth (admission_lua "adm" STREAMS 11 10 8 60000 (rview_init 7)).2) at 1.
    change false with (ar_admitted (admission_lua "adm" STREAMS 11 10 8 60000 (rview_init 7)).2).
    eapply served_job; [done|apply surjective_pairing|].
    set (r := (admission_lua "adm" STREAMS 11 10 8 60000 (rview_init 7)).1).
    assert (0 = ar_depth (admission_lua "adm" STREAMS 2 10 8 60000 r).2) as -> by (vm_compute; reflexivity).
    assert (true = ar_admitted (admission_lua "adm" STREAMS 2 10 8 60000 r).2) as -> by (vm_compute; reflexivity).
    eapply served_job; [done|apply surjective_pairing|]. apply served_nil. }
  destruct (gate_history (R := rview) (H0 := redis_view_laws) "adm" STREAMS 10 8 60000 (rview_init 7) r'
    [(11, 0); (2, 0)] [false; true] eq_refl Hs) as (g & Hg & _ & Hc & _).
  exists r', g. split; [exact Hs|]. split; [exact Hg|exact Hc].
Defined.
