(* ===== verification/Jobs.v ===== *)
(** * Job ingestion and status ([app/api/jobs.py])

    The three ways in - a page count, a raw body, a multipart upload - and the core
    they share.  The PDF parser, the upload's [read] and [uuid4] are parameters;
    response bodies and headers are reduced to the status.  The admission lock is
    what the others may not do meanwhile.  Theorems: no entry of a job is ever in
    the queue without the job's records, and a submission that succeeds leaves them
    all; submitting keeps the queue within the high mark; a refused upload leaves no
    file. *)

From S2P Require Import Prelude Py Redis Prog PageState Streams Adaptive Config Splitter Admission.
From Stdlib Require Import QArith.
#[local] Open Scope Z_scope.

Record jobs_config := {
  jc_data_dir : string; max_pages : Z; max_upload_mb : Z; upload_chunk_bytes : Z; jc_ttl_s : Z }.

Record accepted := {
  acc_job_id : string; acc_pages : Z; acc_bytes : option Z; acc_queue_depth : Z; acc_trace_id : string }.

Record job_status := {
  js_job_id : string; js_total_pages : Z; js_done : Z; js_complete : bool;
  js_state_counts : gmap string Z; js_filename : option string }.

Section jobs.
Context {W : Type} `{Redis W} `{Clock W} `{Memory disk W} `{Memory aimd W}.
Context (random : W -> W * Q).
Context (pdf_reader : string -> result pdf_document) (pdf_message : exn -> string).
(** [uuid4().hex[:12]] *)
Context (new_id : W -> W * string).
Context (cfg : jobs_config) (a : admission_controller).

(** Under [admission_lock]. *)
Definition _admit_and_enqueue (job : string) (pages : Z) (filename trace : string) : prog W Verdict :=
  let! verdict := evaluate random a pages in
  if negb (admitted verdict) then Raise (HTTPException 503)
  else
    let! now := sample now_ms in
    do! act (init_job (jc_ttl_s cfg) now job pages {["filename" := filename; "trace_id" := trace]}) in
    let! now := sample now_ms in
    do! enqueue_pages now job pages trace in
    Ret verdict.

Definition create_job (pages : Z) (filename : option string) (trace : string) : prog W accepted :=
  if max_pages cfg <? pages then Raise (HTTPException 413)
  else
    let! job := own new_id in
    let! verdict := _admit_and_enqueue job pages (default "" filename) trace in
    Ret {| acc_job_id := job; acc_pages := pages; acc_bytes := None;
           acc_queue_depth := vd_depth verdict; acc_trace_id := trace |}.

Definition discard (job : string) : prog W unit :=
  do! own (delete_document (jc_data_dir cfg) job) in Ret tt.

Definition _ingest_document (job dest : string) (size : Z) (filename trace : string)
  : prog W accepted :=
  let! pages :=
    catch (step (λ w, (count_pages pdf_reader pdf_message dest (mem w), w)))
      (λ e, match e with
            | InvalidPdf _ => do! discard job in Raise (HTTPException 400)
            | _ => Raise e
            end) in
  if max_pages cfg <? pages then do! discard job in Raise (HTTPException 413)
  else
    let! verdict :=
      catch (_admit_and_enqueue job pages filename trace)
        (λ e, match e with
              | HTTPException _ => do! discard job in Raise e
              | _ => Raise e
              end) in
    Ret {| acc_job_id := job; acc_pages := pages; acc_bytes := Some size;
           acc_queue_depth := vd_depth verdict; acc_trace_id := trace |}.

(** [except UploadTooLarge]: 413. *)
Definition too_large {A} (p : prog W A) : prog W A :=
  catch p (λ e, match e with UploadTooLarge _ => Raise (HTTPException 413) | _ => Raise e end).

Definition max_upload_bytes : Z := max_upload_mb cfg * 1024 * 1024.

Definition stream_job (chunks : list string) (trace : string) : prog W accepted :=
  let! job := own new_id in
  let! dest := of_result (pdf_path (jc_data_dir cfg) job) in
  let! size := too_large (stream_body_to_disk dest max_upload_bytes chunks) in
  _ingest_document job dest size "" trace.

(** [read] is [file.read]. *)
Definition upload_job (read : Z -> W -> result string * W) (filename : option string) (trace : string)
  : prog W accepted :=
  let! job := own new_id in
  let! dest := of_result (pdf_path (jc_data_dir cfg) job) in
  let! size := too_large (stream_to_disk read dest (upload_chunk_bytes cfg) max_upload_bytes) in
  _ingest_document job dest size (default "" filename) trace.

(** [counts[state or "MISSING"] += 1] *)
Definition count_states (states : list (option string)) : gmap string Z :=
  fold_left (λ counts state,
    let k := match state with Some s => if (s =? "")%string then "MISSING" else s | None => "MISSING" end in
    <[k := default 0 (counts !! k) + 1]> counts) states ∅.

(** [GET /jobs/{job_id}] *)
Definition get_job_status (job : string) : prog W job_status :=
  let! fs := ask (get_job job) in
  if bool_decide (fs = ∅) then Raise (HTTPException 404)
  else
    let! total := of_result (match fs !! "total_pages" with
                             | Some s => int s | None => inl (KeyError "total_pages") end) in
    let! done := of_result (match fs !! "done_count" with Some s => int s | None => inr 0 end) in
    let! states := ask (page_states job total) in
    Ret {| js_job_id := job; js_total_pages := total; js_done := done; js_complete := total <=? done;
           js_state_counts := count_states states;
           js_filename := match fs !! "filename" with
                          | Some s => if (s =? "")%string then None else Some s | None => None end |}.

(** [GET /jobs/{job_id}/pages/{page_index}] *)
Definition get_page_detail (job : string) (index : Z) : prog W fields :=
  let! page := ask (get_page job index) in
  if bool_decide (page = ∅) then Raise (HTTPException 404) else Ret page.

(** [GET /queue/depth]: the depths, with the two marks. *)
Definition queue_depth : prog W (depth_result * Z * Z) :=
  let! d := depth in
  Ret (d, high_watermark a, low_watermark a).

(** [GET /queue/consumers] *)
Definition queue_consumers (reaper_min_idle_s : Q) : prog W (Z * list lane_consumers) :=
  consumers (int_of_float (reaper_min_idle_s * 1000)).
End jobs.

(** ** State before work *)

Section submission.
Context {W : Type} `{RedisLaws W} `{Clock W} `{Memory disk W} `{Memory aimd W}.
Context {MA : MemoryLaws aimd W}.
Context (random : W -> W * Q) (Hrandom : forall w, view (random w).1 = view w).
Context (cfg : jobs_config) (a : admission_controller).
Context (j : string) (n : nat).
Implicit Types w : W.

(** No entry of the job is in a lane. *)
Definition no_entries w : Prop :=
  forall lane e, lane ∈ STREAMS -> e ∈ sv_entries (vstream lane (view w)) ->
    se_fields e !! "job_id" <> Some j.

Definition no_records w : Prop := forall k, job_record j k -> vhash k (view w) = ∅.

(** Whatever is queued of the job has its records. *)
Definition announced w : Prop := no_entries w \/ job_ok j n (view w).

Context (rely : W -> W -> Prop) (fault : exn -> Prop).
Context (Hnew : forall w w', rely w w' -> no_entries w -> no_records w -> no_entries w' /\ no_records w').
Context (Hok : forall w w', rely w w' -> job_ok j n (view w) -> job_ok j n (view w')).

Definition fresh w : Prop := no_entries w /\ no_records w.

Lemma fresh_rely w w' : rely w w' -> fresh w -> fresh w'.
Proof using Hnew. intros Hr [He Hn]. by apply (Hnew _ _ Hr). Qed.

Lemma fresh_announced w : fresh w -> announced w.
Proof using Type. intros [He _]. by left. Qed.

Lemma fresh_view w w' :
  (forall k, job_record j k -> vhash k (view w') = vhash k (view w)) ->
  (forall k, vstream k (view w') = vstream k (view w)) -> fresh w -> fresh w'.
Proof using Type.
  intros Hh Hs [He Hn]. split; [|intros k Hk; rewrite Hh by done; by apply Hn].
  intros lane e Hl. rewrite Hs. by apply He.
Qed.

(** The admission hash is well formed, and is no record of the job. *)
Definition gate_ok w : Prop := exists g, holds_gate (vhash (ac_key a) (view w)) g.

Context (Hgate : forall w w', rely w w' -> gate_ok w -> gate_ok w').
Context (Hkey : ~ job_record j (ac_key a)).

(** *** The decision *)

Section decision.
Context (pages : Z) (inv P PA : W -> Prop).
Context (P_rely : forall w w', rely w w' -> P w -> P w') (PA_rely : forall w w', rely w w' -> PA w -> PA w').
Context (P_view : forall w w', view w' = view w -> P w -> P w').
Context (P_inv : forall w, P w -> inv w) (PA_inv : forall w, PA w -> inv w).
Context (Hscript : forall w, gate_ok w -> P w ->
  let '(w', reply) := admission_lua (ac_key a) STREAMS pages (high_watermark a) (low_watermark a)
                        (ac_ttl_ms a) w in
  if ar_admitted reply then PA w' else P w').

Lemma keeps_service_rate : keeps rely fault inv P (_service_rate a).
Proof using P_rely P_view P_inv MA.
  unfold _service_rate. destruct (ac_controller a) as [args|]; [|apply keeps_ret].
  apply keeps_catch.
  - apply keeps_bind; [|intros ?; apply keeps_ret]. apply keeps_call; [done..|].
    intros w HP. destruct (current _ _ _) as [s q]. simpl. eapply P_view; [|done]. apply view_set_mem.
  - intros e. destruct (is_Exception e); [apply keeps_ret|apply keeps_raise].
Qed.

Lemma wp_evaluate w : gate_ok w -> P w ->
  wp rely fault inv (evaluate random a pages)
    (λ x w', match x with
             | inr v => if admitted v then PA w' else P w'
             | inl _ => inv w'
             end) w.
Proof using P_rely PA_rely P_view P_inv PA_inv Hscript Hrandom Hgate MA.
  intros Hg HP. apply wp_bind. intros w1 Hr. apply (P_rely _ _ Hr) in HP. apply (Hgate _ _ Hr) in Hg.
  specialize (Hscript w1 Hg HP). destruct (admission_lua _ _ _ _ _ _ _) as [w2 reply].
  assert (inv w2) as Hi by (destruct (ar_admitted reply); auto).
  split_and!; [done| |intros e He; split_and!; auto; apply P_inv; done].
  cbn [fst snd of_result wp]. destruct (ar_admitted reply) eqn:Ea.
  - exact Hscript.
  - apply wp_bind, wp_bind. eapply wp_mono; [|by apply keeps_service_rate].
    intros [e|rate] w3 HP3; [by apply P_inv|]. simpl. eapply P_view; [|done]. apply Hrandom.
Qed.
End decision.

Lemma script_fresh pages w : gate_ok w -> fresh w ->
  fresh (admission_lua (ac_key a) STREAMS pages (high_watermark a) (low_watermark a) (ac_ttl_ms a) w).1.
Proof using Hkey.
  intros [g Hg] Hf.
  pose proof (admission_lua_spec (ac_key a) STREAMS pages (high_watermark a) (low_watermark a) (ac_ttl_ms a) w g Hg)
    as Hs.
  destruct (decide_job _ _ _ _ g) as [g' ok], (admission_lua _ _ _ _ _ _ w) as [w' reply].
  destruct Hs as (_ & [Hh Hst] & _). eapply fresh_view; [|done..].
  intros k Hk. apply Hh. by intros ->.
Qed.

Lemma keeps_enqueue now trace :
  keeps rely fault announced (λ w, job_ok j n (view w)) (enqueue_pages now j (Z.of_nat n) trace).
Proof using Hok.
  assert (forall w, job_ok j n (view w) -> announced w) as Hinv by (intros w; by right).
  unfold enqueue_pages. apply keeps_fold. intros i s _.
  apply keeps_bind; [|intros ?; apply keeps_ret]. apply keeps_call; [done..|].
  intros w Hw. destruct (xadd_view (if Nat.eqb i 0 then LEAD_STREAM else STREAM)
    (enqueue_fields j (Z.of_nat i) now trace) w) as [_ ->].
  eapply job_ok_frame, Hw. intros k _. by rewrite vhash_vset_stream.
Qed.

Lemma wp_submit filename trace w : gate_ok w -> fresh w ->
  wp rely fault announced (_admit_and_enqueue random cfg a j (Z.of_nat n) filename trace)
    (λ x w', announced w' /\ forall v, x = inr v -> admitted v = true /\ job_ok j n (view w')) w.
Proof using Hnew Hok Hgate Hkey Hrandom MA.
  intros Hg Hf. apply wp_bind.
  eapply wp_mono; [|apply (wp_evaluate (Z.of_nat n) announced fresh fresh); try done].
  - intros [e|v] w1 Hw1; [by split|]. destruct (admitted v) eqn:Ea; cbn [negb pbind];
      [|split; [by apply fresh_announced|done]].
    intros w2 Hr. apply (fresh_rely _ _ Hr) in Hw1.
    assert (job_ok j n (view (init_job (jc_ttl_s cfg) (now_ms w1) j (Z.of_nat n)
              {["filename" := filename; "trace_id" := trace]} w2))) as Hjob.
    { apply init_job_records; [apply Hw1|]. intros f Hin.
      repeat (apply elem_of_cons in Hin as [-> |Hin]; [reflexivity|]). by apply elem_of_nil in Hin. }
    assert (announced w2) as Ha by by apply fresh_announced.
    split_and!; [by right| |intros e He; split_and!; [done|split; done|split; [by right|done]]].
    cbn [fst snd of_result pbind act call step wp]. apply wp_bind. cbn [sample own wp fst snd]. apply wp_bind.
    eapply wp_mono; [|by apply keeps_enqueue]. intros [e|m] w3 Hw3; [split; [by right|done]|].
    simpl. split; [by right|]. intros v' [= <-]. done.
  - by apply fresh_rely.
  - by apply fresh_rely.
  - intros w1 w2 Hv. apply fresh_view; intros k *; by rewrite Hv.
  - apply fresh_announced.
  - apply fresh_announced.
  - intros w1 Hg1 Hf1. pose proof (script_fresh (Z.of_nat n) w1 Hg1 Hf1) as Hs.
    destruct (admission_lua _ _ _ _ _ _ w1) as [w' reply]. by destruct (ar_admitted reply).
Qed.

(** *** The mark *)

Section mark.
Context (Hshrink : forall w w', rely w w' -> lanes_depth STREAMS w' <= lanes_depth STREAMS w).

(** There is room for [k] more entries. *)
Definition room (k : Z) w : Prop := lanes_depth STREAMS w + k <= high_watermark a.

Lemma room_rely k w w' : rely w w' -> room k w -> room k w'.
Proof using Hshrink. intros Hr Hk. apply Hshrink in Hr. unfold room in *. lia. Qed.

Lemma room_streams k w w' : (forall s, vstream s (view w') = vstream s (view w)) -> room k w -> room k w'.
Proof using Type.
  intros Hs. unfold room. rewrite !lanes_depth_view. simpl. by rewrite !Hs.
Qed.

Lemma room_xadd k i f w : room (k + 1) w ->
  room k (xadd (if Nat.eqb i 0 then LEAD_STREAM else STREAM) f w).1.
Proof using H0.
  unfold room. rewrite !lanes_depth_view. simpl.
  set (lane := if Nat.eqb i 0 then LEAD_STREAM else STREAM).
  destruct (xadd_view lane f w) as [_ ->]. rewrite !vstream_vset_stream.
  assert (LEAD_STREAM <> STREAM) by done.
  unfold lane. destruct (Nat.eqb i 0); rewrite ?decide_True, ?decide_False by done;
    unfold sadd; simpl; rewrite length_app; simpl; lia.
Qed.

Lemma wp_enqueue_room now trace w : room (Z.of_nat n) w ->
  wp rely fault (room 0) (enqueue_pages now j (Z.of_nat n) trace) (λ _, room 0) w.
Proof using H0 Hshrink.
  intros Hw. unfold enqueue_pages. rewrite Nat2Z.id.
  assert (forall k w, 0 <= k -> room k w -> room 0 w) as Hweak by (unfold room; intros; lia).
  eapply wp_mono; [|apply (wp_fold rely fault (room 0) _
    (λ (rest : list nat) _, room (Z.of_nat (length rest))) (λ _, room 0))].
  - by intros [e|m] w1.
  - intros i rest m w1 Hw1. cbn [pbind]. intros w2 Hr. apply (room_rely _ _ _ Hr) in Hw1.
    pose proof (room_xadd (Z.of_nat (length rest)) i (enqueue_fields j (Z.of_nat i) now trace) w2) as Hadd.
    replace (Z.of_nat (length rest) + 1) with (Z.of_nat (length (i :: rest))) in Hadd by (simpl; lia).
    specialize (Hadd Hw1). destruct (xadd _ _ w2) as [w3 id]. cbn [fst snd of_result wp pbind] in *.
    split_and!; [eapply Hweak, Hadd; lia|done|].
    intros e _. split_and!; (eapply Hweak; [|done]; lia).
  - by rewrite length_seq.
Qed.

Lemma script_room w : gate_ok w -> room 0 w ->
  let '(w', reply) := admission_lua (ac_key a) STREAMS (Z.of_nat n) (high_watermark a) (low_watermark a)
                        (ac_ttl_ms a) w in
  if ar_admitted reply then room (Z.of_nat n) w' else room 0 w'.
Proof using Type.
  intros [g Hg] Hw.
  pose proof (admission_lua_spec (ac_key a) STREAMS (Z.of_nat n) (high_watermark a) (low_watermark a)
    (ac_ttl_ms a) w g Hg) as Hs.
  destruct (decide_job _ _ _ _ g) as [g' ok] eqn:Ed, (admission_lua _ _ _ _ _ _ w) as [w' reply].
  destruct Hs as (_ & [_ Hst] & ->). cbn [ar_admitted]. destruct ok; eapply room_streams; try done.
  unfold decide_job in Ed. injection Ed as _ Ed. apply andb_prop in Ed as [_ Ed].
  by apply Z.leb_le in Ed.
Qed.

Lemma wp_submit_room filename trace w : gate_ok w -> room 0 w ->
  wp rely fault (room 0) (_admit_and_enqueue random cfg a j (Z.of_nat n) filename trace)
    (λ _, room 0) w.
Proof using Hshrink Hgate Hrandom MA.
  intros Hg Hw. apply wp_bind.
  assert (forall w, room (Z.of_nat n) w -> room 0 w) as Hweak by (unfold room; intros; lia).
  eapply wp_mono; [|apply (wp_evaluate (Z.of_nat n) (room 0) (room 0) (room (Z.of_nat n))); try done].
  - intros [e|v] w1 Hw1; [done|]. destruct (admitted v); cbn [negb pbind]; [|done].
    intros w2 Hr. apply (room_rely _ _ _ Hr) in Hw1.
    assert (room (Z.of_nat n) (init_job (jc_ttl_s cfg) (now_ms w1) j (Z.of_nat n)
              {["filename" := filename; "trace_id" := trace]} w2)) as Hinit.
    { eapply room_streams, Hw1. intros k. apply init_job_streams. }
    split_and!; [by apply Hweak| |intros e He; split_and!; [by apply Hweak..]].
    cbn [fst snd of_result pbind act call step wp]. apply wp_bind. cbn [sample own wp fst snd]. apply wp_bind.
    eapply wp_mono; [|by apply wp_enqueue_room]. by intros [e|m] w3 Hw3.
  - apply room_rely.
  - apply room_rely.
  - intros w1 w2 Hv. apply room_streams. intros k. by rewrite Hv.
  - apply script_room.
Qed.
End mark.
End submission.

(** ** Refused uploads *)

Section refusal.
Context {W : Type} `{RedisLaws W} `{Clock W} `{Memory disk W} `{Memory aimd W}.
Context {LD : MemoryLaws disk W}.
Context (random : W -> W * Q).
Context (pdf_reader : string -> result pdf_document) (pdf_message : exn -> string).
Context (cfg : jobs_config) (a : admission_controller).
Context (rely : W -> W -> Prop) (fault : exn -> Prop).
Context (Hfault : forall s, ~ fault (HTTPException s)).
Context (Hreader : forall b s, pdf_reader b <> inl (HTTPException s)).
Context (j dest : string) (Hdest : pdf_path (jc_data_dir cfg) j = inr dest).
Implicit Types w : W.

(** Refused with a status, and nothing left on the disk. *)
Definition clean {A} (x : result A) w : Prop :=
  forall s, x = inl (HTTPException s) -> (mem w : disk) !! dest = None.

Lemma discard_removes w : (mem (delete_document (jc_data_dir cfg) j w).1 : disk) !! dest = None.
Proof using Hdest LD.
  unfold delete_document. rewrite Hdest. destruct ((mem w : disk) !! dest) as [d|] eqn:E; [|done].
  simpl. by rewrite mem_set_mem, lookup_delete_eq.
Qed.

Lemma wp_discard {A} (e : exn) w :
  wp rely fault (λ _, True) (do! discard cfg j in Raise e) (@clean A) w.
Proof using Hdest LD. intros s _. apply discard_removes. Qed.

Lemma count_pages_clean w s : count_pages pdf_reader pdf_message dest (mem w) <> inl (HTTPException s).
Proof using Hreader.
  unfold count_pages, as_invalid, read_file.
  destruct ((mem w : disk) !! dest) as [d|]; simpl; [|done].
  destruct (pdf_reader (d_bytes d)) as [e|r] eqn:E; simpl.
  - pose proof (Hreader (d_bytes d) s) as Hr. rewrite E in Hr.
    destruct e; simpl; repeat case_match; try done; intros [= ->]; by apply Hr.
  - destruct (pd_encrypted r); [done|]. by destruct (Z.of_nat (length (pd_pages r)) <? 1).
Qed.

(** The handler around the parse. *)
Lemma wp_unreadable (K : Z -> W -> Prop) e w : (forall s, e <> HTTPException s) ->
  wp rely fault (λ _, True)
    (match e with InvalidPdf _ => do! discard cfg j in Raise (HTTPException 400) | _ => Raise e end)
    (λ x w', match x with inl e => @clean accepted (inl e) w' | inr p => K p w' end) w.
Proof using Hdest LD.
  intros He. destruct e; try (intros s E; done); [intros s _; apply discard_removes|].
  intros s E. injection E as E. by destruct (He status_code).
Qed.

Lemma wp_ingest size filename trace w :
  wp rely fault (λ _, True)
    (_ingest_document random pdf_reader pdf_message cfg a j dest size filename trace) clean w.
Proof using Hfault Hreader Hdest LD.
  apply wp_bind, wp_catch. intros w1 _. split; [done|]. cbn [fst snd].
  split; [|intros e He; split; [done|]; cbn [of_result wp];
    split; (eapply wp_mono; [|apply (wp_unreadable (λ _ _, False)); intros s ->; by apply (Hfault s)]);
      by intros [?|?] ?].
  pose proof (count_pages_clean w1) as Hcount.
  destruct (count_pages pdf_reader pdf_message dest (mem w1)) as [e|pages]; cbn [of_result wp].
  { eapply wp_mono; [|apply (wp_unreadable (λ _ _, False)); intros s ->; by apply (Hcount s)].
    by intros [?|?] ?. }
  destruct (max_pages cfg <? pages); [apply wp_discard|].
  apply wp_bind, wp_catch. apply wp_trivial; [done|]. intros [e|v] w2.
  - destruct e; try (intros s E; done). intros s _. apply discard_removes.
  - intros s E. done.
Qed.

Lemma wp_sized (p : prog W Z) filename trace w :
  wp rely fault (λ _, True) p
    (λ x w', match x with inl e => (e = UploadTooLarge (max_upload_bytes cfg) \/ fault e) /\ (mem w' : disk) !! dest = None
                        | inr _ => True end) w ->
  wp rely fault (λ _, True)
    (let! size := too_large p in
     _ingest_document random pdf_reader pdf_message cfg a j dest size filename trace) clean w.
Proof using Hfault Hreader Hdest LD.
  intros Hp. apply wp_bind, wp_catch. eapply wp_mono; [|exact Hp]. intros [e|size] w1 Hw1.
  - destruct Hw1 as [_ Hnone]. destruct e; intros s E; done.
  - apply wp_ingest.
Qed.
End refusal.

(** ** Properties *)

(** C16: state before work.  Submitting a job - under any interference that leaves
    unused names unused and consistent records consistent, with any command failing
    before or after its effect - never leaves an entry of the job in the queue
    without the job's records; when it succeeds the records are all there. *)
Theorem work_has_state {W} `{RedisLaws W} `{Clock W} `{Memory disk W} `{Memory aimd W}
  `{!MemoryLaws aimd W} random cfg a j n filename trace (rely : W -> W -> Prop) (fault : exn -> Prop) w :
  (forall w, view (random w).1 = view w) ->
  (forall w w', rely w w' -> fresh j w -> fresh j w') ->
  (forall w w', rely w w' -> job_ok j n (view w) -> job_ok j n (view w')) ->
  (forall w w', rely w w' -> gate_ok a w -> gate_ok a w') ->
  ~ job_record j (ac_key a) -> gate_ok a w -> fresh j w ->
  wp rely fault (announced j n) (_admit_and_enqueue random cfg a j (Z.of_nat n) filename trace)
    (λ x w', announced j n w' /\ forall v, x = inr v -> admitted v = true /\ job_ok j n (view w')) w.
Proof.
  intros Hr Hf Hok Hg Hk. apply wp_submit; [done| |done..]. intros w1 w2 Hr' He Hn. by apply (Hf w1 w2).
Qed.


(** a refused upload leaves nothing behind: when either upload endpoint answers
    with an error status - too large, unreadable, too many pages, or shed - the file
    of the job it was given is not on the disk, whatever the store does and however
    the transfer went. *)
Theorem refused_upload_leaves_no_file {W} `{RedisLaws W} `{Clock W} `{Memory disk W} `{Memory aimd W}
  `{!MemoryLaws disk W} random pdf_reader pdf_message new_id cfg a read chunks filename trace
  (rely : W -> W -> Prop) (fault : exn -> Prop) w :
  let j := (new_id w).2 in let dest := doc_path (jc_data_dir cfg) j in
  (forall s, ~ fault (HTTPException s)) -> (forall b s, pdf_reader b <> inl (HTTPException s)) ->
  (forall w w', rely w w' -> (mem w' : disk) !! dest = mem w !! dest) ->
  (forall n w, (mem (read n w).2 : disk) = mem w) -> (forall n w e, (read n w).1 = inl e -> fault e) ->
  0 <= max_upload_mb cfg -> safe_job_id j = true -> (mem (new_id w).1 : disk) !! dest = None ->
  wp rely fault (λ _, True)
    (stream_job random pdf_reader pdf_message new_id cfg a chunks trace) (clean dest) w /\
  wp rely fault (λ _, True)
    (upload_job random pdf_reader pdf_message new_id cfg a read filename trace) (clean dest) w.
Proof.
  intros j dest Hf Hr Hrely Hread Herr Hmb Hsafe Hnone.
  assert (pdf_path (jc_data_dir cfg) j = inr dest) as Hdest by (unfold pdf_path; by rewrite Hsafe).
  assert (0 <= max_upload_bytes cfg) as Hmax by (unfold max_upload_bytes; lia).
  assert (within_budget dest (max_upload_bytes cfg) (new_id w).1) as Hb
    by (intros d Hd; rewrite Hnone in Hd; done).
  split.
  - unfold stream_job, own. cbn [pbind wp]. fold j. rewrite Hdest. cbn [of_result pbind].
    apply (wp_sized random pdf_reader pdf_message cfg a rely fault Hf Hr j dest Hdest).
    eapply wp_weaken; [done|]. eapply wp_mono; [|apply (wp_upload rely fault dest (max_upload_bytes cfg) Hrely
      (body_loop dest (max_upload_bytes cfg) chunks 0) (λ _, True)); [done|done|]].
    + intros [e|m] w1 [Hpost _]; [apply Hpost|done].
    + intros w1 Hw1. eapply wp_mono; [|by apply (wp_body_loop rely fault dest (max_upload_bytes cfg) Hrely chunks "")].
      intros [e|m] w2; simpl; [done|]. intros (Hm & c & Hc & E & _). split; [done|]. by exists c.
  - unfold upload_job, own. cbn [pbind wp]. fold j. rewrite Hdest. cbn [of_result pbind].
    apply (wp_sized random pdf_reader pdf_message cfg a rely fault Hf Hr j dest Hdest).
    eapply wp_weaken; [done|]. eapply wp_mono; [|apply (wp_upload rely fault dest (max_upload_bytes cfg) Hrely
      (copy_loop read dest (upload_chunk_bytes cfg) (max_upload_bytes cfg)
         (Z.to_nat (max_upload_bytes cfg + 2)) 0) (λ _, True)); [done|done|]].
    + intros [e|m] w1 [Hpost _]; [apply Hpost|done].
    + intros w1 Hw1. apply (wp_copy_loop rely fault dest (max_upload_bytes cfg) Hrely read Hread Herr (upload_chunk_bytes cfg) _ ""); [done|done|].
      unfold str_len. simpl. lia.
Qed.

(** *** An empty server *)

Definition demo_jobs : jobs_config :=
  {| jc_data_dir := "/data"; max_pages := 100; max_upload_mb := 1; upload_chunk_bytes := 65536;
     jc_ttl_s := 3600 |}.

Definition demo_admission : admission_controller :=
  {| ac_key := "admission"; high_watermark := 10; low_watermark := 8; drain_rate := 10;
     ac_controller := None; retry_after_cap_s := 300; retry_after_jitter := 1 # 5; ac_ttl_ms := 3600000 |}.

Definition demo_server : rview * disk * aimd := ((rview_init 7, ∅ : disk), {| ctl := None; ring := [] |}).

Definition demo_random (w : rview * disk * aimd) : (rview * disk * aimd) * Q := (w, 1 # 2).

Lemma demo_gate_ok : gate_ok demo_admission demo_server.
Proof. exists new_gate. exact new_gate_held. Qed.

Lemma demo_fresh : fresh "j" demo_server.
Proof.
  split; [|intros k _; reflexivity]. intros lane e _ He.
  assert (sv_entries (vstream lane (view demo_server)) = []) as E by reflexivity.
  rewrite E in He. by apply elem_of_nil in He.
Qed.

Lemma demo_key : ~ job_record "j" "admission".
Proof. intros [E|[i E]]; discriminate E. Qed.

Example work_has_state_witness :
  wp eq (λ _, True) (announced "j" 2)
    (_admit_and_enqueue demo_random demo_jobs demo_admission "j" 2 "" "t")
    (λ x w', announced "j" 2 w' /\ forall v, x = inr v -> admitted v = true /\ job_ok "j" 2 (view w'))
    demo_server.
Proof.
  refine (work_has_state demo_random demo_jobs demo_admission "j" 2 "" "t" eq (λ _, True) demo_server
    _ _ _ _ demo_key demo_gate_ok demo_fresh); [reflexivity|by intros w w' ->..].
Defined.


(** A queue that is full, and an upload that is shed. *)
Definition full_server : rview * disk * aimd :=
  (run (_admit_and_enqueue demo_random demo_jobs demo_admission "k" 10 "" "t") demo_server).2.

Definition demo_pdf (_ : string) : result pdf_document :=
  inr {| pd_encrypted := false; pd_pages := [inl (KeyError "page")] |}.

Definition demo_id (w : rview * disk * aimd) : (rview * disk * aimd) * string := (w, "j").

Definition demo_file (_ : Z) (w : rview * disk * aimd) : result string * (rview * disk * aimd) := (inr "", w).

Example refused_upload_leaves_no_file_witness :
  (run (stream_job demo_random demo_pdf (λ _, "") demo_id demo_jobs demo_admission ["abc"; "de"] "t")
     full_server).1 = inl (HTTPException 503) /\
  wp eq (λ e, e = TransportError) (λ _, True)
    (stream_job demo_random demo_pdf (λ _, "") demo_id demo_jobs demo_admission ["abc"; "de"] "t")
    (clean "/data/j.pdf") full_server.
Proof.
  split; [vm_compute; reflexivity|].
  refine (proj1 (refused_upload_leaves_no_file demo_random demo_pdf (λ _, "") demo_id demo_jobs
    demo_admission demo_file ["abc"; "de"] None "t" eq (λ e, e = TransportError) full_server
    _ _ _ _ _ _ _ _)); [done|done|by intros w w' ->|done|done|done|reflexivity|vm_compute; reflexivity].
Defined.
