(* ===== verification/Sse.v ===== *)
(** * Server-sent events ([app/api/stream.py])

    The counted cap on subscribers, the frames the endpoint makes itself, and the
    generator that replays a job's events and then tails them.  A connection is the
    list of the frames written to it; a write may fail like any command.
    [time.monotonic], the disconnect check and the trace id are parameters; the
    loop is cut after a number of rounds.  Theorems: the event frames of a
    connection are the stream's entries after its cursor, in order, none skipped and
    none repeated; the loop ends within the duration limit; the cap is exact, and
    every admitted connection gives its slot back once. *)

From S2P Require Import Prelude Py Redis Prog PageState Json Results.
From Stdlib Require Import QArith Qround Lqa Sorting.Sorted.
#[local] Open Scope Z_scope.

(** ** Slots *)

Record SubscriberSlots := { limit : Z; active : Z; refused : Z; peak : Z }.

Definition new_slots (limit : Z) : SubscriberSlots :=
  {| limit := limit; active := 0; refused := 0; peak := 0 |}.

Definition acquire (s : SubscriberSlots) : SubscriberSlots * bool :=
  if limit s <=? active s
  then ({| limit := limit s; active := active s; refused := refused s + 1; peak := peak s |}, false)
  else ({| limit := limit s; active := active s + 1; refused := refused s;
           peak := Z.max (peak s) (active s + 1) |}, true).

Definition release (s : SubscriberSlots) : SubscriberSlots :=
  {| limit := limit s; active := Z.max 0 (active s - 1); refused := refused s; peak := peak s |}.

(** ** Frames *)

Definition _frame (event : string) (payload : list (string * json)) : string :=
  "event: " +:+ event +:+ LF +:+ "data: " +:+ dumps (JObj payload) +:+ LF +:+ LF.

Definition _heartbeat (now : Z) : string := ": heartbeat " +:+ py_str now +:+ LF +:+ LF.

Definition or_null (s : option string) : json := match s with Some s => JStr s | None => JNull end.

Definition resync_frame (job_id : string) (lo : option string) : string :=
  _frame GAP [("job_id", JStr job_id);
    ("message", JStr ("Events before window_lo were trimmed. Re-read GET /jobs/" +:+ job_id +:+
      " for authoritative page state; page state is never trimmed."));
    ("window_lo", or_null lo)].

Definition duration_frame (job_id last_id : string) : string :=
  _frame GAP [("job_id", JStr job_id);
    ("message", JStr "Stream duration limit reached; reconnect with Last-Event-ID to continue.");
    ("window_lo", JStr last_id)].

Definition unavailable_frame (job_id : string) : string :=
  _frame GAP [("job_id", JStr job_id);
    ("message", JStr ("The result stream became unavailable. Re-read GET /jobs/" +:+ job_id +:+
      " for authoritative page state, then reconnect."));
    ("window_lo", JNull)].

(** What was written to the connection. *)
Definition connection : Type := list string.

Record sse_config := {
  sse_retry_ms : Z; sse_history_limit : nat; sse_batch : nat; sse_max_duration_s : Q }.

Section stream.
Context {W : Type} `{Redis W} `{Clock W} `{Memory connection W} `{Memory SubscriberSlots W}.
Context (monotonic : W -> Q) (is_disconnected : W -> bool).
Context (cfg : sse_config) (trace_id : string).

(** [yield frame] *)
Definition emit (frame : string) : prog W unit :=
  act (λ w, set_mem ((mem w : connection) ++ [frame]) w).

(** [for event in events: yield event.sse() ...] *)
Definition send_events (events : list ResultEvent) (last_id : string) (complete : bool)
  : prog W (string * bool) :=
  fold_prog events (last_id, complete) (λ event '(last_id, complete),
    do! emit (sse event) in
    Ret (ev_entry_id event, complete || (ev_event event =? JOB_COMPLETE)%string)).

(** The [while] loop, at most [rounds] times; [false] if it was still running. *)
Fixpoint tail_loop (rounds : nat) (job_id : string) (started : Q) (last_id : string) (complete : bool)
  : prog W bool :=
  if complete then Ret true
  else match rounds with
  | O => Ret false
  | S rounds =>
      let! gone := ask is_disconnected in
      if (gone : bool) then Ret true
      else
        let! now := sample monotonic in
        if negb (Qle_bool (now - started) (sse_max_duration_s cfg))
        then do! emit (duration_frame job_id last_id) in Ret true
        else
          let! events := tail job_id last_id (sse_batch cfg) in
          match events with
          | [] =>
              let! now := sample now_ms in
              do! emit (_heartbeat now) in
              let! (done, total_now) := step (λ w, (progress job_id w, w)) in
              if negb (total_now =? 0) && (total_now <=? done) then
                do! emit (_frame JOB_COMPLETE
                      [("job_id", JStr job_id); ("total_pages", JNum (py_str total_now));
                       ("done", JNum (py_str done)); ("derived", JBool true)]) in
                Ret true
              else tail_loop rounds job_id started last_id false
          | _ =>
              let! (last_id, complete) := send_events events last_id false in
              tail_loop rounds job_id started last_id complete
          end
  end.

Definition open_frame (job_id : string) (total done : Z) (cursor lo hi : option string) : string :=
  _frame STREAM_OPEN [("job_id", JStr job_id); ("total_pages", JNum (py_str total));
    ("done", JNum (py_str done)); ("resumed_from", or_null cursor); ("window_lo", or_null lo);
    ("window_hi", or_null hi); ("trace_id", JStr trace_id)].

Definition retry_frame : string := "retry: " +:+ py_str (sse_retry_ms cfg) +:+ LF +:+ LF.

Definition _frames (rounds : nat) (job_id : string) (total : Z) (cursor : option string) : prog W bool :=
  let! started := sample monotonic in
  do! emit retry_frame in
  let! resync := match cursor with Some c => gap_after job_id c | None => Ret false end in
  let cursor := if (resync : bool) then None else cursor in
  let! (lo, hi) := window job_id in
  let! (done, _) := step (λ w, (progress job_id w, w)) in
  do! emit (open_frame job_id total done cursor lo hi) in
  do! (if resync then emit (resync_frame job_id lo) else Ret tt) in
  let! events := history job_id cursor (sse_history_limit cfg) in
  let! (last_id, complete) := send_events events (default "0" cursor) false in
  tail_loop rounds job_id started last_id complete.

(** The generator's error policy and its slot. *)
Definition _events (rounds : nat) (job_id : string) (total : Z) (cursor : option string) : prog W bool :=
  finally
    (catch (_frames rounds job_id total cursor)
       (λ e, match e with
             | RedisError _ | ResponseError _ =>
                 do! emit (unavailable_frame job_id) in Ret true
             | _ => Raise e
             end))
    (λ w, set_mem (release (mem w)) w).

(** The route: a response whose body is the generator. *)
Definition stream_results (rounds : nat) (job_id : string) (last_event_header last_event_id : option string)
  : prog W (prog W bool) :=
  let! fs := ask (get_job job_id) in
  if bool_decide (fs = ∅) then Raise (HTTPException 404)
  else
    let! total := of_result (match fs !! "total_pages" with Some s => int s | None => inr 0 end) in
    let cursor := match parse_entry_id last_event_header with
                  | Some c => Some c | None => parse_entry_id last_event_id end in
    let! ok := own (λ w, let '(s, ok) := acquire (mem w) in (set_mem s w, ok)) in
    if negb ok then Raise (HTTPException 503)
    else Ret (_events rounds job_id total cursor).

(** [GET /streams] *)
Definition stream_stats : prog W SubscriberSlots := sample mem.
End stream.

(** ** Cursors *)

Lemma int_digits_all s : forall acc b, str_forall is_digit s = true -> (s <> "" \/ b = true) ->
  exists n, int_digits acc b s = Some n.
Proof.
  induction s as [|c s IH]; intros acc b Hs Hb.
  - destruct Hb as [|Hb]; [done|]. rewrite Hb. by eexists.
  - simpl in Hs. apply andb_true_iff in Hs as [Hc Hs]. rewrite int_digits_digit by done.
    apply IH; [done|by right].
Qed.

Lemma int_all_digits s : all_digits s = true -> exists n, int s = inr n.
Proof.
  unfold all_digits. intros [Hne Hs]%andb_true_iff.
  destruct (int_digits_all s 0 false Hs) as [n Hn].
  { left. intros ->. done. }
  exists (Z.of_N n). unfold int. rewrite py_int_digits by done. by rewrite Hn.
Qed.

Lemma is_id_split s : forall seen, is_id seen s = true ->
  exists a b, s = a +:+ "-" +:+ b /\ str_forall is_digit a = true /\ (a <> "" \/ seen = true) /\
    all_digits b = true.
Proof.
  induction s as [|c s IH]; intros seen Hs; [done|]. cbn [is_id] in Hs. destruct (is_digit c) eqn:Ec.
  - apply IH in Hs as (a & b & -> & Ha & _ & Hb). exists (String c a), b. split_and!; try done.
    + simpl. by rewrite Ec.
    + by left.
  - apply andb_true_iff in Hs as [Hs Hb]. apply andb_true_iff in Hs as [Hseen Hc].
    apply Ascii.eqb_eq in Hc as ->. exists "", s. split_and!; try done. by right.
Qed.

(** A parsed cursor is one. *)
Lemma parse_entry_id_tuple raw c : parse_entry_id raw = Some c -> exists t, id_tuple c = inr t.
Proof.
  unfold parse_entry_id. destruct raw as [raw|]; [|done]. destruct (is_id false (strip raw)) eqn:E; [|done].
  intros [= <-]. apply is_id_split in E as (a & b & -> & Ha & [Hne|] & Hb); [|done].
  unfold id_tuple. rewrite partition_digits by done.
  assert (all_digits a = true) as Ha'.
  { unfold all_digits. rewrite Ha. destruct (String.eqb_spec a ""); done. }
  apply int_all_digits in Ha' as [n ->].
  assert (b <> "") as Hbne by (intros ->; done).
  apply int_all_digits in Hb as [m Hm]. cbn [rbind].
  destruct (String.eqb_spec b ""); [done|]. rewrite Hm. by eexists.
Qed.

Lemma tuple_ltb_trans a b c : tuple_ltb a b = true -> tuple_ltb b c = true -> tuple_ltb a c = true.
Proof.
  unfold tuple_ltb. rewrite !orb_true_iff, !andb_true_iff, !Z.ltb_lt, !Z.eqb_eq. lia.
Qed.

(** ** Entries in order *)

#[local] Abbreviation entry := (eid * fields)%type.

Definition in_order (l : list entry) : Prop := StronglySorted (λ a b : entry, eid_ltb a.1 b.1 = true) l.

(** What follows an id. *)
Definition after (base : option (Z * Z)) (l : list entry) : list entry :=
  filter (λ e, after_id base e.1 = true) l.

Lemma after_sorted base l : in_order l -> in_order (after base l).
Proof.
  unfold in_order, after. induction 1 as [|x l Hs IH Hx]; [constructor|]. rewrite filter_cons.
  case_decide; [|done]. constructor; [done|]. rewrite Forall_forall in Hx. apply Forall_forall.
  intros y Hy%list_elem_of_filter. apply Hx, Hy.
Qed.

Lemma after_all base l : Forall (λ e : entry, after_id base e.1 = true) l -> after base l = l.
Proof.
  unfold after. induction 1 as [|x l Hx _ IH]; [done|]. by rewrite filter_cons_True, IH.
Qed.

Lemma after_elem l : forall k e, in_order l -> l !! k = Some e ->
  after (Some (eid_tuple e.1)) l = drop (S k) l.
Proof.
  induction l as [|x l IH]; intros k e Hs Hk; [done|]. inversion Hs as [|? ? Hs' Hx]; subst.
  unfold after. rewrite filter_cons. cbn [after_id]. destruct k as [|k].
  - injection Hk as ->. rewrite tuple_ltb_eid, eid_ltb_irrefl, decide_False by done.
    apply (after_all (Some (eid_tuple e.1))).
    eapply Forall_impl; [exact Hx|]. intros y Hy. cbn. by rewrite tuple_ltb_eid.
  - simpl in Hk. rewrite tuple_ltb_eid. rewrite decide_False.
    + by apply (IH k e).
    + intros Hc. rewrite Forall_forall in Hx. apply list_elem_of_lookup_2 in Hk.
      pose proof (eid_ltb_trans _ _ _ Hc (Hx _ Hk)) as Ht. by rewrite eid_ltb_irrefl in Ht.
Qed.

(** Reading on from a delivered entry resumes exactly behind it. *)
Lemma after_after base l k e : in_order l -> after base l !! k = Some e ->
  after (Some (eid_tuple e.1)) l = drop (S k) (after base l).
Proof.
  intros Hs Hk. rewrite <- (after_elem _ k e); [|by apply after_sorted|done].
  unfold after. rewrite list_filter_filter. apply list_filter_iff. intros x. split; [|tauto].
  intros Hx. split; [done|]. apply list_elem_of_lookup_2, list_elem_of_filter in Hk as [He _].
  destruct base as [t|]; [|done]. cbn [after_id] in *. by eapply tuple_ltb_trans.
Qed.

Lemma decode_all_app l1 l2 evs1 : decode_all l1 = inr evs1 ->
  decode_all (l1 ++ l2) = let* evs2 := decode_all l2 in inr (evs1 ++ evs2).
Proof.
  revert evs1. induction l1 as [|e l1 IH]; intros evs1 E; cbn [decode_all app] in *.
  - injection E as <-. by destruct (decode_all l2).
  - destruct (_decode _ _) as [|x]; [done|]. cbn [rbind] in *. destruct (decode_all l1) as [|xs]; [done|].
    cbn [rbind] in *. injection E as <-. rewrite (IH xs) by done. by destruct (decode_all l2).
Qed.

Lemma decode_entry_id i fs ev : _decode i fs = inr ev -> ev_entry_id ev = i.
Proof.
  unfold _decode. destruct (int _) as [|seq]; [done|]. cbn [rbind].
  destruct (loads _) as [|[]]; cbn [rbind]; try done. by intros [= <-].
Qed.

(** ** Event frames *)

Definition is_event (frame : string) : bool := bool_decide (is_Some (strip_prefix "id: " frame)).
Definition event_frames (l : list string) : list string := filter (λ f, is_event f = true) l.

Lemma is_event_sse ev : is_event (sse ev) = true.
Proof. unfold is_event, sse. apply bool_decide_eq_true. by eexists. Qed.

Lemma event_frames_sse l ev : event_frames (l ++ [sse ev]) = event_frames l ++ [sse ev].
Proof.
  unfold event_frames. by rewrite filter_app, filter_cons, decide_True by apply is_event_sse.
Qed.

Lemma event_frames_other l f : strip_prefix "id: " f = None -> event_frames (l ++ [f]) = event_frames l.
Proof.
  intros Hf. unfold event_frames. rewrite filter_app, filter_cons, decide_False.
  - by rewrite app_nil_r.
  - unfold is_event. rewrite Hf. by intros ?%bool_decide_eq_true%is_Some_None.
Qed.

(** ** Delivery *)

Section delivery.
Context {W : Type} `{RedisLaws W} `{Clock W} `{Memory connection W} {MC : MemoryLaws connection W}.
Context (monotonic : W -> Q) (is_disconnected : W -> bool).
Context (cfg : sse_config) (trace_id job : string) (cursor : option string).
Context (rely : W -> W -> Prop) (fault : exn -> Prop).
Implicit Types w : W.

Definition entries w : list entry := map (λ e, (se_id e, se_fields e)) (out_entries job (view w)).

(** The ids of a stream increase, from above [0-0]. *)
Definition stream_ok w : Prop :=
  in_order (entries w) /\ Forall (λ e, tuple_ltb (0, 0) (eid_tuple e.1) = true) (entries w).

(** The others append to the stream. *)
Definition appends w w' : Prop :=
  stream_ok w -> stream_ok w' /\ entries w `prefix_of` entries w' /\ (mem w' : connection) = mem w.

Context (Hrely : forall w w', rely w w' -> appends w w').

(** Where the connection starts: behind its cursor, or - once it was told of the
    gap - at the oldest entry. *)
Definition starts (base : option (Z * Z)) w : Prop :=
  match cursor with
  | None => base = None
  | Some c => (exists t, id_tuple c = inr t /\ base = Some t) \/
              base = None /\ exists lo, resync_frame job lo ∈ (mem w : connection)
  end.

(** The event frames written are the first [k] entries behind [base], decoded. *)
Definition delivered (base : option (Z * Z)) (k : nat) w : Prop :=
  exists evs, decode_all (take k (after base (entries w))) = inr evs /\
    (k <= length (after base (entries w)))%nat /\ event_frames (mem w : connection) = sse <$> evs.

(** [last_id] names the last of them. *)
Definition reached (base : option (Z * Z)) (k : nat) (last_id : string) w : Prop :=
  exists t, id_tuple last_id = inr t /\
    match k with
    | O => base = Some t \/ base = None /\ t = (0, 0)
    | S k' => exists e, after base (entries w) !! k' = Some e /\ t = eid_tuple e.1
    end.

Definition sending base k w : Prop := stream_ok w /\ starts base w /\ delivered base k w.
Definition faithful w : Prop := exists base k, sending base k w.
Definition sent base k last_id w : Prop := sending base k w /\ reached base k last_id w.

(** The events of the next entries. *)
Definition batch base k (evs : list ResultEvent) w : Prop :=
  decode_all (take (length evs) (drop k (after base (entries w)))) = inr evs /\
  (k + length evs <= length (after base (entries w)))%nat.

Lemma sending_faithful base k w : sending base k w -> faithful w.
Proof using Type. intros Hs. by exists base, k. Qed.

Lemma after_prefix base l l' : l `prefix_of` l' -> after base l `prefix_of` after base l'.
Proof using Type. intros [k ->]. unfold after. rewrite filter_app. by eexists. Qed.

Lemma sending_rely base k w w' : rely w w' -> sending base k w -> sending base k w'.
Proof using Hrely.
  intros Hr (Hok & Hs & evs & Ed & Hk & Hf).
  destruct (Hrely _ _ Hr Hok) as (Hok' & Hp & Hm). apply (after_prefix base) in Hp as [l Hl].
  split; [done|]. unfold starts, delivered. rewrite Hm, Hl. split; [exact Hs|].
  exists evs. rewrite take_app_le by done. split_and!; [done| |done]. rewrite length_app. lia.
Qed.

Lemma reached_rely base k last_id w w' : rely w w' -> stream_ok w ->
  reached base k last_id w -> reached base k last_id w'.
Proof using Hrely.
  intros Hr Hok (t & Ht & Hk). destruct (Hrely _ _ Hr Hok) as (_ & Hp & _).
  exists t. split; [done|]. destruct k as [|k]; [done|]. destruct Hk as (e & He & ->).
  exists e. split; [|done]. eapply prefix_lookup_Some; [exact He|]. by apply after_prefix.
Qed.

Lemma sent_stable base k last_id w w' : rely w w' -> sent base k last_id w -> sent base k last_id w'.
Proof using Hrely.
  intros Hr [Hs Hl]. split; [by eapply sending_rely|]. eapply reached_rely, Hl; [done|apply Hs].
Qed.

Lemma batch_rely base k evs w w' : rely w w' -> stream_ok w -> batch base k evs w -> batch base k evs w'.
Proof using Hrely.
  intros Hr Hok [Ed Hk]. destruct (Hrely _ _ Hr Hok) as (_ & Hp & _).
  apply (after_prefix base) in Hp as [l Hl]. unfold batch. rewrite Hl. split.
  - rewrite drop_app_le by lia. rewrite take_app_le; [done|]. rewrite length_drop. lia.
  - rewrite length_app. lia.
Qed.

(** *** Writing *)

Lemma entries_set (c : connection) w : entries (set_mem c w) = entries w.
Proof using MC. unfold entries. by rewrite view_set_mem. Qed.

Lemma starts_emit base f w : starts base w -> starts base (set_mem ((mem w : connection) ++ [f]) w).
Proof using MC.
  unfold starts. destruct cursor; [|done]. intros [Hs|[-> [lo Hlo]]]; [by left|right].
  split; [done|]. exists lo. rewrite mem_set_mem. apply elem_of_app. by left.
Qed.

Lemma sending_other base k f w : strip_prefix "id: " f = None ->
  sending base k w -> sending base k (set_mem ((mem w : connection) ++ [f]) w).
Proof using MC.
  intros Hf (Hok & Hs & evs & Ed & Hk & Hfr). unfold sending, stream_ok, delivered.
  rewrite entries_set. split; [done|]. split; [by apply starts_emit|].
  exists evs. split_and!; [done..|]. rewrite mem_set_mem. by rewrite event_frames_other.
Qed.

Lemma sent_other base k last_id f w : strip_prefix "id: " f = None ->
  sent base k last_id w -> sent base k last_id (set_mem ((mem w : connection) ++ [f]) w).
Proof using MC.
  intros Hf [Hs Hl]. split; [by apply sending_other|]. unfold reached. by rewrite entries_set.
Qed.

Lemma sent_event base k last_id ev evs w : sent base k last_id w -> batch base k (ev :: evs) w ->
  sent base (S k) (ev_entry_id ev) (set_mem ((mem w : connection) ++ [sse ev]) w) /\
  batch base (S k) evs (set_mem ((mem w : connection) ++ [sse ev]) w).
Proof using MC.
  intros [(Hok & Hs & evs0 & Ed & Hk & Hfr) _] [Hb Hlen]. simpl length in *.
  destruct (drop k (after base (entries w))) as [|e rest] eqn:Edrop.
  { apply (f_equal length) in Edrop. rewrite length_drop in Edrop. simpl in Edrop. lia. }
  assert (after base (entries w) !! k = Some e) as He.
  { rewrite <- (Nat.add_0_r k), <- lookup_drop, Edrop. done. }
  assert (drop (S k) (after base (entries w)) = rest) as Erest.
  { rewrite <- Nat.add_1_r, <- drop_drop, Edrop. done. }
  cbn [take decode_all] in Hb. destruct (_decode _ _) as [|x] eqn:Ex; [done|]. cbn [rbind] in Hb.
  destruct (decode_all (take (length evs) rest)) as [|xs] eqn:Exs; [done|]. injection Hb as -> ->.
  unfold sent, sending, stream_ok, delivered, reached, batch. rewrite entries_set.
  split; [split|].
  - split; [done|]. split; [by apply starts_emit|]. exists (evs0 ++ [ev]). split_and!.
    + rewrite (take_S_r _ _ e) by done. rewrite (decode_all_app _ _ evs0) by done. cbn. by rewrite Ex.
    + lia.
    + rewrite mem_set_mem, event_frames_sse, fmap_app. by f_equal.
  - exists (eid_tuple e.1). rewrite (decode_entry_id _ _ _ Ex). split; [apply id_tuple_eid|]. by exists e.
  - rewrite Erest. split; [done|]. lia.
Qed.
(** *** Reading *)

Lemma decode_all_length l : forall evs, decode_all l = inr evs -> length evs = length l.
Proof using Type.
  induction l as [|e l IH]; intros evs E; cbn [decode_all] in E; [by injection E as <-|].
  destruct (_decode _ _); [done|]. cbn [rbind] in E. destruct (decode_all l) as [|xs]; [done|].
  injection E as <-. simpl. by rewrite (IH xs).
Qed.

(** The read that comes next, from the last id sent. *)
Lemma entries_after_sent base k last_id t count w : sent base k last_id w -> id_tuple last_id = inr t ->
  entries_after (out_stream job) (Some t) count w = take count (drop k (after base (entries w))).
Proof using Type.
  intros [([Hsort Hpos] & _) (t' & Ht & Hk)] E. rewrite E in Ht. injection Ht as <-.
  rewrite entries_after_view. fold (entries w). f_equal. destruct k as [|k].
  - rewrite drop_0. destruct Hk as [-> |[-> ->]]; [done|].
    transitivity (entries w); [exact (after_all (Some (0, 0)) _ Hpos)|].
    symmetry. apply (after_all None), Forall_forall. done.
  - destruct Hk as (e & He & ->). exact (after_after base (entries w) k e Hsort He).
Qed.

Lemma wp_read (P : W -> Prop) base k t count w :
  (forall w w', rely w w' -> P w -> P w') -> (forall w, P w -> faithful w) ->
  (forall w, P w -> entries_after (out_stream job) t count w = take count (drop k (after base (entries w)))) ->
  P w ->
  wp rely fault faithful (let! l := ask (entries_after (out_stream job) t count) in of_result (decode_all l))
    (λ x w', match x with inl _ => faithful w' | inr evs => P w' /\ (delivered base k w' -> batch base k evs w') end) w.
Proof using Type.
  intros Hr Hi He HP. apply wp_bind. intros w1 Hw1. apply (Hr _ _ Hw1) in HP.
  split_and!; [by apply Hi| |intros e _; split_and!; by apply Hi].
  cbn [fst snd of_result wp]. rewrite (He w1 HP).
  destruct (decode_all _) as [e|evs] eqn:Ed; cbn [of_result wp]; [by apply Hi|]. split; [done|].
  intros (evs0 & _ & Hk & _). pose proof (decode_all_length _ _ Ed) as Hl. unfold batch. rewrite Hl.
  rewrite length_take, length_drop. split; [|lia].
  rewrite <- length_drop, <- take_take, (take_ge _ (length _)) by done. done.
Qed.

Lemma wp_tail base k last_id w : sent base k last_id w ->
  wp rely fault faithful (tail job last_id (sse_batch cfg))
    (λ x w', match x with inl _ => faithful w' | inr evs => sent base k last_id w' /\ batch base k evs w' end) w.
Proof using Hrely.
  intros Hw. destruct (proj2 Hw) as (t & Ht & _). unfold tail. rewrite Ht. cbn [of_result pbind].
  eapply wp_mono; [|apply (wp_read (sent base k last_id) base k (Some t))]; [| | | |exact Hw].
  - intros [e|evs] w' Hx; [done|]. destruct Hx as [Hs Hb]. split; [done|]. apply Hb, Hs.
  - intros w1 w2. apply sent_stable.
  - intros w1 [Hs _]. by eapply sending_faithful.
  - intros w1 Hs. by eapply entries_after_sent.
Qed.

(** The cursor [c] a connection starts from is its [base]. *)
Definition at_cursor (c : option string) (base : option (Z * Z)) : Prop :=
  match c with None => base = None | Some c => exists t, id_tuple c = inr t /\ base = Some t end.

Lemma wp_history base c w : at_cursor c base -> sending base 0 w ->
  wp rely fault faithful (history job c (sse_history_limit cfg))
    (λ x w', match x with
             | inl _ => faithful w'
             | inr evs => sent base 0 (default "0" c) w' /\ batch base 0 evs w'
             end) w.
Proof using Hrely.
  intros Hc Hw. unfold history.
  assert (reached base 0 (default "0" c) w) as Hr.
  { destruct c as [c|]; simpl in Hc.
    - destruct Hc as (t & Ht & ->). exists t. split; [done|by left].
    - exists (0, 0). split; [reflexivity|by right]. }
  assert (forall w1, sent base 0 (default "0" c) w1 ->
    entries_after (out_stream job) base (sse_history_limit cfg) w1 =
    take (sse_history_limit cfg) (drop 0 (after base (entries w1)))) as He.
  { intros w1 _. rewrite entries_after_view. reflexivity. }
  assert (wp rely fault faithful
    (let! l := ask (entries_after (out_stream job) base (sse_history_limit cfg)) in of_result (decode_all l))
    (λ x w', match x with
             | inl _ => faithful w'
             | inr evs => sent base 0 (default "0" c) w' /\ batch base 0 evs w'
             end) w) as Hread.
  { eapply wp_mono; [|apply (wp_read (sent base 0 (default "0" c)) base 0 base)]; [| | |exact He|done].
    - intros [e|evs] w' Hx; [done|]. destruct Hx as [Hs Hb]. split; [done|]. apply Hb, Hs.
    - intros w1 w2. apply sent_stable.
    - intros w1 [Hs _]. by eapply sending_faithful. }
  destruct c as [c|]; simpl in Hc; [destruct Hc as (t & Ht & ->)|rewrite Hc in *]; [|exact Hread].
  rewrite Ht. exact Hread.
Qed.

Lemma wp_send base evs : forall k last_id complete w,
  sent base k last_id w -> batch base k evs w ->
  wp rely fault faithful (send_events evs last_id complete)
    (λ x w', match x with inl _ => faithful w' | inr (last_id', _) => exists k', sent base k' last_id' w' end) w.
Proof using Hrely MC.
  unfold send_events.
  induction evs as [|ev evs IH]; intros k last_id complete w Hs Hb; [by exists k|].
  cbn [fold_prog]. apply wp_bind, wp_bind. intros w1 Hr.
  apply (batch_rely _ _ _ _ _ Hr) in Hb; [|apply Hs]. apply (sent_stable _ _ _ _ _ Hr) in Hs.
  destruct (sent_event _ _ _ _ _ _ Hs Hb) as [Hs' Hb'].
  assert (faithful w1) as Hi by (eapply sending_faithful, Hs).
  assert (faithful (set_mem ((mem w1 : connection) ++ [sse ev]) w1)) as Hi' by (eapply sending_faithful, Hs').
  split_and!; [exact Hi'| |intros e _; split_and!; done]. by apply (IH (S k)).
Qed.

(** *** The generator *)

Section keeping.
Context (P : W -> Prop) (P_rely : forall w w', rely w w' -> P w -> P w').
Context (P_faithful : forall w, P w -> faithful w).
Context (P_other : forall f w, strip_prefix "id: " f = None -> P w ->
  P (set_mem ((mem w : connection) ++ [f]) w)).

Lemma keeps_emit f : strip_prefix "id: " f = None -> keeps rely fault faithful P (emit f).
Proof using P_rely P_faithful P_other. intros Hf. apply keeps_act; [done..|]. intros w. by apply P_other. Qed.

Lemma keeps_ask {X} (f : W -> X) : keeps rely fault faithful P (ask f).
Proof using P_rely P_faithful. by apply keeps_call. Qed.

Lemma keeps_window : keeps rely fault faithful P (window job).
Proof using P_rely P_faithful.
  unfold window. apply keeps_bind; [apply keeps_ask|]. intros first.
  apply keeps_bind; [apply keeps_ask|]. intros last. apply keeps_ret.
Qed.

Lemma keeps_gap_after c : keeps rely fault faithful P (gap_after job c).
Proof using P_rely P_faithful.
  unfold gap_after. apply keeps_bind; [apply keeps_window|]. intros [[lo|] _]; [|apply keeps_ret].
  apply keeps_bind; [apply keeps_of_result|]. intros a.
  apply keeps_bind; [apply keeps_of_result|]. intros b. apply keeps_ret.
Qed.

Lemma keeps_progress : keeps rely fault faithful P (step (λ w, (progress job w, w))).
Proof using P_rely P_faithful. by apply keeps_step. Qed.
End keeping.

(** Sequencing behind a part that keeps [P]. *)
Lemma wp_after {A B} (P : W -> Prop) (p : prog W A) (c : A -> prog W B) (Q : result B -> W -> Prop) w :
  keeps rely fault faithful P p -> P w ->
  (forall e w', P w' -> Q (inl e) w') -> (forall a w', P w' -> wp rely fault faithful (c a) Q w') ->
  wp rely fault faithful (pbind p c) Q w.
Proof using Type.
  intros Hp HP He Hc. apply wp_bind. eapply wp_mono; [|by apply Hp]. intros [e|a] w'; auto.
Qed.

Lemma wp_tail_loop rounds base started : forall k last_id complete w,
  sent base k last_id w ->
  wp rely fault faithful (tail_loop monotonic is_disconnected cfg rounds job started last_id complete)
    (λ _, faithful) w.
Proof using Hrely MC.
  induction rounds as [|rounds IH]; intros k last_id complete w Hw;
    (assert (faithful w) as Hfw by (eapply sending_faithful, Hw)); (destruct complete; [exact Hfw|]); [done|].
  assert (forall w1, sent base k last_id w1 -> faithful w1) as Hi by (intros; eapply sending_faithful; apply H3).
  assert (forall f w1, strip_prefix "id: " f = None -> sent base k last_id w1 ->
    sent base k last_id (set_mem ((mem w1 : connection) ++ [f]) w1)) as Ho by (intros; by apply sent_other).
  pose proof (sent_stable base k last_id) as Hsr.
  cbn [tail_loop]. eapply (wp_after (sent base k last_id)); [by apply keeps_ask|done|auto|].
  intros gone w1 Hw1. destruct gone; [by apply Hi|]. cbn [sample own pbind wp fst snd].
  destruct (negb _).
  { eapply (wp_after (sent base k last_id)); [by apply keeps_emit|done|auto|].
    intros [] w2 Hw2. by apply Hi. }
  apply wp_bind. eapply wp_mono; [|by apply (wp_tail base k)].
  intros [e|evs] w2 Hx; [done|]. destruct Hx as [Hw2 Hb]. destruct evs as [|ev evs].
  - cbn [sample own pbind wp fst snd]. eapply (wp_after (sent base k last_id)); [by apply keeps_emit|done|auto|].
    intros [] w3 Hw3. eapply (wp_after (sent base k last_id)); [by apply keeps_progress|done|auto|].
    intros [done_ total] w4 Hw4. destruct (_ && _); [|by apply (IH k)].
    eapply (wp_after (sent base k last_id)); [by apply keeps_emit|done|auto|]. intros [] w5 Hw5. by apply Hi.
  - apply wp_bind. eapply wp_mono; [|by apply (wp_send base (ev :: evs) k)].
    intros [e|[last' complete']] w3 Hw3; [done|]. destruct Hw3 as [k' Hw3]. by apply (IH k').
Qed.

Lemma sending_from base base' w : sending base 0 w -> starts base' w -> sending base' 0 w.
Proof using Type.
  intros (Hok & _ & evs & Ed & _ & Hf) Hs. split; [done|]. split; [done|]. exists evs.
  split_and!; [exact Ed|lia|exact Hf].
Qed.

Lemma wp_frames rounds total base w : at_cursor cursor base -> sending base 0 w ->
  wp rely fault faithful (_frames monotonic is_disconnected cfg trace_id rounds job total cursor)
    (λ _, faithful) w.
Proof using Hrely MC.
  intros Hc Hw.
  assert (forall b w1, sending b 0 w1 -> faithful w1) as Hi by (intros b w1; apply sending_faithful).
  assert (forall b f w1, strip_prefix "id: " f = None -> sending b 0 w1 ->
    sending b 0 (set_mem ((mem w1 : connection) ++ [f]) w1)) as Ho by (intros; by apply sending_other).
  assert (forall b w1 w2, rely w1 w2 -> sending b 0 w1 -> sending b 0 w2) as Hr
    by (intros b w1 w2; apply sending_rely).
  pose proof (Hi base) as Hib. pose proof (Ho base) as Hob. pose proof (Hr base) as Hrb.
  unfold _frames. cbn [sample own pbind wp fst snd].
  eapply (wp_after (sending base 0)); [by apply keeps_emit|done|eauto|]. intros [] w1 Hw1.
  eapply (wp_after (sending base 0)); [destruct cursor; [by apply keeps_gap_after|apply keeps_ret]|done|eauto|].
  intros resync w2 Hw2. cbv zeta.
  eapply (wp_after (sending base 0)); [by apply keeps_window|done|eauto|]. intros [lo hi] w3 Hw3.
  eapply (wp_after (sending base 0)); [by apply keeps_progress|done|eauto|]. intros [done_ ?] w4 Hw4.
  eapply (wp_after (sending base 0)); [by apply keeps_emit|done|eauto|]. intros [] w5 Hw5.
  set (base2 := if resync then None else base). set (c2 := if resync then None else cursor).
  assert (at_cursor c2 base2) as Hc2 by (unfold c2, base2; by destruct resync).
  assert (wp rely fault faithful (if resync then emit (resync_frame job lo) else Ret tt)
    (λ x w', match x with inl _ => faithful w' | inr _ => sending base2 0 w' end) w5) as Hres.
  { unfold base2. destruct resync; [|done]. intros w6 Hr6. apply (Hr _ _ _ Hr6) in Hw5.
    pose proof (Ho _ (resync_frame job lo) w6 eq_refl Hw5) as Hw6.
    split_and!; [by eapply Hi| |intros e _; split_and!; by eapply Hi].
    change (sending None 0 (set_mem ((mem w6 : connection) ++ [resync_frame job lo]) w6)).
    eapply sending_from; [exact Hw6|]. unfold starts. destruct cursor; [|done]. right. split; [done|].
    exists lo. rewrite mem_set_mem. apply elem_of_app. right. apply list_elem_of_here. }
  apply wp_bind. eapply wp_mono; [|exact Hres]. intros [e|[]] w6 Hw6; [done|].
  apply wp_bind. eapply wp_mono; [|by apply (wp_history base2)]. intros [e|evs] w7 Hx; [done|].
  destruct Hx as [Hw7 Hb]. apply wp_bind. eapply wp_mono; [|by apply (wp_send base2 evs 0)].
  intros [e|[last' complete']] w8 Hw8; [done|]. destruct Hw8 as [k' Hw8]. by eapply wp_tail_loop.
Qed.
Lemma wp_unavailable w : faithful w ->
  wp rely fault faithful (do! emit (unavailable_frame job) in Ret true) (λ _, faithful) w.
Proof using Hrely MC.
  intros [base [k Hw]]. eapply (wp_after (sending base k)); [|exact Hw| |].
  - apply keeps_emit; [intros w1 w2; apply sending_rely|apply sending_faithful|intros f w1; apply sending_other|done].
  - intros e w1. apply sending_faithful.
  - intros [] w1. apply sending_faithful.
Qed.
End delivery.

(** ** What the generator does to the world: it writes frames *)

Section writes.
Context {W : Type} `{Redis W} `{Clock W} `{Memory connection W}.
Context (monotonic : W -> Q) (is_disconnected : W -> bool).
Context (cfg : sse_config) (trace_id job : string).

Definition writes (w w' : W) : Prop := w' = w \/ exists f, w' = set_mem ((mem w : connection) ++ [f]) w.

Lemma writes_ask {X} (f : W -> X) : guar writes (ask f).
Proof using Type. apply guar_ask. intros w. by left. Qed.

Lemma writes_step {X} (f : W -> result X) : guar writes (step (λ w, (f w, w))).
Proof using Type. apply guar_step. intros w. by left. Qed.

Lemma writes_sample {X} (f : W -> X) : guar writes (sample f).
Proof using Type. apply guar_sample. intros w. by left. Qed.

Lemma writes_emit f : guar writes (emit f).
Proof using Type. apply guar_act. intros w. right. by exists f. Qed.

Lemma writes_send evs last_id complete : guar writes (send_events evs last_id complete).
Proof using Type.
  apply guar_fold. intros ev [last c]. apply guar_bind; [apply writes_emit|]. by intros [].
Qed.

Lemma writes_window : guar writes (window job).
Proof using Type.
  apply guar_bind; [apply writes_ask|]. intros a. apply guar_bind; [apply writes_ask|]. done.
Qed.

Lemma writes_gap_after c : guar writes (gap_after job c).
Proof using Type.
  apply guar_bind; [apply writes_window|]. intros [[lo|] _]; [|done].
  apply guar_bind; [apply guar_of_result|]. intros a. apply guar_bind; [apply guar_of_result|]. done.
Qed.

Lemma writes_read c n : guar writes (let! l := ask (entries_after (out_stream job) c n) in of_result (decode_all l)).
Proof using Type. apply guar_bind; [apply writes_ask|]. intros l. apply guar_of_result. Qed.

Lemma writes_tail last_id n : guar writes (tail job last_id n).
Proof using Type. apply guar_bind; [apply guar_of_result|]. intros a. apply writes_read. Qed.

Lemma writes_history c n : guar writes (history job c n).
Proof using Type.
  apply guar_bind; [|intros a; apply writes_read]. destruct c; [|done].
  apply guar_bind; [apply guar_of_result|]. done.
Qed.

Lemma writes_loop rounds started : forall last_id complete,
  guar writes (tail_loop monotonic is_disconnected cfg rounds job started last_id complete).
Proof using Type.
  induction rounds as [|rounds IH]; intros last_id complete; cbn [tail_loop]; (destruct complete; [done|]); [done|].
  apply guar_bind; [apply writes_ask|]. intros [|]; [done|].
  apply guar_bind; [apply writes_sample|]. intros now. destruct (negb _).
  { apply guar_bind; [apply writes_emit|done]. }
  apply guar_bind; [apply writes_tail|]. intros [|ev evs].
  - apply guar_bind; [apply writes_sample|]. intros t. apply guar_bind; [apply writes_emit|]. intros _.
    apply guar_bind; [apply writes_step|]. intros [d n]. destruct (_ && _); [|apply IH].
    apply guar_bind; [apply writes_emit|done].
  - apply guar_bind; [apply writes_send|]. intros [l c]. apply IH.
Qed.

Lemma writes_frames rounds total cursor :
  guar writes (_frames monotonic is_disconnected cfg trace_id rounds job total cursor).
Proof using Type.
  apply guar_bind; [apply writes_sample|]. intros started. apply guar_bind; [apply writes_emit|]. intros _.
  apply guar_bind; [destruct cursor; [apply writes_gap_after|done]|]. intros resync. cbv zeta.
  apply guar_bind; [apply writes_window|]. intros [lo hi]. apply guar_bind; [apply writes_step|]. intros [d n].
  apply guar_bind; [apply writes_emit|]. intros _.
  apply guar_bind; [destruct resync; [apply writes_emit|done]|]. intros _.
  apply guar_bind; [apply writes_history|]. intros evs. apply guar_bind; [apply writes_send|]. intros [l c].
  apply writes_loop.
Qed.
End writes.

(** ** Duration *)

Section duration.
Context {W : Type} `{RedisLaws W} `{Clock W} `{Memory connection W} `{Memory SubscriberSlots W}.
Context (monotonic : W -> Q) (is_disconnected : W -> bool).
Context (cfg : sse_config) (trace_id job : string).
Context (rely : W -> W -> Prop) (fault : exn -> Prop) (tick : Q).
Context (Htick : forall w w', rely w w' -> (monotonic w + tick <= monotonic w')%Q).
Context (Hconn : forall (c : connection) w, (monotonic (set_mem c w) == monotonic w)%Q).
Context (Htick0 : (0 < tick)%Q).
Implicit Types w : W.

Definition past (t : Q) w : Prop := (t <= monotonic w)%Q.

Lemma past_rely t w w' : rely w w' -> past t w -> past t w'.
Proof using Htick Htick0. unfold past. intros Hr Hw. apply Htick in Hr. lra. Qed.

Definition ended (x : result bool) : Prop := x <> inr false.

Lemma wp_passes {A B} (p : prog W A) (c : A -> prog W B) (Q : result B -> W -> Prop) t w :
  guar writes p -> past t w -> (forall e w', Q (inl e) w') ->
  (forall a w', past t w' -> wp rely fault (λ _, True) (c a) Q w') ->
  wp rely fault (λ _, True) (pbind p c) Q w.
Proof using Htick Htick0 Hconn.
  intros Hp Hw He Hc. apply wp_bind. eapply wp_mono.
  2:{ eapply wp_weaken; [done|]. eapply (guar_keeps _ _ _ (past t)); [|intros ? ?; apply past_rely|exact Hp|exact Hw].
      unfold past. intros w1 w2 [-> |[f ->]] Hw1; [done|by rewrite Hconn]. }
  intros [e|a] w' Hw'; auto.
Qed.

Lemma wp_loop_ends rounds started : forall last_id complete t w,
  past t w -> (started + sse_max_duration_s cfg < t + inject_Z (Z.of_nat rounds) * tick)%Q ->
  (rounds <> 0)%nat ->
  wp rely fault (λ _, True)
    (tail_loop monotonic is_disconnected cfg rounds job started last_id complete) (λ x _, ended x) w.
Proof using Htick Htick0 Hconn.
  induction rounds as [|rounds IH]; intros last_id complete t w Hw Ht Hne; [done|].
  cbn [tail_loop]. destruct complete; [done|].
  apply wp_bind. intros w1 Hr. apply Htick in Hr.
  assert (past (t + tick) w1) as Hw1 by (unfold past in *; lra).
  split_and!; [done| |intros e _; split_and!; done]. cbn [fst snd of_result wp].
  destruct (is_disconnected w1); [done|]. cbn [sample own pbind wp fst snd].
  destruct (Qle_bool _ _) eqn:El; cbn [negb].
  2:{ eapply (wp_passes (emit _)); [apply writes_emit|exact Hw1|done|]. by intros [] w2 _. }
  apply Qle_bool_iff in El.
  assert (inject_Z (Z.of_nat (S rounds)) == inject_Z (Z.of_nat rounds) + 1)%Q as E.
  { rewrite Nat2Z.inj_succ, <- Z.add_1_r. by rewrite inject_Z_plus. }
  assert (rounds <> 0)%nat as Hne'.
  { intros ->. rewrite E in Ht. change (inject_Z (Z.of_nat 0)) with 0%Q in Ht. unfold past in Hw1. lra. }
  assert (started + sse_max_duration_s cfg < t + tick + inject_Z (Z.of_nat rounds) * tick)%Q as Ht'
    by (rewrite E in Ht; lra).
  apply (wp_passes (tail _ _ _) _ _ (t + tick)); [apply writes_tail|done|done|]. intros [|ev evs] w2 Hw2.
  - cbn [sample own pbind wp fst snd].
    apply (wp_passes (emit _) _ _ (t + tick)); [apply writes_emit|done|done|]. intros [] w3 Hw3.
    apply (wp_passes (step _) _ _ (t + tick)); [apply writes_step|done|done|]. intros [done_ total] w4 Hw4.
    destruct (_ && _); [|by apply (IH _ _ (t + tick)%Q)].
    apply (wp_passes (emit _) _ _ (t + tick)); [apply writes_emit|done|done|]. by intros [] w5 _.
  - apply (wp_passes (send_events _ _ _) _ _ (t + tick)); [apply writes_send|done|done|].
    intros [last' complete'] w3 Hw3. by apply (IH _ _ (t + tick)%Q).
Qed.

(** Rounds enough for the duration limit. *)
Definition rounds_for (duration tick : Q) : nat := S (Z.to_nat (Qfloor (duration / tick) + 1)).

Lemma rounds_for_enough duration : (duration < inject_Z (Z.of_nat (rounds_for duration tick)) * tick)%Q.
Proof using Htick0.
  unfold rounds_for.
  assert (duration == duration / tick * tick)%Q as E by (field; lra). rewrite E at 1.
  apply Qmult_lt_compat_r; [done|]. eapply Qlt_le_trans; [apply Qlt_floor|]. rewrite <- Zle_Qle. lia.
Qed.

Lemma wp_frames_end rounds total cursor w : (rounds_for (sse_max_duration_s cfg) tick <= rounds)%nat ->
  wp rely fault (λ _, True) (_frames monotonic is_disconnected cfg trace_id rounds job total cursor)
    (λ x _, ended x) w.
Proof using Htick Htick0 Hconn.
  intros Hn. unfold _frames. cbn [sample own pbind wp fst snd]. set (t := monotonic w).
  assert (past t w) as Hw by apply Qle_refl.
  apply (wp_passes (emit _) _ _ t); [apply writes_emit|done|done|]. intros [] w1 Hw1.
  apply (wp_passes (match cursor with Some _ => _ | None => _ end) _ _ t); [|done|done|].
  { destruct cursor; [apply writes_gap_after|done]. }
  intros resync w2 Hw2. cbv zeta.
  apply (wp_passes (window job) _ _ t); [apply writes_window|done|done|]. intros [lo hi] w3 Hw3.
  apply (wp_passes (step _) _ _ t); [apply writes_step|done|done|]. intros [done_ ?] w4 Hw4.
  apply (wp_passes (emit _) _ _ t); [apply writes_emit|done|done|]. intros [] w5 Hw5.
  apply (wp_passes (if (resync : bool) then _ else _) _ _ t); [|done|done|].
  { destruct resync; [apply writes_emit|done]. }
  intros [] w6 Hw6. apply (wp_passes (history _ _ _) _ _ t); [apply writes_history|done|done|].
  intros evs w7 Hw7. apply (wp_passes (send_events _ _ _) _ _ t); [apply writes_send|done|done|].
  intros [last' complete'] w8 Hw8. apply (wp_loop_ends _ _ _ _ t); [done| |unfold rounds_for in Hn; lia].
  pose proof (rounds_for_enough (sse_max_duration_s cfg)) as Hd.
  assert (inject_Z (Z.of_nat (rounds_for (sse_max_duration_s cfg) tick)) * tick <= inject_Z (Z.of_nat rounds) * tick)%Q
    as Hle; [|clearbody t; lra].
  apply Qmult_le_compat_r; [|lra]. rewrite <- Zle_Qle. lia.
Qed.
End duration.

(** ** The cap *)

(** Arrivals, and departures of those who hold a slot: what the count, the peak and
    the refusals are. *)
Inductive slot_history (n : Z) : list bool -> Z -> SubscriberSlots -> Prop :=
| slots_new : slot_history n [] 0 (new_slots n)
| slots_arrive log held s : slot_history n log held s ->
    slot_history n (log ++ [(acquire s).2]) (held + Z.b2z (acquire s).2) (acquire s).1
| slots_leave log held s : slot_history n log held s -> 0 < held ->
    slot_history n log (held - 1) (release s).

Section slots.
Context {W : Type} `{RedisLaws W} `{Clock W} `{Memory connection W} `{Memory SubscriberSlots W}.
Context {MS : MemoryLaws SubscriberSlots W}.
Context (monotonic : W -> Q) (is_disconnected : W -> bool).
Context (cfg : sse_config) (trace_id job : string).
Context (rely : W -> W -> Prop) (fault : exn -> Prop).
Context (Hrely : forall w w', rely w w' -> (mem w' : SubscriberSlots) = mem w).
Context (Hconn : forall (c : connection) w, (mem (set_mem c w) : SubscriberSlots) = mem w).
Implicit Types w : W.

Definition holds (s : SubscriberSlots) w : Prop := mem w = s.

Lemma wp_holds {A} (p : prog W A) s w : guar writes p -> holds s w ->
  wp rely fault (holds s) p (λ _, holds s) w.
Proof using Hrely Hconn.
  intros Hp Hw. eapply guar_keeps; [| |exact Hp|exact Hw].
  - unfold holds. intros w1 w2 [-> |[f ->]] Hw1; [done|by rewrite Hconn].
  - unfold holds. intros w1 w2 Hr Hw1. by rewrite (Hrely _ _ Hr).
Qed.

(** However the generator ends, it has given back the slot it was started with. *)
Lemma wp_events_release rounds total cursor s w : holds s w ->
  wp rely fault (holds s) (_events monotonic is_disconnected cfg trace_id rounds job total cursor)
    (λ _, holds (release s)) w.
Proof using Hrely Hconn MS.
  intros Hw. apply wp_finally. apply (wp_mono _ _ _ _ (λ _, holds s)).
  { unfold holds. intros x w1 <-. by rewrite mem_set_mem. }
  apply wp_catch. eapply wp_mono; [|apply wp_holds; [apply writes_frames|done]].
  intros [e|b] w1 Hw1; [|done].
  destruct e; try done; (apply wp_holds; [|done]); (apply guar_bind; [apply writes_emit|done]).
Qed.
End slots.

(** ** Properties *)

(** C14: a subscriber is served faithfully.  While others only append to the job's
    stream, at every point of a connection - whatever commands and writes fail, and
    however many rounds the tail has run - the event frames written are exactly the
    entries that follow the client's cursor, decoded, in order, none skipped and none
    repeated; or, if the cursor was already trimmed away, those of the whole retained
    stream, after a frame that announced the gap. *)
Theorem subscriber_gets_every_event {W} `{RedisLaws W} `{Clock W} `{Memory connection W}
  `{Memory SubscriberSlots W} `{!MemoryLaws connection W} `{!MemoryLaws SubscriberSlots W}
  monotonic is_disconnected cfg trace_id job rounds total raw (rely : W -> W -> Prop) (fault : exn -> Prop) w :
  (forall (s : SubscriberSlots) w, (mem (set_mem s w) : connection) = mem w) ->
  (forall w w', rely w w' -> appends job w w') -> stream_ok job w -> (mem w : connection) = [] ->
  wp rely fault (faithful job (parse_entry_id raw))
    (_events monotonic is_disconnected cfg trace_id rounds job total (parse_entry_id raw))
    (λ _, faithful job (parse_entry_id raw)) w.
Proof.
  intros Hslots Hrely Hok Hnew. set (cursor := parse_entry_id raw).
  assert (exists base, at_cursor cursor base /\ starts job cursor base w) as (base & Hc & Hs).
  { unfold at_cursor, starts, cursor. destruct (parse_entry_id raw) as [c|] eqn:E; [|by exists None].
    apply parse_entry_id_tuple in E as [t Ht]. exists (Some t). split; [by exists t|left; by exists t]. }
  apply wp_finally, wp_catch. eapply wp_mono; [|apply (wp_frames _ _ cfg trace_id job cursor rely fault Hrely
    rounds total base w Hc)].
  - assert (forall w1, faithful job cursor w1 -> faithful job cursor (set_mem (release (mem w1)) w1)) as Hrel.
    { intros w1 (b & k & [Ho1 Ho2] & Hst & evs & Ed & Hk & Hf). exists b, k.
      unfold sending, stream_ok, delivered, starts, entries. rewrite view_set_mem, Hslots.
      split_and!; [done..|]. by exists evs. }
    intros [e|b] w1 Hw1; [|by apply Hrel].
    destruct e; try (by apply Hrel); (eapply wp_mono; [|by apply wp_unavailable]); intros x w2; apply Hrel.
  - split; [exact Hok|]. split; [exact Hs|]. exists []. split_and!; [done|lia|by rewrite Hnew].
Qed.

(** C34: a stream ends.  If every command takes at least some [tick] of the clock, the
    generator - whatever the job does, whatever fails - has returned or raised within
    a number of rounds that depends on the duration limit only. *)
Theorem stream_ends {W} `{RedisLaws W} `{Clock W} `{Memory connection W} `{Memory SubscriberSlots W}
  monotonic is_disconnected cfg trace_id job rounds total cursor (rely : W -> W -> Prop) (fault : exn -> Prop)
  (tick : Q) w :
  (0 < tick)%Q -> (forall w w', rely w w' -> (monotonic w + tick <= monotonic w')%Q) ->
  (forall (c : connection) w, (monotonic (set_mem c w) == monotonic w)%Q) ->
  (rounds_for (sse_max_duration_s cfg) tick <= rounds)%nat ->
  wp rely fault (λ _, True)
    (_events monotonic is_disconnected cfg trace_id rounds job total cursor) (λ x _, x <> inr false) w.
Proof.
  intros Ht Hrely Hc Hn. apply wp_finally, wp_catch. eapply wp_mono; [|by apply (wp_frames_end _ _ _ _ _ _ _ tick)].
  intros [e|b] w1 Hw1; [|done].
  destruct e; try done; (apply wp_bind; eapply wp_mono; [|by apply wp_trivial]);
    (instantiate (1 := λ x _, match x with inl _ => True | inr _ => True end)); by intros [].
Qed.

(** the cap is exact.  Over any history of arrivals, and of departures of those
    admitted, the count is the number of those connected and never above the limit,
    the peak lies between the two, and every refusal is counted. *)
Theorem slots_exact n log held s : 0 <= n -> slot_history n log held s ->
  limit s = n /\ active s = held /\ 0 <= held <= n /\ held <= peak s <= n /\
  refused s = Z.of_nat (countb negb log).
Proof.
  intros Hn. induction 1 as [|log held s _ IH|log held s _ IH Hh]; [simpl; lia|..].
  - unfold acquire. destruct (limit s <=? active s) eqn:E; rewrite countb_app; simpl; lia.
  - simpl. lia.
Qed.

(** a slot is taken once and given back once.  The route takes a slot exactly when
    it returns a body, and only below the limit; a refusal only counts itself; any
    other error takes nothing.  The body keeps the slot at every point and gives it
    back however it ends. *)
Theorem slot_given_back {W} `{RedisLaws W} `{Clock W} `{Memory connection W} `{Memory SubscriberSlots W}
  `{!MemoryLaws SubscriberSlots W}
  monotonic is_disconnected cfg trace_id job rounds header query (rely : W -> W -> Prop) (fault : exn -> Prop) w :
  (forall w w', rely w w' -> (mem w' : SubscriberSlots) = mem w) ->
  (forall (c : connection) w, (mem (set_mem c w) : SubscriberSlots) = mem w) ->
  (forall e, fault e -> e <> HTTPException 503) ->
  let s : SubscriberSlots := mem w in
  wp rely fault (holds s)
    (stream_results monotonic is_disconnected cfg trace_id rounds job header query)
    (λ x w', match x with
             | inr body => active s < limit s /\ holds (acquire s).1 w' /\
                           wp rely fault (holds (acquire s).1) body (λ _, holds (release (acquire s).1)) w'
             | inl (HTTPException 503) => limit s <= active s /\ holds (acquire s).1 w'
             | inl _ => holds s w'
             end) w.
Proof.
  intros Hr Hc Hf s. apply wp_bind. intros w1 Hw1. assert (holds s w1) as Hs by (unfold holds; by rewrite (Hr _ _ Hw1)).
  assert (forall e w2, e <> HTTPException 503 -> holds s w2 ->
    match e with HTTPException 503 => limit s <= active s /\ holds (acquire s).1 w2 | _ => holds s w2 end) as Herr.
  { intros e w2 He Hw2. destruct e as [| | | | | | | | | | | | |c| |]; try done. repeat case_match; done. }
  split_and!; [done| |intros e He; split_and!; [done|..]; by apply Herr; [apply Hf|]].
  cbn [fst snd of_result wp]. destruct (bool_decide _); [done|].
  destruct (match get_job job w1 !! "total_pages" with Some t => int t | None => inr 0 end) as [e|total] eqn:E.
  - apply Herr; [|done].
    destruct (_ !! _) as [t|]; [|done]. unfold int in E. destruct (py_int t); [done|]. by injection E as <-.
  - cbn [of_result pbind wp own]. unfold holds in Hs. rewrite Hs. destruct (acquire s) as [s' ok] eqn:Ea.
    cbn [fst snd]. unfold acquire in Ea. destruct (limit s <=? active s) eqn:El; injection Ea as <- <-.
    + cbn. split; [lia|]. unfold holds. by rewrite mem_set_mem.
    + cbn [negb wp]. split; [lia|]. split; [unfold holds; by rewrite mem_set_mem|].
      apply wp_events_release; [done|done|]. unfold holds. by rewrite mem_set_mem.
Qed.

(** *** A finished job *)

Definition demo_config : sse_config :=
  {| sse_retry_ms := 2000; sse_history_limit := 1; sse_batch := 64; sse_max_duration_s := 900 |}.

Definition finished_stream : sview :=
  SView false
    [SEntry (1, 0)%N {["seq" := "1"; "event" := PAGE_FINAL; "data" := "{}"]} true;
     SEntry (2, 0)%N {["seq" := "2"; "event" := JOB_COMPLETE; "data" := "{}"]} true] [].

Definition finished : rview * connection * SubscriberSlots :=
  ((vset_stream (out_stream "j") finished_stream
      (vhset (job_key "j") {["total_pages" := "1"; "done_count" := "1"]} (rview_init 3)), [] : connection),
   {| limit := 2; active := 1; refused := 0; peak := 1 |}).

Definition seconds (w : rview * connection * SubscriberSlots) : Q := inject_Z (now_ms w).

Definition demo_events (cursor : option string) : prog (rview * connection * SubscriberSlots) bool :=
  _events seconds (λ _, false) demo_config "t" 5 "j" 1 cursor.

(** Both events to a new client, the second to one that has the first. *)
Example subscriber_gets_every_event_witness :
  event_frames (run (demo_events None) finished).2.1.2 =
    sse <$> [{| ev_entry_id := "1-0"; ev_seq := 1; ev_event := PAGE_FINAL; ev_data := [] |};
             {| ev_entry_id := "2-0"; ev_seq := 2; ev_event := JOB_COMPLETE; ev_data := [] |}] /\
  length (event_frames (run (demo_events (Some "1-0")) finished).2.1.2) = 1%nat /\
  wp eq (λ _, True) (faithful "j" (Some "1-0")) (demo_events (Some "1-0"))
    (λ _, faithful "j" (Some "1-0")) finished.
Proof.
  split; [vm_compute; reflexivity|]. split; [vm_compute; reflexivity|].
  refine (subscriber_gets_every_event seconds (λ _, false) demo_config "t" "j" 5 1 (Some " 1-0") eq (λ _, True)
    finished _ _ _ _).
  - done.
  - intros w w' -> Hok. done.
  - split; repeat constructor.
  - reflexivity.
Defined.

Example stream_ends_witness :
  rounds_for 900 (1 # 2) = 1802%nat /\
  wp (λ w w', now_ms w + 1 <= now_ms w') (λ _, True) (λ _, True)
    (_events seconds (λ _, false) demo_config "t" 1802 "j" 1 None) (λ x _, x <> inr false) finished.
Proof.
  split; [reflexivity|].
  refine (stream_ends seconds (λ _, false) demo_config "t" "j" 1802 1 None _ (λ _, True) (1 # 2) finished _ _ _ _).
  - reflexivity.
  - intros w w' Hw. unfold seconds. assert (inject_Z (now_ms w) + 1 <= inject_Z (now_ms w'))%Q; [|lra].
    change 1%Q with (inject_Z 1). rewrite <- inject_Z_plus, <- Zle_Qle. done.
  - intros c w. apply Qeq_refl.
  - apply Nat.leb_le. reflexivity.
Defined.

(** Two slots, three arrivals, a departure. *)
Example slots_exact_witness :
  exists s, slot_history 2 [true; true; false] 1 s /\ refused s = 1 /\ active s = 1 /\ peak s = 2.
Proof.
  assert (slot_history 2 [true; true; false] 1
    {| limit := 2; active := 1; refused := 1; peak := 2 |}) as Hs.
  { apply (slots_leave 2 _ 2 {| limit := 2; active := 2; refused := 1; peak := 2 |}); [|done].
    apply (slots_arrive 2 [true; true] 2 {| limit := 2; active := 2; refused := 0; peak := 2 |}).
    apply (slots_arrive 2 [true] 1 {| limit := 2; active := 1; refused := 0; peak := 1 |}).
    apply (slots_arrive 2 [] 0 (new_slots 2)). apply slots_new. }
  eexists. split; [exact Hs|].
  destruct (slots_exact 2 _ _ _ ltac:(done) Hs) as (_ & _ & _ & _ & Hr). done.
Defined.

Example slot_given_back_witness :
  active (run (demo_events None) finished).2.2 = 0 /\
  wp eq (λ _, False) (holds (mem finished))
    (stream_results seconds (λ _, false) demo_config "t" 5 "j" None (Some "1-0"))
    (λ x w', match x with
             | inr body => 1 < 2 /\ active (mem w') = 2 | inl _ => True
             end) finished.
Proof.
  split; [vm_compute; reflexivity|].
  eapply wp_mono; [|refine (slot_given_back seconds (λ _, false) demo_config "t" "j" 5 None (Some "1-0") eq
    (λ _, False) finished _ _ _)].
  - intros [e|body] w' Hx; [done|]. destruct Hx as (_ & Hw & _). split; [done|]. unfold holds in Hw. by rewrite Hw.
  - by intros w w' ->.
  - done.
  - done.
Defined.
