(* ===== verification/Closing.v ===== *)
(** * How the stream of a finished job ends ([app/api/stream.py])

    A subscriber waits for [job.complete].  The worker that completes the job announces
    it ([Completion.v]), but the announcement may be lost or trimmed; when the tail is
    idle the generator therefore asks the job's records, and says so itself.  Theorem: a
    client that stays connected to a finished job is told, from the stream or from the
    records, or that the connection has reached its duration limit - after no more
    rounds than the stream has events. *)

From Stdlib Require Import QArith.
From S2P Require Import Prelude Py Json Redis Prog PageState Results Pipeline Sse.
#[local] Open Scope Z_scope.

Section closing.
Context {W : Type} `{RedisLaws W} `{Clock W} `{Memory connection W} `{Memory SubscriberSlots W}.
Context {MC : MemoryLaws connection W} {MS : MemoryLaws SubscriberSlots W}.
Context (monotonic : W -> Q) (is_disconnected : W -> bool) (Hstays : forall w, is_disconnected w = false).
Context (cfg : sse_config) (trace_id job : string) (n N : nat).
Implicit Types w : W.

#[local] Abbreviation entry := (eid * fields)%type.

(** A frame that says the job is complete: an event of the stream, or the server's own. *)
Definition complete_frame (f : string) : Prop :=
  (exists payload, f = _frame JOB_COMPLETE payload) \/ exists ev, ev_event ev = JOB_COMPLETE /\ f = sse ev.

Definition told w : Prop := exists f, f ∈ (mem w : connection) /\ complete_frame f.
Definition timed_out w : Prop := exists last_id, duration_frame job last_id ∈ (mem w : connection).

(** Every entry of the stream can be read. *)
Definition readable (l : list entry) : Prop := Forall (λ e, exists ev, _decode (eid_str e.1) e.2 = inr ev) l.

(** The job is finished, its stream readable and of at most [N] events. *)
Definition finished_job w : Prop :=
  job_ok job n (view w) /\ done_pages (view w) job n = n /\ readable (entries job w) /\
  (length (entries job w) <= N)%nat.

(** The others append to the stream of the finished job at most. *)
Context (rely : W -> W -> Prop) (Hrely : forall w w', rely w w' -> appends job w w').
Context (Hdone : forall w w', rely w w' -> finished_job w -> finished_job w').
Let no_fault (_ : exn) : Prop := False.
Let any (_ : W) : Prop := True.
#[local] Abbreviation wp := (wp rely no_fault any).

Context (cursor : option string).
#[local] Abbreviation sent := (sent job cursor).

(** A connection that has sent [k] events. *)
Definition serving base k last_id w : Prop := sent base k last_id w /\ finished_job w.

Lemma decode_readable l : readable l -> exists evs, decode_all l = inr evs.
Proof using Type.
  induction 1 as [|e l [ev E] _ [evs IH]]; [by exists []|]. exists (ev :: evs). cbn [decode_all].
  by rewrite E, IH.
Qed.

Lemma after_readable base k c l : readable l -> readable (take c (drop k (after base l))).
Proof using Type.
  intros Hl. apply Forall_take, Forall_drop. unfold after. apply Forall_forall.
  intros e [_ He]%list_elem_of_filter. by apply (proj1 (Forall_forall _ _) Hl).
Qed.

Lemma finished_write (c : connection) w : finished_job w -> finished_job (set_mem c w).
Proof using MC. unfold finished_job. by rewrite entries_set, view_set_mem. Qed.

Lemma serving_rely base k last_id w w' : rely w w' -> serving base k last_id w -> serving base k last_id w'.
Proof using Hrely Hdone.
  intros Hr [Hs Hf]. split; [|by apply (Hdone w)]. by apply (sent_stable job cursor rely Hrely base k last_id w).
Qed.

Lemma told_rely w w' : rely w w' -> stream_ok job w -> told w -> told w'.
Proof using Hrely.
  intros Hr Hok (f & Hf & Hc). destruct (Hrely w w' Hr Hok) as (_ & _ & Hm). exists f. by rewrite Hm.
Qed.

Lemma told_write f w : told w -> told (set_mem ((mem w : connection) ++ [f]) w).
Proof using MC. intros (g & Hg & Hc). exists g. rewrite mem_set_mem. split; [|done]. apply elem_of_app. by left. Qed.

Lemma told_now f w : complete_frame f -> told (set_mem ((mem w : connection) ++ [f]) w).
Proof using MC. intros Hf. exists f. rewrite mem_set_mem. split; [|done]. apply elem_of_app. right. in_list. Qed.

(** *** The parts of the generator *)

Lemma wp_emit_other f base k last_id (Q : result unit -> W -> Prop) w : strip_prefix "id: " f = None ->
  serving base k last_id w ->
  (forall w', serving base k last_id w' -> f ∈ (mem w' : connection) -> Q (inr tt) w') ->
  wp (emit f) Q w.
Proof using MC Hrely Hdone.
  intros Hf Hw HQ w1 Hr. apply (serving_rely _ _ _ _ _ Hr) in Hw as [Hs Hd].
  split_and!; [done| |by intros e []]. apply HQ.
  - split; [by apply sent_other|by apply finished_write].
  - cbn. rewrite mem_set_mem. apply elem_of_app. right. in_list.
Qed.

Lemma wp_ask_serving {X} (f : W -> X) base k last_id (Q : result X -> W -> Prop) w : serving base k last_id w ->
  (forall w', serving base k last_id w' -> Q (inr (f w')) w') -> wp (ask f) Q w.
Proof using Hrely Hdone.
  intros Hw HQ w1 Hr. apply (serving_rely _ _ _ _ _ Hr) in Hw. split_and!; [done|by apply HQ|by intros e []].
Qed.

(** The records of a finished job. *)
Lemma wp_progress base k last_id (Q : result (Z * Z) -> W -> Prop) w : serving base k last_id w ->
  (forall w', serving base k last_id w' -> Q (inr (Z.of_nat n, Z.of_nat n)) w') ->
  wp (step (λ w, (progress job w, w))) Q w.
Proof using Hrely Hdone.
  intros Hw HQ w1 Hr. apply (serving_rely _ _ _ _ _ Hr) in Hw. destruct Hw as [Hs (Hok & Hd & Hread)].
  assert (progress job w1 = inr (Z.of_nat n, Z.of_nat n)) as E.
  { unfold progress. rewrite !hget_view, (jo_done _ _ _ Hok), (jo_total _ _ _ Hok), !int_or_zero_str.
    by rewrite Hd. }
  cbn [fst snd]. rewrite E. cbn. split_and!; [done| |by intros e []]. by apply HQ; split.
Qed.

Lemma batch_bound base k evs w : batch job base k evs w -> finished_job w -> (k + length evs <= N)%nat.
Proof using Type.
  intros [_ Hk] (_ & _ & _ & HN). etrans; [exact Hk|]. etrans; [|exact HN]. apply length_filter.
Qed.

Lemma wp_read_serving base k last_id t c (Q : result (list ResultEvent) -> W -> Prop) w :
  serving base k last_id w ->
  (forall w', serving base k last_id w' ->
     entries_after (out_stream job) t c w' = take c (drop k (after base (entries job w')))) ->
  (forall evs w', serving base k last_id w' -> batch job base k evs w' -> Q (inr evs) w') ->
  wp (let! l := ask (entries_after (out_stream job) t c) in of_result (decode_all l)) Q w.
Proof using Hrely Hdone.
  intros Hw He HQ. apply wp_bind. apply (wp_ask_serving _ base k last_id); [done|]. intros w1 Hw1.
  rewrite (He w1 Hw1). destruct Hw1 as [Hs Hf]. destruct Hf as (Hok & Hd & Hread & HN).
  destruct (decode_readable _ (after_readable base k c _ Hread)) as [evs E]. rewrite E. cbn [of_result wp].
  apply HQ; [by split|]. pose proof (decode_all_length _ _ E) as Hl.
  destruct Hs as [(_ & _ & evs0 & _ & Hk & _) _]. unfold batch. rewrite Hl, length_take, length_drop.
  split; [|lia]. rewrite <- length_drop, <- take_take, (take_ge _ (length _)) by done. exact E.
Qed.

Lemma wp_send_told base evs : forall k last_id complete w,
  serving base k last_id w -> batch job base k evs w -> (complete = true -> told w) ->
  wp (send_events evs last_id complete)
    (λ x w', exists last' complete', x = inr (last', complete') /\ serving base (k + length evs) last' w' /\
       (complete' = true -> told w')) w.
Proof using MC Hrely Hdone.
  unfold send_events.
  induction evs as [|ev evs IH]; intros k last_id complete w Hw Hb Hc.
  { exists last_id, complete. by rewrite Nat.add_0_r. }
  cbn [fold_prog]. apply wp_bind, wp_bind. intros w1 Hr. pose proof Hw as [[[Hok _] _] _].
  apply (batch_rely job rely Hrely _ _ _ _ _ Hr) in Hb; [|done].
  destruct (serving_rely _ _ _ _ _ Hr Hw) as [Hs Hf].
  assert (complete = true -> told w1) as Hc1 by (intros; apply (told_rely w); auto).
  destruct (sent_event job cursor _ _ _ _ _ _ Hs Hb) as [Hs' Hb'].
  split_and!; [done| |by intros e []]. cbn [fst snd of_result pbind wp].
  assert (k + length (ev :: evs) = S k + length evs)%nat as -> by (simpl; lia).
  apply IH; [split; [done|by apply finished_write]|done|]. intros [Hx|Hx]%orb_true_iff.
  - by apply told_write, Hc1.
  - apply told_now. right. exists ev. by apply String.eqb_eq in Hx.
Qed.

(** *** The loop and the generator *)

Context (Hn : (0 < n)%nat).

Definition ends_told (x : result bool) w : Prop := x = inr true /\ (told w \/ timed_out w).

Lemma wp_loop_told rounds base started : forall k last_id complete w,
  serving base k last_id w -> (complete = true -> told w) -> (N < k + rounds)%nat ->
  wp (tail_loop monotonic is_disconnected cfg rounds job started last_id complete) ends_told w.
Proof using MC Hrely Hdone Hstays Hn.
  induction rounds as [|rounds IH]; intros k last_id complete w Hw Hc HN;
    (destruct complete; [by split; [|left; apply Hc]|]).
  { destruct Hw as [[(_ & _ & _ & _ & Hk & _) _] (_ & _ & _ & HN')].
    pose proof (length_filter (λ e : entry, after_id base e.1 = true) (entries job w)).
    unfold after in Hk. lia. }
  cbn [tail_loop]. apply wp_bind. apply (wp_ask_serving _ base k last_id); [done|]. intros w1 Hw1.
  rewrite Hstays. cbn [sample own pbind Prog.wp fst snd]. destruct (negb _).
  { apply wp_bind. apply (wp_emit_other _ base k last_id); [done..|]. intros w2 _ Hin.
    split; [done|]. right. by exists last_id. }
  apply wp_bind. destruct (proj2 (proj1 Hw1)) as (t & Ht & _). unfold tail. rewrite Ht. cbn [of_result pbind].
  apply (wp_read_serving base k last_id (Some t)); [done| |].
  { intros w2 [Hs2 _]. by apply (entries_after_sent job cursor _ _ last_id). }
  intros [|ev evs] w2 Hw2 Hb.
  - cbn [sample own pbind Prog.wp fst snd]. apply wp_bind.
    apply (wp_emit_other _ base k last_id); [done..|]. intros w3 Hw3 _.
    apply wp_bind. apply (wp_progress base k last_id); [done|]. intros w4 Hw4.
    assert (negb (Z.of_nat n =? 0) && (Z.of_nat n <=? Z.of_nat n) = true) as ->.
    { apply andb_true_iff. split; [apply negb_true_iff, Z.eqb_neq; lia|apply Z.leb_le; lia]. }
    apply wp_bind. apply (wp_emit_other _ base k last_id); [done..|]. intros w5 _ Hin.
    split; [done|]. left. eexists. split; [exact Hin|]. left. by eexists.
  - apply wp_bind. eapply wp_mono; [|by apply (wp_send_told base (ev :: evs) k)].
    intros x w3 (last' & c' & -> & Hw3 & Hc3). apply (IH (k + length (ev :: evs))%nat); [done..|]. simpl. lia.
Qed.

Lemma wp_gap base k last_id c (Q : result bool -> W -> Prop) w : at_cursor (Some c) base ->
  serving base k last_id w -> (forall b w', serving base k last_id w' -> Q (inr b) w') ->
  wp (gap_after job c) Q w.
Proof using Hrely Hdone.
  intros (t & Ht & _) Hw HQ. unfold gap_after, window. apply wp_bind, wp_bind.
  apply (wp_ask_serving _ base k last_id); [done|]. intros w1 Hw1. apply wp_bind.
  apply (wp_ask_serving _ base k last_id); [done|]. intros w2 Hw2. cbn [Prog.wp].
  destruct (head (xrange (out_stream job) w1)) as [e|]; cbn; [|by apply HQ].
  rewrite Ht, id_tuple_eid. cbn. by apply HQ.
Qed.

Lemma wp_history_told base c (Q : result (list ResultEvent) -> W -> Prop) w : at_cursor c base ->
  serving base 0 (default "0" c) w ->
  (forall evs w', serving base 0 (default "0" c) w' -> batch job base 0 evs w' -> Q (inr evs) w') ->
  wp (history job c (sse_history_limit cfg)) Q w.
Proof using Hrely Hdone.
  intros Hc Hw HQ. unfold history.
  assert (wp (let! l := ask (entries_after (out_stream job) base (sse_history_limit cfg)) in of_result (decode_all l)) Q w)
    as Hread.
  { apply (wp_read_serving base 0 (default "0" c)); [done| |exact HQ].
    intros w1 _. rewrite entries_after_view. reflexivity. }
  destruct c as [c|]; cbn in Hc; [destruct Hc as (t & Ht & ->)|rewrite Hc in Hread]; [|exact Hread].
  rewrite Ht. exact Hread.
Qed.

(** Once told of the gap, from the oldest entry. *)
Lemma serving_resync lo base l0 w : serving base 0 l0 w -> is_Some cursor ->
  resync_frame job lo ∈ (mem w : connection) -> serving None 0 "0" w.
Proof using Type.
  intros [[Hs _] Hf] [c Hc] Hin. split; [|done]. split.
  - eapply (sending_from job cursor); [exact Hs|]. unfold starts. rewrite Hc. right. split; [done|]. by exists lo.
  - exists (0, 0). split; [reflexivity|by right].
Qed.

Lemma wp_frames_told rounds total base w : at_cursor cursor base ->
  serving base 0 (default "0" cursor) w -> (N < rounds)%nat ->
  wp (_frames monotonic is_disconnected cfg trace_id rounds job total cursor) ends_told w.
Proof using MC Hrely Hdone Hstays Hn.
  intros Hc Hw HN. unfold _frames. cbn [sample own pbind Prog.wp fst snd]. set (l0 := default "0" cursor) in *.
  apply wp_bind. apply (wp_emit_other _ base 0 l0); [done..|]. intros w1 Hw1 _.
  apply wp_bind. eapply (wp_mono _ _ _ _ (λ x w', exists b : bool, x = inr b /\ (b = true -> is_Some cursor) /\ serving base 0 l0 w')).
  2:{ destruct cursor as [c|] eqn:Ec; [|by exists false; split_and!].
      apply (wp_gap base 0 l0); [exact Hc|exact Hw1|].
      intros b w2 Hw2. exists b. split_and!; [done|by exists c|exact Hw2]. }
  intros x w2 (resync & -> & Hsome & Hw2). cbv zeta. unfold window. apply wp_bind, wp_bind.
  apply (wp_ask_serving _ base 0 l0); [done|]. intros w3 Hw3. apply wp_bind.
  apply (wp_ask_serving _ base 0 l0); [done|]. intros w4 Hw4. cbn [Prog.wp].
  apply wp_bind. apply (wp_progress base 0 l0); [done|]. intros w5 Hw5.
  apply wp_bind. apply (wp_emit_other _ base 0 l0); [done..|]. intros w6 Hw6 _.
  set (base2 := if resync then None else base). set (c2 := if resync then None else cursor).
  assert (at_cursor c2 base2) as Hc2 by (unfold c2, base2; by destruct resync).
  apply wp_bind. eapply (wp_mono _ _ _ _ (λ x w', x = inr tt /\ serving base2 0 (default "0" c2) w')).
  2:{ unfold base2, c2. destruct resync; [|done]. apply (wp_emit_other _ base 0 l0); [done..|].
      intros w7 Hw7 Hin. split; [done|]. eapply (serving_resync _ base l0); [done|by apply Hsome|exact Hin]. }
  intros x w7 [-> Hw7]. apply wp_bind. apply (wp_history_told base2 c2); [done..|]. intros evs w8 Hw8 Hb.
  apply wp_bind. eapply wp_mono; [|by apply (wp_send_told base2 evs 0)].
  intros x w9 (last' & c' & -> & Hw9 & Hc9). apply (wp_loop_told _ base2 _ (0 + length evs)); [done..|]. lia.
Qed.
End closing.

(** ** Properties *)

(** C15: a client that stays is told that its job is finished.  Whatever its cursor, and
    while others only append to the stream: with one round more than the stream will ever
    have events the generator has returned, and the client was sent a [job.complete] -
    the announcement, or the server's own if the announcement was lost or trimmed - or
    that the connection reached its limit. *)
Theorem finished_job_told {W} `{RedisLaws W} `{Clock W} `{Memory connection W} `{Memory SubscriberSlots W}
  `{!MemoryLaws connection W} `{!MemoryLaws SubscriberSlots W}
  monotonic is_disconnected cfg trace_id job n N rounds total raw (rely : W -> W -> Prop) w :
  (forall w, is_disconnected w = false) ->
  (forall (s : SubscriberSlots) w, (mem (set_mem s w) : connection) = mem w) ->
  (forall w w', rely w w' -> appends job w w' /\ (finished_job job n N w -> finished_job job n N w')) ->
  (0 < n)%nat -> (N < rounds)%nat ->
  stream_ok job w -> (mem w : connection) = [] -> finished_job job n N w ->
  wp rely (λ _, False) (λ _, True)
    (_events monotonic is_disconnected cfg trace_id rounds job total (parse_entry_id raw))
    (λ x w', x = inr true /\ (told w' \/ timed_out job w')) w.
Proof.
  intros Hstays Hslots Hrely Hn HN Hok Hnew Hf. set (cursor := parse_entry_id raw).
  assert (exists base, at_cursor cursor base /\ starts job cursor base w) as (base & Hc & Hs).
  { unfold at_cursor, starts, cursor. destruct (parse_entry_id raw) as [c|] eqn:E; [|by exists None].
    apply parse_entry_id_tuple in E as [t Ht]. exists (Some t). split; [by exists t|left; by exists t]. }
  assert (sent job cursor base 0 (default "0" cursor) w) as Hsent.
  { split.
    - split; [exact Hok|]. split; [exact Hs|]. exists []. split_and!; [done|lia|by rewrite Hnew].
    - destruct cursor as [c|]; cbn in Hc.
      + destruct Hc as (t & Ht & ->). exists t. split; [done|by left].
      + exists (0, 0). split; [reflexivity|by right]. }
  apply wp_finally, wp_catch. eapply wp_mono; [|apply (wp_frames_told monotonic is_disconnected Hstays cfg trace_id
    job n N rely (λ a b Hab, proj1 (Hrely a b Hab)) (λ a b Hab, proj2 (Hrely a b Hab)) cursor Hn rounds total base);
    [done|by split|done]].
  intros x w' [-> Hw']. split; [done|]. unfold told, timed_out in *. by rewrite Hslots.
Qed.

(** ** Witness *)

(** A job of one page whose page is done and whose announcement was never published. *)
Definition unannounced : rview := demo_step DONE (demo_step VLM_RUNNING demo_layout_done).

Lemma unannounced_ok : page_at "j" 1 0 DONE unannounced.
Proof.
  apply (demo_step_ok VLM_RUNNING); [apply elem_of_PREDECESSORS; in_list|].
  apply (demo_step_ok LAYOUT_DONE); [apply elem_of_PREDECESSORS; in_list|apply demo_layout_done_ok].
Qed.

Definition waiting : rview * connection * SubscriberSlots :=
  ((unannounced, [] : connection), {| limit := 2; active := 1; refused := 0; peak := 1 |}).

Lemma waiting_finished : finished_job "j" 1 0 waiting.
Proof.
  destruct unannounced_ok as [Hok Hs]. split; [exact Hok|]. split; [|by split; [constructor|]].
  apply done_pages_full. intros i Hi. assert (i = 0%nat) as -> by lia. vm_compute. reflexivity.
Qed.

Example finished_job_told_witness :
  entries "j" waiting = [] /\
  wp eq (λ _, False) (λ _, True) (_events seconds (λ _, false) demo_config "t" 1 "j" 1 (parse_entry_id None))
    (λ x w', x = inr true /\ (told w' \/ timed_out "j" w')) waiting.
Proof.
  split; [vm_compute; reflexivity|].
  refine (finished_job_told seconds (λ _, false) demo_config "t" "j" 1 0 1 1 None eq waiting _ _ _ _ _ _ _
    waiting_finished); try done; try lia.
  - intros w w' ->. split; [|done]. by intros Hok.
  - split; vm_compute; constructor.
Defined.
