(* ===== verification/Metrics.v ===== *)
(** * Metrics ([common/metrics.py], [app/worker/metrics.py])

    The three primitives, the exposition format, the flush of a worker's registry to
    Redis, and the counters a worker derives from totals that others own.  A value is
    an exact rational, or one of the specials where it is rendered; [repr] of a float
    is a parameter.  The flush is the list of commands of its pipeline.  Theorems: a
    series is read back from its field, so distinct series stay distinct; a scraper
    reads a rendered sample back; the cumulative buckets count the observations; no
    increment is lost or counted twice between the counter and the commands; derived
    counters equal the totals they follow. *)

From S2P Require Import Prelude Py Json Results.
From Stdlib Require Import QArith Ascii Lqa Sorting.Sorted.
From stdpp Require Import sorting.
#[local] Open Scope Z_scope.

(** ** Labels *)

Definition labels : Type := list (string * string).

(** [sorted(labels.items())]; the names are distinct. *)
Definition name_le (a b : string * string) : Prop := String.le a.1 b.1.
#[global] Instance name_le_dec : RelDecision name_le.
Proof. intros a b. unfold name_le. apply _. Defined.
#[global] Instance name_le_total : Total name_le.
Proof. intros a b. apply (total String.le). Qed.
#[global] Instance name_le_trans : Transitive name_le.
Proof. intros a b c. unfold name_le. apply transitivity. Qed.

Definition sorted_labels (l : labels) : labels := merge_sort name_le l.

Definition _SEP : string := String "031" "".

Definition json_labels (l : labels) : json := JObj ((λ kv, (kv.1, JStr kv.2)) <$> l).

Definition encode_field (name : string) (l : labels) : string :=
  name +:+ _SEP +:+ dumps (json_labels (sorted_labels l)).

(** [str.partition(_SEP)] *)
Fixpoint partition_sep (s : string) : string * string :=
  match s with
  | EmptyString => ("", "")
  | String c s' => if Ascii.eqb c "031"%char then ("", s')
                   else let '(a, b) := partition_sep s' in (String c a, b)
  end.

Definition decode_field (field_name : string) : result (string * json) :=
  let '(name, encoded) := partition_sep field_name in
  if (encoded =? "")%string then inr (name, JObj [])
  else let* l := loads encoded in inr (name, l).

(** ** Samples and the exposition format *)

Inductive num : Type := Num (q : Q) | NaN | PosInf | NegInf.

Record Sample := { s_name : string; s_labels : labels; s_value : num }.

Record MetricFamily := {
  f_name : string; f_kind : string; f_help : string; f_samples : list Sample }.

(** [str.replace] of one character. *)
Fixpoint replace_char (c : ascii) (r s : string) : string :=
  match s with
  | EmptyString => EmptyString
  | String d s' => if Ascii.eqb d c then r +:+ replace_char c r s' else String d (replace_char c r s')
  end.

Definition BACKSLASH : ascii := "092"%char.
Definition QUOTE : ascii := "034"%char.
Definition NEWLINE : ascii := "010"%char.

Definition _escape_help (text : string) : string :=
  replace_char NEWLINE (String BACKSLASH "n")
    (replace_char BACKSLASH (String BACKSLASH (String BACKSLASH "")) text).

Definition _escape_label (value : string) : string :=
  replace_char NEWLINE (String BACKSLASH "n")
    (replace_char QUOTE (String BACKSLASH (String QUOTE ""))
      (replace_char BACKSLASH (String BACKSLASH (String BACKSLASH "")) value)).

(** [repr(float)] *)
Section exposition.
Context (repr : Q -> string).

Definition is_integer (q : Q) : bool := (Qden (Qred q) =? 1)%positive.

Definition _format_value (value : num) : string :=
  match value with
  | NaN => "NaN"
  | PosInf => "+Inf"
  | NegInf => "-Inf"
  | Num q => if is_integer q && (Z.abs (Qnum (Qred q)) <? 10 ^ 15) then py_str (Qnum (Qred q)) else repr q
  end.

(** A bucket's upper bound; [None] is infinity. *)
Definition bound : Type := option Q.

Definition _format_bucket_bound (b : bound) : string :=
  match b with None => "+Inf" | Some q => _format_value (Num q) end.

Definition render_label (kv : string * string) : string :=
  kv.1 +:+ "=" +:+ String QUOTE (_escape_label kv.2 +:+ String QUOTE "").

Definition _render_sample (s : Sample) : string :=
  match s_labels s with
  | [] => s_name s +:+ " " +:+ _format_value (s_value s)
  | l => s_name s +:+ "{" +:+ join_with "," (render_label <$> sorted_labels l) +:+ "} " +:+
         _format_value (s_value s)
  end.

Definition family_lines (f : MetricFamily) : list string :=
  ["# HELP " +:+ f_name f +:+ " " +:+ _escape_help (f_help f); "# TYPE " +:+ f_name f +:+ " " +:+ f_kind f]
  ++ (_render_sample <$> f_samples f).

Definition render (families : list MetricFamily) : string :=
  join_with LF (families ≫= family_lines) +:+ LF.

(** ** Primitives *)

(** A metric's name, help and label names. *)
Record metric := { m_name : string; m_help : string; m_labelnames : list string }.

(** [_Labelled._key] *)
Definition _key (m : metric) (l : labels) : result labels :=
  if bool_decide (list_to_set l.*1 = (list_to_set (m_labelnames m) : gset string))
  then inr (sorted_labels l) else inl (ValueError (m_name m)).

Record Counter := { c_metric : metric; c_values : list (labels * Q) }.

Definition counter_inc (amount : Q) (l : labels) (c : Counter) : result Counter :=
  if negb (Qle_bool 0 amount) then inl (ValueError (m_name (c_metric c)))
  else
    let* key := _key (c_metric c) l in
    inr {| c_metric := c_metric c;
           c_values := assoc_put key (default 0%Q (assoc_get key (c_values c)) + amount)%Q (c_values c) |}.

(** [drain]: the deltas, and the counter reset. *)
Definition counter_drain (c : Counter) : Counter * list (labels * Q) :=
  ({| c_metric := c_metric c; c_values := [] |}, c_values c).

Definition counter_samples (c : Counter) : list Sample :=
  (λ kv, {| s_name := m_name (c_metric c); s_labels := kv.1; s_value := Num kv.2 |}) <$> c_values c.

Record Gauge := { g_metric : metric; g_values : list (labels * Q) }.

Definition gauge_set (value : Q) (l : labels) (g : Gauge) : result Gauge :=
  let* key := _key (g_metric g) l in
  inr {| g_metric := g_metric g; g_values := assoc_put key value (g_values g) |}.

Definition gauge_inc (amount : Q) (l : labels) (g : Gauge) : result Gauge :=
  let* key := _key (g_metric g) l in
  inr {| g_metric := g_metric g;
         g_values := assoc_put key (default 0%Q (assoc_get key (g_values g)) + amount)%Q (g_values g) |}.

Definition gauge_dec (amount : Q) (l : labels) (g : Gauge) : result Gauge := gauge_inc (- amount) l g.

Definition gauge_samples (g : Gauge) : list Sample :=
  (λ kv, {| s_name := m_name (g_metric g); s_labels := kv.1; s_value := Num kv.2 |}) <$> g_values g.

Definition DEFAULT_BUCKETS : list Q :=
  [1 # 100; 25 # 1000; 5 # 100; 1 # 10; 25 # 100; 1 # 2; 1; 3 # 2; 2; 3; 5; 10; 30]%Q.

Record Histogram := {
  h_metric : metric; h_buckets : list bound;
  h_counts : list (labels * list Z); h_sums : list (labels * Q) }.

(** [Histogram.__init__] *)
Definition make_histogram (m : metric) (buckets : list Q) : result Histogram :=
  match merge_sort Qle buckets with
  | [] => inl (ValueError "a histogram needs at least one bucket")
  | bounds => inr {| h_metric := m; h_buckets := (Some <$> bounds) ++ [None]; h_counts := []; h_sums := [] |}
  end.

Definition within (value : Q) (b : bound) : bool :=
  match b with None => true | Some q => Qle_bool value q end.

(** The index of the first bucket that takes the value, or of the last one. *)
Fixpoint bucket_index (buckets : list bound) (value : Q) : nat :=
  match buckets with
  | [] | [_] => 0
  | b :: bs => if within value b then 0 else S (bucket_index bs value)
  end%nat.

Definition observe (value : Q) (l : labels) (h : Histogram) : result Histogram :=
  let* key := _key (h_metric h) l in
  let counts := default (replicate (length (h_buckets h)) 0) (assoc_get key (h_counts h)) in
  inr {| h_metric := h_metric h; h_buckets := h_buckets h;
         h_counts := assoc_put key (alter (Z.add 1) (bucket_index (h_buckets h) value) counts) (h_counts h);
         h_sums := assoc_put key (default 0%Q (assoc_get key (h_sums h)) + value)%Q (h_sums h) |}.

Definition histogram_drain (h : Histogram) : Histogram * (list (labels * list Z) * list (labels * Q)) :=
  ({| h_metric := h_metric h; h_buckets := h_buckets h; h_counts := []; h_sums := [] |},
   (h_counts h, h_sums h)).

(** The order of label tuples. *)
Fixpoint labels_leb (a b : labels) : bool :=
  match a, b with
  | [], _ => true
  | _ :: _, [] => false
  | (k, v) :: a', (k', v') :: b' =>
      if (k =? k')%string then
        if (v =? v')%string then labels_leb a' b' else String.leb v v'
      else String.leb k k'
  end.

Definition labels_le (a b : labels) : Prop := labels_leb a b = true.
#[global] Instance labels_le_dec : RelDecision labels_le.
Proof. intros a b. unfold labels_le. apply _. Defined.

(** The cumulative buckets of one series, and the last running total. *)
Fixpoint bucket_samples (name : string) (key : labels) (running : Q) (rows : list (bound * Q))
  : list Sample * Q :=
  match rows with
  | [] => ([], running)
  | (b, count) :: rows' =>
      let running := (running + count)%Q in
      let '(out, total) := bucket_samples name key running rows' in
      ({| s_name := name +:+ "_bucket"; s_labels := assoc_put "le" (_format_bucket_bound b) key;
          s_value := Num running |} :: out, total)
  end.

Definition series_samples (name : string) (buckets : list bound) (sums : list (labels * Q))
  (key : labels) (counts : list Q) : list Sample :=
  let '(out, running) := bucket_samples name key 0%Q (zip buckets counts) in
  out ++
  [{| s_name := name +:+ "_sum"; s_labels := key; s_value := Num (default 0%Q (assoc_get key sums)) |};
   {| s_name := name +:+ "_count"; s_labels := key; s_value := Num running |}].

Definition histogram_samples (name : string) (buckets : list bound) (counts : list (labels * list Q))
  (sums : list (labels * Q)) : list Sample :=
  merge_sort labels_le counts.*1 ≫= λ key,
    series_samples name buckets sums key (default [] (assoc_get key counts)).

Definition samples (h : Histogram) : list Sample :=
  histogram_samples (m_name (h_metric h)) (h_buckets h)
    ((λ kc : labels * list Z, (kc.1, inject_Z <$> kc.2)) <$> h_counts h) (h_sums h).

Record Registry := { counters : list Counter; gauges : list Gauge; histograms : list Histogram }.

Definition families (r : Registry) : list MetricFamily :=
  ((λ c, {| f_name := m_name (c_metric c); f_kind := "counter"; f_help := m_help (c_metric c);
            f_samples := counter_samples c |}) <$> counters r) ++
  ((λ g, {| f_name := m_name (g_metric g); f_kind := "gauge"; f_help := m_help (g_metric g);
            f_samples := gauge_samples g |}) <$> gauges r) ++
  ((λ h, {| f_name := m_name (h_metric h); f_kind := "histogram"; f_help := m_help (h_metric h);
            f_samples := samples h |}) <$> histograms r).

(** ** The flush *)

Definition COUNTER_KEY : string := "metrics:counters".
Definition HISTOGRAM_COUNT_KEY : string := "metrics:hist:counts".
Definition HISTOGRAM_SUM_KEY : string := "metrics:hist:sums".
Definition GAUGE_KEY_PREFIX : string := "metrics:gauges".

(** The commands of the pipeline. *)
Inductive command : Type :=
| HIncrByFloat (key field : string) (delta : Q)
| HSet (key : string) (mapping : list (string * Q))
| Expire (key : string) (seconds : Z)
| SetEx (key value : string) (seconds : Z).

(** [if value: deltas[field] = value] *)
Definition counter_deltas (cs : list Counter) : list (string * Q) :=
  fold_left (λ deltas c,
    fold_left (λ deltas kv,
      if Qeq_bool kv.2 0 then deltas
      else assoc_put (encode_field (m_name (c_metric c)) kv.1) kv.2 deltas)
      (c_values c) deltas) cs [].

(** [deltas[field] = deltas.get(field, 0.0) + x] *)
Definition add_delta (field : string) (x : Q) (deltas : list (string * Q)) : list (string * Q) :=
  assoc_put field (default 0%Q (assoc_get field deltas) + x)%Q deltas.

Definition bucket_deltas (hs : list Histogram) : list (string * Q) :=
  fold_left (λ deltas h,
    fold_left (λ deltas kc,
      fold_left (λ deltas bc,
        if bc.2 =? 0 then deltas
        else add_delta (encode_field (m_name (h_metric h)) (assoc_put "le" (_format_bucket_bound bc.1) kc.1))
               (inject_Z bc.2) deltas)
        (zip (h_buckets h) kc.2) deltas)
      (h_counts h) deltas) hs [].

Definition sum_deltas (hs : list Histogram) : list (string * Q) :=
  fold_left (λ deltas h,
    fold_left (λ deltas kv,
      if Qeq_bool kv.2 0 then deltas
      else add_delta (encode_field (m_name (h_metric h)) kv.1) kv.2 deltas)
      (h_sums h) deltas) hs [].

Definition gauge_fields (gs : list Gauge) : list (string * Q) :=
  fold_left (λ fields g,
    fold_left (λ fields kv, assoc_put (encode_field (m_name (g_metric g)) kv.1) kv.2 fields)
      (g_values g) fields) gs [].

Definition drained (r : Registry) : Registry :=
  {| counters := (λ c, (counter_drain c).1) <$> counters r; gauges := gauges r;
     histograms := (λ h, (histogram_drain h).1) <$> histograms r |}.

(** [MetricsSink.flush]; [clock] is the text of [time.time()]. *)
Definition flush (worker : string) (gauge_ttl_s : Q) (clock : string) (r : Registry)
  : Registry * list command :=
  let gauge_key := GAUGE_KEY_PREFIX +:+ ":" +:+ worker in
  let ttl := int_of_float (Qmax_py 1 gauge_ttl_s) in
  let gauge_values := gauge_fields (gauges r) in
  (drained r,
   ((λ fd, HIncrByFloat COUNTER_KEY fd.1 fd.2) <$> counter_deltas (counters r)) ++
   ((λ fd, HIncrByFloat HISTOGRAM_COUNT_KEY fd.1 fd.2) <$> bucket_deltas (histograms r)) ++
   ((λ fd, HIncrByFloat HISTOGRAM_SUM_KEY fd.1 fd.2) <$> sum_deltas (histograms r)) ++
   match gauge_values with
   | [] => []
   | _ => [HSet gauge_key gauge_values; Expire gauge_key ttl]
   end ++
   [SetEx (GAUGE_KEY_PREFIX +:+ ":alive:" +:+ worker) clock ttl]).

(** ** What a worker exports *)

Record WorkerMetrics := {
  wm_worker : string;
  model_requests : Counter; model_duration : Histogram; retries : Counter;
  rate_limit_waits : Counter; rate_limit_wait_seconds : Counter; page_duration : Histogram;
  page_attempts : Counter; pages_terminal : Counter; reaper_actions : Counter;
  in_flight : Gauge; prefetch_limit_gauge : Gauge;
  _last_outcomes : list (string * Z); _last_reaper : list (string * Z) }.

(** The objects in the registry are the fields. *)
Definition registry (wm : WorkerMetrics) : Registry :=
  {| counters := [model_requests wm; retries wm; rate_limit_waits wm; rate_limit_wait_seconds wm;
                  page_attempts wm; pages_terminal wm; reaper_actions wm];
     gauges := [in_flight wm; prefetch_limit_gauge wm];
     histograms := [model_duration wm; page_duration wm] |}.

Definition _TERMINAL_RESULT : list (string * string) :=
  [("completed", "success"); ("resumed", "success"); ("degraded", "success");
   ("failed", "failed"); ("already_terminal", "duplicate")].

Definition new_counter (name help : string) (names : list string) : Counter :=
  {| c_metric := {| m_name := name; m_help := help; m_labelnames := names |}; c_values := [] |}.

Definition new_histogram (name help : string) (names : list string) : result Histogram :=
  make_histogram {| m_name := name; m_help := help; m_labelnames := names |} DEFAULT_BUCKETS.

Definition new_gauge (name help : string) (names : list string) : Gauge :=
  {| g_metric := {| m_name := name; m_help := help; m_labelnames := names |}; g_values := [] |}.

(** [WorkerMetrics.__init__] *)
Definition make_worker_metrics (worker : string) (prefetch_limit : Z) : result WorkerMetrics :=
  let* duration := new_histogram "orch_model_request_duration_seconds"
    "Latency of one model call, excluding the rate-limit wait." ["endpoint"] in
  let* page := new_histogram "orch_page_duration_seconds"
    "Wall time from claiming a page to reaching a terminal state." [] in
  let* prefetch := gauge_set (inject_Z prefetch_limit) [("worker", worker)]
    (new_gauge "orch_worker_prefetch_limit" "Configured concurrency ceiling for this worker." ["worker"]) in
  inr {| wm_worker := worker;
         model_requests := new_counter "orch_model_requests_total"
           "Model calls attempted, by endpoint and outcome." ["endpoint"; "outcome"];
         model_duration := duration;
         retries := new_counter "orch_model_retries_total" "Retry attempts issued, by endpoint." ["endpoint"];
         rate_limit_waits := new_counter "orch_rate_limit_waits_total"
           "Times a worker blocked waiting for a rate-limit token." ["endpoint"];
         rate_limit_wait_seconds := new_counter "orch_rate_limit_wait_seconds_total"
           "Cumulative time spent waiting for tokens - the cost of backpressure." ["endpoint"];
         page_duration := page;
         page_attempts := new_counter "orch_page_attempts_total"
           "Page processing attempts, by per-attempt outcome." ["outcome"];
         pages_terminal := new_counter "orch_pages_terminal_total"
           "Pages reaching a terminal state, classified for the zero-drop metric." ["result"];
         reaper_actions := new_counter "orch_reaper_actions_total"
           "Orphaned entries handled by the reaper, by action." ["action"];
         in_flight := new_gauge "orch_worker_in_flight"
           "Pages this worker is currently processing." ["worker"];
         prefetch_limit_gauge := prefetch; _last_outcomes := []; _last_reaper := [] |}.

(** Updates of one field. *)
Definition with_calls (requests : Counter) (duration : Histogram) (wm : WorkerMetrics) : WorkerMetrics :=
  {| wm_worker := wm_worker wm; model_requests := requests; model_duration := duration;
     retries := retries wm; rate_limit_waits := rate_limit_waits wm;
     rate_limit_wait_seconds := rate_limit_wait_seconds wm; page_duration := page_duration wm;
     page_attempts := page_attempts wm; pages_terminal := pages_terminal wm;
     reaper_actions := reaper_actions wm; in_flight := in_flight wm;
     prefetch_limit_gauge := prefetch_limit_gauge wm; _last_outcomes := _last_outcomes wm;
     _last_reaper := _last_reaper wm |}.

Definition with_waits (retries waits seconds : Counter) (page : Histogram) (wm : WorkerMetrics)
  : WorkerMetrics :=
  {| wm_worker := wm_worker wm; model_requests := model_requests wm; model_duration := model_duration wm;
     retries := retries; rate_limit_waits := waits; rate_limit_wait_seconds := seconds;
     page_duration := page; page_attempts := page_attempts wm; pages_terminal := pages_terminal wm;
     reaper_actions := reaper_actions wm; in_flight := in_flight wm;
     prefetch_limit_gauge := prefetch_limit_gauge wm; _last_outcomes := _last_outcomes wm;
     _last_reaper := _last_reaper wm |}.

Definition record_model_call (endpoint outcome : string) (duration_s : Q) (wm : WorkerMetrics)
  : result WorkerMetrics :=
  let* requests := counter_inc 1 [("endpoint", endpoint); ("outcome", outcome)] (model_requests wm) in
  let* duration := observe duration_s [("endpoint", endpoint)] (model_duration wm) in
  inr (with_calls requests duration wm).

Definition record_retry (endpoint : string) (wm : WorkerMetrics) : result WorkerMetrics :=
  let* c := counter_inc 1 [("endpoint", endpoint)] (retries wm) in
  inr (with_waits c (rate_limit_waits wm) (rate_limit_wait_seconds wm) (page_duration wm) wm).

Definition record_rate_limit_wait (endpoint : string) (waited_s : Q) (wm : WorkerMetrics)
  : result WorkerMetrics :=
  let* c := counter_inc 1 [("endpoint", endpoint)] (rate_limit_waits wm) in
  let* d := counter_inc waited_s [("endpoint", endpoint)] (rate_limit_wait_seconds wm) in
  inr (with_waits (retries wm) c d (page_duration wm) wm).

Definition record_page (duration_s : Q) (wm : WorkerMetrics) : result WorkerMetrics :=
  let* h := observe duration_s [] (page_duration wm) in
  inr (with_waits (retries wm) (rate_limit_waits wm) (rate_limit_wait_seconds wm) h wm).

(** One outcome of [sync]: the attempts, the terminal pages, the last totals. *)
Definition sync_outcome (outcome : string) (total : Z) (attempts terminal : Counter)
  (last : list (string * Z)) : result (Counter * Counter * list (string * Z)) :=
  let delta := Z.max 0 (total - default 0 (assoc_get outcome last)) in
  let* (attempts, terminal) :=
    if delta =? 0 then inr (attempts, terminal)
    else
      let* attempts := counter_inc (inject_Z delta) [("outcome", outcome)] attempts in
      match assoc_get outcome _TERMINAL_RESULT with
      | Some res => let* terminal := counter_inc (inject_Z delta) [("result", res)] terminal in
                    inr (attempts, terminal)
      | None => inr (attempts, terminal)
      end in
  inr (attempts, terminal, assoc_put outcome total last).

Definition sync_action (action : string) (total : Z) (actions : Counter) (last : list (string * Z))
  : result (Counter * list (string * Z)) :=
  let delta := Z.max 0 (total - default 0 (assoc_get action last)) in
  let* actions := if delta =? 0 then inr actions
                  else counter_inc (inject_Z delta) [("action", action)] actions in
  inr (actions, assoc_put action total last).

Fixpoint sync_outcomes (outcomes : list (string * Z)) (attempts terminal : Counter)
  (last : list (string * Z)) : result (Counter * Counter * list (string * Z)) :=
  match outcomes with
  | [] => inr (attempts, terminal, last)
  | (outcome, total) :: rest =>
      let* (attempts, terminal, last) := sync_outcome outcome total attempts terminal last in
      sync_outcomes rest attempts terminal last
  end.

Fixpoint sync_actions (reaper : list (string * Z)) (actions : Counter) (last : list (string * Z))
  : result (Counter * list (string * Z)) :=
  match reaper with
  | [] => inr (actions, last)
  | (action, total) :: rest =>
      let* (actions, last) := sync_action action total actions last in
      sync_actions rest actions last
  end.

Definition sync (outcomes reaper : list (string * Z)) (flying : Z) (wm : WorkerMetrics)
  : result WorkerMetrics :=
  let* (attempts, terminal, last) :=
    sync_outcomes outcomes (page_attempts wm) (pages_terminal wm) (_last_outcomes wm) in
  let* (actions, last_reaper) := sync_actions reaper (reaper_actions wm) (_last_reaper wm) in
  let* gauge := gauge_set (inject_Z flying) [("worker", wm_worker wm)] (in_flight wm) in
  inr {| wm_worker := wm_worker wm; model_requests := model_requests wm;
         model_duration := model_duration wm; retries := retries wm;
         rate_limit_waits := rate_limit_waits wm; rate_limit_wait_seconds := rate_limit_wait_seconds wm;
         page_duration := page_duration wm; page_attempts := attempts; pages_terminal := terminal;
         reaper_actions := actions; in_flight := gauge;
         prefetch_limit_gauge := prefetch_limit_gauge wm; _last_outcomes := last;
         _last_reaper := last_reaper |}.

(** The fields once the registry is drained. *)
Definition drain_fields (wm : WorkerMetrics) : WorkerMetrics :=
  {| wm_worker := wm_worker wm; model_requests := (counter_drain (model_requests wm)).1;
     model_duration := (histogram_drain (model_duration wm)).1; retries := (counter_drain (retries wm)).1;
     rate_limit_waits := (counter_drain (rate_limit_waits wm)).1;
     rate_limit_wait_seconds := (counter_drain (rate_limit_wait_seconds wm)).1;
     page_duration := (histogram_drain (page_duration wm)).1;
     page_attempts := (counter_drain (page_attempts wm)).1;
     pages_terminal := (counter_drain (pages_terminal wm)).1;
     reaper_actions := (counter_drain (reaper_actions wm)).1; in_flight := in_flight wm;
     prefetch_limit_gauge := prefetch_limit_gauge wm; _last_outcomes := _last_outcomes wm;
     _last_reaper := _last_reaper wm |}.

(** [WorkerMetrics.flush] *)
Definition flush_worker (gauge_ttl_s : Q) (clock : string) (outcomes reaper : list (string * Z))
  (flying : Z) (wm : WorkerMetrics) : result (WorkerMetrics * list command) :=
  let* wm := sync outcomes reaper flying wm in
  inr (drain_fields wm, (flush (wm_worker wm) gauge_ttl_s clock (registry wm)).2).
End exposition.

(** ** Series *)

Definition no_sep (c : ascii) : bool := negb (Ascii.eqb c "031"%char).

Lemma partition_sep_name name s : str_forall no_sep name = true ->
  partition_sep (name +:+ _SEP +:+ s) = (name, s).
Proof.
  induction name as [|c name IH]; [done|]. simpl. intros [Hc Hn]%andb_true_iff.
  change (String c name +:+ _SEP +:+ s) with (String c (name +:+ _SEP +:+ s)). cbn [partition_sep].
  apply negb_true_iff in Hc. by rewrite Hc, IH.
Qed.

Lemma sorted_labels_perm l : sorted_labels l ≡ₚ l.
Proof. apply merge_sort_Permutation. Qed.

Lemma json_labels_ok l : NoDup l.*1 -> json_ok (json_labels l).
Proof.
  intros Hl. apply json_ok_obj. split.
  - rewrite <- list_fmap_compose. exact Hl.
  - apply Forall_fmap, Forall_forall. done.
Qed.

Lemma sorted_keys_NoDup l : NoDup l.*1 -> NoDup (sorted_labels l).*1.
Proof. by rewrite sorted_labels_perm. Qed.

Lemma decode_encode name l : str_forall no_sep name = true -> NoDup l.*1 ->
  decode_field (encode_field name l) = inr (name, json_labels (sorted_labels l)).
Proof.
  intros Hn Hl. unfold decode_field, encode_field. rewrite partition_sep_name by done.
  assert (json_ok (json_labels (sorted_labels l))) as Hok by by apply json_labels_ok, sorted_keys_NoDup.
  rewrite loads_dumps by done. destruct (String.eqb_spec (dumps (json_labels (sorted_labels l))) "") as [E|]; [|done].
  apply dumps_head in Hok as (c & s & E' & _). by rewrite E in E'.
Qed.

Lemma json_labels_inj l l' : json_labels l = json_labels l' -> l = l'.
Proof.
  unfold json_labels. intros [= E]. revert l' E. induction l as [|[k v] l IH]; intros [|[k' v'] l']; try done.
  cbn. intros [= -> -> E]. by rewrite (IH l').
Qed.

Lemma encode_field_inj name name' l l' :
  str_forall no_sep name = true -> str_forall no_sep name' = true -> NoDup l.*1 -> NoDup l'.*1 ->
  encode_field name l = encode_field name' l' -> name = name' /\ l ≡ₚ l'.
Proof.
  intros Hn Hn' Hl Hl' E. apply (f_equal decode_field) in E. rewrite !decode_encode in E by done.
  injection E as -> E. split; [done|]. assert (sorted_labels l = sorted_labels l') as E' by (apply json_labels_inj; unfold json_labels; by rewrite E).
  by rewrite <- (sorted_labels_perm l), <- (sorted_labels_perm l'), E'.
Qed.

(** ** A scraper *)

Definition is_name_char (c : ascii) : bool :=
  let n := ascii_code c in
  (((48 <=? n) && (n <=? 58)) || ((65 <=? n) && (n <=? 90)) || (n =? 95) || ((97 <=? n) && (n <=? 122)))%N.

Fixpoint read_name (s : string) : string * string :=
  match s with
  | EmptyString => ("", "")
  | String c r => if is_name_char c then let '(a, b) := read_name r in (String c a, b) else ("", s)
  end.

(** A quoted value, behind its opening quote. *)
Fixpoint read_value (s : string) : option (string * string) :=
  match s with
  | EmptyString => None
  | String "034"%char r => Some ("", r)
  | String "092"%char (String "n"%char r) => '(v, t) ← read_value r; Some (String NEWLINE v, t)
  | String "092"%char (String c r) => '(v, t) ← read_value r; Some (String c v, t)
  | String c r => '(v, t) ← read_value r; Some (String c v, t)
  end.

Fixpoint read_labels (n : nat) (s : string) : option (labels * string) :=
  match n with
  | O => None
  | S n =>
      match read_name s with
      | (k, String "="%char (String "034"%char r)) =>
          '(v, r) ← read_value r;
          match r with
          | String ","%char r => '(l, t) ← read_labels n r; Some ((k, v) :: l, t)
          | String "}"%char r => Some ([(k, v)], r)
          | _ => None
          end
      | _ => None
      end
  end.

Definition read_sample (s : string) : option (string * labels * string) :=
  match read_name s with
  | (name, String " "%char v) => Some (name, [], v)
  | (name, String "{"%char r) =>
      '(l, r) ← read_labels (String.length r) r;
      match r with String " "%char v => Some (name, l, v) | _ => None end
  | _ => None
  end.

Lemma escape_label_cons c v :
  _escape_label (String c v) =
  match c with
  | "092"%char => String BACKSLASH (String BACKSLASH (_escape_label v))
  | "034"%char => String BACKSLASH (String QUOTE (_escape_label v))
  | "010"%char => String BACKSLASH (String "n" (_escape_label v))
  | _ => String c (_escape_label v)
  end.
Proof. destruct c as [[] [] [] [] [] [] [] []]; reflexivity. Qed.

Lemma append_cons c (a b : string) : String c a +:+ b = String c (a +:+ b).
Proof. done. Qed.

Lemma read_value_escape v r : read_value (_escape_label v +:+ String QUOTE r) = Some (v, r).
Proof.
  induction v as [|c v IH]; [done|]. rewrite escape_label_cons.
  destruct c as [[] [] [] [] [] [] [] []]; rewrite ?append_cons; cbn [read_value BACKSLASH];
    rewrite IH; reflexivity.
Qed.

Lemma read_name_stop name c r : str_forall is_name_char name = true -> is_name_char c = false ->
  read_name (name +:+ String c r) = (name, String c r).
Proof.
  intros Hn Hc. induction name as [|d name IH].
  { change ("" +:+ String c r) with (String c r). cbn [read_name]. by rewrite Hc. }
  simpl in Hn. apply andb_true_iff in Hn as [Hd Hn]. rewrite append_cons. cbn [read_name].
  by rewrite Hd, IH.
Qed.

Lemma render_label_read k v r : str_forall is_name_char k = true ->
  exists t, read_name (render_label (k, v) +:+ r) = (k, String "=" (String "034" t)) /\
    read_value t = Some (v, r).
Proof.
  intros Hk. exists (_escape_label v +:+ String QUOTE r). split; [|apply read_value_escape].
  unfold render_label. cbn [fst snd]. rewrite !string_app_assoc, !append_cons, !string_app_assoc.
  by rewrite read_name_stop.
Qed.

Lemma join_cons x l r : l <> [] -> join_with "," (x :: l) +:+ r = x +:+ String "," (join_with "," l +:+ r).
Proof. intros Hl. destruct l; [done|]. cbn [join_with]. by rewrite !string_app_assoc. Qed.

Lemma read_labels_join l : forall n r, l <> [] -> Forall (λ kv, str_forall is_name_char kv.1 = true) l ->
  (length l <= n)%nat -> read_labels n (join_with "," (render_label <$> l) +:+ String "}" r) = Some (l, r).
Proof.
  induction l as [|[k v] l IH]; intros n r Hne Hl Hn; [done|]. destruct n as [|n]; [simpl in Hn; lia|].
  apply Forall_cons in Hl as [Hk Hl]. rewrite fmap_cons. cbn [read_labels]. destruct l as [|kv l].
  - cbn [fmap list_fmap join_with]. destruct (render_label_read k v (String "}" r) Hk) as (t & -> & Ht).
    cbn [mbind option_bind]. by rewrite Ht.
  - rewrite join_cons by done.
    destruct (render_label_read k v (String "," (join_with "," (render_label <$> kv :: l) +:+ String "}" r)) Hk)
      as (t & -> & Ht). rewrite Ht. cbn [mbind option_bind]. rewrite IH; [done|done|done|simpl in *; lia].
Qed.

Lemma join_length l : (length l <= String.length (join_with "," (render_label <$> l)))%nat.
Proof.
  assert (forall kv, 1 <= String.length (render_label kv))%nat as H1.
  { intros kv. unfold render_label. rewrite string_app_length. simpl. lia. }
  induction l as [|kv l IH]; [done|]. rewrite fmap_cons. specialize (H1 kv). destruct l as [|kv' l].
  - simpl. lia.
  - rewrite fmap_cons in *. rewrite join_with_cons, !string_app_length. cbn [String.length length] in *. lia.
Qed.

Lemma escape_label_no_lf v : str_forall no_lf (_escape_label v) = true.
Proof.
  induction v as [|c v IH]; [done|]. rewrite escape_label_cons.
  destruct c as [[] [] [] [] [] [] [] []]; exact IH.
Qed.

Lemma name_no_lf s : str_forall is_name_char s = true -> str_forall no_lf s = true.
Proof. apply str_forall_impl. by intros [[] [] [] [] [] [] [] []]. Qed.

Lemma labels_no_lf l : Forall (λ kv, str_forall is_name_char kv.1 = true) l ->
  str_forall no_lf (join_with "," (render_label <$> l)) = true.
Proof.
  intros Hl. apply join_forall; [done|]. apply Forall_fmap. eapply Forall_impl; [exact Hl|]. intros [k v] Hk. cbn in *.
  unfold render_label. cbn [fst snd]. rewrite !str_forall_app, (name_no_lf k) by done. cbn [str_forall].
  by rewrite str_forall_app, escape_label_no_lf.
Qed.

Lemma str_forall_append P c s : str_forall P (String c s) = P c && str_forall P s.
Proof. done. Qed.

(** ** Observations *)

(** The number of observed values a bound takes. *)
Definition taken (b : bound) (values : list Q) : nat := countb (λ v, within v b) values.

(** Bounds as [__init__] leaves them. *)
Definition bound_le (a b : bound) : Prop := forall v, within v a = true -> within v b = true.
Definition buckets_ok (bs : list bound) : Prop :=
  StronglySorted bound_le bs /\ last bs = Some None.

Lemma bucket_index_within bs : forall v, buckets_ok bs ->
  exists b, bs !! bucket_index bs v = Some b /\ within v b = true /\
    forall i b', (i < bucket_index bs v)%nat -> bs !! i = Some b' -> within v b' = false.
Proof.
  induction bs as [|b bs IH]; intros v [Hs Hl]; [done|]. destruct bs as [|b2 bs].
  - injection Hl as ->. exists None. split_and!; [done|done|]. intros i b' Hi. simpl in Hi. lia.
  - cbn [bucket_index]. destruct (within v b) eqn:Ew.
    + exists b. split_and!; [done|done|]. intros i b' Hi. lia.
    + inversion Hs as [|? ? Hs' Hb]; subst. destruct (IH v) as (b' & H1 & H2 & H3).
      { split; [done|]. exact Hl. }
      exists b'. split_and!; [exact H1|done|]. intros [|i] c Hi Hc; [by injection Hc as <-|].
      eapply (H3 i); [exact (proj2 (Nat.succ_lt_mono _ _) Hi)|exact Hc].
Qed.

(** Cumulative counts. *)
Fixpoint running_totals (acc : Z) (counts : list Z) : list Z :=
  match counts with [] => [] | c :: cs => acc + c :: running_totals (acc + c) cs end.

Lemma running_totals_shift d counts : forall acc j,
  running_totals (acc + d) counts !! j = Z.add d <$> running_totals acc counts !! j.
Proof.
  induction counts as [|c counts IH]; intros acc [|j]; try done; cbn [running_totals].
  - cbn. f_equal. lia.
  - replace (acc + d + c) with (acc + c + d) by lia. apply IH.
Qed.

Lemma running_totals_alter counts : forall i acc j,
  running_totals acc (alter (Z.add 1) i counts) !! j =
  (λ x, if (i <=? j)%nat then 1 + x else x) <$> running_totals acc counts !! j.
Proof.
  induction counts as [|c counts IH]; intros [|i] acc [|j]; try done.
  - cbn. f_equal. lia.
  - change (running_totals (acc + (1 + c)) counts !! j = Z.add 1 <$> running_totals (acc + c) counts !! j).
    replace (acc + (1 + c)) with (acc + c + 1) by lia. apply running_totals_shift.
  - apply IH.
Qed.

Lemma running_totals_length counts : forall acc, length (running_totals acc counts) = length counts.
Proof. induction counts as [|c counts IH]; intros acc; simpl; auto. Qed.

Lemma sorted_lookup {A} (R : A -> A -> Prop) l i j x y : StronglySorted R l -> (i < j)%nat ->
  l !! i = Some x -> l !! j = Some y -> R x y.
Proof.
  intros Hs Hij Hx Hy. rewrite <- (take_drop j l) in Hs. eapply (StronglySorted_app_1_elem_of R _ _ x y Hs).
  - apply list_elem_of_lookup. exists i. by rewrite lookup_take_lt.
  - apply list_elem_of_lookup. exists 0%nat. by rewrite lookup_drop, Nat.add_0_r.
Qed.

(** One more observation adds one to the totals of the bounds that take it. *)
Lemma observe_totals bs v counts values : buckets_ok bs -> length counts = length bs ->
  (forall j b, bs !! j = Some b -> running_totals 0 counts !! j = Some (Z.of_nat (taken b values))) ->
  forall j b, bs !! j = Some b ->
    running_totals 0 (alter (Z.add 1) (bucket_index bs v) counts) !! j =
    Some (Z.of_nat (taken b (values ++ [v]))).
Proof.
  intros Hbs Hlen Hc j b Hj. rewrite running_totals_alter, (Hc j b Hj). cbn [fmap option_fmap option_map].
  unfold taken. rewrite countb_app. cbn [countb]. f_equal.
  destruct (bucket_index_within bs v Hbs) as (b0 & Hb0 & Hin & Hbelow).
  destruct (Nat.leb_spec (bucket_index bs v) j) as [Hle|Hlt].
  - assert (within v b = true) as ->; [|lia]. destruct (decide (bucket_index bs v = j)) as [<-|Hne].
    + rewrite Hj in Hb0. by injection Hb0 as <-.
    + destruct Hbs as [Hs _]. by apply (sorted_lookup bound_le bs (bucket_index bs v) j b0 b Hs); [lia|..].
  - rewrite (Hbelow j b Hlt Hj). lia.
Qed.

Section history.
Context (repr : Q -> string).

(** A sequence of observations, each with its labels. *)
Fixpoint observe_all (obs : list (labels * Q)) (h : Histogram) : result Histogram :=
  match obs with
  | [] => inr h
  | (l, v) :: obs' => let* h := observe v l h in observe_all obs' h
  end.

(** The values observed of one series. *)
Definition values_of (key : labels) (obs : list (labels * Q)) : list Q :=
  (filter (λ o, sorted_labels o.1 = key) obs).*2.

Record series_ok (h : Histogram) (key : labels) (vs : list Q) : Prop := {
  so_counts : match assoc_get key (h_counts h) with
              | None => vs = []
              | Some counts => vs <> [] /\ length counts = length (h_buckets h) /\
                  forall j b, h_buckets h !! j = Some b ->
                    running_totals 0 counts !! j = Some (Z.of_nat (taken b vs))
              end;
  so_sum : default 0%Q (assoc_get key (h_sums h)) = fold_left Qplus vs 0%Q }.

Lemma zero_totals n j : (j < n)%nat -> running_totals 0 (replicate n 0) !! j = Some 0.
Proof using Type.
  revert j. induction n as [|n IH]; intros j Hj; [lia|]. cbn [replicate running_totals].
  destruct j as [|j]; [done|]. apply IH. lia.
Qed.

Lemma observe_series v l h h' vs key : buckets_ok (h_buckets h) -> observe v l h = inr h' ->
  series_ok h key vs ->
  series_ok h' key (if decide (sorted_labels l = key) then vs ++ [v] else vs) /\
  h_buckets h' = h_buckets h /\ h_metric h' = h_metric h.
Proof using Type.
  intros Hb Ho [Hc Hs]. unfold observe in Ho. destruct (_key _ _) as [|k] eqn:Ek; [done|]. cbn [rbind] in Ho.
  assert (k = sorted_labels l) as -> by (unfold _key in Ek; destruct (bool_decide _); congruence).
  injection Ho as <-. split; [|done]. destruct (decide (sorted_labels l = key)) as [<-|Hne].
  - split; cbn [h_counts h_buckets h_sums]; rewrite assoc_get_put, decide_True by done.
    + split; [by destruct vs|]. rewrite length_alter.
      destruct (assoc_get (sorted_labels l) (h_counts h)) as [counts|]; cbn [default from_option id].
      * destruct Hc as (_ & Hlen & Hc). split; [done|]. by apply observe_totals.
      * subst vs. split; [apply length_replicate|]. apply observe_totals; [done|apply length_replicate|].
        intros j b Hj. apply zero_totals. by eapply lookup_lt_Some.
    + rewrite Hs, fold_left_app. reflexivity.
  - split; cbn [h_counts h_buckets h_sums]; rewrite assoc_get_put, decide_False by congruence; done.
Qed.

Lemma observe_all_series obs : forall h h' vs key, buckets_ok (h_buckets h) -> observe_all obs h = inr h' ->
  series_ok h key vs ->
  series_ok h' key (vs ++ values_of key obs) /\ h_buckets h' = h_buckets h /\ h_metric h' = h_metric h.
Proof using Type.
  induction obs as [|[l v] obs IH]; intros h h' vs key Hb Ho Hs; cbn [observe_all] in Ho.
  - injection Ho as <-. unfold values_of. cbn. by rewrite app_nil_r.
  - destruct (observe v l h) as [|h1] eqn:E; [done|]. cbn [rbind] in Ho.
    destruct (observe_series v l h h1 vs key Hb E Hs) as (Hs1 & Eb & Em). rewrite <- Eb in Hb.
    destruct (IH h1 h' _ key Hb Ho Hs1) as (Hs2 & Eb2 & Em2). rewrite Eb2, Em2. split; [|done].
    unfold values_of. rewrite filter_cons. cbn [fst].
    destruct (decide (sorted_labels l = key)); [|exact Hs2]. rewrite fmap_cons. cbn [snd].
    by rewrite (assoc_L (++)) in Hs2 || rewrite <- (assoc_L (++)) in Hs2.
Qed.

Lemma inject_Z_add a b : (inject_Z a + inject_Z b)%Q = inject_Z (a + b).
Proof using Type. unfold Qplus, inject_Z. cbn. by rewrite !Z.mul_1_r. Qed.

Lemma bucket_samples_totals name key : forall bs counts running, length counts = length bs ->
  bucket_samples repr name key (inject_Z running) (zip bs (inject_Z <$> counts)) =
  (zip_with (λ b t, {| s_name := name +:+ "_bucket";
                       s_labels := assoc_put "le" (_format_bucket_bound repr b) key;
                       s_value := Num (inject_Z t) |}) bs (running_totals running counts),
   inject_Z (default running (last (running_totals running counts)))).
Proof using Type.
  induction bs as [|b bs IH]; intros [|c counts] running Hl; try done.
  rewrite fmap_cons. cbn [zip zip_with bucket_samples running_totals].
  rewrite inject_Z_add, IH by (simpl in Hl; lia). f_equal. rewrite last_cons. by destruct (last _).
Qed.

Lemma taken_all values : taken None values = length values.
Proof using Type. unfold taken. apply countb_full. done. Qed.

(** What a scrape sees of one series. *)
Lemma series_samples_exact name h key counts vs : buckets_ok (h_buckets h) -> series_ok h key vs ->
  assoc_get key (h_counts h) = Some counts ->
  series_samples repr name (h_buckets h) (h_sums h) key (inject_Z <$> counts) =
  ((λ b, {| s_name := name +:+ "_bucket"; s_labels := assoc_put "le" (_format_bucket_bound repr b) key;
            s_value := Num (inject_Z (Z.of_nat (taken b vs))) |}) <$> h_buckets h) ++
  [{| s_name := name +:+ "_sum"; s_labels := key; s_value := Num (fold_left Qplus vs 0%Q) |};
   {| s_name := name +:+ "_count"; s_labels := key; s_value := Num (inject_Z (Z.of_nat (length vs))) |}].
Proof using Type.
  intros [Hsort Hlast] [Hc Hs] E. rewrite E in Hc. destruct Hc as (_ & Hlen & Hc).
  assert (running_totals 0 counts = (λ b, Z.of_nat (taken b vs)) <$> h_buckets h) as Et.
  { apply list_eq. intros j. rewrite list_lookup_fmap. destruct (h_buckets h !! j) as [b|] eqn:Ej; [by apply Hc|].
    apply lookup_ge_None. rewrite running_totals_length, Hlen. by apply lookup_ge_None. }
  unfold series_samples. change 0%Q with (inject_Z 0) at 1. rewrite bucket_samples_totals, Hs, Et by done. f_equal.
  - rewrite zip_with_fmap_r. generalize (h_buckets h). intros bs. induction bs as [|b bs IH]; [done|].
    cbn. by rewrite <- IH.
  - rewrite fmap_last, Hlast. cbn. by rewrite taken_all.
Qed.

Lemma bounds_ok l : StronglySorted Qle l -> buckets_ok ((Some <$> l) ++ [None]).
Proof using Type.
  intros Hs. split; [|apply last_snoc].
  induction Hs as [|x l Hs IH Hx]; [repeat constructor|]. cbn. constructor; [exact IH|].
  apply Forall_app. split; [|by repeat constructor]. apply Forall_fmap. eapply Forall_impl; [exact Hx|].
  intros y Hy v. cbn. rewrite !Qle_bool_iff. intros Hv. by eapply Qle_trans.
Qed.

Lemma new_buckets_ok m buckets h : make_histogram m buckets = inr h -> buckets_ok (h_buckets h).
Proof using Type.
  unfold make_histogram. assert (StronglySorted Qle (merge_sort Qle buckets)) as Hs.
  { apply StronglySorted_merge_sort; [intros a b c; apply Qle_trans|].
    intros a b. destruct (Qlt_le_dec a b); [left; by apply Qlt_le_weak|by right]. }
  apply bounds_ok in Hs. destruct (merge_sort Qle buckets); [done|]. by intros [= <-].
Qed.
End history.

(** ** Conservation *)

Lemma sorted_labels_unique l l' : NoDup l.*1 -> l ≡ₚ l' -> sorted_labels l = sorted_labels l'.
Proof.
  intros Hl Hp. apply (Sorted_unique_strong name_le);
    [|apply (Sorted_merge_sort name_le)|apply (Sorted_merge_sort name_le)|].
  - intros [k v] [k' v'] H1 H2 Hle Hge. rewrite sorted_labels_perm in H1, H2. rewrite <- Hp in H2.
    assert (k = k') as <- by by apply (anti_symm String.le).
    f_equal. clear -Hl H1 H2.
    induction l as [|[a b] l IH]; [by apply elem_of_nil in H1|]. rewrite fmap_cons, NoDup_cons in Hl.
    destruct Hl as [Ha Hl].
    apply elem_of_cons in H1 as [E1|H1]; apply elem_of_cons in H2 as [E2|H2]; [congruence|..|by apply IH];
      exfalso; apply Ha.
    + injection E1 as <- _. by apply (list_elem_of_fmap_2 fst _ _ H2).
    + injection E2 as <- _. by apply (list_elem_of_fmap_2 fst _ _ H1).
  - etransitivity; [apply merge_sort_Permutation|]. etransitivity; [exact Hp|]. symmetry. apply merge_sort_Permutation.
Qed.

(** The writes of the counters, in order. *)
Definition writes (cs : list Counter) : list (string * Q) :=
  cs ≫= λ c, (λ kv, (encode_field (m_name (c_metric c)) kv.1, kv.2)) <$> c_values c.

Definition put_write (d : list (string * Q)) (fv : string * Q) : list (string * Q) :=
  if Qeq_bool fv.2 0 then d else assoc_put fv.1 fv.2 d.

Lemma counter_deltas_writes cs : counter_deltas cs = fold_left put_write (writes cs) [].
Proof.
  unfold counter_deltas. generalize (@nil (string * Q)). induction cs as [|c cs IH]; intros d; [done|].
  cbn [fold_left]. rewrite IH. unfold writes. rewrite bind_cons, fold_left_app. f_equal.
  generalize (c_values c) as vs, d. intros vs. induction vs as [|kv vs IHv]; intros d'; [done|].
  cbn [fold_left fmap list_fmap]. by rewrite IHv.
Qed.

Lemma fold_put_other ws : forall d f, f ∉ ws.*1 -> assoc_get f (fold_left put_write ws d) = assoc_get f d.
Proof.
  induction ws as [|[f' v] ws IH]; intros d f Hf; [done|]. rewrite fmap_cons, not_elem_of_cons in Hf.
  destruct Hf as [Hne Hf]. cbn [fold_left]. rewrite IH by done. unfold put_write. cbn [fst snd].
  destruct (Qeq_bool v 0); [done|]. by rewrite assoc_get_put, decide_False.
Qed.

Lemma fold_put_keys ws : forall d f, f ∈ (fold_left put_write ws d).*1 -> f ∈ d.*1 \/ f ∈ ws.*1.
Proof.
  induction ws as [|[f' v] ws IH]; intros d f Hf; [by left|]. cbn [fold_left] in Hf. rewrite fmap_cons, elem_of_cons.
  apply IH in Hf as [Hf|]; [|tauto]. unfold put_write in Hf. cbn [fst snd] in *. destruct (Qeq_bool v 0); [tauto|].
  rewrite assoc_put_keys in Hf. destruct (decide _) in Hf; [tauto|]. apply elem_of_app in Hf as [|Hf]; [tauto|].
  apply list_elem_of_singleton in Hf. tauto.
Qed.

Lemma fold_put_write ws : forall d f v, NoDup ws.*1 -> (f, v) ∈ ws -> f ∉ d.*1 ->
  (default 0 (assoc_get f (fold_left put_write ws d)) == v)%Q.
Proof.
  induction ws as [|[f' v'] ws IH]; intros d f v Hnd Hin Hd; [by apply elem_of_nil in Hin|].
  rewrite fmap_cons, NoDup_cons in Hnd. destruct Hnd as [Hf' Hnd]. cbn [fold_left fst] in *.
  apply elem_of_cons in Hin as [[= -> ->]|Hin].
  - rewrite fold_put_other by done. unfold put_write. cbn [fst snd].
    destruct (Qeq_bool v' 0) eqn:E.
    + apply assoc_get_None in Hd. rewrite Hd. apply Qeq_bool_iff in E. cbn. by rewrite E.
    + by rewrite assoc_get_put, decide_True.
  - apply IH; [done|done|]. assert (f <> f') as Hne.
    { intros ->. by apply Hf', (list_elem_of_fmap_2 fst _ _ Hin). }
    unfold put_write. cbn [fst snd]. destruct (Qeq_bool v' 0); [done|]. rewrite assoc_put_keys.
    destruct (decide (f' ∈ d.*1)); [done|]. rewrite elem_of_app, list_elem_of_singleton. tauto.
Qed.
(** What the pipelines added to a field of a hash. *)
Definition sent_to (hash field : string) (cmds : list command) : Q :=
  foldr (λ c q, match c with
                | HIncrByFloat key f d => if decide (key = hash /\ f = field) then d + q else q
                | _ => q
                end)%Q 0%Q cmds.
#[local] Abbreviation sent := (sent_to COUNTER_KEY).

Section conservation.
Context (repr : Q -> string) (worker : string) (gauge_ttl_s : Q) (clock : string).

Inductive op : Type :=
| Inc (i : nat) (amount : Q) (l : labels)
| Obs (i : nat) (value : Q) (l : labels)
| Flush.

Definition run_op (o : op) (r : Registry) : result (Registry * list command) :=
  match o with
  | Inc i amount l =>
      match counters r !! i with
      | None => inl (KeyError "counter")
      | Some c => let* c := counter_inc amount l c in
                  inr ({| counters := <[i := c]> (counters r); gauges := gauges r;
                          histograms := histograms r |}, [])
      end
  | Obs i value l =>
      match histograms r !! i with
      | None => inl (KeyError "histogram")
      | Some h => let* h := observe value l h in
                  inr ({| counters := counters r; gauges := gauges r;
                          histograms := <[i := h]> (histograms r) |}, [])
      end
  | Flush => inr (flush repr worker gauge_ttl_s clock r)
  end.

Fixpoint run_ops (ops : list op) (r : Registry) : result (Registry * list command) :=
  match ops with
  | [] => inr (r, [])
  | o :: ops' =>
      let* (r, cmds) := run_op o r in
      let* (r, cmds') := run_ops ops' r in
      inr (r, cmds ++ cmds')
  end.

(** What was added to a series. *)
Definition incremented (i : nat) (key : labels) (ops : list op) : Q :=
  foldr (λ o q, match o with
                | Inc i' amount l => if decide (i' = i /\ sorted_labels l = key) then amount + q else q
                | Obs _ _ _ | Flush => q
                end)%Q 0%Q ops.

(** A key as [_key] makes it. *)
Definition key_ok (key : labels) : Prop := NoDup key.*1 /\ sorted_labels key = key.

Definition counter_ok (c : Counter) : Prop :=
  str_forall no_sep (m_name (c_metric c)) = true /\ NoDup (c_values c).*1 /\ Forall key_ok (c_values c).*1.

Definition registry_ok (r : Registry) : Prop :=
  Forall counter_ok (counters r) /\ NoDup ((λ c, m_name (c_metric c)) <$> counters r).

Definition value_at (i : nat) (key : labels) (r : Registry) : Q :=
  match counters r !! i with Some c => default 0%Q (assoc_get key (c_values c)) | None => 0%Q end.

Definition name_at (i : nat) (r : Registry) : string :=
  match counters r !! i with Some c => m_name (c_metric c) | None => "" end.

Lemma key_ok_inj key key' : key_ok key -> key_ok key' -> key ≡ₚ key' -> key = key'.
Proof using Type.
  intros [Hn <-] [_ <-] Hp. rewrite !sorted_labels_perm in Hp. by apply sorted_labels_unique.
Qed.

Lemma field_inj name name' key key' : str_forall no_sep name = true -> str_forall no_sep name' = true ->
  key_ok key -> key_ok key' -> encode_field name key = encode_field name' key' -> name = name' /\ key = key'.
Proof using Type.
  intros Hn Hn' Hk Hk' E. destruct (encode_field_inj name name' key key') as [-> Hp]; [done|done|apply Hk|apply Hk'|done|].
  split; [done|]. by apply key_ok_inj.
Qed.

Lemma elem_of_writes f v cs : (f, v) ∈ writes cs <->
  exists c key, c ∈ cs /\ (key, v) ∈ c_values c /\ f = encode_field (m_name (c_metric c)) key.
Proof using Type.
  unfold writes. rewrite list_elem_of_bind. split.
  - intros (c & Hf & Hc). apply list_elem_of_fmap in Hf as ([key w] & [= -> ->] & Hk). by exists c, key.
  - intros (c & key & Hc & Hk & ->). exists c. split; [|done]. apply list_elem_of_fmap. by exists (key, v).
Qed.

Lemma writes_NoDup cs : Forall counter_ok cs -> NoDup ((λ c, m_name (c_metric c)) <$> cs) ->
  NoDup (writes cs).*1.
Proof using Type.
  induction cs as [|c cs IH]; intros Hok Hnd; [by apply NoDup_nil_2|].
  apply Forall_cons in Hok as [[Hs [Hk Hkeys]] Hok]. rewrite fmap_cons, NoDup_cons in Hnd. destruct Hnd as [Hc Hnd].
  unfold writes. rewrite bind_cons, fmap_app. fold (writes cs). apply NoDup_app. split_and!; [| |by apply IH].
  - rewrite <- list_fmap_compose.
    change (NoDup ((λ key, encode_field (m_name (c_metric c)) key) ∘ fst <$> c_values c)).
    rewrite list_fmap_compose. revert Hk Hkeys. generalize (c_values c).*1. intros keys.
    induction keys as [|key keys IHk]; [intros; by apply NoDup_nil_2|]. rewrite NoDup_cons, Forall_cons.
    intros [Hin Hk] [Hkey Hkeys]. rewrite fmap_cons, NoDup_cons. split; [|by apply IHk].
    intros (key' & E & Hin')%list_elem_of_fmap. rewrite Forall_forall in Hkeys.
    destruct (field_inj _ _ key key' Hs Hs Hkey (Hkeys _ Hin') E) as [_ ->]. done.
  - intros f (fv & -> & Hf)%list_elem_of_fmap ([f2 v2] & E & Hf2)%list_elem_of_fmap.
    apply list_elem_of_fmap in Hf as ([key v] & -> & Hv). cbn [fst] in E. subst f2.
    apply elem_of_writes in Hf2 as (c' & key' & Hc' & Hk' & E). rewrite Forall_forall in Hok. rewrite Forall_forall in Hkeys.
    pose proof (Hok c' Hc') as (Hs' & _ & Hkeys'). rewrite Forall_forall in Hkeys'. cbn [fst] in E.
    destruct (field_inj _ _ key key' Hs Hs') as [En _]; [| |done|].
    + apply Hkeys, (list_elem_of_fmap_2 fst _ _ Hv).
    + apply Hkeys', (list_elem_of_fmap_2 fst _ _ Hk').
    + apply Hc. rewrite En. by apply (list_elem_of_fmap_2 (λ c, m_name (c_metric c))).
Qed.

(** The delta a flush sends for a series is its value. *)
Lemma delta_value r i c key : registry_ok r -> counters r !! i = Some c -> key_ok key ->
  (default 0 (assoc_get (encode_field (m_name (c_metric c)) key) (counter_deltas (counters r)))
   == default 0 (assoc_get key (c_values c)))%Q.
Proof using Type.
  intros [Hok Hnd] Hc Hkey. rewrite counter_deltas_writes. pose proof (list_elem_of_lookup_2 _ _ _ Hc) as Hin.
  pose proof Hok as Hok'. rewrite Forall_forall in Hok'. pose proof (Hok' c Hin) as (Hs & Hndk & Hkeys).
  destruct (assoc_get key (c_values c)) as [v|] eqn:E.
  - cbn [default from_option id]. apply fold_put_write; [by apply writes_NoDup| |apply not_elem_of_nil].
    apply elem_of_writes. exists c, key. split_and!; [done|by apply assoc_get_in|done].
  - rewrite fold_put_other; [done|]. intros ([f v] & Ef & Hf)%list_elem_of_fmap. cbn [fst] in Ef. subst f.
    apply elem_of_writes in Hf as (c' & key' & Hc' & Hk' & Ef).
    pose proof (Hok' c' Hc') as (Hs' & _ & Hkeys'). rewrite Forall_forall in Hkeys'.
    assert (key_ok key') as Hkey' by apply Hkeys', (list_elem_of_fmap_2 fst _ _ Hk').
    destruct (field_inj _ _ key key' Hs Hs' Hkey Hkey' Ef) as [En <-].
    assert (c' = c) as ->; [|by apply assoc_get_None in E; apply E, (list_elem_of_fmap_2 fst _ _ Hk')].
    apply list_elem_of_lookup in Hc' as [i' Hi']. assert (i' = i) as ->; [|congruence].
    apply (NoDup_lookup _ _ _ (m_name (c_metric c)) Hnd); rewrite list_lookup_fmap, ?Hi', ?Hc; cbn; by rewrite ?En.
Qed.

Lemma sent_cons k f c cmds :
  sent_to k f (c :: cmds) =
  match c with
  | HIncrByFloat key f' d => if decide (key = k /\ f' = f) then (d + sent_to k f cmds)%Q else sent_to k f cmds
  | _ => sent_to k f cmds
  end.
Proof using Type. by destruct c. Qed.

Lemma sent_app k f cmds cmds' : (sent_to k f (cmds ++ cmds') == sent_to k f cmds + sent_to k f cmds')%Q.
Proof using Type.
  induction cmds as [|c cmds IH]; [change (sent_to k f []) with 0%Q; cbn [app]; lra|].
  cbn [app]. rewrite !sent_cons. destruct c; try done. destruct (decide _); [|done]. rewrite IH. lra.
Qed.

Lemma sent_deltas k f deltas : NoDup deltas.*1 ->
  (sent_to k f ((λ fd, HIncrByFloat k fd.1 fd.2) <$> deltas) == default 0 (assoc_get f deltas))%Q.
Proof using Type.
  assert (forall ds, f ∉ ds.*1 -> sent_to k f ((λ fd, HIncrByFloat k fd.1 fd.2) <$> ds) = 0%Q) as Hno.
  { induction ds as [|[f' d] ds IH]; intros Hf; [done|]. rewrite fmap_cons, not_elem_of_cons in Hf.
    rewrite fmap_cons, sent_cons. cbn [fst snd]. rewrite decide_False by (intros [_ E]; by apply (proj1 Hf)). apply IH, Hf. }
  induction deltas as [|[f' d] deltas IH]; intros Hnd; [done|]. rewrite fmap_cons, NoDup_cons in Hnd.
  destruct Hnd as [Hf Hnd]. rewrite fmap_cons, sent_cons. cbn [assoc_get fst snd].
  destruct (decide (f = f')) as [<-|Hne].
  - rewrite decide_True, Hno by done. cbn [default from_option id]. lra.
  - rewrite decide_False by (intros [_ E]; by apply Hne). by apply IH.
Qed.

(** Commands that leave a hash alone. *)
Definition off_hash (k : string) (c : command) : Prop :=
  match c with HIncrByFloat key _ _ => key <> k | _ => True end.

Lemma sent_nothing k f cmds : Forall (off_hash k) cmds -> sent_to k f cmds = 0%Q.
Proof using Type.
  induction 1 as [|c cmds Hc _ IH]; [done|]. rewrite sent_cons.
  destruct c; try done. rewrite decide_False; [done|]. by intros [-> _].
Qed.

Lemma off_hash_deltas k k' deltas : k' <> k ->
  Forall (off_hash k) ((λ fd : string * Q, HIncrByFloat k' fd.1 fd.2) <$> deltas).
Proof using Type. intros Hk. apply Forall_fmap, Forall_forall. done. Qed.

Lemma sent_flush f r :
  (sent f (flush repr worker gauge_ttl_s clock r).2 == default 0 (assoc_get f (counter_deltas (counters r))))%Q.
Proof using Type.
  unfold flush. cbn [snd]. rewrite sent_app, sent_deltas, sent_nothing; [lra| |].
  - repeat (apply Forall_app; split); try by apply off_hash_deltas.
    + destruct (gauge_fields _); repeat constructor.
    + by repeat constructor.
  - rewrite counter_deltas_writes. assert (NoDup (@nil (string * Q)).*1) as Hnd by apply NoDup_nil_2.
    revert Hnd. generalize (@nil (string * Q)). induction (writes (counters r)) as [|fv ws IH]; intros d Hd; [done|].
    cbn [fold_left]. apply IH. unfold put_write. destruct (Qeq_bool _ _); [done|]. by apply assoc_put_NoDup.
Qed.
Definition op_ok (o : op) : Prop := match o with Inc _ _ l | Obs _ _ l => NoDup l.*1 | Flush => True end.

Lemma key_ok_sorted l : NoDup l.*1 -> key_ok (sorted_labels l).
Proof using Type.
  intros Hl. split; [by apply sorted_keys_NoDup|].
  apply sorted_labels_unique; [by apply sorted_keys_NoDup|apply sorted_labels_perm].
Qed.

Lemma counter_inc_spec amount l c c' : NoDup l.*1 -> counter_ok c -> counter_inc amount l c = inr c' ->
  counter_ok c' /\ c_metric c' = c_metric c /\
  forall key, (default 0 (assoc_get key (c_values c')) ==
    default 0 (assoc_get key (c_values c)) + if decide (sorted_labels l = key) then amount else 0)%Q.
Proof using Type.
  intros Hl (Hs & Hnd & Hk) E. unfold counter_inc in E. destruct (negb _); [done|].
  destruct (_key _ _) as [|k] eqn:Ek; [done|]. cbn [rbind] in E. injection E as <-.
  assert (k = sorted_labels l) as -> by (unfold _key in Ek; destruct (bool_decide _); congruence).
  split; [|split; [done|]].
  - split; [done|]. cbn [c_values c_metric]. split; [by apply assoc_put_NoDup|]. rewrite assoc_put_keys.
    destruct (decide _); [done|]. apply Forall_app. split; [done|]. repeat constructor; by apply key_ok_sorted.
  - intros key. cbn [c_values]. rewrite assoc_get_put.
    destruct (decide (key = sorted_labels l)) as [->|Hne].
    + rewrite decide_True by done. cbn. lra.
    + rewrite decide_False by congruence. lra.
Qed.

Lemma value_flushed i key r cmds r' : flush repr worker gauge_ttl_s clock r = (r', cmds) ->
  value_at i key r' = 0%Q /\ name_at i r' = name_at i r /\ length (counters r') = length (counters r) /\
  (registry_ok r -> registry_ok r').
Proof using Type.
  unfold flush. intros [= <- _]. unfold value_at, name_at, registry_ok. cbn [drained counters].
  rewrite list_lookup_fmap, length_fmap. split; [by destruct (counters r !! i)|].
  split; [by destruct (counters r !! i)|]. split; [done|]. intros [Hok Hnd]. split.
  - apply Forall_fmap. eapply Forall_impl; [exact Hok|]. intros c (Hs & _ & _). split; [exact Hs|].
    split; [apply NoDup_nil_2|constructor].
  - rewrite <- list_fmap_compose. exact Hnd.
Qed.

Lemma run_op_kept o r r' cmds : registry_ok r -> op_ok o -> run_op o r = inr (r', cmds) ->
  registry_ok r' /\ length (counters r') = length (counters r) /\ forall i, name_at i r' = name_at i r.
Proof using Type.
  intros Hr Ho E. destruct o as [i' amount l|i' value l|]; cbn [run_op] in E.
  - destruct (counters r !! i') as [c|] eqn:Ec; [|done]. destruct (counter_inc amount l c) as [|c'] eqn:Einc; [done|].
    injection E as <- <-. destruct Hr as [Hok Hnd]. pose proof Hok as Hok'. rewrite Forall_forall in Hok'.
    destruct (counter_inc_spec amount l c c' Ho (Hok' c (list_elem_of_lookup_2 _ _ _ Ec)) Einc) as (Hc' & Em & Hv).
    unfold registry_ok, name_at. cbn [counters]. rewrite length_insert. split; [split|split; [done|]].
    + by apply Forall_insert.
    + rewrite list_fmap_insert, Em. rewrite list_insert_id; [done|]. by rewrite list_lookup_fmap, Ec.
    + intros i. destruct (decide (i = i')) as [->|Hne]; [|by rewrite list_lookup_insert_ne].
      rewrite list_lookup_insert_eq by (by eapply lookup_lt_Some). by rewrite Ec, Em.
  - destruct (histograms r !! i') as [h|]; [|done]. destruct (observe value l h) as [|h']; [done|].
    by injection E as <- <-.
  - apply (inj inr) in E. pose proof (λ i, value_flushed i [] r cmds r' E) as Hv.
    split_and!; [by apply (Hv 0%nat)|by apply (Hv 0%nat)|intros i; by apply (Hv i)].
Qed.

Lemma run_op_conserves o r r' cmds i key : registry_ok r -> op_ok o -> key_ok key ->
  (i < length (counters r))%nat -> run_op o r = inr (r', cmds) ->
  (sent (encode_field (name_at i r) key) cmds + value_at i key r' == value_at i key r + incremented i key [o])%Q.
Proof using Type.
  intros Hr Ho Hkey Hi E. destruct o as [i' amount l|i' value l|]; cbn [run_op] in E.
  - destruct (counters r !! i') as [c|] eqn:Ec; [|done]. destruct (counter_inc amount l c) as [|c'] eqn:Einc; [done|].
    injection E as <- <-. destruct Hr as [Hok Hnd]. rewrite Forall_forall in Hok.
    destruct (counter_inc_spec amount l c c' Ho (Hok c (list_elem_of_lookup_2 _ _ _ Ec)) Einc) as (_ & _ & Hv).
    unfold value_at. cbn [counters incremented foldr]. change (sent_to _ _ []) with 0%Q. destruct (decide (i' = i)) as [->|Hne].
    + rewrite list_lookup_insert_eq, Ec, Hv by done. destruct (decide (sorted_labels l = key)) as [Hk|Hk].
      * rewrite decide_True by done. lra.
      * rewrite decide_False by tauto. lra.
    + rewrite list_lookup_insert_ne, decide_False by tauto. lra.
  - destruct (histograms r !! i') as [h|]; [|done]. destruct (observe value l h) as [|h']; [done|].
    injection E as <- <-. change (sent_to _ _ []) with 0%Q. cbn [incremented foldr].
    change (value_at i key _) with (value_at i key r). lra.
  - apply (inj inr) in E. destruct (value_flushed i key r cmds r' E) as (Hv & _). rewrite Hv.
    assert (cmds = (flush repr worker gauge_ttl_s clock r).2) as -> by by rewrite E. rewrite sent_flush.
    destruct (lookup_lt_is_Some_2 _ _ Hi) as [c Hc]. unfold name_at, value_at. rewrite Hc.
    rewrite (delta_value r i c key Hr Hc Hkey). cbn [incremented foldr]. lra.
Qed.

Lemma incremented_cons i key o ops :
  (incremented i key (o :: ops) == incremented i key [o] + incremented i key ops)%Q.
Proof using Type.
  assert (forall os, incremented i key (o :: os) = match o with
    | Inc i' amount l => if decide (i' = i /\ sorted_labels l = key) then (amount + incremented i key os)%Q
                         else incremented i key os
    | Obs _ _ _ | Flush => incremented i key os
    end) as Hc by by destruct o.
  rewrite !Hc. change (incremented i key []) with 0%Q. destruct o; [destruct (decide _)|..]; lra.
Qed.

Lemma run_ops_conserves ops : forall r r' cmds i key, registry_ok r -> Forall op_ok ops -> key_ok key ->
  (i < length (counters r))%nat -> run_ops ops r = inr (r', cmds) ->
  (sent (encode_field (name_at i r) key) cmds + value_at i key r' == value_at i key r + incremented i key ops)%Q.
Proof using Type.
  induction ops as [|o ops IH]; intros r r' cmds i key Hr Ho Hkey Hi E; cbn [run_ops] in E.
  - injection E as <- <-. change (sent_to _ _ []) with 0%Q. cbn. lra.
  - apply Forall_cons in Ho as [Ho Hops]. destruct (run_op o r) as [|[r1 cmds1]] eqn:E1; [done|].
    cbn [rbind] in E. destruct (run_ops ops r1) as [|[r2 cmds2]] eqn:E2; [done|]. cbn [rbind] in E.
    injection E as <- <-. pose proof (run_op_conserves o r r1 cmds1 i key Hr Ho Hkey Hi E1) as Hc.
    destruct (run_op_kept o r r1 cmds1 Hr Ho E1) as (Hr1 & Hl & Hn).
    rewrite <- Hl in Hi. pose proof (IH r1 r2 cmds2 i key Hr1 Hops Hkey Hi E2) as Hc2. rewrite Hn in Hc2.
    rewrite sent_app, incremented_cons. lra.
Qed.
End conservation.

(** ** Derived counters *)

Definition attempts_metric : metric := c_metric (new_counter "orch_page_attempts_total"
  "Page processing attempts, by per-attempt outcome." ["outcome"]).
Definition terminal_metric : metric := c_metric (new_counter "orch_pages_terminal_total"
  "Pages reaching a terminal state, classified for the zero-drop metric." ["result"]).

(** The last total of an outcome, and what a snapshot adds to it. *)
Definition total_of (o : string) (l : list (string * Z)) : Z := default 0 (assoc_get o l).
Definition grown (outcomes last : list (string * Z)) (o : string) : Z :=
  match assoc_get o outcomes with Some t => Z.max 0 (t - total_of o last) | None => 0 end.

(** A sum over the outcomes that end a page with a result. *)
Definition over_result (res : string) (g : string -> Z) : Z :=
  foldr (λ r n, (if (r.2 =? res)%string then g r.1 else 0) + n) 0 _TERMINAL_RESULT.

Lemma over_result_add res g h : over_result res (λ o, g o + h o) = over_result res g + over_result res h.
Proof.
  unfold over_result. induction _TERMINAL_RESULT as [|r l IH]; [done|]. cbn [foldr].
  rewrite IH. destruct (r.2 =? res)%string; lia.
Qed.

Lemma over_result_one res o d :
  over_result res (λ o', if decide (o' = o) then d else 0) =
  if decide (assoc_get o _TERMINAL_RESULT = Some res) then d else 0.
Proof.
  unfold over_result, _TERMINAL_RESULT. cbn [foldr assoc_get fst snd].
  repeat match goal with
  | |- context [decide (?x = o)] => destruct (decide (x = o)) as [E|?]; [subst o|]
  end; repeat (rewrite decide_True by done) || (rewrite decide_False by congruence);
  repeat match goal with |- context [(?a =? res)%string] => destruct (String.eqb_spec a res) end;
  subst; cbn; try congruence; repeat case_decide; try congruence; lia.
Qed.

Definition value_of (key : labels) (c : Counter) : Q := default 0%Q (assoc_get key (c_values c)).

Lemma counter_inc_one name v d c : counter_ok c -> m_labelnames (c_metric c) = [name] -> 0 <= d ->
  exists c', counter_inc (inject_Z d) [(name, v)] c = inr c' /\ counter_ok c' /\ c_metric c' = c_metric c /\
    forall v', (value_of [(name, v')] c' == value_of [(name, v')] c + inject_Z (if decide (v' = v) then d else 0))%Q.
Proof.
  intros Hc Hn Hd. assert (NoDup ([(name, v)] : labels).*1) as Hnd by apply NoDup_singleton.
  destruct (counter_inc (inject_Z d) [(name, v)] c) as [e|c'] eqn:E.
  - unfold counter_inc, _key in E. rewrite Hn in E. change [(name, v)].*1 with [name] in E.
    rewrite bool_decide_eq_true_2 in E by done.
    assert (Qle_bool 0 (inject_Z d) = true) as Hle by (apply Qle_bool_iff; change 0%Q with (inject_Z 0); by rewrite <- Zle_Qle).
    rewrite Hle in E. done.
  - destruct (counter_inc_spec _ _ _ _ Hnd Hc E) as (Hc' & Hm & Hv). exists c'. split_and!; [done..|].
    intros v'. unfold value_of. rewrite Hv. change (sorted_labels [(name, v)]) with [(name, v)].
    case_decide as E'.
    + rewrite (decide_True (P := v' = v)) by congruence. reflexivity.
    + rewrite (decide_False (P := v' = v)) by congruence. change (inject_Z 0) with 0%Q. lra.
Qed.

(** Two counters behind the totals. *)
Record derived (attempts terminal : Counter) : Prop := {
  dv_attempts : counter_ok attempts; dv_terminal : counter_ok terminal;
  dv_attempts_metric : c_metric attempts = attempts_metric;
  dv_terminal_metric : c_metric terminal = terminal_metric }.

Definition adds (attempts terminal attempts' terminal' : Counter) (g : string -> Z) : Prop :=
  (forall o, (value_of [("outcome", o)] attempts' == value_of [("outcome", o)] attempts + inject_Z (g o))%Q) /\
  (forall res, (value_of [("result", res)] terminal' ==
                value_of [("result", res)] terminal + inject_Z (over_result res g))%Q).

Lemma sync_outcome_adds o t attempts terminal last : derived attempts terminal ->
  exists attempts' terminal',
    sync_outcome o t attempts terminal last = inr (attempts', terminal', assoc_put o t last) /\
    derived attempts' terminal' /\
    adds attempts terminal attempts' terminal'
      (λ o', if decide (o' = o) then Z.max 0 (t - total_of o last) else 0).
Proof.
  intros [Ha Ht Hma Hmt]. unfold sync_outcome. fold (total_of o last).
  set (d := Z.max 0 (t - total_of o last)). unfold adds.
  destruct (Z.eqb_spec d 0) as [->|Hd].
  - exists attempts, terminal. split_and!; [done|done|..].
    + intros o'. destruct (decide _); change (inject_Z 0) with 0%Q; lra.
    + intros res. rewrite over_result_one. destruct (decide _); change (inject_Z 0) with 0%Q; lra.
  - destruct (counter_inc_one "outcome" o d attempts Ha) as (a' & -> & Ha' & Hma' & Hva); [by rewrite Hma|lia|].
    cbn [rbind]. destruct (assoc_get o _TERMINAL_RESULT) as [res0|] eqn:Er.
    + destruct (counter_inc_one "result" res0 d terminal Ht) as (t' & -> & Ht' & Hmt' & Hvt); [by rewrite Hmt|lia|].
      exists a', t'. split_and!; [done|split; [done|done|by rewrite Hma'|by rewrite Hmt']|exact Hva|].
      intros res. rewrite Hvt, over_result_one, Er.
      destruct (decide (res = res0)) as [->|]; [by rewrite decide_True|]. by rewrite decide_False by congruence.
    + exists a', terminal. split_and!; [done|split; [done|done|by rewrite Hma'|done]|exact Hva|].
      intros res. rewrite over_result_one, Er, decide_False by done. change (inject_Z 0) with 0%Q. lra.
Qed.

Lemma sync_outcomes_adds outcomes : forall attempts terminal last, NoDup outcomes.*1 ->
  derived attempts terminal ->
  exists attempts' terminal' last',
    sync_outcomes outcomes attempts terminal last = inr (attempts', terminal', last') /\
    derived attempts' terminal' /\ adds attempts terminal attempts' terminal' (grown outcomes last) /\
    forall o, total_of o last' = default (total_of o last) (assoc_get o outcomes).
Proof.
  induction outcomes as [|[o t] outcomes IH]; intros attempts terminal last Hnd Hd; cbn [sync_outcomes].
  - exists attempts, terminal, last. split_and!; [done|done| |done]. unfold adds, grown. cbn [assoc_get].
    split; intros; change (inject_Z 0) with 0%Q; [lra|].
    assert (over_result res (λ _, 0) = 0) as ->; [|change (inject_Z 0) with 0%Q; lra].
    unfold over_result. induction _TERMINAL_RESULT as [|r l IH]; [done|]. cbn [foldr].
    rewrite IH. by destruct (r.2 =? res)%string.
  - rewrite fmap_cons, NoDup_cons in Hnd. destruct Hnd as [Ho Hnd]. cbn [fst] in Ho.
    destruct (sync_outcome_adds o t attempts terminal last Hd) as (a1 & t1 & -> & Hd1 & Ha1 & Ht1). cbn [rbind].
    destruct (IH a1 t1 (assoc_put o t last) Hnd Hd1) as (a2 & t2 & l2 & -> & Hd2 & [Ha2 Ht2] & Hl2).
    exists a2, t2, l2. split_and!; [done|done| |].
    + assert (forall o', grown ((o, t) :: outcomes) last o' =
        (if decide (o' = o) then Z.max 0 (t - total_of o last) else 0) + grown outcomes (assoc_put o t last) o') as Hg.
      { intros o'. unfold grown, total_of. cbn [assoc_get]. rewrite assoc_get_put.
        destruct (decide (o' = o)) as [->|]; [|done]. apply assoc_get_None in Ho. rewrite Ho. lia. }
      split; [intros o'|intros res].
      * rewrite Ha2, Ha1, Hg, inject_Z_plus. lra.
      * assert (over_result res (grown ((o, t) :: outcomes) last) =
          over_result res (λ o', (if decide (o' = o) then Z.max 0 (t - total_of o last) else 0) +
            grown outcomes (assoc_put o t last) o')) as ->.
        { unfold over_result. induction _TERMINAL_RESULT as [|r l IHl]; [done|]. cbn [foldr]. by rewrite IHl, Hg. }
        rewrite Ht2, Ht1, over_result_add, inject_Z_plus. lra.
    + intros o'. rewrite Hl2. unfold total_of. cbn [assoc_get]. rewrite assoc_get_put.
      destruct (decide (o' = o)) as [->|]; [|done]. apply assoc_get_None in Ho. by rewrite Ho.
Qed.

Section worker_history.
Context (repr : Q -> string) (gauge_ttl_s : Q) (clock : string).

(** Both derived counters are drained. *)
Record wm_ok (wm : WorkerMetrics) : Prop := {
  wo_registry : registry_ok (registry wm);
  wo_derived : derived (page_attempts wm) (pages_terminal wm);
  wo_drained : c_values (page_attempts wm) = [] /\ c_values (pages_terminal wm) = [] }.

(** A call site records something. *)
Inductive recorded (wm wm' : WorkerMetrics) : Prop :=
| rec_call e o d : record_model_call e o d wm = inr wm' -> recorded wm wm'
| rec_retry e : record_retry e wm = inr wm' -> recorded wm wm'
| rec_wait e d : record_rate_limit_wait e d wm = inr wm' -> recorded wm wm'
| rec_page d : record_page d wm = inr wm' -> recorded wm wm'.

(** Flushes with these snapshots of the outcomes, calls recorded before each. *)
Inductive flushes : WorkerMetrics -> list (list (string * Z)) -> list command -> Prop :=
| flushes_none wm : flushes wm [] []
| flushes_next wm wm1 wm2 outcomes reaper flying cmds hist cmds' :
    rtc recorded wm wm1 ->
    flush_worker repr gauge_ttl_s clock outcomes reaper flying wm1 = inr (wm2, cmds) ->
    flushes wm2 hist cmds' -> flushes wm (outcomes :: hist) (cmds ++ cmds').

(** The last total reported of an outcome. *)
Definition reported (hist : list (list (string * Z))) (n : Z) (o : string) : Z :=
  fold_left (λ n outcomes, default n (assoc_get o outcomes)) hist n.

(** Snapshots of running totals. *)
Fixpoint running (hist : list (list (string * Z))) (n : string -> Z) : Prop :=
  match hist with
  | [] => True
  | outcomes :: hist' =>
      NoDup outcomes.*1 /\ (forall o t, (o, t) ∈ outcomes -> n o <= t) /\
      running hist' (λ o, default (n o) (assoc_get o outcomes))
  end.

Lemma registry_ok_counters r r' :
  Forall2 (λ c c', c_metric c' = c_metric c /\ counter_ok c') (counters r) (counters r') ->
  registry_ok r -> registry_ok r'.
Proof using Type.
  intros Hf [_ Hnd]. split.
  - clear Hnd. induction Hf as [|c c' l l' [_ Hc] _ IH]; [constructor|]. by constructor.
  - assert ((λ c, m_name (c_metric c)) <$> counters r' = (λ c, m_name (c_metric c)) <$> counters r) as ->; [|done].
    clear Hnd. induction Hf as [|c c' l l' [Hc _] _ IH]; [done|]. rewrite !fmap_cons, IH. by rewrite Hc.
Qed.

Lemma counter_inc_kept amount l c c' : NoDup l.*1 -> counter_ok c -> counter_inc amount l c = inr c' ->
  c_metric c' = c_metric c /\ counter_ok c'.
Proof using Type. intros Hl Hc E. destruct (counter_inc_spec _ _ _ _ Hl Hc E) as (H1 & H2 & _). done. Qed.

(** Counters that are the old ones, or were incremented. *)
#[local] Ltac kept_counters :=
  eapply registry_ok_counters; [|eassumption];
  repeat (apply List.Forall2_cons; [solve [auto]|]); apply List.Forall2_nil.

Lemma recorded_ok wm wm' : recorded wm wm' -> wm_ok wm -> wm_ok wm' /\ _last_outcomes wm' = _last_outcomes wm.
Proof using Type.
  intros Hr [Hreg Hd Hv]. pose proof (proj1 Hreg) as Hall. cbn [registry counters] in Hall.
  repeat (apply Forall_cons in Hall as [? Hall]).
  assert (forall c, counter_ok c -> c_metric c = c_metric c /\ counter_ok c) as Hsame by done.
  assert (forall k v, NoDup ([(k, v)] : labels).*1) as Hone by (intros; apply NoDup_singleton).
  destruct Hr as [e o d E|e E|e d E|d E].
  - unfold record_model_call in E. destruct (counter_inc _ _ _) as [|c] eqn:Ec; [done|].
    cbn [rbind] in E. destruct (observe _ _ _) as [|h]; [done|]. injection E as <-. split; [|done].
    apply counter_inc_kept in Ec; [| |done].
    + split; [kept_counters|exact Hd|exact Hv].
    + apply NoDup_cons. split; [by intros ?%list_elem_of_singleton|apply NoDup_singleton].
  - unfold record_retry in E. destruct (counter_inc _ _ _) as [|c] eqn:Ec; [done|].
    injection E as <-. split; [|done]. apply counter_inc_kept in Ec; [|done..].
    split; [kept_counters|exact Hd|exact Hv].
  - unfold record_rate_limit_wait in E. destruct (counter_inc 1 _ _) as [|c] eqn:Ec; [done|]. cbn [rbind] in E.
    destruct (counter_inc d _ _) as [|c2] eqn:Ec2; [done|]. injection E as <-. split; [|done].
    apply counter_inc_kept in Ec; [|done..]. apply counter_inc_kept in Ec2; [|done..].
    split; [kept_counters|exact Hd|exact Hv].
  - unfold record_page in E. destruct (observe _ _ _) as [|h]; [done|]. injection E as <-. split; [|done].
    split; [kept_counters|exact Hd|exact Hv].
Qed.

Lemma sync_actions_kept reaper : forall c last c' last', counter_ok c ->
  sync_actions reaper c last = inr (c', last') -> c_metric c' = c_metric c /\ counter_ok c'.
Proof using Type.
  induction reaper as [|[a t] reaper IH]; intros c last c' last' Hc E; cbn [sync_actions] in E.
  - by injection E as <- <-.
  - unfold sync_action in E. destruct (_ =? 0); cbn [rbind] in E; [by eapply IH|].
    destruct (counter_inc _ _ _) as [|c1] eqn:E1; [done|]. cbn [rbind] in E.
    apply counter_inc_kept in E1 as [Hm1 Hc1]; [|apply NoDup_singleton|done].
    destruct (IH _ _ _ _ Hc1 E) as [Hm Hc']. by rewrite Hm.
Qed.

(** One flush sends what the totals have grown by. *)
Lemma flush_sends outcomes reaper flying wm wm' cmds : wm_ok wm -> NoDup outcomes.*1 ->
  flush_worker repr gauge_ttl_s clock outcomes reaper flying wm = inr (wm', cmds) ->
  wm_ok wm' /\
  (forall o, total_of o (_last_outcomes wm') = default (total_of o (_last_outcomes wm)) (assoc_get o outcomes)) /\
  (forall o, (sent (encode_field "orch_page_attempts_total" [("outcome", o)]) cmds ==
              inject_Z (grown outcomes (_last_outcomes wm) o))%Q) /\
  (forall res, (sent (encode_field "orch_pages_terminal_total" [("result", res)]) cmds ==
                inject_Z (over_result res (grown outcomes (_last_outcomes wm))))%Q).
Proof using Type.
  intros [Hreg Hd [Hva Hvt]] Hnd E. unfold flush_worker, sync in E.
  destruct (sync_outcomes_adds outcomes (page_attempts wm) (pages_terminal wm) (_last_outcomes wm) Hnd Hd)
    as (a & t & l & Es & Hd' & [Ha Ht] & Hl). rewrite Es in E. cbn [rbind] in E.
  destruct (sync_actions _ _ _) as [|[ra lr]] eqn:Er; [done|]. cbn [rbind] in E.
  destruct (gauge_set _ _ _) as [|g] eqn:Eg; [done|]. cbn [rbind] in E.
  match type of E with inr (drain_fields ?w, _) = _ => set (wm1 := w) in * end.
  assert (drain_fields wm1 = wm' /\ (flush repr (wm_worker wm1) gauge_ttl_s clock (registry wm1)).2 = cmds)
    as [<- <-] by (split; congruence). clear E.
  pose proof (proj1 Hreg) as Hall. cbn [registry counters] in Hall. repeat (apply Forall_cons in Hall as [? Hall]).
  destruct (sync_actions_kept _ _ _ _ _ ltac:(done) Er) as [Hmr Hcr].
  assert (registry_ok (registry wm1)) as Hreg1.
  { eapply registry_ok_counters, Hreg. destruct Hd as [_ _ Hma Hmt], Hd' as [Hca Hct Hma' Hmt'].
    repeat (apply List.Forall2_cons; [split; cbn; congruence || done|]). apply List.Forall2_nil. }
  split_and!.
  - split.
    + destruct (value_flushed repr (wm_worker wm1) gauge_ttl_s clock 0 [] (registry wm1) _ _ eq_refl) as (_ & _ & _ & Hf).
      by apply Hf.
    + destruct Hd' as [[Hsa _] [Hst _] Hma' Hmt'].
      split; cbn; try done; (split; [done|split; [apply NoDup_nil_2|constructor]]).
    + done.
  - exact Hl.
  - intros o. rewrite sent_flush. destruct Hd' as [_ _ Hma' _].
    pose proof (delta_value (registry wm1) 4 a [("outcome", o)] Hreg1 eq_refl) as Hdv. rewrite Hma' in Hdv.
    cbn [attempts_metric new_counter c_metric m_name] in Hdv. rewrite Hdv.
    + fold (value_of [("outcome", o)] a). rewrite Ha. unfold value_of. rewrite Hva. cbn. lra.
    + split; [apply NoDup_singleton|done].
  - intros res. rewrite sent_flush. destruct Hd' as [_ _ _ Hmt'].
    pose proof (delta_value (registry wm1) 5 t [("result", res)] Hreg1 eq_refl) as Hdv. rewrite Hmt' in Hdv.
    cbn [terminal_metric new_counter c_metric m_name] in Hdv. rewrite Hdv.
    + fold (value_of [("result", res)] t). rewrite Ht. unfold value_of. rewrite Hvt. cbn. lra.
    + split; [apply NoDup_singleton|done].
Qed.
End worker_history.

Lemma make_worker_metrics_ok worker limit wm : make_worker_metrics worker limit = inr wm ->
  wm_ok wm /\ _last_outcomes wm = [].
Proof.
  unfold make_worker_metrics. destruct (new_histogram _ _ _) as [|h1]; [done|]. cbn [rbind].
  destruct (new_histogram _ _ _) as [|h2]; [done|]. cbn [rbind].
  destruct (gauge_set _ _ _) as [|g]; [done|]. cbn [rbind]. intros [= <-]. split; [|done].
  assert (forall n help names, str_forall no_sep n = true -> counter_ok (new_counter n help names)) as Hnew.
  { intros n help names Hn. split; [exact Hn|]. split; [apply NoDup_nil_2|constructor]. }
  split; [split| |done].
  - repeat (apply List.Forall_cons; [by apply Hnew|]). apply List.Forall_nil.
  - apply (bool_decide_unpack _). vm_compute. done.
  - split; [by apply Hnew|by apply Hnew|done|done].
Qed.

Lemma flushes_send repr ttl clock hist : forall wm cmds o res, wm_ok wm ->
  flushes repr ttl clock wm hist cmds -> running hist (λ o, total_of o (_last_outcomes wm)) ->
  (sent (encode_field "orch_page_attempts_total" [("outcome", o)]) cmds ==
   inject_Z (reported hist (total_of o (_last_outcomes wm)) o - total_of o (_last_outcomes wm)))%Q /\
  (sent (encode_field "orch_pages_terminal_total" [("result", res)]) cmds ==
   inject_Z (over_result res (λ o, reported hist (total_of o (_last_outcomes wm)) o -
                                   total_of o (_last_outcomes wm))%Z))%Q.
Proof.
  induction hist as [|outcomes hist IH]; intros wm cmds o res Hok Hf Hrun; inversion Hf; subst.
  - change (sent_to _ _ []) with 0%Q. cbn [reported fold_left]. rewrite Z.sub_diag. split; [done|].
    assert (over_result res (λ o, total_of o (_last_outcomes wm) - total_of o (_last_outcomes wm)) = 0) as ->; [|done].
    unfold over_result. induction _TERMINAL_RESULT as [|r l IHl]; [done|]. cbn [foldr].
    rewrite IHl, Z.sub_diag. by destruct (r.2 =? res)%string.
  - destruct Hrun as (Hnd & Hup & Hrun).
    match goal with Hr : rtc recorded wm ?w |- _ =>
      assert (wm_ok w /\ _last_outcomes w = _last_outcomes wm) as [Hok1 El] by
        (clear -Hr Hok; induction Hr as [|? ? ? Hr _ IHr]; [done|]; destruct (recorded_ok _ _ Hr Hok) as [Hk E];
         destruct (IHr Hk) as [? E2]; by rewrite E2, E) end.
    match goal with Hw : flush_worker _ _ _ _ _ _ _ = _ |- _ =>
      destruct (flush_sends _ _ _ _ _ _ _ _ _ Hok1 Hnd Hw) as (Hok2 & Hl & Ha & Ht) end.
    rewrite El in Hl, Ha, Ht.
    assert (forall o, grown outcomes (_last_outcomes wm) o =
      default (total_of o (_last_outcomes wm)) (assoc_get o outcomes) - total_of o (_last_outcomes wm)) as Hg.
    { intros o'. unfold grown. destruct (assoc_get o' outcomes) as [t|] eqn:E; cbn [default from_option id]; [|lia].
      apply assoc_get_in, Hup in E. lia. }
    match goal with Hh : flushes _ _ _ ?w hist _ |- _ => destruct (IH w _ o res Hok2 Hh) as [IHa IHt] end.
    { clear -Hl Hrun. revert Hrun. assert (forall h f g, (forall o, f o = g o) -> running h f -> running h g) as Hext.
      { induction h as [|s h IH]; intros f g Hfg; [done|]. intros (H1 & H2 & H3). split_and!; [done| |].
        - intros o t Ho. rewrite <- Hfg. by apply H2.
        - apply (IH (λ o, default (f o) (assoc_get o s))); [|exact H3]. intros o. cbn. by rewrite Hfg. }
      apply Hext. intros o. by rewrite Hl. }
    rewrite !sent_app, IHa, IHt, Ha, Ht. cbn [reported fold_left]. fold (reported hist). split.
    + rewrite Hl, Hg, <- inject_Z_plus. f_equiv. unfold reported. lia.
    + rewrite <- inject_Z_plus, <- over_result_add. f_equiv. unfold over_result.
      induction _TERMINAL_RESULT as [|r l IHl]; [done|]. cbn [foldr]. rewrite IHl, Hl, Hg. unfold reported.
      destruct (r.2 =? res)%string; lia.
Qed.

(** ** Properties *)

(** a series is read back from its field: whatever its label values hold, the
    aggregator decodes a flushed field to the metric's name and its labels, sorted;
    so two series share a field only if they are the same. *)
Theorem series_round_trip name name' l l' :
  str_forall no_sep name = true -> str_forall no_sep name' = true -> NoDup l.*1 -> NoDup l'.*1 ->
  decode_field (encode_field name l) = inr (name, json_labels (sorted_labels l)) /\
  (encode_field name l = encode_field name' l' <-> name = name' /\ l ≡ₚ l').
Proof.
  intros Hn Hn' Hl Hl'. split; [by apply decode_encode|]. split; [by apply encode_field_inj|].
  intros [-> Hp]. unfold encode_field. by rewrite (sorted_labels_unique l l').
Qed.

(** a rendered sample is one line, and a scraper reads its name, its labels - with
    quotes, backslashes and line breaks in their values - and its value back. *)
Theorem exposition_round_trip repr (s : Sample) :
  str_forall is_name_char (s_name s) = true ->
  Forall (λ kv, str_forall is_name_char kv.1 = true) (s_labels s) ->
  read_sample (_render_sample repr s) =
    Some (s_name s, sorted_labels (s_labels s), _format_value repr (s_value s)) /\
  (str_forall no_lf (_format_value repr (s_value s)) = true ->
   str_forall no_lf (_render_sample repr s) = true).
Proof.
  intros Hn Hl. unfold read_sample, _render_sample. destruct s as [name l v]; cbn [s_name s_labels s_value] in *.
  assert (Forall (λ kv, str_forall is_name_char kv.1 = true) (sorted_labels l)) as Hls
    by by rewrite sorted_labels_perm.
  assert (sorted_labels l <> [] \/ l = []) as Hne.
  { destruct l as [|kv l]; [by right|left]. intros E. pose proof (sorted_labels_perm (kv :: l)) as Hp.
    rewrite E in Hp. by apply Permutation_nil_cons in Hp. }
  destruct l as [|kv l].
  - change (" " +:+ _format_value repr v) with (String " " (_format_value repr v)).
    rewrite read_name_stop by done. split; [done|]. intros Hv. by rewrite str_forall_app, name_no_lf.
  - destruct Hne as [Hne|]; [|done]. set (sl := sorted_labels (kv :: l)) in *.
    change ("{" +:+ ?x) with (String "{" x). change ("} " +:+ _format_value repr v)
      with (String "}" (String " " (_format_value repr v))).
    rewrite read_name_stop by done. split.
    + rewrite read_labels_join; [done|done|done|]. rewrite string_app_length. pose proof (join_length sl). lia.
    + intros Hv. rewrite str_forall_app, name_no_lf by done.
      rewrite str_forall_append, str_forall_app, labels_no_lf by done. exact Hv.
Qed.

(** the buckets count.  After any observations, each series that was observed is
    scraped as, for every bound, the number of its values within the bound - so the
    buckets are cumulative, and the last equals the count - with their sum and their
    number; a series that was not observed is not there. *)
Theorem histogram_exact repr m buckets h0 obs h key : make_histogram m buckets = inr h0 ->
  observe_all obs h0 = inr h ->
  let vs := values_of key obs in
  match assoc_get key (h_counts h) with
  | None => vs = []
  | Some counts =>
      series_samples repr (m_name m) (h_buckets h) (h_sums h) key (inject_Z <$> counts) =
      ((λ b, {| s_name := m_name m +:+ "_bucket"; s_labels := assoc_put "le" (_format_bucket_bound repr b) key;
                s_value := Num (inject_Z (Z.of_nat (taken b vs))) |}) <$> h_buckets h) ++
      [{| s_name := m_name m +:+ "_sum"; s_labels := key; s_value := Num (fold_left Qplus vs 0%Q) |};
       {| s_name := m_name m +:+ "_count"; s_labels := key; s_value := Num (inject_Z (Z.of_nat (length vs))) |}]
  end.
Proof.
  intros E0 E vs. pose proof (new_buckets_ok m buckets h0 E0) as Hb.
  assert (series_ok h0 key []) as H0.
  { unfold make_histogram in E0. destruct (merge_sort Qle buckets); [done|]. by injection E0 as <-. }
  destruct (observe_all_series obs h0 h [] key Hb E H0) as (Hs & Eb & _). rewrite <- Eb in Hb.
  destruct (assoc_get key (h_counts h)) as [counts|] eqn:Ec.
  - by apply series_samples_exact.
  - destruct Hs as [Hc _]. by rewrite Ec in Hc.
Qed.

(** no increment is lost or counted twice.  Over any history of increments and
    flushes of a registry, what the pipelines added to the field of a series and what
    its counter still holds make up exactly what was added to it. *)
Theorem counters_exact repr worker ttl clock ops r r' cmds i c key :
  registry_ok r -> Forall op_ok ops -> key_ok key -> counters r !! i = Some c -> c_values c = [] ->
  run_ops repr worker ttl clock ops r = inr (r', cmds) ->
  (sent (encode_field (m_name (c_metric c)) key) cmds + value_at i key r' == incremented i key ops)%Q.
Proof.
  intros Hr Ho Hk Hc Hv E. pose proof (lookup_lt_Some _ _ _ Hc) as Hi.
  pose proof (run_ops_conserves repr worker ttl clock ops r r' cmds i key Hr Ho Hk Hi E) as Hs.
  assert (name_at i r = m_name (c_metric c)) as En by (unfold name_at; by rewrite Hc).
  assert (value_at i key r = 0%Q) as Ev by (unfold value_at; by rewrite Hc, Hv).
  rewrite En, Ev in Hs. rewrite Hs. apply Qplus_0_l.
Qed.

(** the totals reach the aggregate.  Over any number of flushes of a worker, other
    metrics being recorded in between, with totals that only grow: what was added to
    the attempts of an outcome is its last total, and what was added to the pages of
    a result is the sum over the outcomes that end a page with it. *)
Theorem totals_reach_redis repr worker limit ttl clock wm hist cmds o res :
  make_worker_metrics worker limit = inr wm -> flushes repr ttl clock wm hist cmds ->
  running hist (λ _, 0) ->
  (sent (encode_field "orch_page_attempts_total" [("outcome", o)]) cmds == inject_Z (reported hist 0 o))%Q /\
  (sent (encode_field "orch_pages_terminal_total" [("result", res)]) cmds ==
   inject_Z (over_result res (reported hist 0)))%Q.
Proof.
  intros Em Hf Hrun. destruct (make_worker_metrics_ok _ _ _ Em) as [Hok El].
  destruct (flushes_send repr ttl clock hist wm cmds o res Hok Hf) as [Ha Ht].
  { by rewrite El. }
  rewrite El in Ha, Ht. change (total_of o []) with 0 in Ha. rewrite Z.sub_0_r in Ha. split; [exact Ha|].
  rewrite Ht. f_equiv. unfold over_result. induction _TERMINAL_RESULT as [|r l IH]; [done|]. cbn [foldr].
  rewrite IH. change (total_of r.1 []) with 0. by rewrite Z.sub_0_r.
Qed.

(** *** Witnesses *)

Definition no_repr (_ : Q) : string := "0.5".

Example series_round_trip_witness :
  decode_field (encode_field "m" [("b", "x=1,y"); ("a", "z")]) =
    inr ("m", JObj [("a", JStr "z"); ("b", JStr "x=1,y")]) /\
  encode_field "m" [("b", "x=1,y"); ("a", "z")] = encode_field "m" [("a", "z"); ("b", "x=1,y")].
Proof.
  destruct (series_round_trip "m" "m" [("b", "x=1,y"); ("a", "z")] [("a", "z"); ("b", "x=1,y")]) as [H1 [_ H2]];
    [done|done|apply (bool_decide_unpack _); done..|].
  split; [exact H1|]. apply H2. split; [done|]. apply Permutation_swap.
Defined.

Example exposition_round_trip_witness :
  read_sample (_render_sample no_repr {| s_name := "m"; s_labels := [("k", String QUOTE (String NEWLINE "\"))];
                                         s_value := Num (1 # 2) |}) =
  Some ("m", [("k", String QUOTE (String NEWLINE "\"))], "0.5").
Proof.
  refine (proj1 (exposition_round_trip no_repr {| s_name := "m";
    s_labels := [("k", String QUOTE (String NEWLINE "\"))]; s_value := Num (1 # 2) |} _ _)); [done|by repeat constructor].
Defined.

Definition demo_histogram : Histogram :=
  {| h_metric := {| m_name := "d"; m_help := ""; m_labelnames := [] |}; h_buckets := [Some 1; Some 2; None]%Q;
     h_counts := []; h_sums := [] |}.

Example histogram_exact_witness :
  exists h counts, observe_all [([], 3 # 2); ([], 5); ([], 2)]%Q demo_histogram = inr h /\
    assoc_get ([] : labels) (h_counts h) = Some counts /\
    s_value <$> series_samples no_repr "d" (h_buckets h) (h_sums h) [] (inject_Z <$> counts) =
    [Num 0; Num 2; Num 3; Num (17 # 2); Num 3]%Q.
Proof.
  destruct (observe_all [([], 3 # 2); ([], 5); ([], 2)]%Q demo_histogram) as [|h] eqn:E; [vm_compute in E; discriminate E|].
  assert (make_histogram (h_metric demo_histogram) [2; 1]%Q = inr demo_histogram) as E0 by (vm_compute; reflexivity).
  pose proof (histogram_exact no_repr _ _ _ _ h [] E0 E) as Hx. cbv zeta in Hx.
  match type of Hx with match ?t with _ => _ end => destruct t as [counts|] eqn:Ec end;
    [|unfold values_of, filter, list_filter in Hx; discriminate Hx].
  exists h, counts. split; [done|]. split; [done|].
  change (m_name (h_metric demo_histogram)) with "d" in Hx. rewrite Hx.
  injection E as <-. vm_compute. reflexivity.
Defined.

Definition demo_registry : Registry :=
  {| counters := [new_counter "a" "" ["k"]; new_counter "b" "" []]; gauges := []; histograms := [] |}.

Example counters_exact_witness :
  exists r cmds, run_ops no_repr "w" 1 "0" [Inc 0 2 [("k", "x")]; Flush; Inc 0 1 [("k", "x")]; Flush;
      Inc 0 (1 # 2) [("k", "x")]] demo_registry = inr (r, cmds) /\
    (sent (encode_field "a" [("k", "x")]) cmds + value_at 0 [("k", "x")] r == 7 # 2)%Q.
Proof.
  destruct (run_ops no_repr "w" 1 "0" [Inc 0 2 [("k", "x")]; Flush; Inc 0 1 [("k", "x")]; Flush;
      Inc 0 (1 # 2) [("k", "x")]] demo_registry) as [|[r cmds]] eqn:E; [by vm_compute in E|].
  exists r, cmds. split; [done|].
  refine (counters_exact no_repr "w" 1 "0" _ demo_registry r cmds 0 (new_counter "a" "" ["k"]) [("k", "x")]
    _ _ _ eq_refl eq_refl E).
  - split; [|apply (bool_decide_unpack _); done].
    repeat constructor.
  - repeat constructor; try done; try (intros ?%elem_of_nil; done).
  - split; [apply NoDup_singleton|done].
Defined.

Example totals_reach_redis_witness :
  exists wm wm' cmds, make_worker_metrics "w" 4 = inr wm /\
    flush_worker no_repr 1 "0" [("handoff", 3); ("resumed", 2); ("degraded", 1)] [] 0 wm = inr (wm', cmds) /\
    (sent (encode_field "orch_pages_terminal_total" [("result", "success")]) cmds == 3)%Q.
Proof.
  destruct (make_worker_metrics "w" 4) as [|wm] eqn:E; [by vm_compute in E|].
  destruct (flush_worker no_repr 1 "0" [("handoff", 3); ("resumed", 2); ("degraded", 1)] [] 0 wm) as [|[wm' cmds]] eqn:E2.
  { injection E as <-. vm_compute in E2. discriminate E2. }
  exists wm, wm', cmds. split; [done|]. split; [done|].
  assert (flushes no_repr 1 "0" wm [[("handoff", 3); ("resumed", 2); ("degraded", 1)]] (cmds ++ [])) as Hf.
  { eapply flushes_next; [apply rtc_refl|exact E2|apply flushes_none]. }
  rewrite app_nil_r in Hf.
  refine (proj2 (totals_reach_redis no_repr "w" 4 1 "0" wm _ cmds "resumed" "success" E Hf _)).
  split; [apply (bool_decide_unpack _); done|]. split; [|done].
  intros o t Ho. repeat (apply elem_of_cons in Ho as [[= -> ->]|Ho]; [lia|]). by apply elem_of_nil in Ho.
Defined.
