(* ===== verification/Scrape.v ===== *)
(** * The scrape ([app/api/metrics.py])

    [GET /metrics] assembles families from what the workers flushed, from the state
    other components keep in Redis, and from this process.  A read of Redis is its
    reply, or the error it raised; the families are functions of the replies.  [repr]
    of a float, and [float] of the text Redis holds a number as, are parameters: such
    a number is finite, as [HINCRBYFLOAT] refuses to store others.  Lemmas: what each
    source makes of a reply whose fields were written by [MetricsSink]; the response
    is never an error unless the request is cancelled.  [Fleet.v] puts the flushes of
    many workers in front of it. *)

From Stdlib Require Import QArith Lqa.
From stdpp Require Import sorting.
From S2P Require Import Prelude Py Json Results Streams Breaker Admission Sse Metrics.
#[local] Open Scope Z_scope.

Definition LANES : list (string * string) := [(LEAD_STREAM, "lead"); (STREAM, "main")].

Definition _WORKER_HISTOGRAMS : list (string * string) :=
  [("orch_model_request_duration_seconds",
    "Latency of one model call, including the wait for a rate-limit token.");
   ("orch_page_duration_seconds",
    "Wall time from a page being claimed to reaching a terminal state.")].

Definition _WORKER_COUNTER_HELP : list (string * string) :=
  [("orch_page_attempts_total",
    "Page processing attempts by outcome; a two-stage page yields handoff then resumed, so this is attempts and not pages.");
   ("orch_pages_terminal_total",
    "Pages reaching a terminal state: success (incl. degraded), failed, or duplicate redelivery.");
   ("orch_rate_limit_wait_seconds_total", "Cumulative seconds spent waiting for rate-limit tokens.");
   ("orch_model_requests_total", "Model calls attempted, by endpoint and outcome.");
   ("orch_model_retries_total", "Retry attempts issued, by endpoint.");
   ("orch_rate_limit_waits_total", "Times a worker waited on a rate-limit token.");
   ("orch_fallbacks_total", "Pages degraded to the layout model after VLM exhaustion.");
   ("orch_reaper_actions_total", "Orphaned entries handled by the reaper, by action.");
   ("orch_requeues_total", "Pages returned to the queue rather than failed.")].

Definition _WORKER_GAUGE_HELP : list (string * string) :=
  [("orch_worker_in_flight", "Pages a worker is currently processing.");
   ("orch_worker_prefetch_limit", "Configured concurrency ceiling per worker.")].

(** [BreakerState.value] *)
Definition state_value (s : BreakerState) : string :=
  match s with CLOSED => "CLOSED" | OPEN => "OPEN" | HALF_OPEN => "HALF_OPEN" end.

Definition _state_code (state : string) : Q :=
  default (-1)%Q (assoc_get state
    [(state_value CLOSED, 0%Q); (state_value HALF_OPEN, 1%Q); (state_value OPEN, 2%Q)]).

(** A loop that accumulates and may raise. *)
Fixpoint rfold {A S} (f : S -> A -> result S) (s : S) (l : list A) : result S :=
  match l with
  | [] => inr s
  | x :: l' => let* s := f s x in rfold f s l'
  end.

(** [sorted(d.items())]: the keys are distinct. *)
Definition key_le {A} (a b : string * A) : Prop := String.le a.1 b.1.
#[global] Instance key_le_dec {A} : RelDecision (@key_le A).
Proof. intros a b. unfold key_le. apply _. Defined.

Definition row_le {A} (a b : labels * A) : Prop := labels_le a.1 b.1.
#[global] Instance row_le_dec {A} : RelDecision (@row_le A).
Proof. intros a b. unfold row_le. apply _. Defined.

(** [key=lambda s: sorted(s.labels.items())] *)
Definition sample_le (a b : Sample) : Prop := labels_le (sorted_labels (s_labels a)) (sorted_labels (s_labels b)).
#[global] Instance sample_le_dec : RelDecision sample_le.
Proof. intros a b. unfold sample_le. apply _. Defined.

(** The decoded labels; their values are strings, as [MetricsSink] writes them. *)
Fixpoint string_items (members : list (string * json)) : result labels :=
  match members with
  | [] => inr []
  | (k, JStr v) :: ms => let* l := string_items ms in inr ((k, v) :: l)
  | _ => inl (TypeError "label value")
  end.

Definition labels_of (j : json) : result labels :=
  match j with
  | JObj members => string_items members
  | _ => inl (OtherException "AttributeError")
  end.

Definition one_sample (name help kind : string) (v : num) : MetricFamily :=
  {| f_name := name; f_kind := kind; f_help := help;
     f_samples := [{| s_name := name; s_labels := []; s_value := v |}] |}.

Section scrape.
Context (repr : Q -> string) (float : string -> result Q).

(** ** What the workers flushed *)

(** A reply of [HGETALL]. *)
Definition rows : Type := list (string * string).

(** [decode_field] and [float] of one row. *)
Definition read_row (fv : string * string) : result (string * labels * Q) :=
  let* (name, j) := decode_field fv.1 in
  let* l := labels_of j in
  let* x := float fv.2 in
  inr (name, l, x).

Definition add_counter (grouped : list (string * list Sample)) (fv : string * string)
  : result (list (string * list Sample)) :=
  let* (name, l, x) := read_row fv in
  inr (assoc_put name (default [] (assoc_get name grouped) ++
         [{| s_name := name; s_labels := l; s_value := Num x |}]) grouped).

Definition counter_families (counters_raw : rows) : result (list MetricFamily) :=
  let* grouped := rfold add_counter [] counters_raw in
  inr ((λ ns : string * list Sample,
          {| f_name := ns.1; f_kind := "counter";
             f_help := default "Worker-sourced counter." (assoc_get ns.1 _WORKER_COUNTER_HELP);
             f_samples := merge_sort sample_le ns.2 |}) <$> merge_sort key_le grouped).

Definition gauge_table : Type := list (string * list (labels * Q)).

Definition add_gauge (grouped : gauge_table) (fv : string * string) : result gauge_table :=
  let* (name, l, x) := read_row fv in
  let key := sorted_labels l in
  let bucket := default [] (assoc_get name grouped) in
  inr (assoc_put name (assoc_put key (default 0 (assoc_get key bucket) + x)%Q bucket) grouped).

Definition gauge_families (raws : list rows) : result (list MetricFamily) :=
  let* grouped := rfold (rfold add_gauge) [] raws in
  inr ((λ nv : string * list (labels * Q),
          {| f_name := nv.1; f_kind := "gauge";
             f_help := default "Worker-sourced gauge, summed." (assoc_get nv.1 _WORKER_GAUGE_HELP);
             f_samples := (λ kv : labels * Q, {| s_name := nv.1; s_labels := kv.1; s_value := Num kv.2 |})
                            <$> merge_sort row_le nv.2 |}) <$> merge_sort key_le grouped).

(** Name, labels without [le], bound: the count. *)
Definition bucket_table : Type := list (string * list (labels * list (string * Q))).

Definition put_bucket (name : string) (key : labels) (bound : string) (x : Q) (t : bucket_table) : bucket_table :=
  let by_labels := default [] (assoc_get name t) in
  assoc_put name (assoc_put key (assoc_put bound x (default [] (assoc_get key by_labels))) by_labels) t.

Definition add_bucket (per_metric : bucket_table) (fv : string * string) : result bucket_table :=
  let* (name, j) := decode_field fv.1 in
  let* l := labels_of j in
  match assoc_get "le" l with
  | None => inr per_metric
  | Some bound =>
      let* x := float fv.2 in
      inr (put_bucket name (sorted_labels (assoc_del "le" l)) bound x per_metric)
  end.

Definition sum_table : Type := list (string * list (labels * Q)).

Definition add_sum (sums : sum_table) (fv : string * string) : result sum_table :=
  let* (name, l, x) := read_row fv in
  inr (assoc_put name (assoc_put (sorted_labels l) x (default [] (assoc_get name sums))) sums).

Definition bounds : list bound := (Some <$> DEFAULT_BUCKETS) ++ [None].

Definition labelled_bound (b : bound) : string :=
  match b with
  | None => "+Inf"
  | Some q => if is_integer q then py_str (int_of_float q) else repr q
  end.

Definition labelled_bounds : list string := labelled_bound <$> bounds.

(** [by_bound.get(label, 0.0)] for every bound. *)
Definition bound_counts (by_bound : list (string * Q)) : list Q :=
  (λ label, default 0%Q (assoc_get label by_bound)) <$> labelled_bounds.

Definition histogram_family (sums : sum_table) (nb : string * list (labels * list (string * Q))) : MetricFamily :=
  {| f_name := nb.1; f_kind := "histogram";
     f_help := default "Worker-sourced histogram." (assoc_get nb.1 _WORKER_HISTOGRAMS);
     f_samples := histogram_samples repr nb.1 bounds
       ((λ kb : labels * list (string * Q), (kb.1, bound_counts kb.2)) <$> nb.2)
       (default [] (assoc_get nb.1 sums)) |}.

Definition histogram_families (bucket_raw sum_raw : rows) : result (list MetricFamily) :=
  let* per_metric := rfold add_bucket [] bucket_raw in
  let* sums := rfold add_sum [] sum_raw in
  inr (histogram_family sums <$> merge_sort key_le per_metric).

Definition ALIVE_PREFIX : string := GAUGE_KEY_PREFIX +:+ ":alive:".

(** What Redis replies to the reads of [_worker_families]. *)
Record worker_replies := {
  w_hashes : result (rows * rows * rows);
  w_scan : result (list string);
  w_gauges : list string -> result (list rows) }.

Definition _worker_families (r : worker_replies) : result (list MetricFamily) :=
  let* (counters_raw, bucket_raw, sum_raw) := w_hashes r in
  let* counted := counter_families counters_raw in
  let* keys := w_scan r in
  let worker_keys := filter (λ key, String.prefix ALIVE_PREFIX key = false) keys in
  let* raws := match worker_keys with [] => inr [] | _ => w_gauges r worker_keys end in
  let* gauged := gauge_families raws in
  let* timed := histogram_families bucket_raw sum_raw in
  inr (counted ++ gauged ++ timed).

(** ** Native state *)

(** The replies for one lane: [XLEN]; [XPENDING]'s count, when it is a dict that has
    one; the groups with their lag, unknown after a trim. *)
Record lane_reply := {
  l_length : option Z; l_pending : option Z; l_groups : list (string * option Z) }.

Definition queue_reply : Type := (string -> lane_reply) * option string.

Definition lane_sample (name lane : string) (v : num) : Sample :=
  {| s_name := name; s_labels := [("lane", lane)]; s_value := v |}.

(** The lag of the last group of that name. *)
Definition group_lag (groups : list (string * option Z)) : num :=
  fold_left (λ lag g, if (g.1 =? GROUP)%string
                      then match g.2 with Some n => Num (inject_Z n) | None => NaN end
                      else lag) groups (Num 0).

Definition _queue_families (reply : result queue_reply) : result (list MetricFamily) :=
  let* (lane, raw_poison) := reply in
  let* poison := int_or_zero raw_poison in
  let over name value := (λ sl : string * string, lane_sample name sl.2 (value (lane sl.1))) <$> LANES in
  inr [{| f_name := "orch_queue_backlog"; f_kind := "gauge";
          f_help := "Entries published to a lane and not yet delivered to any consumer.";
          f_samples := over "orch_queue_backlog" (λ r, Num (inject_Z (default 0 (l_length r)))) |};
       {| f_name := "orch_queue_pending"; f_kind := "gauge";
          f_help := "Entries delivered to a consumer and not yet acknowledged.";
          f_samples := over "orch_queue_pending" (λ r, Num (inject_Z (default 0 (l_pending r)))) |};
       {| f_name := "orch_queue_lag"; f_kind := "gauge";
          f_help := "Consumer-group lag as reported by Redis; NaN when uncomputable.";
          f_samples := over "orch_queue_lag" (λ r, group_lag (l_groups r)) |};
       one_sample "orch_poison_entries_total"
         "Stream entries quarantined because they could not be parsed." "counter" (Num (inject_Z poison))].

(** One sample per endpoint that answers; [except Exception: continue]. *)
Fixpoint answering {A} (name : string) (value : A -> num) (l : list (string * result A)) : result (list Sample) :=
  match l with
  | [] => inr []
  | (endpoint, inr a) :: l' =>
      let* ss := answering name value l' in
      inr ({| s_name := name; s_labels := [("endpoint", endpoint)]; s_value := value a |} :: ss)
  | (_, inl e) :: l' => if is_Exception e then answering name value l' else inl e
  end.

(** [peek] of each breaker and [current] of each limiter. *)
Definition _breaker_and_rate_families (breakers : list (string * result BreakerState))
  (limiters : list (string * result Q)) : result (list MetricFamily) :=
  let* breaker_samples := answering "orch_breaker_state" (λ s, Num (_state_code (state_value s))) breakers in
  let* rate_samples := answering "orch_adaptive_rate_limit" Num limiters in
  inr [{| f_name := "orch_breaker_state"; f_kind := "gauge";
          f_help := "Circuit breaker: 0 closed, 1 half-open, 2 open, -1 unknown.";
          f_samples := breaker_samples |};
       {| f_name := "orch_adaptive_rate_limit"; f_kind := "gauge";
          f_help := "Requests per second the AIMD controller currently permits.";
          f_samples := rate_samples |}].

Definition labelled (name help kind label : string) (vs : list (string * Z)) : MetricFamily :=
  {| f_name := name; f_kind := kind; f_help := help;
     f_samples := (λ v : string * Z, {| s_name := name; s_labels := [(label, v.1)]; s_value := Num (inject_Z v.2) |})
                    <$> vs |}.

Definition _admission_families (reply : result admission_stats) : result (list MetricFamily) :=
  let* s := reply in
  inr [labelled "orch_jobs_total" "Jobs seen at the edge, by admission decision." "counter" "decision"
         [("admitted", as_admitted_jobs s); ("shed", as_shed_jobs s)];
       labelled "orch_admitted_pages_total" "Pages accepted or refused at the edge." "counter" "decision"
         [("admitted", as_admitted_pages s); ("shed", as_shed_pages s)];
       one_sample "orch_admission_shedding" "1 while the edge is refusing work because the queue is too deep."
         "gauge" (Num (if as_shedding s then 1 else 0));
       labelled "orch_admission_transitions_total"
         "Watermark crossings: shedding started (trip) or stopped (recovery)." "counter" "kind"
         [("trip", as_trips s); ("recovery", as_recoveries s)];
       labelled "orch_queue_watermark" "Configured admission watermarks, for comparison against depth."
         "gauge" "edge" [("high", as_high s); ("low", as_low s)]].

(** The keys [SCAN] returned for the heartbeats. *)
Definition _worker_liveness_family (scan : result (list string)) : result MetricFamily :=
  let* keys := scan in
  inr (one_sample "orch_workers_reporting"
         "Workers whose metrics flush is recent enough to still be counted." "gauge"
         (Num (inject_Z (Z.of_nat (length keys))))).

Definition _local_families (slots : SubscriberSlots) (registry : option Registry) : list MetricFamily :=
  [one_sample "orch_sse_subscribers" "SSE clients currently attached." "gauge" (Num (inject_Z (active slots)));
   one_sample "orch_sse_subscribers_peak" "High-water mark of concurrent SSE clients since start." "gauge"
     (Num (inject_Z (peak slots)));
   one_sample "orch_sse_refusals_total" "SSE connections refused because the subscriber cap was full." "counter"
     (Num (inject_Z (refused slots)));
   one_sample "orch_sse_subscriber_limit" "Configured concurrent SSE subscriber cap." "gauge"
     (Num (inject_Z (limit slots)))] ++
  match registry with None => [] | Some r => families repr r end.

(** ** The endpoint *)

Record scrape_input := {
  i_queue : result queue_reply;
  i_worker : worker_replies;
  i_breakers : list (string * result BreakerState);
  i_limiters : list (string * result Q);
  i_admission : result admission_stats;
  i_alive : result (list string);
  i_slots : SubscriberSlots;
  i_registry : option Registry;
  i_concurrency : Z; i_vlm_rps : Q; i_ted_budget_ms : Q }.

Definition sources (i : scrape_input) : list (result (list MetricFamily)) :=
  [_queue_families (i_queue i); _worker_families (i_worker i);
   _breaker_and_rate_families (i_breakers i) (i_limiters i); _admission_families (i_admission i);
   (let* f := _worker_liveness_family (i_alive i) in inr [f]);
   inr (_local_families (i_slots i) (i_registry i))].

(** [try: families.extend(..)  except Exception: errors += 1] *)
Definition attempt (acc : list MetricFamily * Z) (source : result (list MetricFamily))
  : result (list MetricFamily * Z) :=
  match source with
  | inr fs => inr (acc.1 ++ fs, acc.2)
  | inl e => if is_Exception e then inr (acc.1, acc.2 + 1) else inl e
  end.

Definition build_info (i : scrape_input) : MetricFamily :=
  {| f_name := "orch_build_info"; f_kind := "gauge";
     f_help := "Static configuration, as labels on a constant 1.";
     f_samples := [{| s_name := "orch_build_info";
                      s_labels := [("worker_concurrency", py_str (i_concurrency i));
                                   ("vlm_rps", repr (i_vlm_rps i));
                                   ("ted_budget_ms", py_str (int_of_float (i_ted_budget_ms i)))];
                      s_value := Num 1 |}] |}.

Definition scrape_families (i : scrape_input) : result (list MetricFamily) :=
  let* (families, errors) := rfold attempt ([], 0) (sources i) in
  inr (families ++
       [one_sample "orch_metrics_scrape_errors" "Metric sources that failed during this scrape." "gauge"
          (Num (inject_Z errors));
        build_info i]).

Definition metrics (i : scrape_input) : result string :=
  let* families := scrape_families i in inr (render repr families).
End scrape.

(** ** Reading what the sink wrote *)

(** The samples of a family. *)
Definition exposed (kind name : string) (fams : list MetricFamily) : list Sample :=
  filter (λ f, f_kind f = kind /\ f_name f = name) fams ≫= f_samples.

Lemma exposed_app kind name fs gs : exposed kind name (fs ++ gs) = exposed kind name fs ++ exposed kind name gs.
Proof. unfold exposed. by rewrite filter_app, bind_app. Qed.

Lemma exposed_none kind name fs : Forall (λ f, f_kind f <> kind) fs -> exposed kind name fs = [].
Proof.
  unfold exposed. induction 1 as [|f fs Hf _ IH]; [done|]. rewrite filter_cons, decide_False; [done|]. by intros [? _].
Qed.

(** The number shown for a series. *)
Definition shown (kind name : string) (key : labels) (fams : list MetricFamily) : option num :=
  s_value <$> head (filter (λ s, s_name s = name /\ s_labels s = key) (exposed kind name fams)).

(** One entry of a table with distinct keys, after sorting. *)
Lemma sorted_entry {A} (t : list (string * A)) name : NoDup t.*1 ->
  filter (λ e, e.1 = name) (merge_sort key_le t) = match assoc_get name t with Some x => [(name, x)] | None => [] end.
Proof.
  intros Hnd. assert (filter (λ e, e.1 = name) t = match assoc_get name t with Some x => [(name, x)] | None => [] end) as <-.
  { induction t as [|[n x] t IH]; [done|]. rewrite fmap_cons, NoDup_cons in Hnd. destruct Hnd as [Hn Hnd].
    rewrite filter_cons. cbn [assoc_get fst]. destruct (decide (n = name)) as [<-|Hne].
    - rewrite decide_True by done. rewrite IH by done. apply assoc_get_None in Hn. cbn [fst] in Hn. by rewrite Hn.
    - rewrite decide_False by congruence. by apply IH. }
  assert (filter (λ e, e.1 = name) (merge_sort key_le t) ≡ₚ filter (λ e, e.1 = name) t) as Hp
    by by rewrite merge_sort_Permutation.
  assert (length (filter (λ e, e.1 = name) t) <= 1)%nat as Hl.
  { clear Hp. induction t as [|[n x] t IH]; [simpl; lia|]. rewrite fmap_cons, NoDup_cons in Hnd.
    destruct Hnd as [Hn Hnd]. rewrite filter_cons. case_decide as Hc; [|by apply IH]. cbn [fst] in Hc. subst n.
    assert (filter (λ e, e.1 = name) t = []) as ->; [|simpl; lia]. apply elem_of_nil_inv.
    intros e [<- He]%list_elem_of_filter. by apply Hn, (list_elem_of_fmap_2 fst _ _ He). }
  destruct (filter (λ e, e.1 = name) t) as [|e [|]]; [by apply Permutation_nil_r in Hp| |simpl in Hl; lia].
  by apply Permutation_singleton_r in Hp.
Qed.

Section reading.
Context (repr : Q -> string) (float : string -> result Q) (show : Q -> string).
Context (float_show : forall q, float (show q) = inr q).

Lemma labels_of_json l : labels_of (json_labels l) = inr l.
Proof using Type.
  unfold labels_of, json_labels. induction l as [|[k v] l IH]; [done|]. rewrite fmap_cons. cbn [string_items fst snd].
  by rewrite IH.
Qed.

Lemma read_row_written n l q : str_forall no_sep n = true -> NoDup l.*1 ->
  read_row float (encode_field n l, show q) = inr (n, sorted_labels l, q).
Proof using float_show.
  intros Hn Hl. unfold read_row. cbn [fst snd]. rewrite decode_encode by done. cbn [rbind].
  rewrite labels_of_json. cbn [rbind]. by rewrite float_show.
Qed.

(** Rows of a hash, each the field of a series with its number. *)
Definition written (ts : list (string * labels * Q)) : rows :=
  (λ t : string * labels * Q, (encode_field t.1.1 t.1.2, show t.2)) <$> ts.

Definition series_wf (s : string * labels) : Prop := str_forall no_sep s.1 = true /\ key_ok s.2.

Definition counter_sample (t : string * labels * Q) : Sample :=
  {| s_name := t.1.1; s_labels := t.1.2; s_value := Num t.2 |}.

Lemma counters_grouped ts : forall g, Forall (λ t, series_wf t.1) ts -> NoDup g.*1 ->
  exists g', rfold (add_counter float) g (written ts) = inr g' /\ NoDup g'.*1 /\
    forall name, default [] (assoc_get name g') =
                 default [] (assoc_get name g) ++ (counter_sample <$> filter (λ t, t.1.1 = name) ts).
Proof using float_show.
  induction ts as [|[[n k] q] ts IH]; intros g Hwf Hnd.
  - exists g. split_and!; [done|done|]. intros name. by rewrite app_nil_r.
  - apply Forall_cons in Hwf as [[Hn [Hk Hs]] Hwf]. cbn [fst snd] in *. unfold written. rewrite fmap_cons. cbn [rfold].
    unfold add_counter at 1. rewrite read_row_written by done. cbn [rbind fst snd]. rewrite Hs.
    edestruct IH as (g' & E & Hnd' & Hg); [exact Hwf| |exists g'; split; [exact E|]].
    { by apply assoc_put_NoDup. }
    split; [done|]. intros name. rewrite Hg, assoc_get_put, filter_cons. cbn [fst].
    destruct (decide (name = n)) as [->|Hne].
    + rewrite decide_True by done. cbn [default from_option id]. by rewrite <- app_assoc.
    + by rewrite decide_False by congruence.
Qed.

(** What the counters' hash is shown as. *)
Lemma counters_shown ts : Forall (λ t, series_wf t.1) ts -> NoDup ts.*1 ->
  exists fams, counter_families float (written ts) = inr fams /\ Forall (λ f, f_kind f = "counter") fams /\
    forall name key, shown "counter" name key fams = Num <$> assoc_get (name, key) ts.
Proof using float_show.
  intros Hwf Hnd. destruct (counters_grouped ts [] Hwf (@NoDup_nil_2 _)) as (g & E & Hg & Hs).
  unfold counter_families. rewrite E. cbn [rbind]. eexists. split; [done|]. split; [by apply Forall_fmap, Forall_forall|].
  intros name key. unfold shown, exposed.
  assert (forall fs : list (string * list Sample), filter (λ f, f_kind f = "counter" /\ f_name f = name)
    ((λ ns : string * list Sample, {| f_name := ns.1; f_kind := "counter";
             f_help := default "Worker-sourced counter." (assoc_get ns.1 _WORKER_COUNTER_HELP);
             f_samples := merge_sort sample_le ns.2 |}) <$> fs) ≫= f_samples =
    filter (λ e, e.1 = name) fs ≫= λ e, merge_sort sample_le e.2) as ->.
  { induction fs as [|[n ss] fs IH]; [done|]. rewrite fmap_cons, !filter_cons. cbn [f_kind f_name fst].
    destruct (decide (n = name)) as [->|Hne].
    - rewrite decide_True by done. rewrite !bind_cons, IH. done.
    - rewrite decide_False by tauto. exact IH. }
  rewrite sorted_entry by done. specialize (Hs name). cbn [assoc_get default from_option app] in Hs.
  assert ((match assoc_get name g with Some x => [(name, x)] | None => [] end ≫= λ e : string * list Sample, merge_sort sample_le e.2)
          ≡ₚ counter_sample <$> filter (λ t, t.1.1 = name) ts) as Hp.
  { rewrite <- Hs. destruct (assoc_get name g) as [ss|]; [|done]. cbn. rewrite app_nil_r. apply merge_sort_Permutation. }
  assert (forall s, s ∈ filter (λ s, s_name s = name /\ s_labels s = key)
            (match assoc_get name g with Some x => [(name, x)] | None => [] end ≫= λ e : string * list Sample, merge_sort sample_le e.2)
          <-> exists q, ((name, key), q) ∈ ts /\ s = counter_sample ((name, key), q)) as Hin.
  { intros s. rewrite list_elem_of_filter, Hp, list_elem_of_fmap. split.
    - intros ([En Ek] & [[n k] q] & -> & [_ Ht]%list_elem_of_filter). cbn in En, Ek. subst n k. by exists q.
    - intros (q & Ht & ->). split; [done|]. exists (name, key, q). split; [done|]. by apply list_elem_of_filter. }
  destruct (filter _ (_ ≫= _)) as [|s ss] eqn:Ef.
  - cbn. destruct (assoc_get (name, key) ts) as [q|] eqn:Eq; [|done]. exfalso.
    apply assoc_get_in in Eq. apply (not_elem_of_nil (counter_sample (name, key, q))). apply Hin. by exists q.
  - cbn. destruct (proj1 (Hin s) (list_elem_of_here _ _)) as (q & Ht & ->). cbn.
    by rewrite (assoc_get_NoDup _ _ _ Hnd Ht).
Qed.
End reading.

(** The order of label tuples is total. *)
Lemma string_leb_le a b : String.leb a b = true <-> String.le a b.
Proof. unfold String.le. symmetry. apply Is_true_true. Qed.

Definition slt (a b : string) : Prop := a <> b /\ String.le a b.

Lemma slt_trans a b c : slt a b -> slt b c -> slt a c.
Proof.
  intros [Hab H1] [Hbc H2]. split; [|by transitivity b]. intros ->. by apply Hab, (anti_symm String.le).
Qed.

Lemma slt_asym a b : slt a b -> slt b a -> False.
Proof. intros [H H1] [_ H2]. by apply H, (anti_symm String.le). Qed.

Lemma slt_total a b : a = b \/ slt a b \/ slt b a.
Proof.
  destruct (decide (a = b)) as [|Hne]; [by left|right].
  destruct (total String.le a b); [left|right]; split; by try apply not_eq_sym.
Qed.

Lemma labels_le_cons k v a k' v' b : labels_le ((k, v) :: a) ((k', v') :: b) <->
  slt k k' \/ k = k' /\ (slt v v' \/ v = v' /\ labels_le a b).
Proof.
  unfold labels_le, slt. cbn [labels_leb].
  destruct (String.eqb_spec k k') as [<-|Hk]; [destruct (String.eqb_spec v v') as [<-|Hv]|].
  - split; [tauto|]. by intros [[]|[_ [[]|[_ ?]]]].
  - rewrite string_leb_le. split; [tauto|]. by intros [[]|[_ [[]|[? _]]]].
  - rewrite string_leb_le. split; [tauto|]. by intros [[]|[? _]].
Qed.

#[global] Instance labels_le_total : Total labels_le.
Proof.
  intros a. induction a as [|[k v] a IH]; intros [|[k' v'] b]; try (by left); try (by right).
  rewrite !labels_le_cons. destruct (slt_total k k') as [<-|[|]]; [|tauto..].
  destruct (slt_total v v') as [<-|[|]]; [|tauto..]. destruct (IH b); tauto.
Qed.

#[global] Instance labels_le_anti : AntiSymm (=) labels_le.
Proof.
  intros a. induction a as [|[k v] a IH]; intros [|[k' v'] b]; try done.
  rewrite !labels_le_cons. intros [H1|[<- H1]] [H2|[E H2]]; subst; try (by destruct (slt_asym _ _ H1 H2)).
  - by destruct H1.
  - by destruct H2.
  - destruct H1 as [H1|[<- H1]], H2 as [H2|[E2 H2]]; subst; try (by destruct (slt_asym _ _ H1 H2)).
    + by destruct H1.
    + by destruct H2.
    + by rewrite (IH b).
Qed.

#[global] Instance labels_le_trans : Transitive labels_le.
Proof.
  intros a. induction a as [|[k v] a IH]; intros [|[k' v'] b] [|[k'' v''] c]; try done.
  rewrite !labels_le_cons. intros [H1|[<- H1]] [H2|[<- H2]]; [left; by apply (slt_trans k k')|by left|by left|].
  right. split; [done|]. destruct H1 as [H1|[<- H1]], H2 as [H2|[<- H2]];
    [left; by apply (slt_trans v v')|by left|by left|]. right. split; [done|]. by apply (IH b).
Qed.

(** Sorting forgets the order of distinct keys. *)
Lemma merge_sort_labels (a b : list labels) : a ≡ₚ b -> merge_sort labels_le a = merge_sort labels_le b.
Proof.
  intros Hp. apply (Sorted_unique labels_le); [apply (Sorted_merge_sort labels_le)..|].
  by rewrite !merge_sort_Permutation.
Qed.

(** ** The tables of the histograms *)

(** The count of a bucket. *)
Definition bucket_at (x : string * labels * string) (t : bucket_table) : option Q :=
  assoc_get x.1.1 t ≫= λ by_labels, assoc_get x.1.2 by_labels ≫= assoc_get x.2.

(** Keys are distinct, and no part of the table is empty. *)
Definition table_ok (t : bucket_table) : Prop :=
  NoDup t.*1 /\ forall name m, assoc_get name t = Some m ->
    NoDup m.*1 /\ forall key b, assoc_get key m = Some b -> exists lbl v, assoc_get lbl b = Some v.

Lemma bucket_at_put n k l x t y :
  bucket_at y (put_bucket n k l x t) = if decide (y = (n, k, l)) then Some x else bucket_at y t.
Proof.
  destruct y as [[n' k'] l']. unfold bucket_at, put_bucket. cbn [fst snd]. rewrite assoc_get_put.
  destruct (decide (n' = n)) as [->|Hn]; [|rewrite decide_False by congruence; done]. cbn [mbind option_bind].
  rewrite assoc_get_put. destruct (decide (k' = k)) as [->|Hk].
  - cbn [mbind option_bind]. rewrite assoc_get_put. destruct (decide (l' = l)) as [->|Hl]; [by rewrite decide_True|].
    rewrite decide_False by congruence. destruct (assoc_get n t) as [m|]; cbn [default from_option mbind option_bind id]; [|done].
    by destruct (assoc_get k m).
  - rewrite decide_False by congruence. by destruct (assoc_get n t).
Qed.

Lemma table_ok_put n k l x t : table_ok t -> table_ok (put_bucket n k l x t).
Proof.
  intros [Hnd Ht]. unfold put_bucket. split; [by apply assoc_put_NoDup|]. intros name m.
  rewrite assoc_get_put. destruct (decide (name = n)) as [->|]; [|exact (Ht name m)]. intros [= <-].
  assert (NoDup (default [] (assoc_get n t)).*1 /\ forall key b, assoc_get key (default [] (assoc_get n t)) = Some b ->
    exists lbl v, assoc_get lbl b = Some v) as [Hm Hb].
  { destruct (assoc_get n t) as [m|] eqn:E; [by apply (Ht n)|]. split; [apply NoDup_nil_2|done]. }
  split; [by apply assoc_put_NoDup|]. intros key b. rewrite assoc_get_put.
  destruct (decide (key = k)); [|apply (Hb key)]. intros [= <-]. exists l, x. by rewrite assoc_get_put, decide_True.
Qed.

Definition sum_at (s : string * labels) (t : sum_table) : option Q :=
  assoc_get s.1 t ≫= assoc_get s.2.

Lemma sum_at_put n k x (t : sum_table) y :
  sum_at y (assoc_put n (assoc_put k x (default [] (assoc_get n t))) t) =
  if decide (y = (n, k)) then Some x else sum_at y t.
Proof.
  destruct y as [n' k']. unfold sum_at. cbn [fst snd]. rewrite assoc_get_put.
  destruct (decide (n' = n)) as [->|Hn]; [|rewrite decide_False by congruence; done]. cbn [mbind option_bind].
  rewrite assoc_get_put. destruct (decide (k' = k)) as [->|Hk]; [by rewrite decide_True|].
  rewrite decide_False by congruence. by destruct (assoc_get n t).
Qed.

Lemma assoc_del_id {V} (n : string) (m : list (string * V)) : n ∉ m.*1 -> assoc_del n m = m.
Proof.
  unfold assoc_del. induction m as [|[n' v] m IH]; [done|]. rewrite fmap_cons, not_elem_of_cons. intros [Hn Hm].
  rewrite filter_cons, decide_True by (by apply not_eq_sym). by rewrite IH.
Qed.

(** The labels of a bucket's field. *)
Lemma le_labels (lbl : string) (k : labels) : "le" ∉ k.*1 -> assoc_put "le" lbl k = k ++ [("le", lbl)].
Proof.
  induction k as [|[n v] k IH]; [done|]. rewrite fmap_cons, not_elem_of_cons. intros [Hn Hk]. cbn [assoc_put].
  rewrite decide_False by done. by rewrite IH.
Qed.

Lemma le_sorted (lbl : string) (k : labels) : key_ok k -> "le" ∉ k.*1 ->
  let l := sorted_labels (assoc_put "le" lbl k) in
  NoDup (assoc_put "le" lbl k).*1 /\ assoc_get "le" l = Some lbl /\ sorted_labels (assoc_del "le" l) = k.
Proof.
  intros [Hnd Hs] Hle l. assert (NoDup (assoc_put "le" lbl k).*1) as Hnd' by by apply assoc_put_NoDup.
  assert (l ≡ₚ k ++ [("le", lbl)]) as Hp by (unfold l; by rewrite sorted_labels_perm, le_labels).
  split; [done|]. split.
  - apply assoc_get_NoDup; [by apply sorted_keys_NoDup|]. rewrite Hp. apply elem_of_app. right. apply list_elem_of_here.
  - assert (assoc_del "le" l ≡ₚ k) as Hd.
    { unfold assoc_del. rewrite Hp, filter_app. cbn. rewrite app_nil_r. by fold (assoc_del "le" k); rewrite assoc_del_id. }
    transitivity (sorted_labels k); [|exact Hs]. apply sorted_labels_unique; [by rewrite Hd|exact Hd].
Qed.

(** ** Samples up to the representation of their values *)

#[global] Instance num_equiv : Equiv num := λ a b,
  match a, b with Num p, Num q => (p == q)%Q | _, _ => a = b end.
#[global] Instance sample_equiv : Equiv Sample := λ a b,
  s_name a = s_name b /\ s_labels a = s_labels b /\ s_value a ≡ s_value b.

#[global] Instance num_equivalence : Equivalence (≡@{num}).
Proof.
  split; unfold equiv, num_equiv.
  - by intros [].
  - intros [] []; done || by symmetry.
  - intros [] [] []; try done. intros H1 H2. by transitivity q0.
Qed.

#[global] Instance sample_equivalence : Equivalence (≡@{Sample}).
Proof.
  split; unfold equiv, sample_equiv.
  - by intros [].
  - intros [] [] (-> & -> & ?). by split_and!.
  - intros [] [] [] (-> & -> & ?) (-> & -> & ?). split_and!; [done|done|]. by etransitivity.
Qed.

Section views.
Context (repr : Q -> string).

Lemma bucket_samples_equiv name key bs : forall r r' cs cs', (r == r')%Q -> Forall2 Qeq cs cs' ->
  (bucket_samples repr name key r (zip bs cs)).1 ≡ (bucket_samples repr name key r' (zip bs cs')).1 /\
  ((bucket_samples repr name key r (zip bs cs)).2 == (bucket_samples repr name key r' (zip bs cs')).2)%Q.
Proof using Type.
  induction bs as [|b bs IH]; intros r r' cs cs' Hr Hcs; [done|]. destruct Hcs as [|c c' cs cs' Hc Hcs]; [done|].
  cbn [zip zip_with bucket_samples]. destruct (IH (r + c)%Q (r' + c')%Q cs cs') as [Hs Ht]; [by rewrite Hr, Hc|done|].
  destruct (bucket_samples _ _ _ (r + c) _), (bucket_samples _ _ _ (r' + c') _). cbn [fst snd] in *. split; [|done].
  constructor; [|done]. split_and!; [done|done|]. unfold equiv. cbn. by rewrite Hr, Hc.
Qed.

Lemma series_samples_equiv name bs sums sums' key cs cs' :
  (default 0 (assoc_get key sums) == default 0 (assoc_get key sums'))%Q -> Forall2 Qeq cs cs' ->
  series_samples repr name bs sums key cs ≡ series_samples repr name bs sums' key cs'.
Proof using Type.
  intros Hs Hcs. unfold series_samples. destruct (bucket_samples_equiv name key bs 0 0 cs cs') as [H1 H2]; [done|done|].
  destruct (bucket_samples _ _ _ _ (zip bs cs)), (bucket_samples _ _ _ _ (zip bs cs')). cbn [fst snd] in *.
  f_equiv; [done|]. repeat constructor; done.
Qed.

(** The samples of a histogram with these series. *)
Definition view (name : string) (bs : list bound) (keys : list labels) (count : labels -> list Q) (sum : labels -> Q)
  : list Sample :=
  merge_sort labels_le keys ≫= λ key, series_samples repr name bs [(key, sum key)] key (count key).

Lemma histogram_samples_view name bs (counts : list (labels * list Q)) sums : NoDup counts.*1 ->
  histogram_samples repr name bs counts sums ≡
  view name bs counts.*1 (λ key, default [] (assoc_get key counts)) (λ key, default 0%Q (assoc_get key sums)).
Proof using Type.
  intros _. unfold histogram_samples, view. generalize (merge_sort labels_le counts.*1). intros keys.
  induction keys as [|key keys IH]; [done|]. rewrite !bind_cons. f_equiv; [|exact IH].
  apply series_samples_equiv; [|reflexivity].
  cbn [assoc_get]. by rewrite decide_True.
Qed.

Lemma view_equiv name bs keys keys' count count' sum sum' : keys ≡ₚ keys' ->
  (forall key, key ∈ keys -> Forall2 Qeq (count key) (count' key) /\ (sum key == sum' key)%Q) ->
  view name bs keys count sum ≡ view name bs keys' count' sum'.
Proof using Type.
  intros Hp Hk. unfold view. rewrite <- (merge_sort_labels keys keys' Hp).
  assert (forall key, key ∈ merge_sort labels_le keys -> key ∈ keys) as Hin
    by (intros key; by rewrite merge_sort_Permutation).
  induction (merge_sort labels_le keys) as [|key ks IH]; [done|]. rewrite !bind_cons. f_equiv.
  - destruct (Hk key) as [Hc Hs]; [apply Hin, list_elem_of_here|]. apply series_samples_equiv; [|done].
    cbn [assoc_get]. by rewrite !decide_True.
  - apply IH. intros k' Hk'. apply Hin. by apply list_elem_of_further.
Qed.
End views.

Section histograms.
Context (repr : Q -> string) (float : string -> result Q) (show : Q -> string).
Context (float_show : forall q, float (show q) = inr q).

Definition bucket_rows (qs : list (string * labels * string * Q)) : rows :=
  (λ y : string * labels * string * Q, (encode_field y.1.1.1 (assoc_put "le" y.1.2 y.1.1.2), show y.2)) <$> qs.

Definition bucket_wf (y : string * labels * string) : Prop := series_wf y.1 /\ "le" ∉ y.1.2.*1.

Lemma buckets_read qs : forall t, table_ok t -> Forall (λ y, bucket_wf y.1) qs -> NoDup qs.*1 ->
  exists t', rfold (add_bucket float) t (bucket_rows qs) = inr t' /\ table_ok t' /\
    forall y, bucket_at y t' = match assoc_get y qs with Some v => Some v | None => bucket_at y t end.
Proof using float_show.
  induction qs as [|[[[n k] lbl] q] qs IH]; intros t Ht Hwf Hnd; [by exists t|].
  apply Forall_cons in Hwf as [[[Hn Hk] Hle] Hwf]. rewrite fmap_cons, NoDup_cons in Hnd. destruct Hnd as [Hy Hnd].
  cbn [fst snd] in *. destruct (IH _ (table_ok_put n k lbl q t Ht) Hwf Hnd) as (t' & E & Hok & Hat). exists t'.
  split_and!; [|done|].
  - rewrite <- E. unfold bucket_rows. rewrite fmap_cons. cbn [rfold fst snd].
    destruct (le_sorted lbl k Hk Hle) as (Hl1 & Hl2 & Hl3). unfold add_bucket at 1. cbn [fst snd].
    rewrite decode_encode by done. cbn [rbind]. rewrite labels_of_json. cbn [rbind]. rewrite Hl2, float_show. cbn [rbind].
    by rewrite Hl3.
  - intros y. rewrite Hat, bucket_at_put. cbn [assoc_get]. apply assoc_get_None in Hy.
    destruct (decide (y = (n, k, lbl))) as [->|Hne]; [|done]. by rewrite Hy.
Qed.

Lemma sums_read ts : forall t, Forall (λ y, series_wf y.1) ts -> NoDup ts.*1 ->
  exists t', rfold (add_sum float) t (written show ts) = inr t' /\
    forall y, sum_at y t' = match assoc_get y ts with Some v => Some v | None => sum_at y t end.
Proof using float_show.
  induction ts as [|[[n k] q] ts IH]; intros t Hwf Hnd; [by exists t|]. apply Forall_cons in Hwf as [[Hn [Hk Hs]] Hwf].
  rewrite fmap_cons, NoDup_cons in Hnd. destruct Hnd as [Hy Hnd]. cbn [fst snd] in *.
  unfold written. rewrite fmap_cons. cbn [rfold fst snd]. unfold add_sum at 1.
  rewrite (read_row_written float show float_show) by done. cbn [rbind fst snd]. rewrite Hs.
  match goal with |- context [rfold _ ?t1 _] => destruct (IH t1 Hwf Hnd) as (t' & E & Ht) end. exists t'. split; [exact E|].
  intros y. rewrite Ht, sum_at_put, ?Hs. cbn [assoc_get]. apply assoc_get_None in Hy.
  destruct (decide (y = (n, k))) as [->|Hne]; [|done]. by rewrite Hy.
Qed.

(** What the hashes of the histograms are shown as. *)
Lemma histograms_shown qs ts : Forall (λ y, bucket_wf y.1) qs -> NoDup qs.*1 ->
  Forall (λ y, series_wf y.1) ts -> NoDup ts.*1 ->
  exists fams, histogram_families repr float (bucket_rows qs) (written show ts) = inr fams /\
    Forall (λ f, f_kind f = "histogram") fams /\
    forall name, exists keys, NoDup keys /\
      (forall key, key ∈ keys <-> exists lbl q, ((name, key, lbl), q) ∈ qs) /\
      exposed "histogram" name fams ≡
      view repr name bounds keys
        (λ key, (λ label, default 0%Q (assoc_get (name, key, label) qs)) <$> labelled_bounds repr)
        (λ key, default 0%Q (assoc_get (name, key) ts)).
Proof using float_show.
  intros Hq Hqn Hs Hsn. unfold histogram_families.
  destruct (buckets_read qs []) as (t & Et & [Hnd Hok] & Hat); [by split; [apply NoDup_nil_2|]|done..|].
  rewrite Et. cbn [rbind].
  destruct (sums_read ts [] Hs Hsn) as (sums & Es & Hsums). rewrite Es. cbn [rbind].
  eexists. split; [done|].
  split; [by apply Forall_fmap, Forall_forall|]. intros name.
  assert (exposed "histogram" name (histogram_family repr sums <$> merge_sort key_le t) =
          match assoc_get name t with Some m => f_samples (histogram_family repr sums (name, m)) | None => [] end) as ->.
  { unfold exposed. assert (forall fs, filter (λ f, f_kind f = "histogram" /\ f_name f = name) (histogram_family repr sums <$> fs)
      = histogram_family repr sums <$> filter (λ e, e.1 = name) fs) as ->.
    { induction fs as [|[n m] fs IH]; [done|]. rewrite fmap_cons, !filter_cons. cbn [histogram_family f_kind f_name fst].
      destruct (decide (n = name)) as [->|Hne].
      - rewrite decide_True by done. by rewrite fmap_cons, IH.
      - by rewrite decide_False by tauto. }
    rewrite sorted_entry by done. destruct (assoc_get name t); [|done]. cbn. by rewrite app_nil_r. }
  assert (forall key lbl, match assoc_get name t with Some m => assoc_get key m ≫= assoc_get lbl | None => None end
            = assoc_get (name, key, lbl) qs) as Hlook.
  { intros key lbl. specialize (Hat (name, key, lbl)). unfold bucket_at in Hat. cbn [fst snd] in Hat.
    destruct (assoc_get name t); cbn [mbind option_bind] in Hat; rewrite Hat; by destruct (assoc_get _ qs). }
  assert (forall key, default 0%Q (assoc_get key (default [] (assoc_get name sums))) = default 0%Q (assoc_get (name, key) ts)) as Hsum.
  { intros key. specialize (Hsums (name, key)). unfold sum_at in Hsums. cbn [fst snd] in Hsums.
    destruct (assoc_get name sums); cbn [default from_option mbind option_bind id] in *; [rewrite Hsums|]; by destruct (assoc_get _ ts). }
  destruct (assoc_get name t) as [m|] eqn:Em.
  - destruct (Hok name m Em) as [Hm Hne]. exists m.*1. split; [done|]. split.
    + intros key. split.
      * intros Hkey. destruct (assoc_get key m) as [b|] eqn:Eb; [|by apply assoc_get_None in Eb].
        destruct (Hne key b Eb) as (lbl & v & Hv). exists lbl, v. apply assoc_get_in. rewrite <- Hlook, Eb. exact Hv.
      * intros (lbl & q & Hin). apply (assoc_get_NoDup _ _ _ Hqn) in Hin. rewrite <- Hlook in Hin.
        destruct (assoc_get key m) as [b|] eqn:Eb; [|done]. apply assoc_get_in in Eb.
        by apply (list_elem_of_fmap_2 fst _ _ Eb).
    + cbn [histogram_family f_samples fst snd]. rewrite histogram_samples_view by (by rewrite <- list_fmap_compose).
      rewrite <- list_fmap_compose. apply view_equiv; [done|]. intros key Hkey. rewrite Hsum. split; [|done].
      assert (assoc_get key ((λ kb : labels * list (string * Q), (kb.1, bound_counts repr kb.2)) <$> m) =
              bound_counts repr <$> assoc_get key m) as ->.
      { clear. induction m as [|[k b] m IH]; [done|]. rewrite fmap_cons. cbn [assoc_get fst snd]. by case_decide. }
      destruct (assoc_get key m) as [b|] eqn:Eb; [|by apply assoc_get_None in Eb]. cbn [fmap option_fmap option_map default from_option id].
      unfold bound_counts. apply Forall2_fmap, Forall_Forall2_diag, Forall_forall. intros y _.
      specialize (Hlook key y). rewrite Eb in Hlook. cbn [mbind option_bind] in Hlook. by rewrite Hlook.
  - exists []. split; [apply NoDup_nil_2|]. split; [|done]. intros key. split; [by intros ?%elem_of_nil|].
    intros (lbl & q & Hin). apply (assoc_get_NoDup _ _ _ Hqn) in Hin. by rewrite <- Hlook in Hin.
Qed.
End histograms.

(** ** Degradation *)

Lemma attempts_collect sources : forall acc, Forall (λ s : result (list MetricFamily), match s with inl e => is_Exception e = true | inr _ => True end) sources ->
  rfold attempt acc sources =
  inr (acc.1 ++ (sources ≫= λ s, match s with inr fs => fs | inl _ => [] end),
       acc.2 + Z.of_nat (countb (λ s, match s with inl _ => true | inr _ => false end) sources)).
Proof.
  induction sources as [|s sources IH]; intros acc Hs.
  - cbn. rewrite app_nil_r, Z.add_0_r. by destruct acc.
  - apply Forall_cons in Hs as [Hs Hss]. cbn [rfold]. rewrite bind_cons. cbn [countb]. destruct s as [e|fs]; cbn [attempt].
    + rewrite Hs. cbn [rbind]. rewrite IH by done. cbn [fst snd app]. do 2 f_equal. lia.
    + cbn [rbind]. rewrite IH by done. cbn [fst snd]. rewrite <- app_assoc. done.
Qed.

(** Unless a source is cancelled, the scrape answers with the families of the sources
    that did, and counts the others. *)
Lemma scrape_degrades repr float (i : scrape_input) :
  Forall (λ s : result (list MetricFamily), match s with inl e => is_Exception e = true | inr _ => True end)
    (sources repr float i) ->
  metrics repr float i =
  inr (render repr ((sources repr float i ≫= λ s, match s with inr fs => fs | inl _ => [] end) ++
    [one_sample "orch_metrics_scrape_errors" "Metric sources that failed during this scrape." "gauge"
       (Num (inject_Z (Z.of_nat (countb (λ s, match s with inl _ => true | inr _ => false end) (sources repr float i)))));
     build_info repr i])).
Proof.
  intros Hs. unfold metrics, scrape_families. rewrite attempts_collect by done. cbn [rbind fst snd app]. by rewrite Z.add_0_l.
Qed.
