(* ===== verification/Fleet.v ===== *)
(** * A fleet's metrics, end to end

    [Metrics.v] is the worker's half of the metrics, [Scrape.v] the API's.  Here any
    number of workers record and flush, their commands reach Redis in any order, and a
    scrape reads the hashes.  A histogram's postings are what a flush of it would add;
    conservation of postings carries an observation from a worker's registry to the
    hash, and the scrape's tables carry it to the page.  Theorems: the counters a scrape
    shows, with what is not flushed yet, add up to what the workers counted; the
    histograms it shows are those of one histogram that made every worker's observations. *)

From Stdlib Require Import QArith Lqa.
From stdpp Require Import sorting countable.
From S2P Require Import Prelude Py Json Results Metrics Scrape.
#[local] Open Scope Z_scope.

(** ** Postings

    What a histogram would add to a hash if it were flushed now. *)

Definition qtotal (f : string) (ps : list (string * Q)) : Q :=
  foldr (λ p q, if decide (p.1 = f) then p.2 + q else q)%Q 0%Q ps.

Lemma qtotal_cons f p ps : qtotal f (p :: ps) = if decide (p.1 = f) then (p.2 + qtotal f ps)%Q else qtotal f ps.
Proof. done. Qed.

Lemma qtotal_app f ps qs : (qtotal f (ps ++ qs) == qtotal f ps + qtotal f qs)%Q.
Proof.
  induction ps as [|p ps IH]; [change (qtotal f []) with 0%Q; cbn [app]; lra|]. cbn [app]. rewrite !qtotal_cons.
  destruct (decide _); rewrite IH; lra.
Qed.

Lemma qtotal_shift f p ps qs r : (qtotal f ps == qtotal f qs + r)%Q -> (qtotal f (p :: ps) == qtotal f (p :: qs) + r)%Q.
Proof. rewrite !qtotal_cons. intros H. destruct (decide _); rewrite H; lra. Qed.

Lemma qtotal_none f ps : f ∉ ps.*1 -> qtotal f ps = 0%Q.
Proof.
  induction ps as [|p ps IH]; [done|]. rewrite fmap_cons, not_elem_of_cons, qtotal_cons. intros [Hp Hps].
  rewrite decide_False by congruence. by apply IH.
Qed.

Lemma qtotal_nonneg f ps : Forall (λ p, 0 <= p.2)%Q ps -> (0 <= qtotal f ps)%Q.
Proof. induction 1 as [|p ps Hp _ IH]; [cbn; lra|]. rewrite qtotal_cons. destruct (decide _); lra. Qed.

(** [if x: deltas[field] = deltas.get(field, 0.0) + x] *)
Definition add_post (d : list (string * Q)) (p : string * Q) : list (string * Q) :=
  if Qeq_bool p.2 0 then d else add_delta p.1 p.2 d.

Lemma add_posts ps : forall d, NoDup d.*1 -> NoDup (fold_left add_post ps d).*1 /\
  (forall f, default 0 (assoc_get f (fold_left add_post ps d)) == default 0 (assoc_get f d) + qtotal f ps)%Q /\
  (forall f, f ∈ (fold_left add_post ps d).*1 -> f ∈ d.*1 \/ f ∈ ps.*1).
Proof.
  induction ps as [|[f0 x] ps IH]; intros d Hd.
  - split_and!; [done| |by left]. intros f. change (qtotal f []) with 0%Q. cbn [fold_left]. lra.
  - cbn [fold_left]. destruct (IH (add_post d (f0, x))) as (Hnd & Hv & Hk).
    { unfold add_post, add_delta. destruct (Qeq_bool _ _); [done|]. by apply assoc_put_NoDup. }
    split_and!; [done| |].
    + intros f. rewrite Hv, qtotal_cons. unfold add_post, add_delta. cbn [fst snd].
      destruct (Qeq_bool x 0) eqn:Ex.
      * apply Qeq_bool_iff in Ex. destruct (decide (f0 = f)); lra.
      * rewrite assoc_get_put. destruct (decide (f = f0)) as [->|Hne].
        -- rewrite decide_True by done. cbn [default from_option id]. lra.
        -- rewrite decide_False by congruence. lra.
    + intros f Hf. destruct (Hk f Hf) as [Hf'|]; [|right; rewrite fmap_cons; by apply list_elem_of_further].
      revert Hf'. unfold add_post, add_delta. cbn [fst snd]. destruct (Qeq_bool x 0); [by left|].
      rewrite assoc_put_keys. destruct (decide _); [by left|]. rewrite elem_of_app, list_elem_of_singleton.
      intros [| ->]; [by left|]. right. apply list_elem_of_here.
Qed.

(** Only positive postings make only positive deltas. *)
Lemma add_posts_pos ps : forall d, Forall (λ p, 0 <= p.2)%Q ps -> Forall (λ p, 0 < p.2)%Q d ->
  Forall (λ p, 0 < p.2)%Q (fold_left add_post ps d).
Proof.
  induction ps as [|[f0 x] ps IH]; intros d Hp Hd; [done|]. apply Forall_cons in Hp as [Hx Hp]. cbn [fold_left].
  apply IH; [done|]. unfold add_post, add_delta. cbn [fst snd] in *. destruct (Qeq_bool x 0) eqn:Ex; [done|].
  assert (0 < x)%Q as Hx'.
  { apply Qle_lteq in Hx as [|E]; [done|]. exfalso. assert (x == 0)%Q as E' by by symmetry. apply Qeq_bool_iff in E'. congruence. }
  assert (0 <= default 0 (assoc_get f0 d))%Q as Hg.
  { destruct (assoc_get f0 d) as [y|] eqn:Ey; [|done]. apply assoc_get_in in Ey. rewrite Forall_forall in Hd.
    apply Hd in Ey. cbn in *. lra. }
  revert Hg. generalize (default 0%Q (assoc_get f0 d)). intros y Hy. clear -Hd Hx' Hy.
  induction Hd as [|[f z] d Hz Hd IHd]; cbn [assoc_put]; [repeat constructor; cbn; lra|].
  destruct (decide (f0 = f)) as [<-|]; constructor; cbn; lra || done.
Qed.

Section posts.
Context (repr : Q -> string).

Definition bucket_field (name : string) (b : bound) (key : labels) : string :=
  encode_field name (assoc_put "le" (_format_bucket_bound repr b) key).

(** The postings of one series to the hash of the counts. *)
Definition count_posts (name : string) (bs : list bound) (kc : labels * list Z) : list (string * Q) :=
  (λ bc : bound * Z, (bucket_field name bc.1 kc.1, inject_Z bc.2)) <$> zip bs kc.2.

(** The postings of a histogram to one of its two hashes. *)
Definition posts (k : string) (h : Histogram) : list (string * Q) :=
  if decide (k = HISTOGRAM_COUNT_KEY)
  then h_counts h ≫= count_posts (m_name (h_metric h)) (h_buckets h)
  else (λ kv : labels * Q, (encode_field (m_name (h_metric h)) kv.1, kv.2)) <$> h_sums h.

(** The posting of one observation. *)
Definition obs_post (k : string) (h : Histogram) (v : Q) (l : labels) : string * Q :=
  if decide (k = HISTOGRAM_COUNT_KEY)
  then (bucket_field (m_name (h_metric h)) (default None (h_buckets h !! bucket_index (h_buckets h) v)) (sorted_labels l), 1%Q)
  else (encode_field (m_name (h_metric h)) (sorted_labels l), v).

Definition counts_ok (n : nat) (counts : list Z) : Prop :=
  length counts = n /\ Forall (Z.le 0) counts /\ Exists (Z.lt 0) counts.

Record hist_ok (h : Histogram) : Prop := {
  ho_name : str_forall no_sep (m_name (h_metric h)) = true;
  ho_le : "le" ∉ m_labelnames (h_metric h);
  ho_buckets : h_buckets h <> [];
  ho_keys : NoDup (h_counts h).*1;
  ho_counts : Forall (λ kc, key_ok kc.1 /\ ("le" ∉ kc.1.*1) /\ counts_ok (length (h_buckets h)) kc.2) (h_counts h);
  ho_sums : NoDup (h_sums h).*1 /\ Forall key_ok (h_sums h).*1 }.

Lemma bucket_index_lt bs v : bs <> [] -> (bucket_index bs v < length bs)%nat.
Proof using Type.
  induction bs as [|b bs IH]; [done|]. intros _. cbn [bucket_index]. destruct bs as [|b' bs]; [simpl; lia|].
  destruct (within v b); [simpl; lia|]. specialize (IH ltac:(done)). simpl in *. lia.
Qed.

(** One more in a bucket. *)
Lemma bucket_posts_alter name key f bs : forall counts i, length counts = length bs -> (i < length bs)%nat ->
  (qtotal f (count_posts name bs (key, alter (Z.add 1) i counts)) ==
   qtotal f (count_posts name bs (key, counts)) + qtotal f [(bucket_field name (default None (bs !! i)) key, 1)])%Q.
Proof using Type.
  unfold count_posts. cbn [fst snd]. induction bs as [|b bs IH]; intros [|c counts] i Hl Hi; simpl in Hl, Hi; try lia.
  destruct i as [|i].
  - cbn [alter list_alter zip zip_with]. rewrite !fmap_cons, !qtotal_cons. cbn [fst snd lookup list_lookup default from_option id].
    change (qtotal f []) with 0%Q. rewrite inject_Z_plus. change (inject_Z 1) with 1%Q.
    repeat destruct (decide _); try done; lra.
  - change (alter (Z.add 1) (S i) (c :: counts)) with (c :: alter (Z.add 1) i counts).
    change ((b :: bs) !! S i) with (bs !! i). cbn [zip zip_with]. rewrite !fmap_cons.
    apply qtotal_shift, IH; lia.
Qed.

Lemma bucket_posts_zero name key f bs n :
  (qtotal f (count_posts name bs (key, replicate n 0%Z)) == 0)%Q.
Proof using Type.
  unfold count_posts. cbn [fst snd]. revert n. induction bs as [|b bs IH]; intros [|n]; try done. cbn [replicate zip zip_with]. rewrite fmap_cons, qtotal_cons.
  cbn [snd]. destruct (decide _); rewrite IH; [|done]. change (inject_Z 0) with 0%Q. lra.
Qed.

(** What a key posts, replaced. *)
Lemma posts_put {V} (F : labels * V -> list (string * Q)) f key (v : V) (m : list (labels * V)) :
  (qtotal f (assoc_put key v m ≫= F) + match assoc_get key m with Some w => qtotal f (F (key, w)) | None => 0 end ==
   qtotal f (m ≫= F) + qtotal f (F (key, v)))%Q.
Proof using Type.
  induction m as [|[k w] m IH]; cbn [assoc_put assoc_get].
  - rewrite bind_cons, qtotal_app. change (qtotal f ([] ≫= F)) with 0%Q. lra.
  - destruct (decide (key = k)) as [->|Hne]; rewrite !bind_cons, !qtotal_app; [lra|].
    rewrite <- Qplus_assoc, IH. lra.
Qed.

Lemma observe_shape v l h h' : observe v l h = inr h' ->
  h_metric h' = h_metric h /\ h_buckets h' = h_buckets h /\
  (list_to_set l.*1 = (list_to_set (m_labelnames (h_metric h)) : gset string)).
Proof using Type.
  unfold observe. destruct (_key _ _) as [|k] eqn:Ek; [done|]. cbn [rbind]. intros [= <-]. split_and!; [done|done|].
  unfold _key in Ek. by destruct (bool_decide _) eqn:E; [apply bool_decide_eq_true in E|].
Qed.

(** Observing posts once to each hash. *)
Lemma observe_posts k f v l h h' : hist_ok h -> observe v l h = inr h' ->
  (qtotal f (posts k h') == qtotal f (posts k h) + qtotal f [obs_post k h v l])%Q.
Proof using Type.
  intros [_ _ Hb _ Hc _] Ho. unfold observe in Ho. destruct (_key _ _) as [|key] eqn:Ek; [done|].
  assert (key = sorted_labels l) as -> by (unfold _key in Ek; destruct (bool_decide _); congruence).
  cbn [rbind] in Ho. injection Ho as <-. unfold posts, obs_post. cbn [h_metric h_buckets h_counts h_sums].
  destruct (decide (k = HISTOGRAM_COUNT_KEY)).
  - set (cs := default _ _). assert (length cs = length (h_buckets h)) as Hl.
    { unfold cs. destruct (assoc_get _ (h_counts h)) as [w|] eqn:E; [|apply length_replicate].
      apply assoc_get_in in E. rewrite Forall_forall in Hc. by apply Hc in E as (_ & _ & ? & _). }
    pose proof (posts_put (count_posts (m_name (h_metric h)) (h_buckets h)) f (sorted_labels l)
      (alter (Z.add 1) (bucket_index (h_buckets h) v) cs) (h_counts h)) as Hp.
    rewrite bucket_posts_alter in Hp by (done || by apply bucket_index_lt).
    assert (match assoc_get (sorted_labels l) (h_counts h) with
            | Some w => qtotal f (count_posts (m_name (h_metric h)) (h_buckets h) (sorted_labels l, w)) | None => 0 end ==
            qtotal f (count_posts (m_name (h_metric h)) (h_buckets h) (sorted_labels l, cs)))%Q as Hw.
    { unfold cs. destruct (assoc_get _ (h_counts h)); [done|]. cbn [default from_option]. by rewrite bucket_posts_zero. }
    rewrite Hw in Hp. lra.
  - pose proof (posts_put (λ kv : labels * Q, [(encode_field (m_name (h_metric h)) kv.1, kv.2)]) f (sorted_labels l)
      (default 0%Q (assoc_get (sorted_labels l) (h_sums h)) + v)%Q (h_sums h)) as Hp.
    assert (forall m : list (labels * Q), (m ≫= λ kv : labels * Q, [(encode_field (m_name (h_metric h)) kv.1, kv.2)]) =
      ((λ kv : labels * Q, (encode_field (m_name (h_metric h)) kv.1, kv.2)) <$> m)) as Hm.
    { intros m. induction m as [|x m IH]; [done|]. rewrite bind_cons, fmap_cons, IH. done. }
    rewrite !Hm in Hp. rewrite !qtotal_cons in Hp |- *. cbn [fst snd] in *. change (qtotal f []) with 0%Q in *.
    destruct (assoc_get _ (h_sums h)); cbn [default from_option id] in *; rewrite ?qtotal_cons in Hp; cbn [fst snd] in Hp;
      change (qtotal f []) with 0%Q in Hp; destruct (decide _); lra.
Qed.
End posts.

Lemma observe_hist_ok v l h h' : NoDup l.*1 -> hist_ok h -> observe v l h = inr h' -> hist_ok h'.
Proof.
  intros Hl Hok Ho. destruct (observe_shape v l h h' Ho) as (Em & Eb & Hset). destruct Hok as [Hn Hle Hb Hk Hc [Hs1 Hs2]].
  unfold observe in Ho. destruct (_key _ _) as [|key] eqn:Ek; [done|].
  assert (key = sorted_labels l) as -> by (unfold _key in Ek; destruct (bool_decide _); congruence).
  cbn [rbind] in Ho. injection Ho as <-. pose proof (key_ok_sorted l Hl) as Hkey.
  assert ("le" ∉ (sorted_labels l).*1) as Hkle.
  { rewrite sorted_labels_perm. intros Hin. apply Hle. apply (elem_of_list_to_set (C := gset string)).
    rewrite <- Hset. by apply elem_of_list_to_set. }
  split; cbn [h_metric h_buckets h_counts h_sums]; try done.
  - by apply assoc_put_NoDup.
  - apply Forall_forall. intros [k w] Hin. cbn [fst snd]. rewrite Forall_forall in Hc.
    assert ((k, w) ∈ h_counts h \/ k = sorted_labels l /\ w = alter (Z.add 1) (bucket_index (h_buckets h) v)
      (default (replicate (length (h_buckets h)) 0) (assoc_get (sorted_labels l) (h_counts h)))) as [Ho|[-> ->]].
    { apply (assoc_get_NoDup k w) in Hin; [|by apply assoc_put_NoDup]. rewrite assoc_get_put in Hin.
      destruct (decide (k = sorted_labels l)); [right; split; [done|congruence]|left; by apply assoc_get_in]. }
    { by apply (Hc (k, w)). }
    split_and!; [done|done|]. set (cs := default _ _).
    assert (length cs = length (h_buckets h) /\ Forall (Z.le 0) cs) as [Hcl Hcp].
    { unfold cs. destruct (assoc_get _ (h_counts h)) as [w|] eqn:E; cbn [default from_option id].
      - apply assoc_get_in in E. apply Hc in E as (_ & _ & ? & ? & _). done.
      - split; [apply length_replicate|]. apply Forall_replicate. lia. }
    unfold counts_ok. rewrite length_alter. split; [done|].
    pose proof (bucket_index_lt (h_buckets h) v Hb) as Hi. rewrite <- Hcl in Hi.
    destruct (lookup_lt_is_Some_2 _ _ Hi) as [c Hcj]. split.
    + apply Forall_alter; [done|]. intros x _ Hx. lia.
    + apply Exists_exists. exists (1 + c). split.
      * apply (list_elem_of_lookup_2 _ (bucket_index (h_buckets h) v)). by rewrite list_lookup_alter_eq, Hcj.
      * rewrite Forall_forall in Hcp. apply list_elem_of_lookup_2, Hcp in Hcj. lia.
  - split; [by apply assoc_put_NoDup|]. rewrite assoc_put_keys. destruct (decide _); [done|].
    apply Forall_app. split; [done|]. by apply Forall_singleton.
Qed.

(** ** What a flush sends *)

Section sending.
Context (repr : Q -> string) (worker : string) (gauge_ttl_s : Q) (clock : string).

Definition hist_hash (k : string) : Prop := k = HISTOGRAM_COUNT_KEY \/ k = HISTOGRAM_SUM_KEY.

(** The deltas of a hash. *)
Definition deltas (k : string) (hs : list Histogram) : list (string * Q) :=
  if decide (k = HISTOGRAM_COUNT_KEY) then bucket_deltas repr hs else sum_deltas hs.

Lemma fold_left_map {A B S} (g : A -> B) (f : S -> B -> S) l : forall s,
  fold_left (λ s x, f s (g x)) l s = fold_left f (g <$> l) s.
Proof using Type. induction l as [|x l IH]; intros s; [done|]. apply IH. Qed.

Lemma fold_left_bind {A B S} (g : A -> list B) (f : S -> B -> S) l : forall s,
  fold_left (λ s x, fold_left f (g x) s) l s = fold_left f (l ≫= g) s.
Proof using Type. induction l as [|x l IH]; intros s; [done|]. cbn [fold_left]. by rewrite IH, bind_cons, fold_left_app. Qed.

Lemma fold_left_ext {A S} (f g : S -> A -> S) l : (forall s x, f s x = g s x) -> forall s, fold_left f l s = fold_left g l s.
Proof using Type. intros Hfg. induction l as [|x l IH]; intros s; [done|]. cbn [fold_left]. by rewrite Hfg, IH. Qed.

Lemma deltas_posts k hs : deltas k hs = fold_left add_post (hs ≫= posts repr k) [].
Proof using Type.
  rewrite <- fold_left_bind. unfold deltas, posts. destruct (decide (k = HISTOGRAM_COUNT_KEY)).
  - unfold bucket_deltas. apply fold_left_ext. intros d h. rewrite <- fold_left_bind. apply fold_left_ext. intros d1 kc.
    unfold count_posts. rewrite <- fold_left_map. apply fold_left_ext. intros d2 bc. unfold add_post, bucket_field. cbn [fst snd].
    assert (Qeq_bool (inject_Z bc.2) 0 = (bc.2 =? 0)) as ->; [|done].
    apply eq_true_iff_eq. rewrite Qeq_bool_iff, Z.eqb_eq. apply (inject_Z_injective bc.2 0).
  - unfold sum_deltas. apply fold_left_ext. intros d h. rewrite <- fold_left_map. apply fold_left_ext. intros d1 kv. done.
Qed.

Lemma deltas_facts k hs :
  NoDup (deltas k hs).*1 /\
  (forall f, default 0 (assoc_get f (deltas k hs)) == qtotal f (hs ≫= posts repr k))%Q /\
  (forall f, f ∈ (deltas k hs).*1 -> f ∈ (hs ≫= posts repr k).*1).
Proof using Type.
  rewrite deltas_posts. destruct (add_posts (hs ≫= posts repr k) []) as (Hnd & Hv & Hk); [apply NoDup_nil_2|].
  split_and!; [done| |].
  - intros f. rewrite Hv. cbn [assoc_get default from_option]. lra.
  - intros f Hf. destruct (Hk f Hf) as [Hf'|]; [by apply elem_of_nil in Hf'|done].
Qed.

Lemma flush_commands r c : c ∈ (flush repr worker gauge_ttl_s clock r).2 ->
  match c with
  | HIncrByFloat k f d => k = COUNTER_KEY /\ (f, d) ∈ counter_deltas (counters r) \/
                          hist_hash k /\ (f, d) ∈ deltas k (histograms r)
  | _ => True
  end.
Proof using Type.
  unfold flush. cbn [snd]. rewrite !elem_of_app, !list_elem_of_fmap. unfold hist_hash, deltas.
  intros [([f d] & -> & H)|[([f d] & -> & H)|[([f d] & -> & H)|[H|H]]]].
  - by left.
  - right. split; [by left|]. by rewrite decide_True.
  - right. split; [by right|]. by rewrite decide_False.
  - destruct (gauge_fields _) in H; [by apply elem_of_nil in H|].
    by repeat (apply elem_of_cons in H as [->|H]; [done|]); apply elem_of_nil in H.
  - by apply list_elem_of_singleton in H as ->.
Qed.

Lemma sent_hist k f r : hist_hash k ->
  (sent_to k f (flush repr worker gauge_ttl_s clock r).2 == qtotal f (histograms r ≫= posts repr k))%Q.
Proof using Type.
  intros Hk. destruct (deltas_facts k (histograms r)) as (Hnd & Hv & _). rewrite <- Hv.
  unfold flush. cbn [snd]. rewrite !sent_app.
  assert (forall k' ds, k' <> k -> sent_to k f ((λ fd : string * Q, HIncrByFloat k' fd.1 fd.2) <$> ds) = 0%Q) as Hoff.
  { intros k' ds Hne. by apply sent_nothing, off_hash_deltas. }
  assert (sent_to k f (match gauge_fields (gauges r) with [] => [] | _ =>
    [HSet (GAUGE_KEY_PREFIX +:+ ":" +:+ worker) (gauge_fields (gauges r));
     Expire (GAUGE_KEY_PREFIX +:+ ":" +:+ worker) (int_of_float (Qmax_py 1 gauge_ttl_s))] end) = 0%Q) as ->.
  { apply sent_nothing. destruct (gauge_fields _); repeat constructor. }
  rewrite (sent_cons k f (SetEx _ _ _)). change (sent_to k f []) with 0%Q.
  unfold deltas. destruct Hk as [-> | ->].
  - rewrite decide_True by done. rewrite (Hoff COUNTER_KEY), (Hoff HISTOGRAM_SUM_KEY) by done.
    rewrite sent_deltas; [lra|]. unfold deltas in Hnd. by rewrite decide_True in Hnd.
  - rewrite decide_False by done. rewrite (Hoff COUNTER_KEY), (Hoff HISTOGRAM_COUNT_KEY) by done.
    rewrite sent_deltas; [lra|]. unfold deltas in Hnd. by rewrite decide_False in Hnd.
Qed.
End sending.

(** ** Histories of the histograms *)

Definition shape (h : Histogram) : metric * list bound := (h_metric h, h_buckets h).

Definition hists_ok (hs : list Histogram) : Prop :=
  Forall hist_ok hs /\ NoDup ((λ h, m_name (h_metric h)) <$> hs).

(** The observations of one histogram. *)
Definition observed (i : nat) (ops : list op) : list (labels * Q) :=
  ops ≫= λ o, match o with Obs i' v l => if decide (i' = i) then [(l, v)] else [] | _ => [] end.

Section histories.
Context (repr : Q -> string) (worker : string) (gauge_ttl_s : Q) (clock : string).

Definition op_posts (k : string) (hs : list Histogram) (o : op) : list (string * Q) :=
  match o with
  | Obs i v l => match hs !! i with Some h => [obs_post repr k h v l] | None => [] end
  | _ => []
  end.

Lemma obs_post_shape k h h' v l : shape h = shape h' -> obs_post repr k h v l = obs_post repr k h' v l.
Proof using Type. unfold shape, obs_post. intros [= -> ->]. done. Qed.

Lemma op_posts_shape k hs hs' o : shape <$> hs = shape <$> hs' -> op_posts k hs o = op_posts k hs' o.
Proof using Type.
  intros E. destruct o as [| i v l |]; try done. cbn [op_posts].
  assert (shape <$> hs !! i = shape <$> hs' !! i) as Ei by by rewrite <- !list_lookup_fmap, E.
  destruct (hs !! i), (hs' !! i); try done. f_equal. apply obs_post_shape, (inj Some), Ei.
Qed.

Lemma shape_names (hs hs' : list Histogram) : shape <$> hs = shape <$> hs' ->
  (λ h, m_name (h_metric h)) <$> hs = (λ h, m_name (h_metric h)) <$> hs'.
Proof using Type.
  intros E. change (λ h, m_name (h_metric h)) with ((λ s : metric * list bound, m_name s.1) ∘ shape).
  by rewrite !list_fmap_compose, E.
Qed.

Lemma posts_insert k f (hs : list Histogram) i h h' : hs !! i = Some h ->
  (qtotal f (<[i := h']> hs ≫= posts repr k) + qtotal f (posts repr k h) ==
   qtotal f (hs ≫= posts repr k) + qtotal f (posts repr k h'))%Q.
Proof using Type.
  revert i. induction hs as [|h1 hs IH]; intros [|i] E; try done.
  - injection E as ->. change (<[0%nat := h']> (h :: hs)) with (h' :: hs). rewrite !bind_cons, !qtotal_app. lra.
  - change (<[S i := h']> (h1 :: hs)) with (h1 :: <[i := h']> hs). rewrite !bind_cons, !qtotal_app.
    specialize (IH i E). lra.
Qed.

Lemma posts_drained k f (hs : list Histogram) :
  qtotal f (((λ h, (histogram_drain h).1) <$> hs) ≫= posts repr k) = 0%Q.
Proof using Type.
  apply qtotal_none. intros ([g x] & -> & (h & Hh & (h0 & -> & _)%list_elem_of_fmap)%list_elem_of_bind)%list_elem_of_fmap.
  unfold posts in Hh. cbn in Hh. destruct (decide _); by apply elem_of_nil in Hh.
Qed.

Lemma run_op_hists k f o r r' cmds : hists_ok (histograms r) -> op_ok o -> hist_hash k ->
  run_op repr worker gauge_ttl_s clock o r = inr (r', cmds) ->
  hists_ok (histograms r') /\ shape <$> histograms r' = shape <$> histograms r /\
  (sent_to k f cmds + qtotal f (histograms r' ≫= posts repr k) ==
   qtotal f (histograms r ≫= posts repr k) + qtotal f (op_posts k (histograms r) o))%Q.
Proof using Type.
  intros [Hok Hnd] Ho Hk E. destruct o as [i a l|i v l|]; cbn [run_op] in E.
  - destruct (counters r !! i) as [c|]; [|done]. destruct (counter_inc a l c) as [|c']; [done|]. injection E as <- <-.
    split_and!; [done|done|]. cbn [histograms op_posts]. change (sent_to _ _ []) with 0%Q. change (qtotal f []) with 0%Q. lra.
  - destruct (histograms r !! i) as [h|] eqn:Eh; [|done]. destruct (observe v l h) as [|h'] eqn:Eo; [done|]. injection E as <- <-.
    cbn [histograms op_posts]. rewrite Eh. pose proof Hok as Hok'. rewrite Forall_forall in Hok'.
    specialize (Hok' h (list_elem_of_lookup_2 _ _ _ Eh)). destruct (observe_shape v l h h' Eo) as (Em & Eb & _).
    assert (shape <$> <[i := h']> (histograms r) = shape <$> histograms r) as Es.
    { rewrite list_fmap_insert. apply list_insert_id. rewrite list_lookup_fmap, Eh. cbn. unfold shape. by rewrite Em, Eb. }
    split_and!; [split| |].
    + apply Forall_insert; [done|]. by apply (observe_hist_ok v l h).
    + by rewrite (shape_names _ _ Es).
    + exact Es.
    + change (sent_to _ _ []) with 0%Q. pose proof (posts_insert k f _ i h h' Eh) as Hi.
      rewrite (observe_posts repr k f v l h h' Hok' Eo) in Hi. lra.
  - apply (inj inr) in E. assert (r' = drained r) as -> by (symmetry; exact (f_equal fst E)).
    assert (cmds = (flush repr worker gauge_ttl_s clock r).2) as -> by by rewrite E.
    cbn [drained histograms op_posts]. assert (shape <$> ((λ h, (histogram_drain h).1) <$> histograms r) = shape <$> histograms r) as Es
      by by rewrite <- list_fmap_compose.
    split_and!; [split| |].
    + apply Forall_fmap. eapply Forall_impl; [exact Hok|]. intros h [H1 H2 H3 _ _ _].
      split; cbn; try done; repeat split; apply NoDup_nil_2 || constructor.
    + by rewrite (shape_names _ _ Es).
    + exact Es.
    + rewrite sent_hist, posts_drained by done. change (qtotal f []) with 0%Q. lra.
Qed.

Lemma run_ops_hists k f ops : forall r r' cmds, hists_ok (histograms r) -> Forall op_ok ops -> hist_hash k ->
  run_ops repr worker gauge_ttl_s clock ops r = inr (r', cmds) ->
  hists_ok (histograms r') /\ shape <$> histograms r' = shape <$> histograms r /\
  (sent_to k f cmds + qtotal f (histograms r' ≫= posts repr k) ==
   qtotal f (histograms r ≫= posts repr k) + qtotal f (ops ≫= op_posts k (histograms r)))%Q.
Proof using Type.
  induction ops as [|o ops IH]; intros r r' cmds Hr Ho Hk E; cbn [run_ops] in E.
  - injection E as <- <-. split_and!; [done|done|]. change (sent_to _ _ []) with 0%Q. change (qtotal f ([] ≫= _)) with 0%Q. lra.
  - apply Forall_cons in Ho as [Ho Hos]. destruct (run_op _ _ _ _ o r) as [|[r1 cmds1]] eqn:E1; [done|]. cbn [rbind] in E.
    destruct (run_ops _ _ _ _ ops r1) as [|[r2 cmds2]] eqn:E2; [done|]. cbn [rbind] in E. injection E as <- <-.
    destruct (run_op_hists k f o r r1 cmds1 Hr Ho Hk E1) as (Hr1 & Es1 & Hc1).
    destruct (IH r1 r2 cmds2 Hr1 Hos Hk E2) as (Hr2 & Es2 & Hc2). split_and!; [done|congruence|].
    rewrite sent_app, bind_cons, qtotal_app.
    assert (ops ≫= op_posts k (histograms r1) = ops ≫= op_posts k (histograms r)) as <-; [|lra].
    clear -Es1. induction ops as [|o' ops IH]; [done|]. by rewrite !bind_cons, IH, (op_posts_shape k _ _ o' Es1).
Qed.

(** What was observed at a worker can be observed again. *)
Lemma observed_keys i ops : forall r r' cmds h, run_ops repr worker gauge_ttl_s clock ops r = inr (r', cmds) ->
  histograms r !! i = Some h -> Forall (λ lv, exists key, _key (h_metric h) lv.1 = inr key) (observed i ops).
Proof using Type.
  induction ops as [|o ops IH]; intros r r' cmds h E Eh; [constructor|]. cbn [run_ops] in E.
  destruct (run_op _ _ _ _ o r) as [|[r1 cmds1]] eqn:E1; [done|]. cbn [rbind] in E.
  destruct (run_ops _ _ _ _ ops r1) as [|[r2 cmds2]] eqn:E2; [done|]. unfold observed. rewrite bind_cons. fold (observed i ops).
  assert (forall h1, histograms r1 !! i = Some h1 -> h_metric h1 = h_metric h ->
    Forall (λ lv, exists key, _key (h_metric h) lv.1 = inr key) (observed i ops)) as Hrest.
  { intros h1 Eh1 <-. by apply (IH r1 r2 cmds2 h1). }
  destruct o as [i' a l|i' v l|]; cbn [run_op] in E1.
  - destruct (counters r !! i'); [|done]. destruct (counter_inc _ _ _); [done|]. injection E1 as <- <-. by apply (Hrest h).
  - destruct (histograms r !! i') as [h0|] eqn:Eh0; [|done]. destruct (observe v l h0) as [|h'] eqn:Eo; [done|]. injection E1 as <- <-.
    destruct (observe_shape v l h0 h' Eo) as (Em & _ & _). cbn [histograms] in Hrest. destruct (decide (i' = i)) as [->|Hne].
    + apply Forall_app. assert (h0 = h) as -> by congruence. split.
      * constructor; [|constructor]. cbn [fst]. unfold observe in Eo. destruct (_key (h_metric h) l) as [|key]; [done|by exists key].
      * apply (Hrest h'); [|done]. apply list_lookup_insert_eq. by apply lookup_lt_Some in Eh.
    + apply Forall_app. split; [constructor|]. apply (Hrest h); [|done]. by rewrite list_lookup_insert_ne.
  - apply (inj inr) in E1. assert (r1 = drained r) as -> by (symmetry; exact (f_equal fst E1)).
    cbn [app]. apply (Hrest (histogram_drain h).1); [|done]. cbn [drained histograms]. by rewrite list_lookup_fmap, Eh.
Qed.

Lemma observe_all_total obs : forall h, Forall (λ lv, exists key, _key (h_metric h) lv.1 = inr key) obs ->
  exists h', observe_all obs h = inr h'.
Proof using Type.
  induction obs as [|[l v] obs IH]; intros h Ho; [by exists h|]. apply Forall_cons in Ho as [[key Hk] Ho].
  cbn [observe_all fst] in *. destruct (observe v l h) as [|h1] eqn:E; [unfold observe in E; by rewrite Hk in E|].
  cbn [rbind]. destruct (observe_shape v l h h1 E) as (Em & _ & _). apply IH. by rewrite Em.
Qed.

Lemma observe_all_posts k f obs : forall h h', hist_ok h -> Forall (λ lv : labels * Q, NoDup lv.1.*1) obs ->
  observe_all obs h = inr h' ->
  hist_ok h' /\ shape h' = shape h /\
  (qtotal f (posts repr k h') == qtotal f (posts repr k h) + qtotal f ((λ lv, obs_post repr k h lv.2 lv.1) <$> obs))%Q.
Proof using Type.
  induction obs as [|[l v] obs IH]; intros h h' Hh Ho E; cbn [observe_all] in E.
  - injection E as <-. split_and!; [done|done|]. change (qtotal f (_ <$> [])) with 0%Q. lra.
  - apply Forall_cons in Ho as [Hl Ho]. destruct (observe v l h) as [|h1] eqn:Eo; [done|]. cbn [rbind fst] in *.
    destruct (observe_shape v l h h1 Eo) as (Em & Eb & _). pose proof (observe_hist_ok v l h h1 Hl Hh Eo) as Hh1.
    destruct (IH h1 h' Hh1 Ho E) as (Hok & Es & Hq). assert (shape h1 = shape h) as Es1 by (unfold shape; by rewrite Em, Eb).
    split_and!; [done|congruence|]. rewrite fmap_cons. cbn [fst snd].
    pose proof (qtotal_app f [obs_post repr k h v l] ((λ lv, obs_post repr k h lv.2 lv.1) <$> obs)) as Ha. cbn [app] in Ha. rewrite Ha.
    rewrite Hq, (observe_posts repr k f v l h h1 Hh Eo).
    assert ((λ lv : labels * Q, obs_post repr k h1 lv.2 lv.1) <$> obs = (λ lv, obs_post repr k h lv.2 lv.1) <$> obs) as ->; [|lra].
    apply list_fmap_ext. intros _ lv _. by apply obs_post_shape.
Qed.
End histories.

(** ** One field, one series *)

Section fields.
Context (repr : Q -> string).

Lemma le_labels_inj (lbl lbl' : string) (k k' : labels) : key_ok k -> key_ok k' -> "le" ∉ k.*1 -> "le" ∉ k'.*1 ->
  assoc_put "le" lbl k ≡ₚ assoc_put "le" lbl' k' -> k = k' /\ lbl = lbl'.
Proof using Type.
  intros Hk Hk' Hle Hle'. rewrite !le_labels by done. intros Hp.
  assert (("le", lbl) ∈ k' ++ [("le", lbl')]) as Hin.
  { rewrite <- Hp. apply elem_of_app. right. apply list_elem_of_here. }
  apply elem_of_app in Hin as [Hin|Hin]; [by destruct Hle'; apply (list_elem_of_fmap_2 fst _ _ Hin)|].
  apply list_elem_of_singleton in Hin. injection Hin as <-. split; [|done]. apply key_ok_inj; [done|done|].
  by apply (Permutation_app_inv_r [("le", lbl)]).
Qed.

Lemma bucket_field_inj n n' b b' k k' : str_forall no_sep n = true -> str_forall no_sep n' = true ->
  key_ok k -> key_ok k' -> "le" ∉ k.*1 -> "le" ∉ k'.*1 ->
  bucket_field repr n b k = bucket_field repr n' b' k' ->
  n = n' /\ k = k' /\ _format_bucket_bound repr b = _format_bucket_bound repr b'.
Proof using Type.
  intros Hn Hn' Hk Hk' Hle Hle' E. apply encode_field_inj in E as [-> Hp]; [|done|done|by apply assoc_put_NoDup, Hk|by apply assoc_put_NoDup, Hk'].
  split; [done|]. by apply le_labels_inj.
Qed.

(** Only one key posts to the field. *)
Lemma qtotal_key {V} (F : labels * V -> list (string * Q)) f key (m : list (labels * V)) : NoDup m.*1 ->
  (forall kv, kv ∈ m -> kv.1 <> key -> f ∉ (F kv).*1) ->
  (qtotal f (m ≫= F) == match assoc_get key m with Some w => qtotal f (F (key, w)) | None => 0 end)%Q.
Proof using Type.
  induction m as [|[k w] m IH]; intros Hnd Hother; [done|]. rewrite fmap_cons, NoDup_cons in Hnd. destruct Hnd as [Hk Hnd].
  rewrite bind_cons, qtotal_app, IH; [|done|intros kv Hkv; by apply Hother, list_elem_of_further].
  cbn [assoc_get]. destruct (decide (key = k)) as [->|Hne].
  - apply assoc_get_None in Hk. cbn [fst] in Hk. rewrite Hk. lra.
  - rewrite (qtotal_none f (F (k, w))); [lra|]. apply (Hother (k, w)); [apply list_elem_of_here|by apply not_eq_sym].
Qed.

Lemma count_posts_at name (bs : list bound) key (w : list Z) (j : nat) b : NoDup (_format_bucket_bound repr <$> bs) ->
  str_forall no_sep name = true -> key_ok key -> "le" ∉ key.*1 -> length w = length bs -> bs !! j = Some b ->
  (qtotal (bucket_field repr name b key) (count_posts repr name bs (key, w)) == inject_Z (default 0%Z (w !! j)))%Q.
Proof using Type.
  intros Hnd Hn Hk Hle. unfold count_posts. cbn [fst snd]. revert w j.
  induction bs as [|b0 bs IH]; intros [|c w] j Hl Hj; try done; simpl in Hl.
  rewrite fmap_cons, NoDup_cons in Hnd. destruct Hnd as [Hb Hnd]. cbn [zip zip_with]. rewrite fmap_cons, qtotal_cons. cbn [fst snd].
  destruct j as [|j].
  - injection Hj as ->. rewrite decide_True by done. rewrite qtotal_none; [cbn [lookup list_lookup default from_option id]; lra|].
    intros ([g x] & E & ([b' c'] & [= -> _] & Hz)%list_elem_of_fmap)%list_elem_of_fmap. cbn [fst snd] in *.
    apply bucket_field_inj in E as (_ & _ & E); [|done..]. apply Hb. rewrite E. apply list_elem_of_fmap_2.
    by apply elem_of_zip_l in Hz.
  - change ((c :: w) !! S j) with (w !! j). rewrite decide_False.
    + apply IH; [done|lia|exact Hj].
    + intros E. apply bucket_field_inj in E as (_ & _ & E); [|done..]. apply Hb. rewrite E.
      by apply list_elem_of_fmap_2, (list_elem_of_lookup_2 _ j).
Qed.

(** What a bucket posts is its count. *)
Lemma bucket_posted h key (j : nat) b : hist_ok h -> NoDup (_format_bucket_bound repr <$> h_buckets h) ->
  key_ok key -> "le" ∉ key.*1 -> h_buckets h !! j = Some b ->
  (qtotal (bucket_field repr (m_name (h_metric h)) b key) (posts repr HISTOGRAM_COUNT_KEY h) ==
   inject_Z (default 0%Z (default [] (assoc_get key (h_counts h)) !! j)))%Q.
Proof using Type.
  intros [Hn _ _ Hnd Hc _] Hb Hk Hle Hj. unfold posts. rewrite decide_True by done. rewrite Forall_forall in Hc.
  rewrite (qtotal_key _ _ key) by first [done|intros [k w] Hin Hne ([g x] & E & ([b' c'] & [= -> _] & _)%list_elem_of_fmap)%list_elem_of_fmap;
    cbn [fst snd] in *; destruct (Hc _ Hin) as (Hk' & Hle' & _);
    apply bucket_field_inj in E as (_ & E & _); [congruence|done..]].
  destruct (assoc_get key (h_counts h)) as [w|] eqn:E; [|done]. cbn [default from_option id].
  apply assoc_get_in, Hc in E as (_ & _ & Hl & _). by apply count_posts_at.
Qed.

(** What a sum posts is its value. *)
Lemma sum_posted h key : hist_ok h -> key_ok key ->
  (qtotal (encode_field (m_name (h_metric h)) key) (posts repr HISTOGRAM_SUM_KEY h) ==
   default 0 (assoc_get key (h_sums h)))%Q.
Proof using Type.
  intros [Hn _ _ _ _ [Hnd Hs]] Hk. unfold posts. rewrite decide_False by done. rewrite Forall_forall in Hs.
  assert (forall m : list (labels * Q), (λ kv : labels * Q, (encode_field (m_name (h_metric h)) kv.1, kv.2)) <$> m =
    (m ≫= λ kv : labels * Q, [(encode_field (m_name (h_metric h)) kv.1, kv.2)])) as ->.
  { intros m. induction m as [|x m IH]; [done|]. rewrite bind_cons, fmap_cons, IH. done. }
  rewrite (qtotal_key _ _ key) by first [done|intros [k w] Hin Hne E%list_elem_of_singleton; cbn [fst snd] in *;
    apply field_inj in E as [_ E]; [congruence|done|done|done|by apply Hs, (list_elem_of_fmap_2 fst _ _ Hin)]].
  destruct (assoc_get key (h_sums h)) as [w|]; [|done]. rewrite qtotal_cons, decide_True by done. cbn. lra.
Qed.
End fields.

(** ** The hashes in Redis *)

(** The numbers of the shared hashes, by hash and field.  The other commands of a
    flush do not touch them. *)
Abbreviation store := (gmap (string * string) Q).

Definition exec (st : store) (c : command) : store :=
  match c with
  | HIncrByFloat k f d => <[(k, f) := (default 0 (st !! (k, f)) + d)%Q]> st
  | _ => st
  end.

Lemma exec_value cmds k f : forall st,
  (default 0 (fold_left exec cmds st !! (k, f)) == default 0 (st !! (k, f)) + sent_to k f cmds)%Q.
Proof.
  induction cmds as [|c cmds IH]; intros st; [change (sent_to k f []) with 0%Q; cbn [fold_left]; lra|].
  cbn [fold_left]. rewrite IH, sent_cons. destruct c as [k' f' d| | |]; cbn [exec]; try lra.
  destruct (decide (k' = k /\ f' = f)) as [[-> ->]|Hne].
  - rewrite lookup_insert_eq. cbn [default from_option id]. lra.
  - rewrite lookup_insert_ne by (intros [= -> ->]; by apply Hne). lra.
Qed.

Lemma sent_perm k f cmds cmds' : cmds ≡ₚ cmds' -> (sent_to k f cmds == sent_to k f cmds')%Q.
Proof.
  induction 1 as [|c cs cs' _ IH|c c' cs|cs cs' cs'' _ IH1 _ IH2]; [done|..].
  - rewrite !sent_cons. destruct c; try exact IH. destruct (decide _); [|exact IH]. by rewrite IH.
  - rewrite !sent_cons. destruct c, c'; try done. repeat destruct (decide _); try done. lra.
  - by rewrite IH1.
Qed.

(** A reply of [HGETALL], in any order. *)
Definition replies (show : Q -> string) (st : store) (k : string) (rs : rows) : Prop :=
  exists l : list (string * Q), rs = (λ fv : string * Q, (fv.1, show fv.2)) <$> l /\ NoDup l.*1 /\
    forall f v, (f, v) ∈ l <-> st !! (k, f) = Some v.

Section decoding.
Context {B : Type} `{EqDecision B} (enc : B -> string) (wf : B -> Prop).
Context (enc_inj : forall b b', wf b -> wf b' -> enc b = enc b' -> b = b').

Lemma fields_decoded (l : list (string * Q)) : Forall (λ fv, exists b, wf b /\ fv.1 = enc b) l ->
  exists ts : list (B * Q), l = (λ t, (enc t.1, t.2)) <$> ts /\ Forall (λ t, wf t.1) ts.
Proof using Type.
  induction 1 as [|[f v] l (b & Hb & E) _ (ts & -> & Hts)]; [by exists []|]. exists ((b, v) :: ts).
  cbn [fst] in E. subst f. split; [done|]. by constructor.
Qed.

Lemma replies_decoded show st k rs : replies show st k rs ->
  (forall f v, st !! (k, f) = Some v -> exists b, wf b /\ f = enc b) ->
  exists ts : list (B * Q), rs = (λ t, (enc t.1, show t.2)) <$> ts /\ Forall (λ t, wf t.1) ts /\ NoDup ts.*1 /\
    forall b, wf b -> assoc_get b ts = st !! (k, enc b).
Proof using enc_inj.
  intros (l & -> & Hnd & Hl) Hst. destruct (fields_decoded l) as (ts & -> & Hts).
  { apply Forall_forall. intros [f v] Hin. apply Hl, Hst in Hin. exact Hin. }
  exists ts. assert (NoDup ts.*1) as Hndt.
  { rewrite <- list_fmap_compose in Hnd. change (NoDup (enc ∘ fst <$> ts)) in Hnd. rewrite list_fmap_compose in Hnd.
    by apply NoDup_fmap_1 in Hnd. }
  split_and!; [by rewrite <- list_fmap_compose|done|done|]. intros b Hb.
  assert (forall v, (b, v) ∈ ts <-> st !! (k, enc b) = Some v) as Hin.
  { intros v. rewrite <- Hl, list_elem_of_fmap. split; [intros H; by exists (b, v)|].
    intros ([b' v'] & [= E <-] & H). rewrite Forall_forall in Hts. by rewrite (enc_inj b b' Hb (Hts _ H) E). }
  destruct (st !! (k, enc b)) as [v|] eqn:E; [by apply assoc_get_NoDup; [|apply Hin]|].
  apply assoc_get_None. intros ([b' v] & -> & H)%list_elem_of_fmap. by apply Hin in H.
Qed.
End decoding.

(** ** What flushes store *)

Section stored.
Context (repr : Q -> string).

Definition series_field (s : string * labels) : string := encode_field s.1 s.2.
Definition label_field (y : string * labels * string) : string := encode_field y.1.1 (assoc_put "le" y.2 y.1.2).

Lemma series_field_inj s s' : series_wf s -> series_wf s' -> series_field s = series_field s' -> s = s'.
Proof using Type.
  destruct s, s'. intros [Hn Hk] [Hn' Hk'] E. cbn [fst snd] in *. destruct (field_inj _ _ _ _ Hn Hn' Hk Hk' E). congruence.
Qed.

Lemma label_field_inj y y' : bucket_wf y -> bucket_wf y' -> label_field y = label_field y' -> y = y'.
Proof using Type.
  destruct y as [[n k] l], y' as [[n' k'] l']. intros [[Hn Hk] Hl] [[Hn' Hk'] Hl'] E. cbn [fst snd] in *.
  unfold label_field in E. cbn [fst snd] in E.
  apply encode_field_inj in E as [-> Hp]; [|done|done|by apply assoc_put_NoDup, Hk|by apply assoc_put_NoDup, Hk'].
  by destruct (le_labels_inj l l' k k') as [-> ->].
Qed.

(** A number of a shared hash. *)
Definition stored (k f : string) (v : Q) : Prop :=
  (k = COUNTER_KEY \/ k = HISTOGRAM_SUM_KEY) /\ (exists s, series_wf s /\ f = series_field s) \/
  k = HISTOGRAM_COUNT_KEY /\ (exists y, bucket_wf y /\ f = label_field y) /\ (0 < v)%Q.

Definition cmd_ok (c : command) : Prop := match c with HIncrByFloat k f d => stored k f d | _ => True end.

Lemma exec_stored cmds : forall st, Forall cmd_ok cmds -> (forall k f v, st !! (k, f) = Some v -> stored k f v) ->
  forall k f v, fold_left exec cmds st !! (k, f) = Some v -> stored k f v.
Proof using Type.
  induction cmds as [|c cmds IH]; intros st Hc Hst; [exact Hst|]. apply Forall_cons in Hc as [Hc Hcs].
  cbn [fold_left]. apply IH; [done|]. destruct c as [k' f' d| | |]; cbn [exec]; try exact Hst.
  intros k f v. destruct (decide ((k', f') = (k, f))) as [[= -> ->]|Hne]; [|rewrite lookup_insert_ne by done; apply Hst].
  rewrite lookup_insert_eq. intros [= <-]. destruct Hc as [Hc|(E & Hf & Hd)]; [by left|]. right. split_and!; [done|done|].
  destruct (st !! (k, f)) as [w|] eqn:Ew; cbn [default from_option id]; [|lra].
  destruct (Hst k f w Ew) as [[[->| ->] _]|(_ & _ & Hw)]; [done|done|lra].
Qed.

Lemma posts_nonneg h : hist_ok h -> Forall (λ p, 0 <= p.2)%Q (posts repr HISTOGRAM_COUNT_KEY h).
Proof using Type.
  intros [_ _ _ _ Hc _]. unfold posts. rewrite decide_True by done. apply Forall_forall. intros [f x] ([k w] & Hin & Hkw)%list_elem_of_bind.
  rewrite Forall_forall in Hc. apply Hc in Hkw as (_ & _ & _ & Hw & _). unfold count_posts in Hin.
  apply list_elem_of_fmap in Hin as ([b c] & [= -> ->] & Hz). cbn [fst snd] in *. apply elem_of_zip_r in Hz.
  rewrite Forall_forall in Hw. apply Hw in Hz. change 0%Q with (inject_Z 0). by rewrite <- Zle_Qle.
Qed.

Lemma posts_fields k h f : hist_ok h -> hist_hash k -> f ∈ (posts repr k h).*1 ->
  k = HISTOGRAM_SUM_KEY /\ (exists s, series_wf s /\ f = series_field s) \/
  k = HISTOGRAM_COUNT_KEY /\ (exists y, bucket_wf y /\ f = label_field y).
Proof using Type.
  intros [Hn _ _ _ Hc [_ Hs]] Hk ([g x] & -> & Hin)%list_elem_of_fmap. cbn [fst]. unfold posts in Hin.
  destruct (decide (k = HISTOGRAM_COUNT_KEY)) as [->|Hne].
  - right. split; [done|]. apply list_elem_of_bind in Hin as ([key w] & Hin & Hkw). rewrite Forall_forall in Hc.
    apply Hc in Hkw as (Hkey & Hle & _). apply list_elem_of_fmap in Hin as ([b c] & [= -> _] & _).
    by exists (m_name (h_metric h), key, _format_bucket_bound repr b).
  - left. split; [by destruct Hk|]. apply list_elem_of_fmap in Hin as ([key w] & [= -> _] & Hkw).
    exists (m_name (h_metric h), key). split; [|done]. split; [done|]. rewrite Forall_forall in Hs.
    by apply Hs, (list_elem_of_fmap_2 fst _ _ Hkw).
Qed.

Lemma flush_stored worker ttl clock r : registry_ok r -> hists_ok (histograms r) ->
  Forall cmd_ok (flush repr worker ttl clock r).2.
Proof using Type.
  intros [Hcs _] [Hhs _]. apply Forall_forall. intros c Hc%flush_commands. destruct c as [k f d| | |]; try done.
  unfold cmd_ok. rewrite Forall_forall in Hcs. rewrite Forall_forall in Hhs. destruct Hc as [[-> Hin]|[Hk Hin]].
  - left. split; [by left|]. rewrite counter_deltas_writes in Hin.
    destruct (fold_put_keys (writes (counters r)) [] f) as [H|H]; [by apply (list_elem_of_fmap_2 fst _ _ Hin)|by apply elem_of_nil in H|].
    apply list_elem_of_fmap in H as ([f' v] & -> & H). apply elem_of_writes in H as (c & key & Hc & Hkv & E).
    cbn [fst]. destruct (Hcs c Hc) as (Hn & _ & Hkeys). rewrite Forall_forall in Hkeys.
    exists (m_name (c_metric c), key). split; [|done]. split; [done|]. by apply Hkeys, (list_elem_of_fmap_2 fst _ _ Hkv).
  - destruct (deltas_facts repr k (histograms r)) as (_ & _ & Hf).
    assert (f ∈ (histograms r ≫= posts repr k).*1) as Hp by by apply Hf, (list_elem_of_fmap_2 fst _ _ Hin).
    apply list_elem_of_fmap in Hp as ([f' x] & -> & (h & Hp & Hh)%list_elem_of_bind). cbn [fst].
    destruct (posts_fields k h f' (Hhs h Hh) Hk) as [[-> Hs]|[-> Hy]]; [by apply (list_elem_of_fmap_2 fst _ _ Hp)| |].
    + left. split; [by right|done].
    + right. split_and!; [done|done|]. cbn [fst] in Hin. rewrite deltas_posts in Hin.
      assert (Forall (λ p, 0 < p.2)%Q (fold_left add_post (histograms r ≫= posts repr HISTOGRAM_COUNT_KEY) [])) as Hpos.
      { apply add_posts_pos; [|constructor]. apply Forall_bind, Forall_forall. intros h' Hh'. by apply posts_nonneg, Hhs. }
      rewrite Forall_forall in Hpos. by apply (Hpos _ Hin).
Qed.

Lemma run_ops_stored worker ttl clock ops : forall r r' cmds, registry_ok r -> hists_ok (histograms r) ->
  Forall op_ok ops -> run_ops repr worker ttl clock ops r = inr (r', cmds) -> Forall cmd_ok cmds.
Proof using Type.
  induction ops as [|o ops IH]; intros r r' cmds Hr Hh Ho E; cbn [run_ops] in E; [by injection E as <- <-|].
  apply Forall_cons in Ho as [Ho Hos]. destruct (run_op _ _ _ _ o r) as [|[r1 cmds1]] eqn:E1; [done|]. cbn [rbind] in E.
  destruct (run_ops _ _ _ _ ops r1) as [|[r2 cmds2]] eqn:E2; [done|]. injection E as <- <-.
  destruct (run_op_kept repr worker ttl clock o r r1 cmds1 Hr Ho E1) as (Hr1 & _).
  destruct (run_op_hists repr worker ttl clock HISTOGRAM_COUNT_KEY "" o r r1 cmds1 Hh Ho (or_introl eq_refl) E1) as (Hh1 & _).
  apply Forall_app. split; [|by apply (IH r1 r2)]. destruct o as [i a l|i v l|]; cbn [run_op] in E1.
  - destruct (counters r !! i); [|done]. destruct (counter_inc _ _ _); [done|]. by injection E1 as _ <-.
  - destruct (histograms r !! i); [|done]. destruct (observe _ _ _); [done|]. by injection E1 as _ <-.
  - apply (inj inr) in E1. rewrite <- (f_equal snd E1 : _ = cmds1). by apply flush_stored.
Qed.
End stored.

(** ** A fleet *)

(** A worker: what its metrics record and when they are flushed, its registry before
    and after, and the commands its pipelines issued. *)
Record member := {
  mb_worker : string; mb_clock : string; mb_ops : list op;
  mb_start : Registry; mb_end : Registry; mb_cmds : list command }.

(** A registry nothing has been recorded in. *)
Record fresh (r : Registry) : Prop := {
  fr_ok : registry_ok r;
  fr_hists : hists_ok (histograms r);
  fr_counters : Forall (λ c, c_values c = []) (counters r);
  fr_empty : Forall (λ h, h_counts h = [] /\ h_sums h = []) (histograms r) }.

Definition qsum {A} (g : A -> Q) (l : list A) : Q := foldr (λ a q, g a + q)%Q 0%Q l.

Lemma qsum_cons {A} (g : A -> Q) a l : qsum g (a :: l) = (g a + qsum g l)%Q.
Proof. done. Qed.

Lemma sent_bind {A} (g : A -> list command) k f l : (sent_to k f (l ≫= g) == qsum (λ a, sent_to k f (g a)) l)%Q.
Proof. induction l as [|a l IH]; [done|]. rewrite bind_cons, sent_app, qsum_cons. by rewrite IH. Qed.

Lemma qtotal_bind {A} (g : A -> list (string * Q)) f l : (qtotal f (l ≫= g) == qsum (λ a, qtotal f (g a)) l)%Q.
Proof. induction l as [|a l IH]; [done|]. rewrite bind_cons, qtotal_app, qsum_cons. by rewrite IH. Qed.

Section fleet.
Context (repr : Q -> string) (float : string -> result Q) (show : Q -> string) (ttl : Q).

Record member_ok (m : member) : Prop := {
  mo_fresh : fresh (mb_start m);
  mo_ops : Forall op_ok (mb_ops m);
  mo_run : run_ops repr (mb_worker m) ttl (mb_clock m) (mb_ops m) (mb_start m) = inr (mb_end m, mb_cmds m) }.

(** What a scrape is answered while Redis holds [st]; the workers' own keys hold gauges. *)
Record scraped (st : store) (r : worker_replies) : Prop := {
  sc_hashes : exists cr br sr, w_hashes r = inr (cr, br, sr) /\
    replies show st COUNTER_KEY cr /\ replies show st HISTOGRAM_COUNT_KEY br /\ replies show st HISTOGRAM_SUM_KEY sr;
  sc_scan : exists keys, w_scan r = inr keys;
  sc_gauges : forall keys, exists raws, w_gauges r keys = inr raws /\
    Forall (λ raw, exists ts, raw = written show ts /\ Forall (λ t, series_wf t.1) ts) raws }.

(** The total shown for a counter's series; an absent one counts nothing. *)
Definition count_shown (name : string) (key : labels) (fams : list MetricFamily) : Q :=
  match shown "counter" name key fams with Some (Num q) => q | _ => 0%Q end.

Context (float_show : forall q, float (show q) = inr q).

Lemma gauges_read ts : forall g, Forall (λ t, series_wf t.1) ts -> exists g', rfold (add_gauge float) g (written show ts) = inr g'.
Proof using float_show.
  induction ts as [|[[n k] q] ts IH]; intros g Hwf; [by exists g|]. apply Forall_cons in Hwf as [[Hn [Hk _]] Hwf].
  unfold written. rewrite fmap_cons. cbn [rfold fst snd]. unfold add_gauge at 1.
  rewrite (read_row_written float show float_show) by done. cbn [rbind]. by apply IH.
Qed.

Lemma gauges_total raws : Forall (λ raw, exists ts, raw = written show ts /\ Forall (λ t, series_wf t.1) ts) raws ->
  exists fams, gauge_families float raws = inr fams /\ Forall (λ f, f_kind f = "gauge") fams.
Proof using float_show.
  intros H. unfold gauge_families. assert (forall g, exists g', rfold (rfold (add_gauge float)) g raws = inr g') as Hg.
  { induction H as [|raw raws (ts & -> & Hts) _ IH]; intros g; [by exists g|]. cbn [rfold].
    destruct (gauges_read ts g Hts) as [g1 E]. rewrite E. cbn [rbind]. apply IH. }
  destruct (Hg []) as [g E]. rewrite E. cbn [rbind]. eexists. split; [done|]. by apply Forall_fmap, Forall_forall.
Qed.

(** What a scrape shows of the hashes. *)
Lemma worker_families_shown st r : scraped st r -> (forall k f v, st !! (k, f) = Some v -> stored k f v) ->
  exists fams, _worker_families repr float r = inr fams /\
    (forall name key, series_wf (name, key) -> shown "counter" name key fams = Num <$> st !! (COUNTER_KEY, encode_field name key)) /\
    forall name, exists keys, NoDup keys /\
      (forall key, key_ok key -> "le" ∉ key.*1 -> str_forall no_sep name = true ->
         key ∈ keys <-> exists lbl q, st !! (HISTOGRAM_COUNT_KEY, label_field (name, key, lbl)) = Some q) /\
      Forall (λ key, key_ok key /\ ("le" ∉ key.*1) /\ str_forall no_sep name = true) keys /\
      exposed "histogram" name fams ≡
      view repr name bounds keys
        (λ key, (λ lbl, default 0%Q (st !! (HISTOGRAM_COUNT_KEY, label_field (name, key, lbl)))) <$> labelled_bounds repr)
        (λ key, default 0%Q (st !! (HISTOGRAM_SUM_KEY, encode_field name key))).
Proof using float_show.
  intros [(cr & br & sr & Eh & Hc & Hb & Hs) [keys Ek] Hg] Hst.
  destruct (replies_decoded series_field series_wf series_field_inj show st COUNTER_KEY cr Hc) as (cs & -> & Hcs & Hcn & Hcl).
  { intros f v E. by destruct (Hst _ _ _ E) as [[_ ?]|[? _]]. }
  destruct (replies_decoded series_field series_wf series_field_inj show st HISTOGRAM_SUM_KEY sr Hs) as (ss & -> & Hss & Hsn & Hsl).
  { intros f v E. by destruct (Hst _ _ _ E) as [[_ ?]|[? _]]. }
  destruct (replies_decoded label_field bucket_wf label_field_inj show st HISTOGRAM_COUNT_KEY br Hb) as (bs & -> & Hbs & Hbn & Hbl).
  { intros f v E. by destruct (Hst _ _ _ E) as [[[?|?] _]|(_ & ? & _)]. }
  destruct (counters_shown float show float_show cs Hcs Hcn) as (cf & Ec & Hck & Hcf).
  destruct (histograms_shown repr float show float_show bs ss Hbs Hbn Hss Hsn) as (hf & Ehf & Hhk & Hhf).
  unfold _worker_families. rewrite Eh. cbn [rbind].
  change ((λ t : string * labels * Q, (series_field t.1, show t.2)) <$> cs) with (written show cs). rewrite Ec. cbn [rbind].
  rewrite Ek. cbn [rbind]. set (wk := filter _ keys).
  assert (exists raws, match wk with [] => inr [] | _ => w_gauges r wk end = inr raws /\
    Forall (λ raw, exists ts, raw = written show ts /\ Forall (λ t, series_wf t.1) ts) raws) as (raws & Er & Hr).
  { destruct wk; [by exists []|apply Hg]. }
  rewrite Er. cbn [rbind]. destruct (gauges_total raws Hr) as (gf & Eg & Hgk). rewrite Eg. cbn [rbind].
  change ((λ t : string * labels * string * Q, (label_field t.1, show t.2)) <$> bs) with (bucket_rows show bs).
  change ((λ t : string * labels * Q, (series_field t.1, show t.2)) <$> ss) with (written show ss). rewrite Ehf. cbn [rbind].
  eexists. split; [done|]. split.
  - intros name key Hwf. unfold shown. rewrite !exposed_app.
    rewrite (exposed_none _ _ gf), (exposed_none _ _ hf) by (eapply Forall_impl; [eassumption|]; by intros f ->).
    rewrite !app_nil_r. change (encode_field name key) with (series_field (name, key)).
    rewrite <- (Hcl (name, key) Hwf). apply Hcf.
  - intros name. destruct (Hhf name) as (ks & Hks & Hin & Hex). rewrite Forall_forall in Hbs. exists ks. split; [done|]. split_and!.
    + intros key Hk Hle Hn. rewrite Hin. split.
      * intros (lbl & q & H). exists lbl, q. rewrite <- Hbl by done. by apply assoc_get_NoDup.
      * intros (lbl & q & H). exists lbl, q. apply assoc_get_in. by rewrite Hbl.
    + apply Forall_forall. intros key (lbl & q & H)%Hin. destruct (Hbs _ H) as [[Hn Hk] Hle]. done.
    + rewrite !exposed_app, (exposed_none _ _ cf), (exposed_none _ _ gf) by (eapply Forall_impl; [eassumption|]; by intros f ->).
      cbn [app]. rewrite Hex. apply view_equiv; [done|]. intros key (lbl & q & H)%Hin. destruct (Hbs _ H) as [[Hn Hk] Hle].
      cbn [fst snd] in *. split.
      * apply Forall2_fmap, Forall_Forall2_diag, Forall_forall. intros l _. by rewrite Hbl.
      * by rewrite (Hsl (name, key)).
Qed.

Lemma fleet_stored fleet cmds : Forall member_ok fleet -> cmds ≡ₚ (fleet ≫= mb_cmds) ->
  forall k f v, fold_left exec cmds ∅ !! (k, f) = Some v -> stored k f v.
Proof using Type.
  intros Hf Hp. apply exec_stored; [|intros k f v E; by rewrite lookup_empty in E]. rewrite Hp. apply Forall_bind.
  eapply Forall_impl; [exact Hf|]. intros m [[Hr Hh _ _] Ho E]. by apply (run_ops_stored repr _ _ _ _ _ _ _ Hr Hh Ho E).
Qed.

Lemma fleet_value fleet cmds k f : cmds ≡ₚ (fleet ≫= mb_cmds) ->
  (default 0 (fold_left exec cmds ∅ !! (k, f)) == qsum (λ m, sent_to k f (mb_cmds m)) fleet)%Q.
Proof using Type.
  intros Hp. rewrite exec_value, lookup_empty, (sent_perm k f _ _ Hp), sent_bind. cbn [default from_option]. lra.
Qed.

(** What a fleet added to a series. *)
Lemma fleet_counted i name key fleet : Forall member_ok fleet -> key_ok key ->
  Forall (λ m, exists c, counters (mb_start m) !! i = Some c /\ m_name (c_metric c) = name) fleet ->
  (qsum (λ m, sent_to COUNTER_KEY (encode_field name key) (mb_cmds m)) fleet + qsum (λ m, value_at i key (mb_end m)) fleet ==
   qsum (λ m, incremented i key (mb_ops m)) fleet)%Q.
Proof using Type.
  intros Hf Hk Hi. induction Hf as [|m fleet [[Hr _ Hz _] Ho E] _ IH]; [done|]. apply Forall_cons in Hi as [(c & Hc & Hn) Hi].
  rewrite !qsum_cons. specialize (IH Hi).
  pose proof (run_ops_conserves repr _ ttl _ _ _ _ _ i key Hr Ho Hk (lookup_lt_Some _ _ _ Hc) E) as Hm.
  assert (name_at i (mb_start m) = name) as En by (unfold name_at; by rewrite Hc).
  assert (value_at i key (mb_start m) = 0%Q) as Ev.
  { unfold value_at. rewrite Hc. rewrite Forall_forall in Hz. by rewrite (Hz c (list_elem_of_lookup_2 _ _ _ Hc)). }
  rewrite En, Ev in Hm. lra.
Qed.
End fleet.

Section histogram.
Context (repr : Q -> string) (ttl : Q).

(** Only the observations of a histogram post to its fields. *)
Lemma ops_posts_observed k f i h0 hs ops l0 : hists_ok hs -> hs !! i = Some h0 -> hist_hash k -> Forall op_ok ops ->
  NoDup l0.*1 -> f = encode_field (m_name (h_metric h0)) l0 ->
  (qtotal f (ops ≫= op_posts repr k hs) == qtotal f ((λ lv, obs_post repr k h0 lv.2 lv.1) <$> observed i ops))%Q.
Proof using Type.
  intros [Hok Hnd] Hi Hk Ho Hl0 Ef. rewrite Forall_forall in Hok. induction Ho as [|o ops Ho _ IH]; [done|].
  unfold observed. rewrite !bind_cons, fmap_app, !qtotal_app. fold (observed i ops). rewrite IH.
  destruct o as [i' a l|i' v l|]; cbn [op_posts]; try done. cbn [op_ok] in Ho.
  destruct (decide (i' = i)) as [->|Hne]; [by rewrite Hi|]. change (qtotal f (_ <$> [])) with 0%Q.
  destruct (hs !! i') as [h|] eqn:Eh; [|done]. rewrite (qtotal_none f [obs_post repr k h v l]); [lra|].
  intros E%list_elem_of_singleton. assert (f = (obs_post repr k h v l).1) as E' by done. clear E.
  apply Hne. apply (NoDup_lookup _ _ _ (m_name (h_metric h)) Hnd); rewrite list_lookup_fmap, ?Eh, ?Hi; [done|]. cbn. f_equal.
  pose proof (ho_name _ (Hok h (list_elem_of_lookup_2 _ _ _ Eh))) as Hn.
  pose proof (ho_name _ (Hok h0 (list_elem_of_lookup_2 _ _ _ Hi))) as Hn0.
  pose proof (sorted_keys_NoDup l Ho) as Hs. rewrite Ef in E'. unfold obs_post in E'. destruct (decide _); cbn [fst] in E'.
  - by apply encode_field_inj in E' as [-> _]; [|done|done|done|apply assoc_put_NoDup].
  - by apply encode_field_inj in E' as [-> _].
Qed.

Lemma observed_ok i ops : Forall op_ok ops -> Forall (λ lv : labels * Q, NoDup lv.1.*1) (observed i ops).
Proof using Type.
  intros Ho. unfold observed. apply Forall_bind. eapply Forall_impl; [exact Ho|]. intros [? ? ?|i' v l|] H; [constructor| |constructor].
  unfold compose. destruct (decide (i' = i)); [|constructor]. constructor; [exact H|constructor].
Qed.

(** All the observations of a fleet, made by one histogram. *)
Definition fleet_observed (i : nat) (fleet : list member) : list (labels * Q) :=
  fleet ≫= λ m, observed i (mb_ops m).

Lemma fleet_posted k i h0 fleet l0 : Forall (member_ok repr ttl) fleet -> hist_hash k ->
  Forall (λ m, histograms (mb_start m) !! i = Some h0 /\ drained (mb_end m) = mb_end m) fleet -> NoDup l0.*1 ->
  let f := encode_field (m_name (h_metric h0)) l0 in
  (qsum (λ m, sent_to k f (mb_cmds m)) fleet == qtotal f ((λ lv, obs_post repr k h0 lv.2 lv.1) <$> fleet_observed i fleet))%Q.
Proof using Type.
  intros Hf Hk Hi Hl0 f. unfold fleet_observed. induction Hf as [|m fleet [[Hr Hh _ Hz] Ho E] _ IH]; [done|].
  apply Forall_cons in Hi as [[Hi Hd] His]. rewrite qsum_cons, bind_cons, fmap_app, qtotal_app, (IH His). f_equiv.
  destruct (run_ops_hists repr _ ttl _ k f _ _ _ _ Hh Ho Hk E) as (_ & _ & Hs).
  rewrite <- (ops_posts_observed k f i h0 (histograms (mb_start m)) (mb_ops m) l0) by done.
  rewrite <- Hd in Hs. cbn [drained histograms] in Hs. rewrite posts_drained in Hs.
  rewrite (qtotal_none f (histograms (mb_start m) ≫= posts repr k)) in Hs; [lra|].
  intros ([g x] & _ & (h & Hg & Hh1)%list_elem_of_bind)%list_elem_of_fmap. rewrite Forall_forall in Hz.
  destruct (Hz h Hh1) as [E1 E2]. unfold posts in Hg. rewrite E1, E2 in Hg. destruct (decide _); by apply elem_of_nil in Hg.
Qed.

Lemma fleet_observable i h0 fleet : Forall (member_ok repr ttl) fleet ->
  Forall (λ m, histograms (mb_start m) !! i = Some h0 /\ drained (mb_end m) = mb_end m) fleet ->
  exists h, observe_all (fleet_observed i fleet) h0 = inr h.
Proof using Type.
  intros Hf Hi. apply observe_all_total. unfold fleet_observed. apply Forall_bind. rewrite Forall_forall in Hf.
  rewrite Forall_forall in Hi. apply Forall_forall. intros m Hm. destruct (Hf m Hm) as [_ _ E], (Hi m Hm) as [Hh _].
  by apply (observed_keys repr _ ttl _ i _ _ _ _ h0 E).
Qed.

Lemma labelled_formatted : labelled_bounds repr = _format_bucket_bound repr <$> bounds.
Proof using Type. reflexivity. Qed.

Lemma posts_positive h key : hist_ok h -> NoDup (_format_bucket_bound repr <$> h_buckets h) ->
  key_ok key -> "le" ∉ key.*1 ->
  key ∈ (h_counts h).*1 <->
  exists lbl, (0 < qtotal (label_field (m_name (h_metric h), key, lbl)) (posts repr HISTOGRAM_COUNT_KEY h))%Q.
Proof using Type.
  intros Hh Hnd Hk Hle. pose proof (ho_counts _ Hh) as Hc. rewrite Forall_forall in Hc. split.
  - intros ([key' w] & -> & Hin)%list_elem_of_fmap.
    destruct (Hc _ Hin) as (_ & _ & Hl & _ & (c & Hcw & Hpos)%Exists_exists). cbn [fst snd] in *.
    apply list_elem_of_lookup in Hcw as [j Hj]. pose proof (lookup_lt_Some _ _ _ Hj) as Hlt. rewrite Hl in Hlt.
    destruct (lookup_lt_is_Some_2 _ _ Hlt) as [b Hb]. exists (_format_bucket_bound repr b).
    change (label_field _) with (bucket_field repr (m_name (h_metric h)) b key').
    rewrite (bucket_posted repr h key' j b) by done. rewrite (assoc_get_NoDup _ _ _ (ho_keys _ Hh) Hin).
    cbn [default from_option id]. rewrite Hj. cbn [default from_option id]. change 0%Q with (inject_Z 0). by rewrite <- Zlt_Qlt.
  - intros (lbl & Hpos).
    destruct (decide (label_field (m_name (h_metric h), key, lbl) ∈ (posts repr HISTOGRAM_COUNT_KEY h).*1)) as [Hin|Hno];
      [|by rewrite qtotal_none in Hpos].
    unfold posts in Hin. rewrite decide_True in Hin by done.
    apply list_elem_of_fmap in Hin as ([f x] & E & ([key' w] & Hkw & Hin)%list_elem_of_bind).
    apply list_elem_of_fmap in Hkw as ([b c] & [= -> _] & _). cbn [fst snd] in E. destruct (Hc _ Hin) as (Hk' & Hle' & _).
    apply (label_field_inj _ (m_name (h_metric h), key', _format_bucket_bound repr b)) in E;
      [|split; [split; [apply (ho_name _ Hh)|done]|done]..].
    injection E as -> _. by apply (list_elem_of_fmap_2 fst _ _ Hin).
Qed.
End histogram.

(** The series of the store are those of the histogram. *)
Lemma stored_keys (repr : Q -> string) (st : store) h (keys : list labels) :
  hist_ok h -> h_buckets h = bounds -> NoDup (labelled_bounds repr) ->
  (forall k f v, st !! (k, f) = Some v -> stored k f v) ->
  let name := m_name (h_metric h) in
  (forall k l, hist_hash k -> NoDup l.*1 ->
     (default 0 (st !! (k, encode_field name l)) == qtotal (encode_field name l) (posts repr k h))%Q) ->
  (forall key, key ∈ keys -> key_ok key /\ ("le" ∉ key.*1)) ->
  (forall key, key_ok key -> "le" ∉ key.*1 ->
     key ∈ keys <-> exists lbl q, st !! (HISTOGRAM_COUNT_KEY, label_field (name, key, lbl)) = Some q) ->
  forall key, key ∈ keys <-> key ∈ (h_counts h).*1.
Proof.
  cbv zeta. intros Hok Eb Hnb Hst Hval Hks Hin key. pose proof (ho_counts _ Hok) as Hc. rewrite Forall_forall in Hc.
  assert (NoDup (_format_bucket_bound repr <$> h_buckets h)) as Hnf by (rewrite Eb; by rewrite labelled_formatted in Hnb).
  split.
  - intros Hkey. destruct (Hks key Hkey) as (Hk & Hle). apply (posts_positive repr); [done..|].
    apply (Hin key Hk Hle) in Hkey as (lbl & q & Eq). exists lbl. unfold label_field in *. cbn [fst snd] in *.
    rewrite <- Hval by (by left || by apply assoc_put_NoDup, Hk). rewrite Eq.
    by destruct (Hst _ _ _ Eq) as [[[?|?] _]|(_ & _ & ?)].
  - intros Hkey. pose proof Hkey as ([key' w] & E' & Hw)%list_elem_of_fmap. cbn in E'. subst key'.
    destruct (Hc _ Hw) as (Hk & Hle & _). apply (posts_positive repr) in Hkey as (lbl & Hpos); [|done..].
    apply (Hin key Hk Hle). exists lbl. unfold label_field in Hpos |- *. cbn [fst snd] in *.
    rewrite <- Hval in Hpos by (by left || by apply assoc_put_NoDup, Hk).
    destruct (_ !! _) as [q|]; [by exists q|]. cbn in Hpos. lra.
Qed.

(** A store that holds what a histogram would post is shown as the histogram. *)
Lemma stored_shown (repr : Q -> string) (st : store) h (keys : list labels) :
  hist_ok h -> h_buckets h = bounds -> NoDup (labelled_bounds repr) ->
  (forall k f v, st !! (k, f) = Some v -> stored k f v) ->
  let name := m_name (h_metric h) in
  (forall k l, hist_hash k -> NoDup l.*1 ->
     (default 0 (st !! (k, encode_field name l)) == qtotal (encode_field name l) (posts repr k h))%Q) ->
  NoDup keys -> Forall (λ key, key_ok key /\ ("le" ∉ key.*1)) keys ->
  (forall key, key_ok key -> "le" ∉ key.*1 ->
     key ∈ keys <-> exists lbl q, st !! (HISTOGRAM_COUNT_KEY, label_field (name, key, lbl)) = Some q) ->
  view repr name bounds keys
    (λ key, (λ lbl, default 0%Q (st !! (HISTOGRAM_COUNT_KEY, label_field (name, key, lbl)))) <$> labelled_bounds repr)
    (λ key, default 0%Q (st !! (HISTOGRAM_SUM_KEY, encode_field name key))) ≡ samples repr h.
Proof.
  cbv zeta. intros Hok Eb Hnb Hst Hval Hnd Hks Hin. pose proof (ho_counts _ Hok) as Hc. rewrite Forall_forall in Hc.
  rewrite Forall_forall in Hks.
  assert (forall key, key ∈ keys <-> key ∈ (h_counts h).*1) as Hkeys by by apply (stored_keys repr st).
  unfold samples. rewrite histogram_samples_view by (rewrite <- list_fmap_compose; apply (ho_keys _ Hok)).
  rewrite <- list_fmap_compose, Eb. apply view_equiv.
  - apply NoDup_Permutation; [done|apply (ho_keys _ Hok)|exact Hkeys].
  - intros key Hkey. destruct (Hks key Hkey) as (Hk & Hle). split.
    + assert (assoc_get key ((λ kc : labels * list Z, (kc.1, inject_Z <$> kc.2)) <$> h_counts h) =
              (fmap inject_Z) <$> assoc_get key (h_counts h)) as ->.
      { clear. induction (h_counts h) as [|[k w] m IH]; [done|]. rewrite fmap_cons. cbn [assoc_get fst snd]. by case_decide. }
      pose proof (proj1 (Hkeys key) Hkey) as Hkc. destruct (assoc_get key (h_counts h)) as [w|] eqn:Ew;
        [|by apply assoc_get_None in Ew]. cbn [fmap option_fmap option_map default from_option id].
      destruct (Hc _ (assoc_get_in _ _ _ Ew)) as (_ & _ & Hl & _). cbn [snd] in Hl.
      rewrite labelled_formatted in Hnb |- *. rewrite <- Eb in Hnb |- *.
      rewrite <- list_fmap_compose. apply Forall2_fmap, Forall2_same_length_lookup_2; [done|].
      intros j b c Hj Hwj. unfold compose. change (label_field _) with (bucket_field repr (m_name (h_metric h)) b key).
      unfold bucket_field. rewrite Hval by (by left || by apply assoc_put_NoDup, Hk).
      rewrite (bucket_posted repr h key j b) by done. rewrite Ew. cbn [default from_option id]. by rewrite Hwj.
    + rewrite (Hval HISTOGRAM_SUM_KEY key (or_intror eq_refl) (proj1 Hk)). by apply sum_posted.
Qed.

(** *** Theorems *)

(** C20: a scrape counts what the fleet did.  However many workers, however their
    pipelines' commands interleave in Redis: for every series of a counter, the number
    the scrape shows and what the workers have not flushed yet make up exactly what all
    of them added to it. *)
Theorem scrape_counts repr float show ttl fleet cmds r i name key :
  (forall q, float (show q) = inr q) -> Forall (member_ok repr ttl) fleet -> cmds ≡ₚ (fleet ≫= mb_cmds) ->
  scraped show (fold_left exec cmds ∅) r ->
  Forall (λ m, exists c, counters (mb_start m) !! i = Some c /\ m_name (c_metric c) = name) fleet ->
  str_forall no_sep name = true -> key_ok key ->
  exists fams, _worker_families repr float r = inr fams /\
    (count_shown name key fams + qsum (λ m, value_at i key (mb_end m)) fleet ==
     qsum (λ m, incremented i key (mb_ops m)) fleet)%Q.
Proof.
  intros Hfs Hf Hp Hr Hi Hn Hk.
  destruct (worker_families_shown repr float show Hfs _ r Hr (fleet_stored repr ttl fleet cmds Hf Hp)) as (fams & E & Hc & _).
  exists fams. split; [exact E|]. rewrite <- (fleet_counted repr ttl i name key fleet Hf Hk Hi). f_equiv.
  rewrite <- (fleet_value fleet cmds) by done. unfold count_shown. rewrite Hc by done.
  by destruct (_ !! _).
Qed.

(** C19: a scrape adds histograms up.  Once the workers have flushed, the samples the
    scrape shows of a histogram are those of a single histogram that made all the
    observations of the fleet itself: the same series in the same order, with the same
    cumulative buckets, sum and count. *)
Theorem scrape_histogram repr float show ttl fleet cmds r i h0 :
  (forall q, float (show q) = inr q) -> NoDup (labelled_bounds repr) ->
  Forall (member_ok repr ttl) fleet -> cmds ≡ₚ (fleet ≫= mb_cmds) -> scraped show (fold_left exec cmds ∅) r ->
  hist_ok h0 -> h_counts h0 = [] -> h_sums h0 = [] -> h_buckets h0 = bounds ->
  Forall (λ m, histograms (mb_start m) !! i = Some h0 /\ drained (mb_end m) = mb_end m) fleet ->
  exists fams h, _worker_families repr float r = inr fams /\
    observe_all (fleet_observed i fleet) h0 = inr h /\
    exposed "histogram" (m_name (h_metric h0)) fams ≡ samples repr h.
Proof.
  intros Hfs Hnb Hf Hp Hr Hok0 Hc0 Hs0 Hb0 Hi. pose proof (fleet_stored repr ttl fleet cmds Hf Hp) as Hst.
  destruct (worker_families_shown repr float show Hfs _ r Hr Hst) as (fams & E & _ & Hh).
  destruct (fleet_observable repr ttl i h0 fleet Hf Hi) as [h Eh]. exists fams, h. split; [exact E|]. split; [exact Eh|].
  assert (Forall (λ lv : labels * Q, NoDup lv.1.*1) (fleet_observed i fleet)) as Hobs.
  { apply Forall_bind. eapply Forall_impl; [exact Hf|]. intros m [_ Ho _]. by apply observed_ok. }
  pose proof (λ k f, observe_all_posts repr k f _ h0 h Hok0 Hobs Eh) as Hposts.
  destruct (Hposts "" "") as (Hok & Es & _). unfold shape in Es. injection Es as Em Eb. rewrite Hb0 in Eb.
  assert (forall k l0, hist_hash k -> NoDup l0.*1 ->
    (default 0 (fold_left exec cmds ∅ !! (k, encode_field (m_name (h_metric h0)) l0)) ==
     qtotal (encode_field (m_name (h_metric h0)) l0) (posts repr k h)))%Q as Hval.
  { intros k l0 Hk Hl0. rewrite (fleet_value fleet cmds k _ Hp), (fleet_posted repr ttl k i h0 fleet l0 Hf Hk Hi Hl0).
    destruct (Hposts k (encode_field (m_name (h_metric h0)) l0)) as (_ & _ & ->).
    assert (posts repr k h0 = []) as -> by (unfold posts; rewrite Hc0, Hs0; by destruct (decide _)).
    change (qtotal _ []) with 0%Q. lra. }
  destruct (Hh (m_name (h_metric h0))) as (keys & Hnd & Hin & Hks & Hex). rewrite Hex. rewrite <- Em in *.
  apply stored_shown; [done|done|done|done|done|done| |].
  - eapply Forall_impl; [exact Hks|]. by intros key (? & ? & _).
  - intros key Hk Hle. by apply Hin, (ho_name _ Hok).
Qed.

(** *** Witnesses *)

(** Every field of a hash, in the order the map lists them. *)
Definition reply_of (show : Q -> string) (st : store) (k : string) : rows :=
  (λ x : string * string * Q, (x.1.2, show x.2)) <$> filter (λ x, x.1.1 = k) (map_to_list st).

Lemma reply_of_replies show st k : replies show st k (reply_of show st k).
Proof.
  exists ((λ x : string * string * Q, (x.1.2, x.2)) <$> filter (λ x, x.1.1 = k) (map_to_list st)). split_and!.
  - unfold reply_of. by rewrite <- list_fmap_compose.
  - assert (forall l : list (string * string * Q), NoDup l.*1 ->
      NoDup ((λ x : string * string * Q, (x.1.2, x.2)) <$> filter (λ x, x.1.1 = k) l).*1) as H; [|apply H, NoDup_fst_map_to_list].
    induction l as [|[[k' f] v] l IH]; intros Hnd; [apply NoDup_nil_2|]. rewrite fmap_cons, NoDup_cons in Hnd. destruct Hnd as [Hx Hnd].
    rewrite filter_cons. case_decide as Hk; [|by apply IH]. cbn in Hk. subst k'. rewrite !fmap_cons. apply NoDup_cons. split; [|by apply IH].
    intros ([f' v'] & E & ([[k' f''] v''] & [= -> ->] & [Hk' Hin]%list_elem_of_filter)%list_elem_of_fmap)%list_elem_of_fmap.
    cbn in Hk', E. subst k' f''. by apply Hx, (list_elem_of_fmap_2 fst _ _ Hin).
  - intros f v. rewrite <- elem_of_map_to_list, list_elem_of_fmap. split.
    + intros ([[k' f'] v'] & [= -> ->] & [Hk Hin]%list_elem_of_filter). cbn in Hk. by subst k'.
    + intros Hin. exists (k, f, v). split; [done|]. by apply list_elem_of_filter.
Qed.

Definition demo_replies (st : store) : worker_replies :=
  {| w_hashes := inr (reply_of show_code st COUNTER_KEY, reply_of show_code st HISTOGRAM_COUNT_KEY,
                      reply_of show_code st HISTOGRAM_SUM_KEY);
     w_scan := inr []; w_gauges := λ _, inr [] |}.

Lemma demo_scraped st : scraped show_code st (demo_replies st).
Proof.
  split.
  - do 3 eexists. split; [done|]. split_and!; apply reply_of_replies.
  - by exists [].
  - intros keys. exists []. by split.
Qed.

Definition demo_hist : Histogram :=
  {| h_metric := {| m_name := "d"; m_help := ""; m_labelnames := [] |}; h_buckets := bounds; h_counts := []; h_sums := [] |}.

Definition demo_start : Registry :=
  {| counters := [new_counter "c" "" ["k"]]; gauges := []; histograms := [demo_hist] |}.

Lemma fleet_fresh : fresh demo_start.
Proof.
  split.
  - split; [|apply (bool_decide_unpack _); done]. repeat constructor.
  - split; [|apply (bool_decide_unpack _); done]. constructor; [|constructor].
    split; try done; [intros H; by apply elem_of_nil in H|apply NoDup_nil_2|split; [apply NoDup_nil_2|constructor]].
  - by repeat constructor.
  - by repeat constructor.
Qed.

Definition demo_end (r : Registry) (ops : list op) : Registry :=
  match run_ops show_code "w" 1 "0" ops r with inr (r', _) => r' | inl _ => r end.
Definition demo_sent (r : Registry) (ops : list op) : list command :=
  match run_ops show_code "w" 1 "0" ops r with inr (_, cmds) => cmds | inl _ => [] end.

Definition demo_member (ops : list op) : member :=
  {| mb_worker := "w"; mb_clock := "0"; mb_ops := ops; mb_start := demo_start;
     mb_end := demo_end demo_start ops; mb_cmds := demo_sent demo_start ops |}.

Definition demo_fleet : list member :=
  [demo_member [Inc 0 2 [("k", "x")]; Obs 0 (3 # 2) []; Flush];
   demo_member [Inc 0 3 [("k", "x")]; Flush; Obs 0 7 []; Flush]].

Lemma demo_fleet_ok : Forall (member_ok show_code 1) demo_fleet.
Proof.
  assert (forall ops, Forall op_ok ops -> run_ops show_code "w" 1 "0" ops demo_start =
    inr (demo_end demo_start ops, demo_sent demo_start ops) -> member_ok show_code 1 (demo_member ops)) as H
    by (intros ops Ho E; by split; [apply fleet_fresh|..]).
  repeat (apply Forall_cons; split); [..|by constructor];
    (apply H; [repeat (apply Forall_cons; split); try done; try apply NoDup_singleton; try apply NoDup_nil_2|vm_compute; reflexivity]).
Qed.

Example scrape_counts_witness :
  exists fams, _worker_families show_code float_code
      (demo_replies (fold_left exec (demo_fleet ≫= mb_cmds) ∅)) = inr fams /\
    (count_shown "c" [("k", "x")] fams == 5)%Q.
Proof.
  destruct (scrape_counts show_code float_code show_code 1 demo_fleet (demo_fleet ≫= mb_cmds)
    (demo_replies (fold_left exec (demo_fleet ≫= mb_cmds) ∅)) 0 "c" [("k", "x")]) as (fams & E & Hq).
  - exact float_show_code.
  - exact demo_fleet_ok.
  - done.
  - apply demo_scraped.
  - repeat constructor; eexists; split; reflexivity.
  - done.
  - split; [apply NoDup_singleton|done].
  - exists fams. split; [exact E|]. revert Hq. generalize (count_shown "c" [("k", "x")] fams). intros q Hq.
    assert (qsum (λ m, value_at 0 [("k", "x")] (mb_end m)) demo_fleet == 0)%Q as Hz by (vm_compute; reflexivity).
    assert (qsum (λ m, incremented 0 [("k", "x")] (mb_ops m)) demo_fleet == 5)%Q as Hs by (vm_compute; reflexivity).
    rewrite Hz, Hs in Hq. rewrite <- Hq. symmetry. apply Qplus_0_r.
Defined.

Example scrape_histogram_witness :
  exists fams h, _worker_families show_code float_code
      (demo_replies (fold_left exec (demo_fleet ≫= mb_cmds) ∅)) = inr fams /\
    observe_all [([], 3 # 2); ([], 7)]%Q demo_hist = inr h /\
    exposed "histogram" "d" fams ≡ samples show_code h.
Proof.
  destruct (scrape_histogram show_code float_code show_code 1 demo_fleet (demo_fleet ≫= mb_cmds)
    (demo_replies (fold_left exec (demo_fleet ≫= mb_cmds) ∅)) 0 demo_hist) as (fams & h & E & Eh & Hx).
  - exact float_show_code.
  - apply (bool_decide_unpack _). vm_compute. reflexivity.
  - exact demo_fleet_ok.
  - done.
  - apply demo_scraped.
  - apply (Forall_inv (proj1 (fr_hists _ fleet_fresh))).
  - done.
  - done.
  - done.
  - repeat constructor; reflexivity.
  - exists fams, h. split; [exact E|]. split; [exact Eh|exact Hx].
Defined.
