(* ===== verification/Mock.v ===== *)
(** * The mock model server ([mock_model/])

    The server the load tests and the recovery proofs run against: a token bucket per
    endpoint, injected faults, and the store that replays or coalesces requests with
    the same idempotency key.  A request runs from one [await] to the next without
    interruption; the events of a run are these pieces, cancellations, the passing of
    time and the admin calls, in any order ([do_event]).  Handles are references: a
    list of cells, a handle being its index.  [time.monotonic] is the world's clock; a
    draw of [random] is an argument of the event; the payload of a page and [repr] of a
    float are parameters.  Theorems: the wait the bucket quotes is exactly what is needed,
    and what it grants is bounded; of the runs, in [MockRuns], [MockOnce], [MockStats]. *)

From Stdlib Require Import QArith Qround Lqa.
From S2P Require Import Prelude Py.
#[local] Open Scope Z_scope.

(** ** [ratelimit.py] *)

Record TokenBucket := { rate : Q; burst : Z; tokens : Q; last_refill : Q }.

Definition make_bucket (rate : Q) (burst : Z) (now : Q) : result TokenBucket :=
  if Qle_bool rate 0 || (burst <=? 0) then inl (ValueError "rate and burst must be positive")
  else inr {| rate := rate; burst := burst; tokens := inject_Z burst; last_refill := now |}.

Definition with_tokens (b : TokenBucket) (tokens last_refill : Q) : TokenBucket :=
  {| rate := rate b; burst := burst b; tokens := tokens; last_refill := last_refill |}.

Definition _refill (now : Q) (b : TokenBucket) : TokenBucket :=
  let elapsed := (now - last_refill b)%Q in
  if negb (Qle_bool elapsed 0)
  then with_tokens b (Qmin_py (inject_Z (burst b)) (tokens b + elapsed * rate b)) now
  else b.

(** The bucket, and the seconds to wait; 0 when granted. *)
Definition acquire (cost now : Q) (b : TokenBucket) : TokenBucket * Q :=
  let b := _refill now b in
  if Qle_bool cost (tokens b) then (with_tokens b (tokens b - cost) (last_refill b), 0%Q)
  else (b, ((cost - tokens b) / rate b)%Q).

Definition remaining (now : Q) (b : TokenBucket) : TokenBucket * Z :=
  let b := _refill now b in (b, int_of_float (tokens b)).

(** ** [chaos.py] *)

Record ChaosRule := { status : Z; ratio : Q; extra_latency_ms : Q; expires_at : Q }.

Definition rules : Type := list (string * ChaosRule).

Definition remaining_s (now : Q) (r : ChaosRule) : Q := Qmax_py 0 (expires_at r - now).

Definition set_rule (endpoint : string) (status : Z) (ratio seconds extra_latency_ms now : Q) (rs : rules) : rules :=
  assoc_put endpoint {| status := status; ratio := ratio; extra_latency_ms := extra_latency_ms;
                        expires_at := now + seconds |} rs.

Definition clear_rules (endpoint : option string) (rs : rules) : rules :=
  match endpoint with None => [] | Some e => assoc_del e rs end.

(** [active]: an expired rule is dropped. *)
Definition active (now : Q) (endpoint : string) (rs : rules) : rules * option ChaosRule :=
  match assoc_get endpoint rs with
  | None => (rs, None)
  | Some r => if Qle_bool (remaining_s now r) 0 then (assoc_del endpoint rs, None) else (rs, Some r)
  end.

(** [roll], for a draw [u] of [random.random()]. *)
Definition roll (now u : Q) (endpoint : string) (rs : rules) : rules * option ChaosRule :=
  let '(rs, rule) := active now endpoint rs in
  (rs, match rule with
       | None => None
       | Some r => if negb (Qle_bool (ratio r) u) then Some r else None
       end).

(** [snapshot], with the seconds left before they are rounded: expired rules are dropped. *)
Definition snapshot (now : Q) (rs : rules) : rules * list (string * (ChaosRule * Q)) :=
  fold_left (λ '(rs, out) e,
    let '(rs, rule) := active now e rs in
    (rs, match rule with Some r => out ++ [(e, (r, remaining_s now r))] | None => out end)) rs.*1 (rs, []).

(** ** [stats.py] *)

Record EndpointStats := {
  requests : Z; executions : Z; replays : Z; rate_limited : Z;
  injected_failures : Z; chaos_rejections : Z }.

Definition no_stats : EndpointStats :=
  {| requests := 0; executions := 0; replays := 0; rate_limited := 0; injected_failures := 0; chaos_rejections := 0 |}.

Definition Stats : Type := list (string * EndpointStats).

(** [stats.of(endpoint)], changed in place. *)
Definition bump (endpoint : string) (f : EndpointStats -> EndpointStats) (s : Stats) : Stats :=
  assoc_put endpoint (f (default no_stats (assoc_get endpoint s))) s.

Definition count_request (s : EndpointStats) : EndpointStats :=
  {| requests := requests s + 1; executions := executions s; replays := replays s; rate_limited := rate_limited s;
     injected_failures := injected_failures s; chaos_rejections := chaos_rejections s |}.
Definition count_execution (s : EndpointStats) : EndpointStats :=
  {| requests := requests s; executions := executions s + 1; replays := replays s; rate_limited := rate_limited s;
     injected_failures := injected_failures s; chaos_rejections := chaos_rejections s |}.
Definition count_replay (s : EndpointStats) : EndpointStats :=
  {| requests := requests s; executions := executions s; replays := replays s + 1; rate_limited := rate_limited s;
     injected_failures := injected_failures s; chaos_rejections := chaos_rejections s |}.
Definition count_limited (s : EndpointStats) : EndpointStats :=
  {| requests := requests s; executions := executions s; replays := replays s; rate_limited := rate_limited s + 1;
     injected_failures := injected_failures s; chaos_rejections := chaos_rejections s |}.
Definition count_failure (s : EndpointStats) : EndpointStats :=
  {| requests := requests s; executions := executions s; replays := replays s; rate_limited := rate_limited s;
     injected_failures := injected_failures s + 1; chaos_rejections := chaos_rejections s |}.
Definition count_rejection (s : EndpointStats) : EndpointStats :=
  {| requests := requests s; executions := executions s; replays := replays s; rate_limited := rate_limited s;
     injected_failures := injected_failures s; chaos_rejections := chaos_rejections s + 1 |}.

(** ** [idempotency.py] *)

(** [HTTPException] with its headers, or the cancellation of the request. *)
Inductive failure := HTTP (status : Z) (headers : list (string * string)) | Cancelled.

Section server.
(** Bodies of responses. *)
Context {B : Type}.

(** A cell a handle refers to; [event] is whether it was set. *)
Record _InFlight := { event : bool; res : option B; error : option failure; followers : Z }.

Definition new_handle : _InFlight := {| event := false; res := None; error := None; followers := 0 |}.

(** [_cache] and [_executions] are in the order of use. *)
Record IdempotencyStore := {
  _ttl_s : Q; _max_entries : nat;
  _inflight : list (string * nat); handles : list _InFlight;
  _cache : list (string * (Q * B)); _executions : list (string * Z); _duplicates : list (string * Z) }.

Definition new_store (ttl_s : Q) (max_entries : nat) : IdempotencyStore :=
  {| _ttl_s := ttl_s; _max_entries := max_entries; _inflight := []; handles := []; _cache := [];
     _executions := []; _duplicates := [] |}.

Definition with_cache (cache : list (string * (Q * B))) (s : IdempotencyStore) : IdempotencyStore :=
  {| _ttl_s := _ttl_s s; _max_entries := _max_entries s; _inflight := _inflight s; handles := handles s;
     _cache := cache; _executions := _executions s; _duplicates := _duplicates s |}.
Definition with_inflight (inflight : list (string * nat)) (hs : list _InFlight) (s : IdempotencyStore) : IdempotencyStore :=
  {| _ttl_s := _ttl_s s; _max_entries := _max_entries s; _inflight := inflight; handles := hs;
     _cache := _cache s; _executions := _executions s; _duplicates := _duplicates s |}.
Definition with_evidence (executions duplicates : list (string * Z)) (s : IdempotencyStore) : IdempotencyStore :=
  {| _ttl_s := _ttl_s s; _max_entries := _max_entries s; _inflight := _inflight s; handles := handles s;
     _cache := _cache s; _executions := executions; _duplicates := duplicates |}.

(** [OrderedDict]: assignment followed by [move_to_end]. *)
Definition put_last {V} (key : string) (v : V) (m : list (string * V)) : list (string * V) :=
  assoc_del key m ++ [(key, v)].

Fixpoint _evict {V} (max_entries : nat) (m : list (string * V)) : list (string * V) :=
  match m with
  | [] => []
  | _ :: m' => if (max_entries <? length m)%nat then _evict max_entries m' else m
  end.

Definition get (key : string) (now : Q) (s : IdempotencyStore) : IdempotencyStore * option B :=
  match assoc_get key (_cache s) with
  | None => (s, None)
  | Some (stored_at, body) =>
      if negb (Qle_bool (now - stored_at) (_ttl_s s)) then (with_cache (assoc_del key (_cache s)) s, None)
      else (with_cache (put_last key (stored_at, body) (_cache s)) s, Some body)
  end.

Definition put (key : string) (body : B) (now : Q) (s : IdempotencyStore) : IdempotencyStore :=
  with_cache (_evict (_max_entries s) (put_last key (now, body) (_cache s))) s.

Definition add_follower (h : _InFlight) : _InFlight :=
  {| event := event h; res := res h; error := error h; followers := followers h + 1 |}.

(** Leadership, or the handle to wait on. *)
Definition begin (key : string) (s : IdempotencyStore) : IdempotencyStore * (bool * nat) :=
  match assoc_get key (_inflight s) with
  | Some h => (with_inflight (_inflight s) (alter add_follower h (handles s)) s, (false, h))
  | None => let h := length (handles s) in
            (with_inflight (assoc_put key h (_inflight s)) (handles s ++ [new_handle]) s, (true, h))
  end.

Definition settle (f : _InFlight -> _InFlight) (key : string) (s : IdempotencyStore) : IdempotencyStore :=
  match assoc_get key (_inflight s) with
  | None => s
  | Some h => with_inflight (assoc_del key (_inflight s)) (alter f h (handles s)) s
  end.

Definition finish (key : string) (body : B) (s : IdempotencyStore) : IdempotencyStore :=
  settle (λ h, {| event := true; res := Some body; error := error h; followers := followers h |}) key s.

Definition abandon (key : string) (e : failure) (s : IdempotencyStore) : IdempotencyStore :=
  settle (λ h, {| event := true; res := res h; error := Some e; followers := followers h |}) key s.

(** [join]: [None] while the event is not set. *)
Definition join (h : nat) (s : IdempotencyStore) : option (failure + B) :=
  match handles s !! h with
  | Some c => if event c then match error c with
                              | Some e => Some (inl e)
                              | None => match res c with Some b => Some (inr b) | None => None end
                              end
              else None
  | None => None
  end.

Definition record_execution (key : string) (s : IdempotencyStore) : IdempotencyStore * Z :=
  let count := default 0 (assoc_get key (_executions s)) + 1 in
  (with_evidence (_evict (_max_entries s) (put_last key count (_executions s)))
     (if 1 <? count then assoc_put key count (_duplicates s) else _duplicates s) s, count).

Definition reset (s : IdempotencyStore) : IdempotencyStore := with_cache [] (with_evidence [] [] s).

(** ** [main.py] *)

Definition LAYOUT : string := "layout".
Definition VLM : string := "vlm".

Record MockSettings := {
  layout_latency_ms : Q; layout_rps : Q; layout_burst : Z; layout_failure_rate : Q;
  vlm_latency_min_ms : Q; vlm_latency_max_ms : Q; vlm_rps : Q; vlm_burst : Z; vlm_failure_rate : Q;
  idempotency_ttl_s : Q; idempotency_max_entries : nat }.

(** What the server keeps, and its clock. *)
Record server := {
  buckets : list (string * TokenBucket); chaos : rules; idem : IdempotencyStore; stats : Stats; now : Q }.

Definition with_buckets (bs : list (string * TokenBucket)) (w : server) : server :=
  {| buckets := bs; chaos := chaos w; idem := idem w; stats := stats w; now := now w |}.
Definition with_chaos (c : rules) (w : server) : server :=
  {| buckets := buckets w; chaos := c; idem := idem w; stats := stats w; now := now w |}.
Definition with_idem (s : IdempotencyStore) (w : server) : server :=
  {| buckets := buckets w; chaos := chaos w; idem := s; stats := stats w; now := now w |}.
Definition with_stats (s : Stats) (w : server) : server :=
  {| buckets := buckets w; chaos := chaos w; idem := idem w; stats := s; now := now w |}.

Definition create_app (settings : MockSettings) (now : Q) : result server :=
  let* layout := make_bucket (layout_rps settings) (layout_burst settings) now in
  let* vlm := make_bucket (vlm_rps settings) (vlm_burst settings) now in
  inr {| buckets := [(LAYOUT, layout); (VLM, vlm)]; chaos := [];
         idem := new_store (idempotency_ttl_s settings) (idempotency_max_entries settings);
         stats := []; now := now |}.

(** [PredictRequest], the endpoint it was sent to and its key. *)
Record request := {
  endpoint : string; job_id : string; page_index : Z; idem_key : option string }.

(** [if idem_key:] *)
Definition key_of (r : request) : option string :=
  match idem_key r with Some EmptyString => None | k => k end.

Context (repr : Q -> string) (payload : string -> string -> Z -> B) (settings : MockSettings).

(** [latency_ms()] for a draw [u], and [failure_rate]. *)
Definition latency_ms (r : request) (u : Q) : Q :=
  if (endpoint r =? LAYOUT)%string then layout_latency_ms settings
  else (vlm_latency_min_ms settings + (vlm_latency_max_ms settings - vlm_latency_min_ms settings) * u)%Q.
Definition failure_rate (r : request) : Q :=
  if (endpoint r =? LAYOUT)%string then layout_failure_rate settings else vlm_failure_rate settings.

Definition no_bucket : TokenBucket := {| rate := 1; burst := 1; tokens := 0; last_refill := 0 |}.
Definition bucket_of (r : request) (w : server) : TokenBucket := default no_bucket (assoc_get (endpoint r) (buckets w)).

(** The headers of a 429; asking what remains refills the bucket. *)
Definition _rate_limit_headers (wait_s : Q) (r : request) (w : server) : server * list (string * string) :=
  let '(b, whole) := remaining (now w) (bucket_of r w) in
  (with_buckets (assoc_put (endpoint r) b (buckets w)) w,
   [("Retry-After", py_str (Z.max 1 (Qceiling wait_s)));
    ("X-Retry-After-Ms", py_str (int_of_float (wait_s * 1000)));
    ("X-RateLimit-Limit", repr (rate b)); ("X-RateLimit-Burst", py_str (burst b));
    ("X-RateLimit-Remaining", py_str whole)]).

Definition count (f : EndpointStats -> EndpointStats) (r : request) (w : server) : server :=
  with_stats (bump (endpoint r) f (stats w)) w.

(** [_execute] up to its sleep: the failure it raises, or when it wakes. *)
Definition execute_start (u_roll u_latency : Q) (r : request) (w : server) : server * (failure + Q) :=
  let '(rs, rule) := active (now w) (endpoint r) (chaos w) in
  let '(rs, faulted) := match rule with None => (rs, None) | Some _ => roll (now w) u_roll (endpoint r) rs end in
  let w := with_chaos rs w in
  match match faulted with Some f => if 400 <=? status f then Some f else None | None => None end with
  | Some f =>
      let w := count count_rejection r w in
      if status f =? 429 then
        let '(w, headers) := _rate_limit_headers 1 r (count count_limited r w) in (w, inl (HTTP 429 headers))
      else (count count_failure r w, inl (HTTP (status f) []))
  | None =>
      let '(b, wait_s) := acquire 1 (now w) (bucket_of r w) in
      let w := with_buckets (assoc_put (endpoint r) b (buckets w)) w in
      if negb (Qle_bool wait_s 0) then
        let '(w, headers) := _rate_limit_headers wait_s r (count count_limited r w) in (w, inl (HTTP 429 headers))
      else
        let total_ms := (latency_ms r u_latency + match rule with Some f => extra_latency_ms f | None => 0 end)%Q in
        (w, inr (now w + total_ms / 1000)%Q)
  end.

(** [_execute] after its sleep. *)
Definition execute_finish (u : Q) (r : request) (w : server) : server * (failure + B) :=
  if negb (Qle_bool (failure_rate r) u) then (count count_failure r w, inl (HTTP 500 []))
  else (count count_execution r w, inr (payload (endpoint r) (job_id r) (page_index r))).

(** Where a request is: not arrived, asleep in [_execute], waiting for a leader, answered. *)
Inductive phase := Fresh | Sleeping (until : Q) | Waiting (h : nat) | Done (out : failure + B).

(** [_handle] from its start. *)
Definition handle_start (u_roll u_latency : Q) (r : request) (w : server) : server * phase :=
  let w := count count_request r w in
  match key_of r with
  | None =>
      let '(w, x) := execute_start u_roll u_latency r w in
      (w, match x with inl e => Done (inl e) | inr until => Sleeping until end)
  | Some key =>
      let '(s, cached) := get key (now w) (idem w) in
      let w := with_idem s w in
      match cached with
      | Some body => (count count_replay r w, Done (inr body))
      | None =>
          let '(s, (is_leader, h)) := begin key (idem w) in
          let w := with_idem s w in
          if is_leader then
            let '(w, x) := execute_start u_roll u_latency r w in
            match x with
            | inl e => (with_idem (abandon key e (idem w)) w, Done (inl e))
            | inr until => (w, Sleeping until)
            end
          else (count count_replay r w, Waiting h)
      end
  end.

(** [_handle] after the sleep of [_execute]. *)
Definition handle_wake (u : Q) (r : request) (w : server) : server * phase :=
  let '(w, x) := execute_finish u r w in
  match key_of r, x with
  | None, _ => (w, Done x)
  | Some key, inl e => (with_idem (abandon key e (idem w)) w, Done (inl e))
  | Some key, inr body =>
      let '(s, _) := record_execution key (idem w) in
      (with_idem (finish key body (put key body (now w) s)) w, Done (inr body))
  end.

(** A cancelled leader releases its followers. *)
Definition handle_cancel (r : request) (p : phase) (w : server) : server * phase :=
  match p, key_of r with
  | Sleeping _, Some key => (with_idem (abandon key Cancelled (idem w)) w, Done (inl Cancelled))
  | _, _ => (w, Done (inl Cancelled))
  end.

(** The admin calls that change the rules, or only look at them, answer with a snapshot;
    [call_counts] asks every bucket what remains. *)
Definition admin_chaos (f : rules -> rules) (w : server) : server := with_chaos (snapshot (now w) (f (chaos w))).1 w.
Definition set_chaos (e : string) (st : Z) (ra se ex : Q) (w : server) : server :=
  admin_chaos (set_rule e st ra se ex (now w)) w.
Definition clear_chaos (e : option string) : server -> server := admin_chaos (clear_rules e).
Definition get_chaos : server -> server := admin_chaos id.
Definition call_counts (w : server) : server := with_buckets (prod_map id (λ b, (remaining (now w) b).1) <$> buckets w) w.
Definition admin_reset (w : server) : server :=
  with_chaos (clear_rules None (chaos w)) (with_idem (reset (idem w)) (with_stats [] w)).
Definition pass (dt : Q) (w : server) : server :=
  {| buckets := buckets w; chaos := chaos w; idem := idem w; stats := stats w; now := now w + dt |}.

(** *** Runs *)

Record config := { world : server; reqs : list (request * phase) }.

Inductive action :=
| Send (r : request)
| Arrive (i : nat) (u_roll u_latency : Q)
| Wake (i : nat) (u : Q)
| Resume (i : nat)
| Cancel (i : nat)
| Tick (dt : Q)
| SetChaos (endpoint : string) (status : Z) (ratio seconds extra_latency_ms : Q)
| ClearChaos (endpoint : option string)
| GetChaos
| CallCounts
| Reset.

Definition advance (i : nat) (r : request) (c : config) (wp : server * phase) : config :=
  {| world := wp.1; reqs := <[i := (r, wp.2)]> (reqs c) |}.

Definition on_world (f : server -> server) (c : config) : config := {| world := f (world c); reqs := reqs c |}.

(** One event, when it can happen. *)
Definition do_event (a : action) (c : config) : option config :=
  match a with
  | Send r => Some {| world := world c; reqs := reqs c ++ [(r, Fresh)] |}
  | Arrive i u_roll u_latency =>
      match reqs c !! i with
      | Some (r, Fresh) => Some (advance i r c (handle_start u_roll u_latency r (world c)))
      | _ => None
      end
  | Wake i u =>
      match reqs c !! i with
      | Some (r, Sleeping until) =>
          if Qle_bool until (now (world c)) then Some (advance i r c (handle_wake u r (world c))) else None
      | _ => None
      end
  | Resume i =>
      match reqs c !! i with
      | Some (r, Waiting h) =>
          match join h (idem (world c)) with Some out => Some (advance i r c (world c, Done out)) | None => None end
      | _ => None
      end
  | Cancel i =>
      match reqs c !! i with
      | Some (r, (Sleeping _ | Waiting _) as p) => Some (advance i r c (handle_cancel r p (world c)))
      | _ => None
      end
  | Tick dt =>
      if Qle_bool 0 dt then Some (on_world (pass dt) c) else None
  | SetChaos e st ra se ex => Some (on_world (set_chaos e st ra se ex) c)
  | ClearChaos e => Some (on_world (clear_chaos e) c)
  | GetChaos => Some (on_world get_chaos c)
  | CallCounts => Some (on_world call_counts c)
  | Reset => Some (on_world admin_reset c)
  end.

Fixpoint run_events (es : list action) (c : config) : option config :=
  match es with
  | [] => Some c
  | a :: es' => match do_event a c with Some c => run_events es' c | None => None end
  end.
End server.

(** ** The bucket *)

Record bucket_ok (b : TokenBucket) : Prop := {
  bo_rate : (0 < rate b)%Q;
  bo_burst : (0 < burst b);
  bo_tokens : (0 <= tokens b <= inject_Z (burst b))%Q }.

Lemma make_bucket_ok rate burst now b : make_bucket rate burst now = inr b -> bucket_ok b.
Proof.
  unfold make_bucket. destruct (Qle_bool rate 0) eqn:Er; [done|]. destruct (burst <=? 0) eqn:Eb; [done|]. intros [= <-].
  bool_prop. apply Qle_bool_false in Er. split; cbn; [done|lia|]. split; [|lra].
  change 0%Q with (inject_Z 0). rewrite <- Zle_Qle. lia.
Qed.

Lemma refill_spec now b : bucket_ok b ->
  let b' := _refill now b in
  bucket_ok b' /\ rate b' = rate b /\ burst b' = burst b /\ (last_refill b' == Qmax_py (last_refill b) now)%Q /\
  (tokens b' == Qmin_py (inject_Z (burst b)) (tokens b + Qmax_py 0 (now - last_refill b) * rate b))%Q.
Proof.
  intros [Hr Hb Ht]. unfold _refill, Qmax_py, Qmin_py.
  destruct (Qle_bool (now - last_refill b) 0) eqn:E; cbn [negb].
  - apply Qle_bool_iff in E. split_and!; [by split|done|done| |].
    + assert (Qle_bool now (last_refill b) = true) as -> by (apply Qle_bool_iff; lra). lra.
    + destruct (Qle_bool (inject_Z (burst b)) _) eqn:E2; [apply Qle_bool_iff in E2|apply Qle_bool_false in E2]; nra.
  - apply Qle_bool_false in E. cbn [with_tokens tokens last_refill rate burst].
    assert (Qle_bool now (last_refill b) = false) as -> by (apply Qle_bool_false; lra).
    assert (0 <= (now - last_refill b) * rate b)%Q as Hp by (apply Qmult_le_0_compat; lra).
    split_and!; [|done|done|lra|lra]. split; cbn; [done|done|].
    destruct (Qle_bool (inject_Z (burst b)) _) eqn:E2; [apply Qle_bool_iff in E2|apply Qle_bool_false in E2]; lra.
Qed.

Lemma acquire_spec cost now b : bucket_ok b -> (0 <= cost)%Q ->
  let '(b', wait) := acquire cost now b in
  bucket_ok b' /\ rate b' = rate b /\ burst b' = burst b /\ last_refill b' = last_refill (_refill now b) /\
  ((wait == 0)%Q /\ (cost <= tokens (_refill now b))%Q /\ (tokens b' == tokens (_refill now b) - cost)%Q \/
   (0 < wait)%Q /\ (tokens b' < cost)%Q /\ tokens b' = tokens (_refill now b) /\ (wait * rate b == cost - tokens b')%Q).
Proof.
  intros Hok Hc. destruct (refill_spec now b Hok) as ([Hr Hb Ht] & Er & Eb & _). unfold acquire.
  destruct (Qle_bool cost (tokens (_refill now b))) eqn:E; [apply Qle_bool_iff in E|apply Qle_bool_false in E].
  - split_and!; [split; cbn; [done|done|lra]|done|done|done|]. left. split_and!; [done|done|cbn; lra].
  - split_and!; [done|done|done|done|]. right. rewrite Er in *.
    assert (0 < (cost - tokens (_refill now b)) / rate b)%Q as Hw by (apply Qlt_shift_div_l; lra).
    split_and!; [done|done|done|]. field. lra.
Qed.

(** Two refills are one. *)
Lemma refill_later now dt b : bucket_ok b -> (last_refill b <= now)%Q -> (0 <= dt)%Q ->
  (tokens (_refill (now + dt) (_refill now b)) ==
   Qmin_py (inject_Z (burst b)) (tokens (_refill now b) + dt * rate b))%Q.
Proof.
  intros Hok Hl Hdt. destruct (refill_spec now b Hok) as (Hok' & Er & Eb & El & _).
  destruct (refill_spec (now + dt) _ Hok') as (_ & _ & _ & _ & ->). rewrite Eb, Er.
  assert (last_refill (_refill now b) == now)%Q as El'.
  { rewrite El. unfold Qmax_py. destruct (Qle_bool now (last_refill b)) eqn:E; [|done]. apply Qle_bool_iff in E. lra. }
  assert (Qmax_py 0 (now + dt - last_refill (_refill now b)) == dt)%Q as Hm.
  { unfold Qmax_py. destruct (Qle_bool (now + dt - last_refill (_refill now b)) 0) eqn:E; [apply Qle_bool_iff in E|]; lra. }
  unfold Qmin_py.
  destruct (Qle_bool (inject_Z (burst b)) (tokens (_refill now b) + dt * rate b)) eqn:E2;
    [apply Qle_bool_iff in E2|apply Qle_bool_false in E2];
    destruct (Qle_bool (inject_Z (burst b)) (tokens (_refill now b) + _ * rate b)) eqn:E1;
    [apply Qle_bool_iff in E1|apply Qle_bool_false in E1|apply Qle_bool_iff in E1|apply Qle_bool_false in E1];
    rewrite ?Hm in *; lra.
Qed.

(** the wait the mock's bucket quotes is exact.  A refused request that would fit the
    bucket is granted after the quoted wait and at no earlier moment, if nobody else
    takes tokens in between. *)
Theorem mock_wait_exact cost now b dt : bucket_ok b -> (last_refill b <= now)%Q ->
  (0 < cost <= inject_Z (burst b))%Q -> (0 <= dt)%Q -> (0 < (acquire cost now b).2)%Q ->
  ((acquire cost (now + dt) (acquire cost now b).1).2 == 0)%Q <-> ((acquire cost now b).2 <= dt)%Q.
Proof.
  intros Hok Hl [Hc Hcb] Hdt. pose proof (acquire_spec cost now b Hok ltac:(lra)) as Hs.
  assert (Hne : forall x, (0 < (cost - x) / rate b)%Q <-> (x < cost)%Q).
  { intros x. pose proof (bo_rate b Hok). split; [intros H2|intros H2; apply Qlt_shift_div_l; lra].
    assert (0 < (cost - x) / rate b * rate b)%Q as H3 by (by apply Qmult_lt_0_compat).
    assert ((cost - x) / rate b * rate b == cost - x)%Q as H4 by (field; lra). lra. }
  destruct (acquire cost now b) as [b1 w] eqn:E1. cbn [fst snd]. intros Hw. destruct Hs as (Hok1 & Er & Eb & El & [(H0 & _)|(_ & Ht & Etk & Hwr)]); [lra|].
  assert (b1 = _refill now b) as Eb1.
  { unfold acquire in E1. destruct (Qle_bool cost _); injection E1 as <- <-; [lra|done]. }
  pose proof (acquire_spec cost (now + dt) b1 Hok1 ltac:(lra)) as Hs2.
  destruct (acquire cost (now + dt) b1) as [b2 w2]. cbn [snd]. destruct Hs2 as (_ & _ & _ & _ & Hs2).
  pose proof (refill_later now dt b Hok Hl Hdt) as Hlater. rewrite <- Eb1 in Hlater. unfold Qmin_py in Hlater.
  pose proof (bo_rate b Hok) as Hr.
  assert (w <= dt <-> cost - tokens b1 <= dt * rate b)%Q as Hiff.
  { rewrite <- Hwr. rewrite Qmult_le_r by done. done. }
  rewrite Hiff. destruct (Qle_bool (inject_Z (burst b)) (tokens b1 + dt * rate b)) eqn:E2;
    [apply Qle_bool_iff in E2|apply Qle_bool_false in E2];
    destruct Hs2 as [(Hz & Hle & _)|(Hpos & Hlt & Etk2 & _)]; rewrite ?Etk2 in *; split; intros; lra.
Qed.

(** What a sequence of requests is granted. *)
Fixpoint granted (rs : list (Q * Q)) (b : TokenBucket) : TokenBucket * Q :=
  match rs with
  | [] => (b, 0%Q)
  | (cost, now) :: rs' =>
      let '(b1, wait) := acquire cost now b in
      let '(b2, g) := granted rs' b1 in
      (b2, if Qle_bool wait 0 then (cost + g)%Q else g)
  end.

(** the mock grants no more than it publishes: over any sequence of requests, in any
    order of times, the burst and what was refilled since the first moment. *)
Theorem mock_rate_enforced rs b now : bucket_ok b -> (last_refill b <= now)%Q ->
  Forall (λ r, 0 <= r.1 /\ r.2 <= now)%Q rs ->
  ((granted rs b).2 <= tokens b + (now - last_refill b) * rate b)%Q.
Proof.
  intros Hok Hl Hrs. revert b Hok Hl. induction Hrs as [|[cost t] rs [Hc Ht] _ IH]; intros b Hok Hl; cbn [granted fst snd] in *.
  - destruct Hok as [Hr _ Htk]. cbn [snd]. assert (0 <= (now - last_refill b) * rate b)%Q by (apply Qmult_le_0_compat; lra). lra.
  - pose proof (acquire_spec cost t b Hok Hc) as Hs. destruct (acquire cost t b) as [b1 w].
    destruct Hs as (Hok1 & Er & Eb & El & Hs). destruct (refill_spec t b Hok) as (_ & _ & _ & Elr & Htk).
    assert (last_refill b <= last_refill b1 <= now)%Q as [Hl1 Hl2].
    { rewrite El, Elr. unfold Qmax_py. destruct (Qle_bool t (last_refill b)) eqn:E; [apply Qle_bool_iff in E|apply Qle_bool_false in E]; lra. }
    specialize (IH b1 Hok1 Hl2). destruct (granted rs b1) as [b2 g]. cbn [snd] in *.
    assert (tokens (_refill t b) <= tokens b + (last_refill b1 - last_refill b) * rate b)%Q as Hrefill.
    { rewrite Htk, El, Elr. pose proof (bo_rate b Hok). unfold Qmin_py, Qmax_py.
      destruct (Qle_bool (inject_Z (burst b)) _) eqn:E1; [apply Qle_bool_iff in E1|];
      destruct (Qle_bool (t - last_refill b) 0) eqn:E2; [apply Qle_bool_iff in E2|apply Qle_bool_false in E2|apply Qle_bool_iff in E2|apply Qle_bool_false in E2];
      destruct (Qle_bool t (last_refill b)) eqn:E3; [apply Qle_bool_iff in E3|apply Qle_bool_false in E3|apply Qle_bool_iff in E3|apply Qle_bool_false in E3|apply Qle_bool_iff in E3|apply Qle_bool_false in E3|apply Qle_bool_iff in E3|apply Qle_bool_false in E3]; lra || nra. }
    rewrite Er in IH. assert ((now - last_refill b) * rate b == (now - last_refill b1) * rate b + (last_refill b1 - last_refill b) * rate b)%Q as Hsplit by ring.
    destruct Hs as [(Hw & _ & Htok)|(Hw & _ & Htok & _)].
    + assert (Qle_bool w 0 = true) as -> by (apply Qle_bool_iff; lra). lra.
    + assert (Qle_bool w 0 = false) as -> by (apply Qle_bool_false; lra). rewrite Htok in *. lra.
Qed.

Definition slow_bucket : TokenBucket := {| rate := 3; burst := 3; tokens := 0; last_refill := 0 |}.

Lemma slow_bucket_ok : bucket_ok slow_bucket.
Proof. split; [vm_compute; reflexivity|vm_compute; reflexivity|split; vm_compute; congruence]. Qed.

Lemma mock_wait_exact_witness : ((acquire 1 (0 + (1 # 3)) (acquire 1 0 slow_bucket).1).2 == 0)%Q.
Proof.
  apply (mock_wait_exact 1 0 slow_bucket (1 # 3) slow_bucket_ok); repeat split; vm_compute; congruence.
Defined.

(** The milliseconds of [X-Retry-After-Ms] are the wait rounded down: a client that waits
    exactly that long is refused again. *)
Lemma header_wait_short :
  let wait := (acquire 1 0 slow_bucket).2 in let ms := int_of_float (wait * 1000) in
  ms = 333 /\ (0 < (acquire 1 (inject_Z ms / 1000) (acquire 1 0 slow_bucket).1).2)%Q.
Proof. vm_compute. by split. Qed.
