(* ===== verification/MockRuns.v ===== *)
(** * Runs of the mock model server

    What holds of [Mock.v] over any sequence of events: the single-flight protocol of
    the idempotency store as an invariant on the cells, the keys in flight and the
    requests that lead or wait; and that a waiting request is always released. *)

From Stdlib Require Import QArith Qround Lqa.
From S2P Require Import Prelude Py Mock.
#[local] Open Scope Z_scope.

Section runs.
Context {B : Type} (repr : Q -> string) (payload : string -> string -> Z -> B) (settings : MockSettings).
#[local] Abbreviation config := (@config B).
#[local] Abbreviation cell := (@_InFlight B).
Implicit Types (fl : list (string * nat)) (hs : list (@_InFlight B)) (rs : list (request * @phase B)).
#[local] Abbreviation do_event := (do_event repr payload settings).
#[local] Abbreviation run_events := (run_events repr payload settings).

(** A server that has answered nothing yet. *)
Definition quiet (w : @server B) : Prop :=
  _inflight (idem w) = [] /\ handles (idem w) = [] /\ _cache (idem w) = [] /\ _executions (idem w) = [] /\
  _duplicates (idem w) = [] /\ stats w = [].

Definition start (w : @server B) : config := {| world := w; reqs := [] |}.

(** ** Single flight *)

Definition leads (rs : list (request * @phase B)) (k : string) (i : nat) : Prop :=
  exists r u, rs !! i = Some (r, Sleeping u) /\ key_of r = Some k.

Record flight_ok (fl : list (string * nat)) (hs : list cell) (rs : list (request * @phase B)) : Prop := {
  fo_keys : NoDup fl.*1;
  fo_ids : NoDup fl.*2;
  fo_open : forall k h, (k, h) ∈ fl -> exists c, hs !! h = Some c /\ event c = false /\ error c = None /\ res c = None;
  fo_leader : forall k, k ∈ fl.*1 <-> exists i, leads rs k i;
  fo_unique : forall k i j, leads rs k i -> leads rs k j -> i = j;
  fo_waits : forall i r h, rs !! i = Some (r, Waiting h) ->
    exists k c, key_of r = Some k /\ hs !! h = Some c /\ (event c = false -> (k, h) ∈ fl);
  fo_set : forall h c, hs !! h = Some c -> event c = true -> error c <> None \/ res c <> None }.

(** A phase in which a request holds no flight. *)
Definition idle (r : request) (p : @phase B) : Prop :=
  match p with Fresh | Done _ => True | Sleeping _ => key_of r = None | Waiting _ => False end.

Lemma leads_insert rs i r (p : @phase B) k j : (i < length rs)%nat -> leads (<[i := (r, p)]> rs) k j <->
  (j = i /\ (exists u, p = Sleeping u) /\ key_of r = Some k) \/ (j <> i /\ leads rs k j).
Proof using Type.
  intros Hi. unfold leads. destruct (decide (j = i)) as [->|Hne].
  - rewrite list_lookup_insert_eq by lia. split.
    + intros (r' & u & [= -> ->] & Hk). left. split_and!; [done|by exists u|done].
    + intros [(_ & [u ->] & Hk)|[? _]]; [|done]. by exists r, u.
  - rewrite list_lookup_insert_ne by congruence. split; [intros H; by right|]. by intros [(? & _)|[_ ?]].
Qed.

Definition leadless (r : request) (p : @phase B) : Prop := match p with Sleeping _ => key_of r = None | _ => True end.

Lemma leads_kept rs i r p p' : rs !! i = Some (r, p) -> leadless r p -> leadless r p' ->
  forall k j, leads (<[i := (r, p')]> rs) k j <-> leads rs k j.
Proof using Type.
  intros Hi Hp Hp' k j. rewrite leads_insert by (by eapply lookup_lt_Some). split.
  - intros [(-> & [u ->] & Hk)|[_ H]]; [|done]. cbn in Hp'. congruence.
  - intros H. right. split; [|done]. intros ->. destruct H as (r' & u & E & Hk). rewrite Hi in E. injection E as <- ->.
    cbn in Hp. congruence.
Qed.

Lemma waits_insert rs i r (p : @phase B) fl hs hs' : (forall h, p <> Waiting h) ->
  (forall h c, hs !! h = Some c -> exists c', hs' !! h = Some c' /\ (event c' = false -> event c = false)) ->
  (forall j r h, rs !! j = Some (r, Waiting h) -> exists k c, key_of r = Some k /\ hs !! h = Some c /\ (event c = false -> (k, h) ∈ fl)) ->
  forall j r' h, <[i := (r, p)]> rs !! j = Some (r', Waiting h) ->
  exists k c, key_of r' = Some k /\ hs' !! h = Some c /\ (event c = false -> (k, h) ∈ fl).
Proof using Type.
  intros Hp Hhs Hw j r' h Hj. destruct (decide (j = i)) as [->|Hne].
  - destruct (decide (i < length rs)%nat) as [Hlt|Hge].
    + rewrite list_lookup_insert_eq in Hj by done. injection Hj as <- ->. by destruct (Hp h).
    + rewrite list_insert_ge in Hj by lia. apply lookup_lt_Some in Hj. lia.
  - rewrite list_lookup_insert_ne in Hj by congruence. destruct (Hw j r' h Hj) as (k & c & Hk & Hc & Hin).
    destruct (Hhs h c Hc) as (c' & Hc' & He). exists k, c'. split_and!; [done|done|]. intros H. by apply Hin, He.
Qed.

Lemma flight_idle fl hs rs i r p p' : flight_ok fl hs rs -> rs !! i = Some (r, p) -> leadless r p -> idle r p' ->
  flight_ok fl hs (<[i := (r, p')]> rs).
Proof using Type.
  intros [Hk Hid Ho Hl Hu Hw Hs] Hi Hp Hp'. assert (leadless r p') as Hp'' by by destruct p'.
  pose proof (leads_kept rs i r p p' Hi Hp Hp'') as Hlead. split; [done|done|done| | | |done].
  - intros k. rewrite Hl. split; intros [j H]; exists j; by apply Hlead.
  - intros k j j' H1%Hlead H2%Hlead. by apply (Hu k).
  - apply (waits_insert rs i r p' fl hs); [by destruct p'| |done]. intros h c Hc. by exists c.
Qed.

Lemma flight_send fl hs rs r : flight_ok fl hs rs -> flight_ok fl hs (rs ++ [(r, Fresh)]).
Proof using Type.
  intros [Hk Hid Ho Hl Hu Hw Hs]. assert (forall j r' (p : @phase B), p <> Fresh -> (rs ++ [(r, Fresh)]) !! j = Some (r', p) -> rs !! j = Some (r', p)) as Hold.
  { intros j r' p Hp [H|[_ H]]%lookup_app_Some; [done|]. apply list_lookup_singleton_Some in H as [_ H]. congruence. }
  assert (forall k j, leads (rs ++ [(r, Fresh)]) k j <-> leads rs k j) as Hlead.
  { intros k j. split; intros (r' & u & E & Ek); exists r', u; (split; [|done]); [by apply Hold in E|].
    by apply lookup_app_l_Some. }
  split; [done|done|done| | | |done].
  - intros k. rewrite Hl. split; intros [j H]; exists j; by apply Hlead.
  - intros k j j' H1%Hlead H2%Hlead. by apply (Hu k).
  - intros j r' h E. apply (Hw j). by apply Hold in E.
Qed.

Lemma flight_follow fl hs rs i r k h : flight_ok fl hs rs -> rs !! i = Some (r, Fresh) -> key_of r = Some k ->
  (k, h) ∈ fl -> flight_ok fl (alter add_follower h hs) (<[i := (r, Waiting h)]> rs).
Proof using Type.
  intros [Hk Hid Ho Hl Hu Hw Hs] Hi Hkey Hin.
  assert (forall h' c, hs !! h' = Some c -> exists c', alter add_follower h hs !! h' = Some c' /\ event c' = event c /\
    error c' = error c /\ res c' = res c) as Hcell.
  { intros h' c Hc. destruct (decide (h' = h)) as [->|Hne].
    - rewrite list_lookup_alter_eq, Hc. by eexists.
    - rewrite list_lookup_alter_ne by done. by exists c. }
  pose proof (leads_kept rs i r Fresh (Waiting h) Hi I I) as Hlead. split; [done|done| | | | |].
  - intros k' h' H. destruct (Ho k' h' H) as (c & Hc & He). destruct (Hcell h' c Hc) as (c' & Hc' & E1 & E2 & E3). exists c'. by rewrite E1, E2, E3.
  - intros k'. rewrite Hl. split; intros [j H]; exists j; by apply Hlead.
  - intros k' j j' H1%Hlead H2%Hlead. by apply (Hu k').
  - intros j r' h' Hj. destruct (decide (j = i)) as [->|Hne].
    + rewrite list_lookup_insert_eq in Hj by (by eapply lookup_lt_Some). injection Hj as <- <-.
      destruct (Ho k h Hin) as (c & Hc & He). destruct (Hcell h c Hc) as (c' & Hc' & _). exists k, c'. by split_and!.
    + rewrite list_lookup_insert_ne in Hj by congruence. destruct (Hw j r' h' Hj) as (k' & c & Hk' & Hc & Hin').
      destruct (Hcell h' c Hc) as (c' & Hc' & E & _). exists k', c'. rewrite E. by split_and!.
  - intros h' c' Hc' He. assert (exists c, hs !! h' = Some c) as [c Hc].
    { apply lookup_lt_is_Some_2. apply lookup_lt_Some in Hc'. by rewrite length_alter in Hc'. }
    destruct (Hcell h' c Hc) as (c2 & Hc2 & E1 & E2 & E3). assert (c2 = c') as -> by congruence. rewrite E2, E3.
    apply (Hs h' c Hc). congruence.
Qed.

Lemma flight_lead fl hs rs i r k u : flight_ok fl hs rs -> rs !! i = Some (r, Fresh) -> key_of r = Some k ->
  k ∉ fl.*1 -> flight_ok (fl ++ [(k, length hs)]) (hs ++ [new_handle]) (<[i := (r, Sleeping u)]> rs).
Proof using Type.
  intros [Hk Hid Ho Hl Hu Hw Hs] Hi Hkey Hno. pose proof (lookup_lt_Some _ _ _ Hi) as Hlt.
  assert (forall h c, hs !! h = Some c -> (hs ++ [new_handle]) !! h = Some c) as Hold by (intros; by apply lookup_app_l_Some).
  assert (~ exists j, leads rs k j) as Hfree by by rewrite <- Hl.
  assert (forall k' j, leads (<[i := (r, Sleeping u)]> rs) k' j <-> (j = i /\ k' = k) \/ leads rs k' j) as Hlead.
  { intros k' j. rewrite leads_insert by done. split.
    - intros [(-> & _ & E)|[_ H]]; [left; split; congruence|by right].
    - intros [[-> ->]|H]; [left; split_and!; [done|by exists u|done]|right; split; [|done]].
      intros ->. destruct H as (r' & u' & E & _). congruence. }
  split.
  - rewrite fmap_app. apply NoDup_app. split_and!; [done| |apply NoDup_singleton]. intros x Hx ->%list_elem_of_singleton. done.
  - rewrite fmap_app. apply NoDup_app. split_and!; [done| |apply NoDup_singleton].
    intros x ([k' h] & -> & Hin)%list_elem_of_fmap E%list_elem_of_singleton. cbn in E. subst h.
    destruct (Ho _ _ Hin) as (c & Hc & _). apply lookup_lt_Some in Hc. lia.
  - intros k' h [Hin|Hin]%elem_of_app.
    + destruct (Ho k' h Hin) as (c & Hc & He). exists c. split; [by apply Hold|exact He].
    + apply list_elem_of_singleton in Hin. injection Hin as -> ->. exists new_handle. by rewrite list_lookup_middle.
  - intros k'. rewrite fmap_app, elem_of_app, Hl. cbn [fmap list_fmap fst]. rewrite list_elem_of_singleton. split.
    + intros [[j H]| ->]; [exists j|exists i]; apply Hlead; [by right|by left].
    + intros [j [[_ ->]|H]%Hlead]; [by right|left; by exists j].
  - intros k' j j' [[-> ->]|H1]%Hlead [[-> E]|H2]%Hlead; [done|by destruct Hfree; exists j'| |by apply (Hu k')].
    subst k'. by destruct Hfree; exists j.
  - intros j r' h Hj. destruct (decide (j = i)) as [->|Hne]; [by rewrite list_lookup_insert_eq in Hj|].
    rewrite list_lookup_insert_ne in Hj by congruence. destruct (Hw j r' h Hj) as (k' & c & Hk' & Hc & Hin).
    exists k', c. split_and!; [done|by apply Hold|]. intros He. apply elem_of_app. left. by apply Hin.
  - intros h c [Hc|[_ Hc]]%lookup_app_Some He; [by apply (Hs h c)|]. apply list_lookup_singleton_Some in Hc as [_ <-]. done.
Qed.

Lemma flight_fail fl hs rs i r c o : flight_ok fl hs rs -> rs !! i = Some (r, Fresh) ->
  event c = true -> error c <> None -> flight_ok fl (hs ++ [c]) (<[i := (r, Done o)]> rs).
Proof using Type.
  intros Hf Hi He Herr. assert (flight_ok fl hs (<[i := (r, Done o)]> rs)) as [Hk Hid Ho Hl Hu Hw Hs] by by apply (flight_idle fl hs rs i r Fresh).
  split; [done|done| |done|done| |].
  - intros k h Hin. destruct (Ho k h Hin) as (c' & Hc & E). exists c'. split; [by apply lookup_app_l_Some|done].
  - intros j r' h Hj. destruct (Hw j r' h Hj) as (k & c' & Hkey & Hc & Hin). exists k, c'. split_and!; [done|by apply lookup_app_l_Some|done].
  - intros h c' [Hc|[_ Hc]]%lookup_app_Some E; [by apply (Hs h c')|]. apply list_lookup_singleton_Some in Hc as [_ <-]. by left.
Qed.

Lemma del_keys {V} (k : string) (m : list (string * V)) k' : k' ∈ (assoc_del k m).*1 <-> k' <> k /\ k' ∈ m.*1.
Proof using Type.
  unfold assoc_del. rewrite !list_elem_of_fmap. split.
  - intros ([k1 v] & -> & [Hne Hin]%list_elem_of_filter). split; [done|]. by exists (k1, v).
  - intros (Hne & [k1 v] & -> & Hin). exists (k1, v). split; [done|]. by apply list_elem_of_filter.
Qed.

Lemma flight_settle fl hs rs i r k h u o f : flight_ok fl hs rs -> rs !! i = Some (r, Sleeping u) -> key_of r = Some k ->
  assoc_get k fl = Some h -> (forall c, event (f c) = true /\ (error (f c) <> None \/ res (f c) <> None)) ->
  flight_ok (assoc_del k fl) (alter f h hs) (<[i := (r, Done o)]> rs).
Proof using Type.
  intros [Hk Hid Ho Hl Hu Hw Hs] Hi Hkey Hh Hf. pose proof (lookup_lt_Some _ _ _ Hi) as Hlt. apply assoc_get_in in Hh.
  assert (leads rs k i) as Hlk by by exists r, u.
  assert (forall k' j, leads (<[i := (r, Done o)]> rs) k' j <-> k' <> k /\ leads rs k' j) as Hlead.
  { intros k' j. rewrite leads_insert by done. split.
    - intros [(_ & [u' E] & _)|[Hne H]]; [done|]. split; [|done]. intros ->. apply Hne. by apply (Hu k).
    - intros [Hne H]. right. split; [|done]. intros ->. destruct H as (r' & u' & E & Hk'). congruence. }
  assert (forall k' h', (k', h') ∈ assoc_del k fl -> (k', h') ∈ fl /\ h' <> h) as Hdel.
  { intros k' h' [Hne Hin]%list_elem_of_filter. split; [done|]. intros ->. apply Hne. cbn.
    apply list_elem_of_lookup in Hh as [a Ha]. apply list_elem_of_lookup in Hin as [b Hb].
    assert (a = b) as <- by (apply (NoDup_lookup fl.*2 a b h Hid); rewrite list_lookup_fmap, ?Ha, ?Hb; done). congruence. }
  split.
  - eapply sublist_NoDup; [exact Hk|]. apply fmap_sublist, sublist_filter.
  - eapply sublist_NoDup; [exact Hid|]. apply fmap_sublist, sublist_filter.
  - intros k' h' Hin. destruct (Hdel _ _ Hin) as [Hin' Hne]. destruct (Ho k' h' Hin') as (c & Hc & He). exists c.
    by rewrite list_lookup_alter_ne.
  - intros k'. rewrite del_keys, Hl. split; [intros [Hne [j H]]; exists j; by apply Hlead|].
    intros [j [Hne H]%Hlead]. split; [done|by exists j].
  - intros k' j j' [_ H1]%Hlead [_ H2]%Hlead. by apply (Hu k').
  - intros j r' h' Hj. destruct (decide (j = i)) as [->|Hne]; [by rewrite list_lookup_insert_eq in Hj|].
    rewrite list_lookup_insert_ne in Hj by congruence. destruct (Hw j r' h' Hj) as (k' & c & Hk' & Hc & Hin).
    destruct (decide (h' = h)) as [->|Hneh].
    + exists k', (f c). rewrite list_lookup_alter_eq, Hc. split_and!; [done|done|]. intros He. destruct (Hf c) as [E _]. congruence.
    + exists k', c. rewrite list_lookup_alter_ne by done. split_and!; [done|done|]. intros He. apply list_elem_of_filter.
      split; [|by apply Hin]. cbn. intros ->. apply Hneh. specialize (Hin He).
      apply (assoc_get_NoDup _ _ _ Hk) in Hin. apply (assoc_get_NoDup _ _ _ Hk) in Hh. congruence.
  - intros h' c' Hc' He. destruct (decide (h' = h)) as [->|Hneh].
    + rewrite list_lookup_alter_eq in Hc'. destruct (hs !! h) as [c|]; [|done]. injection Hc' as <-. by apply Hf.
    + rewrite list_lookup_alter_ne in Hc' by done. by apply (Hs h').
Qed.

(** What the parts of a request do to the store. *)
Lemma headers_idem wait_s r (w : @server B) : idem (_rate_limit_headers repr wait_s r w).1 = idem w /\
  stats (_rate_limit_headers repr wait_s r w).1 = stats w /\ now (_rate_limit_headers repr wait_s r w).1 = now w.
Proof using Type. unfold _rate_limit_headers. by destruct (remaining _ _). Qed.

Lemma execute_start_idem ur ul r (w : @server B) :
  idem (execute_start repr settings ur ul r w).1 = idem w /\ now (execute_start repr settings ur ul r w).1 = now w.
Proof using Type.
  unfold execute_start. destruct (active _ _ _) as [rs rule].
  destruct (match rule with None => (rs, None) | Some _ => roll (now w) ur (endpoint r) rs end) as [rs' faulted].
  destruct (match faulted with Some f => _ | None => None end) as [f|].
  - destruct (status f =? 429); [|done]. pose proof (headers_idem 1 r (count count_limited r (count count_rejection r (with_chaos rs' w)))) as (E1 & _ & E2).
    destruct (_rate_limit_headers _ _ _ _). cbn [fst] in *. by rewrite E1, E2.
  - destruct (acquire _ _ _) as [b wait]. destruct (negb _); [|done].
    match goal with |- context [_rate_limit_headers repr wait r ?w1] => pose proof (headers_idem wait r w1) as (E1 & _ & E2) end.
    destruct (_rate_limit_headers _ _ _ _). cbn [fst] in *. by rewrite E1, E2.
Qed.

Lemma execute_finish_idem u r (w : @server B) :
  idem (execute_finish payload settings u r w).1 = idem w /\ now (execute_finish payload settings u r w).1 = now w.
Proof using Type. unfold execute_finish. by destruct (negb _). Qed.

Lemma get_flights k t (s : @IdempotencyStore B) : _inflight (get k t s).1 = _inflight s /\ handles (get k t s).1 = handles s.
Proof using Type. unfold get. destruct (assoc_get _ _) as [[? ?]|]; [|done]. by destruct (negb _). Qed.

Lemma settle_flights f k (s : @IdempotencyStore B) h : assoc_get k (_inflight s) = Some h ->
  _inflight (settle f k s) = assoc_del k (_inflight s) /\ handles (settle f k s) = alter f h (handles s).
Proof using Type. unfold settle. by intros ->. Qed.

Lemma settle_cache f k (s : @IdempotencyStore B) : _cache (settle f k s) = _cache s /\
  _executions (settle f k s) = _executions s /\ _duplicates (settle f k s) = _duplicates s.
Proof using Type. unfold settle. by destruct (assoc_get _ _). Qed.

Lemma begin_flights k (s : @IdempotencyStore B) :
  _cache (begin k s).1 = _cache s /\
  match assoc_get k (_inflight s) with
  | Some h => begin k s = (with_inflight (_inflight s) (alter add_follower h (handles s)) s, (false, h))
  | None => begin k s = (with_inflight (_inflight s ++ [(k, length (handles s))]) (handles s ++ [new_handle]) s, (true, length (handles s)))
  end.
Proof using Type.
  unfold begin. destruct (assoc_get k (_inflight s)) as [h|] eqn:E; [done|]. split; [done|]. do 2 f_equal.
  apply assoc_get_None in E. clear -E. induction (_inflight s) as [|[k1 h1] m IH]; [done|].
  rewrite fmap_cons, not_elem_of_cons in E. destruct E as [Hne E]. cbn [assoc_put fst] in *. rewrite decide_False by done. by rewrite IH.
Qed.

Lemma del_last {V} (k : string) (v : V) (m : list (string * V)) : k ∉ m.*1 -> assoc_del k (m ++ [(k, v)]) = m.
Proof using Type.
  intros Hk. unfold assoc_del. rewrite filter_app. rewrite (filter_cons_False _ (k, v)) by (intros H; by apply H). rewrite filter_nil, app_nil_r.
  induction m as [|[k1 v1] m IH]; [done|]. rewrite fmap_cons, not_elem_of_cons in Hk. destruct Hk as [Hne Hk].
  rewrite filter_cons_True by (by apply not_eq_sym). by rewrite IH.
Qed.

Lemma alter_snoc {A} (f : A -> A) (l : list A) x : alter f (length l) (l ++ [x]) = l ++ [f x].
Proof using Type. induction l as [|y l IH]; [done|]. cbn. f_equal. exact IH. Qed.

Definition flight (c : config) : Prop := flight_ok (_inflight (idem (world c))) (handles (idem (world c))) (reqs c).

Lemma arrive_flight i ur ul r c : flight c -> reqs c !! i = Some (r, Fresh) ->
  flight (advance i r c (handle_start repr settings ur ul r (world c))).
Proof using Type.
  unfold flight, advance. cbn [world reqs]. intros Hf Hi. unfold handle_start.
  destruct (key_of r) as [k|] eqn:Ek.
  2:{ pose proof (execute_start_idem ur ul r (count count_request r (world c))) as [E _].
      destruct (execute_start _ _ _ _ _ _) as [w x]. cbn [fst] in E. change (idem (count _ _ _)) with (idem (world c)) in E.
      destruct x; cbn [fst snd]; rewrite E; by apply (flight_idle _ _ _ i r Fresh). }
  change (idem (count count_request r (world c))) with (idem (world c)).
  change (now (count count_request r (world c))) with (now (world c)).
  pose proof (get_flights k (now (world c)) (idem (world c))) as [Ef Eh].
  destruct (get k (now (world c)) (idem (world c))) as [s cached]. cbn [fst] in Ef, Eh. rewrite <- Ef, <- Eh in Hf.
  destruct cached as [body|]; [by apply (flight_idle _ _ _ i r Fresh)|]. cbn [idem with_idem].
  destruct (begin_flights k s) as [_ Hb]. destruct (assoc_get k (_inflight s)) as [h|] eqn:Ea; rewrite Hb.
  - cbn [fst snd]. apply assoc_get_in in Ea. by apply (flight_follow _ _ _ i r k).
  - apply assoc_get_None in Ea. match goal with |- context [execute_start repr settings ur ul r ?w1] =>
      pose proof (execute_start_idem ur ul r w1) as [E _]; destruct (execute_start repr settings ur ul r w1) as [w x] end.
    cbn [fst] in E. destruct x as [e|until]; cbn [fst snd].
    + cbn [idem with_idem]. unfold abandon. rewrite E. cbn [idem with_idem].
      assert (assoc_get k (_inflight (with_inflight (_inflight s ++ [(k, length (handles s))]) (handles s ++ [new_handle]) s)) = Some (length (handles s))) as Hg.
      { cbn [_inflight with_inflight]. apply assoc_get_NoDup.
        - rewrite fmap_app. apply NoDup_app. split_and!; [apply (fo_keys _ _ _ Hf)| |apply NoDup_singleton].
          intros x Hx ->%list_elem_of_singleton. done.
        - apply elem_of_app. right. apply list_elem_of_here. }
      destruct (settle_flights (λ h, {| event := true; res := res h; error := Some e; followers := followers h |}) k _ _ Hg) as [-> ->].
      cbn [_inflight handles with_inflight]. rewrite del_last by done.
      rewrite alter_snoc.
      by apply flight_fail.
    + rewrite E. cbn [idem with_idem _inflight handles with_inflight]. by apply flight_lead.
Qed.

Lemma leader_flight c i r u k : flight c -> reqs c !! i = Some (r, Sleeping u) -> key_of r = Some k ->
  exists h, assoc_get k (_inflight (idem (world c))) = Some h.
Proof using Type.
  intros Hf Hi Hk. destruct (assoc_get k _) as [h|] eqn:E; [by exists h|]. apply assoc_get_None in E. destruct E.
  apply (fo_leader _ _ _ Hf). exists i, r, u. done.
Qed.

Lemma settled_flight i r u k f o c (s : @IdempotencyStore B) : flight c -> reqs c !! i = Some (r, Sleeping u) -> key_of r = Some k ->
  _inflight s = _inflight (idem (world c)) -> handles s = handles (idem (world c)) ->
  (forall x, event (f x) = true /\ (error (f x) <> None \/ res (f x) <> None)) ->
  flight_ok (_inflight (settle f k s)) (handles (settle f k s)) (<[i := (r, Done o)]> (reqs c)).
Proof using Type.
  intros Hf Hi Hk E1 E2 Hset. destruct (leader_flight c i r u k Hf Hi Hk) as [h Hh]. rewrite <- E1 in Hh.
  destruct (settle_flights f k s h Hh) as [-> ->]. rewrite E1 in *. rewrite E2. by apply (flight_settle _ _ _ i r k h u).
Qed.

Lemma wake_flight i u r until c : flight c -> reqs c !! i = Some (r, Sleeping until) ->
  flight (advance i r c (handle_wake payload settings u r (world c))).
Proof using Type.
  unfold flight at 2, advance. cbn [world reqs]. intros Hf Hi. unfold handle_wake.
  pose proof (execute_finish_idem u r (world c)) as [E _]. destruct (execute_finish _ _ _ _ _) as [w x]. cbn [fst] in E.
  destruct (key_of r) as [k|] eqn:Ek.
  - destruct x as [e|body].
    + cbn [fst snd]. unfold abandon. cbn [idem with_idem]. rewrite E. apply (settled_flight i r until); try done. intros x. split; [done|by left].
    + rewrite E. unfold record_execution. cbn [fst snd idem with_idem]. unfold finish.
      apply (settled_flight i r until); try done. intros x. split; [done|by right].
  - cbn [fst snd]. rewrite E. by apply (flight_idle _ _ _ i r (Sleeping until)).
Qed.

Lemma cancel_flight i r p c : flight c -> reqs c !! i = Some (r, p) ->
  flight (advance i r c (handle_cancel r p (world c))).
Proof using Type.
  unfold flight at 2, advance. cbn [world reqs]. intros Hf Hi. unfold handle_cancel.
  destruct p as [|until|h|o]; try by apply (flight_idle _ _ _ i r _ _ Hf Hi).
  destruct (key_of r) as [k|] eqn:Ek; [|by apply (flight_idle _ _ _ i r _ _ Hf Hi)].
  cbn [fst snd idem with_idem]. unfold abandon. apply (settled_flight i r until); try done. intros x. split; [done|by left].
Qed.

Lemma event_flight a c c' : flight c -> do_event a c = Some c' -> flight c'.
Proof using Type.
  intros Hf E. destruct a as [r|i ur ul|i u|i|i|dt|e st ra se ex|e| | |]; cbn [do_event] in E.
  - injection E as <-. by apply flight_send.
  - destruct (reqs c !! i) as [[r []]|] eqn:Hi; try done. injection E as <-. by apply arrive_flight.
  - destruct (reqs c !! i) as [[r [|until| |]]|] eqn:Hi; try done. destruct (Qle_bool _ _); [|done]. injection E as <-.
    by apply (wake_flight i u r until).
  - destruct (reqs c !! i) as [[r [| |h|]]|] eqn:Hi; try done. destruct (join _ _); [|done]. injection E as <-.
    unfold flight, advance. cbn [world reqs fst snd]. by apply (flight_idle _ _ _ i r (Waiting h)).
  - destruct (reqs c !! i) as [[r [|until|h|]]|] eqn:Hi; try done; injection E as <-;
      [by apply (cancel_flight i r (Sleeping until))|by apply (cancel_flight i r (Waiting h))].
  - destruct (Qle_bool _ _); [|done]. by injection E as <-.
  - by injection E as <-.
  - by injection E as <-.
  - by injection E as <-.
  - by injection E as <-.
  - by injection E as <-.
Qed.

Lemma start_flight w : quiet w -> flight (start w).
Proof using Type.
  intros (E1 & E2 & _). unfold flight. cbn [start world reqs]. rewrite E1, E2.
  split; try (apply NoDup_nil_2 || done); try (intros ? ? []%elem_of_nil).
  - intros k. split; [by intros ?%elem_of_nil|]. by intros (i & r & u & H & _).
  - by intros k i j (r & u & H & _).
Qed.

Lemma run_flight es : forall c c', flight c -> run_events es c = Some c' -> flight c'.
Proof using Type.
  induction es as [|a es IH]; intros c c' Hf E; cbn [run_events] in E; [by injection E as <-|].
  destruct (do_event a c) as [c1|] eqn:Ea; [|done]. apply (IH c1); [|done]. by apply (event_flight a c).
Qed.

(** ** Waiting requests are released *)

Lemma wake_joins i r until k h u c : flight c -> reqs c !! i = Some (r, Sleeping until) -> key_of r = Some k ->
  (k, h) ∈ _inflight (idem (world c)) ->
  exists out, (handle_wake payload settings u r (world c)).2 = Done out /\
    join h (idem (handle_wake payload settings u r (world c)).1) = Some out.
Proof using Type.
  intros Hf Hi Hk Hh. destruct (fo_open _ _ _ Hf k h Hh) as (cl & Hcl & _ & He & _).
  apply (assoc_get_NoDup _ _ _ (fo_keys _ _ _ Hf)) in Hh. unfold handle_wake.
  pose proof (execute_finish_idem u r (world c)) as [E _]. destruct (execute_finish _ _ _ _ _) as [w x]. cbn [fst] in E.
  rewrite Hk. destruct x as [e|body].
  - exists (inl e). split; [done|]. cbn [fst idem with_idem]. unfold abandon. rewrite E. unfold join.
    destruct (settle_flights (λ h, {| event := true; res := res h; error := Some e; followers := followers h |}) k _ h Hh) as [_ ->].
    by rewrite list_lookup_alter_eq, Hcl.
  - rewrite E. unfold record_execution. exists (inr body). split; [done|]. cbn [fst idem with_idem]. unfold finish, join.
    match goal with |- context [settle ?f k ?s] => destruct (settle_flights f k s h Hh) as [_ ->] end.
    cbn [handles put with_cache with_evidence]. by rewrite list_lookup_alter_eq, Hcl; cbn; rewrite He.
Qed.

Lemma cancel_joins i r until k h c : flight c -> reqs c !! i = Some (r, Sleeping until) -> key_of r = Some k ->
  (k, h) ∈ _inflight (idem (world c)) ->
  join h (idem (handle_cancel r (Sleeping until) (world c)).1) = Some (inl Cancelled).
Proof using Type.
  intros Hf Hi Hk Hh. destruct (fo_open _ _ _ Hf k h Hh) as (cl & Hcl & _).
  apply (assoc_get_NoDup _ _ _ (fo_keys _ _ _ Hf)) in Hh. unfold handle_cancel. rewrite Hk. cbn [fst idem with_idem].
  unfold abandon, join.
  match goal with |- context [settle ?f k ?s] => destruct (settle_flights f k s h Hh) as [_ ->] end.
  by rewrite list_lookup_alter_eq, Hcl.
Qed.

Lemma resume_joins i r h out (c : config) : reqs c !! i = Some (r, Waiting h) -> join h (idem (world c)) = Some out ->
  do_event (Resume i) c = Some (advance i r c (world c, Done out)).
Proof using Type. intros Hi Hj. cbn [do_event]. by rewrite Hi, Hj. Qed.

Lemma slept_enough (until t : Q) : Qle_bool 0 (Qmax_py 0 (until - t)) = true /\ Qle_bool until (t + Qmax_py 0 (until - t)) = true.
Proof using Type.
  unfold Qmax_py. destruct (Qle_bool (until - t) 0) eqn:E; [apply Qle_bool_iff in E|apply Qle_bool_false in E];
    split; apply Qle_bool_iff; lra.
Qed.

(** A leader moves on and the follower with it. *)
Lemma resumed i j r r' h p out (c c1 : config) (wp : @server B * @phase B) : reqs c !! i = Some (r, Waiting h) -> reqs c !! j = Some (r', p) ->
  i <> j -> c1 = advance j r' c wp -> wp.2 = Done out -> forall out', join h (idem wp.1) = Some out' ->
  exists c', do_event (Resume i) c1 = Some c' /\ reqs c' !! i = Some (r, Done out') /\ reqs c' !! j = Some (r', Done out).
Proof using Type.
  intros Hi Hj Hne -> Hd out' Hjoin. eexists. split; [apply (resume_joins i r h out')|].
  - cbn [advance reqs]. by rewrite list_lookup_insert_ne by done.
  - done.
  - cbn [advance reqs]. rewrite list_lookup_insert_eq by (rewrite length_insert; by eapply lookup_lt_Some). split; [done|].
    rewrite list_lookup_insert_ne, list_lookup_insert_eq by (done || by eapply lookup_lt_Some). by rewrite Hd.
Qed.

(** C33: a request that waits for another with its key is never stranded.  Whatever
    happened before, either its outcome is there, or some request with the same key is
    executing: once that one's sleep is over both end, with the same outcome, whatever
    the model answers; and if that one is cancelled the waiting one is released too. *)
Theorem followers_released w es c i r h : quiet w -> run_events es (start w) = Some c -> reqs c !! i = Some (r, Waiting h) ->
  (exists out, join h (idem (world c)) = Some out) \/
  exists j r' until, reqs c !! j = Some (r', Sleeping until) /\ key_of r' = key_of r /\
    (forall u, exists c' out, run_events [Tick (Qmax_py 0 (until - now (world c))); Wake j u; Resume i] c = Some c' /\
      reqs c' !! i = Some (r, Done out) /\ reqs c' !! j = Some (r', Done out)) /\
    (exists c', run_events [Cancel j; Resume i] c = Some c' /\
      reqs c' !! i = Some (r, Done (inl Cancelled)) /\ reqs c' !! j = Some (r', Done (inl Cancelled))).
Proof using Type.
  intros Hq E Hi. assert (flight c) as Hf by (apply (run_flight es (start w)); [by apply start_flight|done]).
  destruct (fo_waits _ _ _ Hf i r h Hi) as (k & cl & Hk & Hcl & Hin). destruct (event cl) eqn:Ev.
  - left. unfold join. rewrite Hcl, Ev. destruct (fo_set _ _ _ Hf h cl Hcl Ev) as [H|H]; destruct (error cl), (res cl); first [done|by eexists].
  - right. specialize (Hin eq_refl). assert (k ∈ (_inflight (idem (world c))).*1) as Hkey by apply (list_elem_of_fmap_2 fst _ _ Hin).
    apply (fo_leader _ _ _ Hf) in Hkey as (j & r' & until & Hj & Hk').
    exists j, r', until. assert (i <> j) as Hne by (intros ->; congruence). split_and!; [done|congruence| |].
    + intros u. set (dt := Qmax_py 0 (until - now (world c))). destruct (slept_enough until (now (world c))) as [Hdt Hnow].
      assert (exists c1, do_event (Tick dt) c = Some c1 /\ flight c1 /\ reqs c1 = reqs c /\ idem (world c1) = idem (world c) /\
        do_event (Wake j u) c1 = Some (advance j r' c1 (handle_wake payload settings u r' (world c1)))) as (c1 & Et & Hf1 & Er & Eid & Ew).
      { cbn [do_event]. unfold dt. rewrite Hdt. eexists. split; [reflexivity|]. split_and!; [exact Hf|done..|]. by cbn [on_world pass reqs world now]; rewrite Hj, Hnow. }
      rewrite <- Er in Hi, Hj. rewrite <- Eid in Hin. destruct (wake_joins j r' until k h u c1 Hf1 Hj Hk' Hin) as (out & Hd & Hjoin).
      destruct (resumed i j r r' h _ out c1 _ _ Hi Hj Hne eq_refl Hd out Hjoin) as (c' & Hr & H1 & H2).
      exists c', out. cbn [run_events]. by rewrite Et, Ew, Hr.
    + assert (do_event (Cancel j) c = Some (advance j r' c (handle_cancel r' (Sleeping until) (world c)))) as Ec by (cbn [do_event]; by rewrite Hj).
      assert ((handle_cancel r' (Sleeping until) (world c)).2 = Done (inl Cancelled)) as Hd by (unfold handle_cancel; by destruct (key_of r')).
      destruct (resumed i j r r' h _ _ c _ _ Hi Hj Hne eq_refl Hd _ (cancel_joins j r' until k h c Hf Hj Hk' Hin)) as (c' & Hr & H1 & H2).
      exists c'. cbn [run_events]. by rewrite Ec, Hr.
Qed.
End runs.

(** ** A run *)

Definition demo_settings : MockSettings :=
  {| layout_latency_ms := 50; layout_rps := 10; layout_burst := 2; layout_failure_rate := 0;
     vlm_latency_min_ms := 1500; vlm_latency_max_ms := 3000; vlm_rps := 10; vlm_burst := 10; vlm_failure_rate := 0;
     idempotency_ttl_s := 300; idempotency_max_entries := 100 |}.
Definition demo_server : @server string :=
  match create_app demo_settings 0 with
  | inr w => w
  | inl _ => {| buckets := []; chaos := []; idem := new_store 0 0; stats := []; now := 0 |}
  end.
Definition demo_payload (endpoint job_id : string) (page_index : Z) : string := endpoint +:+ job_id +:+ py_str page_index.
Definition demo_repr (q : Q) : string := py_str (Qfloor q).
Definition demo_request : request := {| endpoint := LAYOUT; job_id := "j"; page_index := 0; idem_key := Some "j:0" |}.
Definition demo_arrivals : list action := [Send demo_request; Send demo_request; Arrive 0 0 0; Arrive 1 0 0].
Definition demo_run : list action := demo_arrivals ++ [Tick (1 # 10); Wake 0 0; Resume 1].

Definition demo_config (es : list action) : @config string :=
  match run_events demo_repr demo_payload demo_settings es (start demo_server) with
  | Some c => c
  | None => start demo_server
  end.

Lemma demo_quiet : quiet demo_server.
Proof. by repeat split. Qed.

Lemma followers_released_witness :
  reqs (demo_config demo_arrivals) !! 1%nat = Some (demo_request, Waiting 0) /\
  exists j r' until, reqs (demo_config demo_arrivals) !! j = Some (r', Sleeping until).
Proof.
  split; [reflexivity|].
  destruct (followers_released demo_repr demo_payload demo_settings demo_server demo_arrivals (demo_config demo_arrivals)
    1 demo_request 0 demo_quiet ltac:(vm_compute; reflexivity) ltac:(vm_compute; reflexivity)) as [[out H]|(j & r' & until & H & _)].
  - vm_compute in H. discriminate.
  - by exists j, r', until.
Defined.
