(* ===== verification/MockOnce.v ===== *)
(** * One execution per key

    What [mock_model/idempotency.py] promises: while the responses of the keys in use
    are retained (no more keys than entries, none older than the lifetime, no reset),
    the model runs at most once for a key, exactly once when some request with it was
    answered, and every answer for the key is the same. *)

From Stdlib Require Import QArith Qround Lqa.
From S2P Require Import Prelude Py Mock MockRuns.
#[local] Open Scope Z_scope.

(** ** The ordered dictionaries *)

Section dicts.
Context {V : Type}.
Implicit Types (m : list (string * V)) (ks : list string).

Lemma get_del k k' m : assoc_get k' (assoc_del k m) = if decide (k' = k) then None else assoc_get k' m.
Proof.
  unfold assoc_del. induction m as [|[k1 v1] m IH]; cbn [assoc_get]; [by destruct (decide _)|].
  destruct (decide (k1 = k)) as [->|Hne].
  - rewrite filter_cons_False by (intros H; by apply H). rewrite IH. repeat case_decide; congruence.
  - rewrite filter_cons_True by done. cbn [assoc_get]. rewrite IH. repeat case_decide; congruence.
Qed.

Lemma get_last k v m k' : k ∉ m.*1 -> assoc_get k' (m ++ [(k, v)]) = if decide (k' = k) then Some v else assoc_get k' m.
Proof.
  induction m as [|[k1 v1] m IH]; intros Hk; cbn [app assoc_get].
  - repeat case_decide; congruence.
  - rewrite fmap_cons, not_elem_of_cons in Hk. destruct Hk as [Hne Hk]. cbn [fst] in Hne. rewrite (IH Hk). repeat case_decide; congruence.
Qed.

Lemma del_self k m : k ∉ (assoc_del k m).*1.
Proof. rewrite del_keys. by intros [? _]. Qed.

Lemma put_last_get k v m k' : assoc_get k' (put_last k v m) = if decide (k' = k) then Some v else assoc_get k' m.
Proof. unfold put_last. rewrite get_last by apply del_self. rewrite get_del. by case_decide. Qed.

Record small ks m : Prop := { sm_nodup : NoDup m.*1; sm_sub : forall k, k ∈ m.*1 -> k ∈ ks }.

Lemma small_del ks k m : small ks m -> small ks (assoc_del k m).
Proof.
  intros [Hn Hs]. split; [eapply sublist_NoDup; [exact Hn|apply fmap_sublist, sublist_filter]|].
  intros k' [_ H]%del_keys. by apply Hs.
Qed.

Lemma small_put_last ks k v m : small ks m -> k ∈ ks -> small ks (put_last k v m).
Proof.
  intros Hm Hk. pose proof (del_self k m) as Hno. destruct (small_del ks k m Hm) as [Hn Hs]. unfold put_last.
  split; rewrite fmap_app; cbn [fmap list_fmap fst].
  - apply NoDup_app. split_and!; [done| |apply NoDup_singleton]. intros x Hx ->%list_elem_of_singleton. done.
  - intros k' [H|H]%elem_of_app; [by apply Hs|]. by apply list_elem_of_singleton in H as ->.
Qed.

Lemma small_kept ks n m : small ks m -> (length ks <= n)%nat -> _evict n m = m.
Proof.
  intros [Hn Hs] Hl. assert (length m <= length ks)%nat as Hle.
  { rewrite <- (length_fmap fst m). by apply submseteq_length, NoDup_submseteq. }
  destruct m as [|x m]; [done|]. cbn [_evict]. by destruct (Nat.ltb_spec n (length (x :: m))); [lia|].
Qed.
End dicts.

Lemma fo_ids_inj (fl : list (string * nat)) k1 k2 h : NoDup fl.*2 -> (k1, h) ∈ fl -> (k2, h) ∈ fl -> k1 = k2.
Proof.
  intros Hn [a Ha]%list_elem_of_lookup [b Hb]%list_elem_of_lookup.
  assert (a = b) as <- by (apply (NoDup_lookup fl.*2 a b h Hn); rewrite list_lookup_fmap, ?Ha, ?Hb; done). congruence.
Qed.

Section once.
Context {B : Type} (repr : Q -> string) (payload : string -> string -> Z -> B) (settings : MockSettings).
#[local] Abbreviation config := (@config B).
#[local] Abbreviation cell := (@_InFlight B).
#[local] Abbreviation store := (@IdempotencyStore B).
#[local] Abbreviation do_event := (do_event repr payload settings).
#[local] Abbreviation run_events := (run_events repr payload settings).
Implicit Types (hs : list (@_InFlight B)) (rs : list (request * @phase B)) (c : @Mock.config B) (s : @IdempotencyStore B).

(** The moment the run began, the lifetime of a response and the keys in use. *)
Context (t0 ttl : Q) (ks : list string).

(** A cell that would give its waiters the body [b]. *)
Definition gives (b : B) (h : nat) hs : Prop := exists x, hs !! h = Some x /\ error x = None /\ res x = Some b.

(** A change of the store that keeps what is retained and recorded, and gives nobody a body. *)
Record calm s s' : Prop := {
  ca_get : forall k, assoc_get k (_cache s') = assoc_get k (_cache s);
  ca_cache : small ks (_cache s) -> small ks (_cache s');
  ca_ex : _executions s' = _executions s;
  ca_dup : _duplicates s' = _duplicates s;
  ca_max : _max_entries s' = _max_entries s;
  ca_ttl : _ttl_s s' = _ttl_s s;
  ca_gives : forall b h, gives b h (handles s') -> gives b h (handles s) }.

Lemma calm_refl s : calm s s.
Proof using Type. by split. Qed.

Lemma calm_trans s1 s2 s3 : calm s1 s2 -> calm s2 s3 -> calm s1 s3.
Proof using Type.
  intros [G1 C1 E1 D1 M1 T1 H1] [G2 C2 E2 D2 M2 T2 H2]. split; try congruence; by auto.
Qed.

Lemma get_cached k t s : (forall x, assoc_get k (_cache s) = Some x -> t - x.1 <= _ttl_s s)%Q -> k ∈ ks ->
  calm s (get k t s).1 /\ (get k t s).2 = snd <$> assoc_get k (_cache s).
Proof using Type.
  intros Ht Hk. unfold get. destruct (assoc_get k (_cache s)) as [[t1 b]|] eqn:E; [|split; [apply calm_refl|done]].
  specialize (Ht _ eq_refl). cbn [fst] in Ht. apply Qle_bool_iff in Ht as ->. cbn [negb]. split; [|done]. split; try done.
  - intros k'. cbn [_cache with_cache fst]. rewrite put_last_get. case_decide; congruence.
  - intros Hs. by apply small_put_last.
Qed.

Lemma calm_inflight fl hs s : (forall b h, gives b h hs -> gives b h (handles s)) -> calm s (with_inflight fl hs s).
Proof using Type. intros H. by split. Qed.

Lemma calm_begin k s : calm s (begin k s).1.
Proof using Type.
  unfold begin. destruct (assoc_get k (_inflight s)) as [h|]; apply calm_inflight; intros b h' (x & Hx & Ex & Hb).
  - rewrite list_lookup_alter in Hx. case_decide as Hd.
    + apply fmap_Some in Hx as (y & Ey & ->). exists y. by subst h'.
    + by exists x.
  - apply lookup_app_Some in Hx as [Hx|[_ Hx]]; [by exists x|]. by apply list_lookup_singleton_Some in Hx as [_ <-].
Qed.

Lemma calm_abandon k e s : calm s (abandon k e s).
Proof using Type.
  unfold abandon, settle. destruct (assoc_get k (_inflight s)) as [h|]; [|apply calm_refl].
  apply calm_inflight. intros b h' (x & Hx & Ex & Hb). rewrite list_lookup_alter in Hx. case_decide as Hd.
  - by apply fmap_Some in Hx as (y & _ & ->).
  - by exists x.
Qed.

(** What is known after [n k] executions of each key [k]. *)
Record once s rs (n : string -> nat) : Prop := {
  on_cache : small ks (_cache s);
  on_execs : small ks (_executions s);
  on_dup : _duplicates s = [];
  on_max : (length ks <= _max_entries s)%nat;
  on_ttl : _ttl_s s = ttl;
  on_time : forall k t b, assoc_get k (_cache s) = Some (t, b) -> (t0 <= t)%Q;
  on_ran : forall k v, assoc_get k (_executions s) = Some v -> assoc_get k (_cache s) <> None;
  on_count : forall k, n k = match assoc_get k (_cache s) with Some _ => 1%nat | None => 0%nat end;
  on_asleep : forall i r u k, rs !! i = Some (r, Sleeping u) -> key_of r = Some k -> assoc_get k (_cache s) = None;
  on_done : forall i r b k, rs !! i = Some (r, Done (inr b)) -> key_of r = Some k -> snd <$> assoc_get k (_cache s) = Some b;
  on_wait : forall i r h b k, rs !! i = Some (r, Waiting h) -> key_of r = Some k -> gives b h (handles s) ->
    snd <$> assoc_get k (_cache s) = Some b;
  on_keys : forall i r p k, rs !! i = Some (r, p) -> key_of r = Some k -> k ∈ ks }.

(** A phase a request may be in, by what is retained. *)
Definition fits s (r : request) (p : @phase B) : Prop := forall k, key_of r = Some k ->
  match p with
  | Fresh | Done (inl _) => True
  | Sleeping _ => assoc_get k (_cache s) = None
  | Done (inr b) => snd <$> assoc_get k (_cache s) = Some b
  | Waiting h => forall b, gives b h (handles s) -> snd <$> assoc_get k (_cache s) = Some b
  end.

Lemma once_calm s s' rs n i r p p' : once s rs n -> calm s s' -> rs !! i = Some (r, p) -> fits s' r p' ->
  once s' (<[i := (r, p')]> rs) n.
Proof using Type.
  intros [] [] Hi Hp.
  assert (forall j r1 p1, <[i := (r, p')]> rs !! j = Some (r1, p1) -> (j = i /\ r1 = r /\ p1 = p') \/ rs !! j = Some (r1, p1)) as Hj.
  { intros j r1 p1 H. destruct (decide (j = i)) as [->|Hne].
    - rewrite list_lookup_insert_eq in H by (by eapply lookup_lt_Some). injection H as <- <-. by left.
    - rewrite list_lookup_insert_ne in H by congruence. by right. }
  split; rewrite ?ca_ex0, ?ca_dup0, ?ca_max0, ?ca_ttl0; auto.
  - intros k t b. rewrite ca_get0. apply on_time0.
  - intros k v. rewrite ca_get0. apply on_ran0.
  - intros k. rewrite ca_get0. apply on_count0.
  - intros j r1 u k [(-> & -> & <-)|H]%Hj Hk; [exact (Hp k Hk)|]. rewrite ca_get0. by apply (on_asleep0 j r1 u).
  - intros j r1 b k [(-> & -> & <-)|H]%Hj Hk; [exact (Hp k Hk)|]. rewrite ca_get0. by apply (on_done0 j r1).
  - intros j r1 h b k [(-> & -> & <-)|H]%Hj Hk Hg; [exact (Hp k Hk b Hg)|]. rewrite ca_get0. apply (on_wait0 j r1 h); auto.
  - intros j r1 p1 k [(-> & -> & <-)|H]%Hj Hk; [by apply (on_keys0 i r p)|by apply (on_keys0 j r1 p1)].
Qed.

Lemma once_send s rs n r : once s rs n -> (forall k, key_of r = Some k -> k ∈ ks) -> once s (rs ++ [(r, Fresh)]) n.
Proof using Type.
  intros [] Hr. assert (forall j r' p, (rs ++ [(r, Fresh)]) !! j = Some (r', p) -> rs !! j = Some (r', p) \/ r' = r /\ p = Fresh) as Hj.
  { intros j r' p [H|[_ H]]%lookup_app_Some; [by left|]. apply list_lookup_singleton_Some in H as [_ H]. right. by simplify_eq. }
  split; try done.
  - intros j r' u k [H|[_ H]]%Hj Hk; [by apply (on_asleep0 j r' u)|done].
  - intros j r' b k [H|[_ H]]%Hj Hk; [by apply (on_done0 j r')|done].
  - intros j r' h b k [H|[_ H]]%Hj Hk Hg; [by apply (on_wait0 j r' h)|done].
  - intros j r' p k [H|[-> _]]%Hj Hk; [by apply (on_keys0 j r' p)|by apply Hr].
Qed.

(** The leader's answer is recorded, retained and given to its followers. *)
Lemma once_execute s rs n i r u k t body h : once s rs n -> flight_ok (_inflight s) (handles s) rs ->
  rs !! i = Some (r, Sleeping u) -> key_of r = Some k -> assoc_get k (_inflight s) = Some h -> (t0 <= t)%Q ->
  once (finish k body (put k body t (record_execution k s).1)) (<[i := (r, Done (inr body))]> rs)
    (λ k', if decide (k' = k) then S (n k') else n k').
Proof using Type.
  intros [] Hf Hi Hk Hh Ht. pose proof (on_asleep0 i r u k Hi Hk) as Hnone. pose proof (on_keys0 i r _ k Hi Hk) as Hks.
  assert (assoc_get k (_executions s) = None) as Hex by (destruct (assoc_get k (_executions s)) eqn:E; [by destruct (on_ran0 k z E)|done]).
  unfold record_execution. rewrite Hex. cbn [default fst Z.add Z.ltb]. unfold finish.
  set (s1 := put _ _ _ _). assert (assoc_get k (_inflight s1) = Some h) as Hh1 by done.
  destruct (settle_flights (λ x, {| event := true; res := Some body; error := error x; followers := followers x |}) k s1 h Hh1) as [_ Ehs].
  destruct (settle_cache (λ x, {| event := true; res := Some body; error := error x; followers := followers x |}) k s1) as (Ec & Ee & Ed).
  set (s2 := settle _ _ _) in *.
  assert (small ks (put_last k (t, body) (_cache s))) as Hsm by by apply small_put_last.
  assert (small ks (put_last k 1 (_executions s))) as Hsx by by apply small_put_last.
  assert (_cache s2 = put_last k (t, body) (_cache s)) as Ecache by (rewrite Ec; cbn; by apply (small_kept ks)).
  assert (_executions s2 = put_last k 1 (_executions s)) as Eexec by (rewrite Ee; cbn; by apply (small_kept ks)).
  assert (forall k', assoc_get k' (_cache s2) = if decide (k' = k) then Some (t, body) else assoc_get k' (_cache s)) as Hget.
  { intros k'. rewrite Ecache. apply put_last_get. }
  assert (forall j r1 p1, <[i := (r, Done (inr body))]> rs !! j = Some (r1, p1) ->
    (j = i /\ r1 = r /\ p1 = Done (inr body)) \/ (j <> i /\ rs !! j = Some (r1, p1))) as Hj.
  { intros j r1 p1 H. destruct (decide (j = i)) as [->|Hne].
    - rewrite list_lookup_insert_eq in H by (by eapply lookup_lt_Some). injection H as <- <-. by left.
    - rewrite list_lookup_insert_ne in H by congruence. by right. }
  split.
  - by rewrite Ecache.
  - by rewrite Eexec.
  - by rewrite Ed.
  - by unfold s2, settle; rewrite Hh1.
  - by unfold s2, settle; rewrite Hh1.
  - intros k' t' b. rewrite Hget. case_decide; [by intros [= <- <-]|apply on_time0].
  - intros k' v. rewrite Eexec, put_last_get, Hget. case_decide; [done|apply on_ran0].
  - intros k'. rewrite Hget, on_count0. case_decide as Hd; [subst k'; by rewrite Hnone|done].
  - intros j r1 u1 k' [(_ & _ & ?)|[Hne H]]%Hj Hk'; [done|]. rewrite Hget. case_decide as Hd; [|by apply (on_asleep0 j r1 u1)].
    subst k'. destruct Hne. apply (fo_unique _ _ _ Hf k); [by exists r1, u1|by exists r, u].
  - intros j r1 b k' [(-> & -> & [= ->])|[Hne H]]%Hj Hk'; rewrite Hget; (case_decide as Hd; [|try congruence; by apply (on_done0 j r1)]); [done|].
    subst k'. pose proof (on_done0 j r1 b k H Hk') as E. by rewrite Hnone in E.
  - intros j r1 h1 b k' [(_ & _ & ?)|[_ H]]%Hj Hk' (x & Hx & Ex & Hb); [done|]. rewrite Hget.
    rewrite Ehs, list_lookup_alter in Hx. change (handles s1) with (handles s) in Hx. case_decide as Hd.
    + subst h1. destruct (fo_waits _ _ _ Hf j r1 h H) as (k1 & y & Hk1 & Hy & Hin). apply assoc_get_in in Hh.
      destruct (fo_open _ _ _ Hf k h Hh) as (y' & Hy' & Hev & _). assert (y' = y) as -> by congruence.
      rewrite Hy in Hx. injection Hx as <-. cbn in Hb. injection Hb as <-. specialize (Hin Hev).
      assert (k1 = k) as -> by (by apply (fo_ids_inj (_inflight s) k1 k h (fo_ids _ _ _ Hf))).
      rewrite decide_True by congruence. done.
    + pose proof (on_wait0 j r1 h1 b k' H Hk' ltac:(by exists x)) as E. case_decide; [|done]. subst k'. by rewrite Hnone in E.
  - intros j r1 p1 k' [(-> & -> & _)|[_ H]]%Hj Hk'; [by apply (on_keys0 i r (Sleeping u))|by apply (on_keys0 j r1 p1)].
Qed.

Lemma once_ext s rs n n' : (forall k, n k = n' k) -> once s rs n -> once s rs n'.
Proof using Type. intros E []. split; try done. intros k. by rewrite <- E. Qed.

Lemma arrive_once ur ul i r c n : once (idem (world c)) (reqs c) n -> flight c -> (now (world c) <= t0 + ttl)%Q ->
  reqs c !! i = Some (r, Fresh) ->
  let c' := advance i r c (handle_start repr settings ur ul r (world c)) in once (idem (world c')) (reqs c') n.
Proof using Type.
  intros Ho Hf Ht Hi. unfold advance. cbn [world reqs]. unfold handle_start.
  destruct (key_of r) as [k|] eqn:Ek.
  2:{ pose proof (execute_start_idem repr settings ur ul r (count count_request r (world c))) as [E _].
      destruct (execute_start _ _ _ _ _ _) as [w x]. cbn [fst] in E. change (idem (count _ _ _)) with (idem (world c)) in E.
      destruct x; cbn [fst snd]; rewrite E; apply (once_calm (idem (world c)) _ _ _ i r Fresh); try done;
        try apply calm_refl; intros k Hk; congruence. }
  change (idem (count count_request r (world c))) with (idem (world c)).
  change (now (count count_request r (world c))) with (now (world c)).
  assert (forall x, assoc_get k (_cache (idem (world c))) = Some x -> now (world c) - x.1 <= _ttl_s (idem (world c)))%Q as Hlive.
  { intros [t b] E. cbn [fst]. pose proof (on_time _ _ _ Ho k t b E). rewrite (on_ttl _ _ _ Ho). lra. }
  destruct (get_cached k _ _ Hlive (on_keys _ _ _ Ho i r Fresh k Hi Ek)) as [Hcalm Hhit].
  pose proof (get_flights k (now (world c)) (idem (world c))) as [Hfl _].
  destruct (get k (now (world c)) (idem (world c))) as [s cached]. cbn [fst snd] in Hcalm, Hhit, Hfl. destruct cached as [body|].
  { cbn [fst snd idem with_idem count with_stats]. apply (once_calm (idem (world c)) _ _ _ i r Fresh); try done.
    intros k' Hk'. rewrite (ca_get _ _ Hcalm). congruence. }
  assert (assoc_get k (_cache (idem (world c))) = None) as Hnone by (by destruct (assoc_get k (_cache (idem (world c))))).
  cbn [idem with_idem]. pose proof (calm_trans _ _ _ Hcalm (calm_begin k s)) as Hcalm2.
  destruct (begin_flights k s) as [_ Hb]. destruct (assoc_get k (_inflight s)) as [h|] eqn:Ea; rewrite Hb in *; cbn [fst] in Hcalm2.
  - cbn [fst snd]. apply (once_calm (idem (world c)) _ _ _ i r Fresh); [done|exact Hcalm2|done|].
    intros k' _ b (x & Hx & _ & Hb')%(ca_gives _ _ Hcalm2). rewrite Hfl in Ea. apply assoc_get_in in Ea.
    destruct (fo_open _ _ _ Hf k h Ea) as (y & Hy & _ & _ & Hy'). congruence.
  - match goal with |- context [execute_start repr settings ur ul r ?w1] =>
      pose proof (execute_start_idem repr settings ur ul r w1) as [E _]; destruct (execute_start repr settings ur ul r w1) as [w x] end.
    cbn [fst] in E. destruct x as [e|until]; cbn [fst snd].
    + cbn [idem with_idem]. rewrite E. cbn [idem with_idem]. apply (once_calm (idem (world c)) _ _ _ i r Fresh); [done| |done|done].
      eapply calm_trans; [exact Hcalm2|]. apply calm_abandon.
    + rewrite E. cbn [idem with_idem]. apply (once_calm (idem (world c)) _ _ _ i r Fresh); [done|exact Hcalm2|done|].
      intros k' Hk'. rewrite (ca_get _ _ Hcalm2). congruence.
Qed.

(** The key whose model call completes in an event. *)
Definition ran (a : action) c : option string :=
  match a with
  | Wake i u =>
      match reqs c !! i with
      | Some (r, Sleeping until) =>
          if Qle_bool until (now (world c)) then
            match (execute_finish payload settings u r (world c)).2 with inr _ => key_of r | inl _ => None end
          else None
      | _ => None
      end
  | _ => None
  end.

(** How often the model ran for [k] in a run. *)
Fixpoint runs (k : string) (es : list action) c : nat :=
  match es with
  | [] => 0
  | a :: es' => (if decide (ran a c = Some k) then 1 else 0) +
                match do_event a c with Some c' => runs k es' c' | None => 0 end
  end.

Lemma wake_once i u r until c n : once (idem (world c)) (reqs c) n -> flight c -> (t0 <= now (world c))%Q ->
  reqs c !! i = Some (r, Sleeping until) -> Qle_bool until (now (world c)) = true ->
  let c' := advance i r c (handle_wake payload settings u r (world c)) in
  once (idem (world c')) (reqs c') (λ k, (if decide (ran (Wake i u) c = Some k) then 1 else 0) + n k)%nat.
Proof using Type.
  intros Ho Hf Ht Hi Hu. unfold advance, ran. cbn [world reqs]. rewrite Hi, Hu. unfold handle_wake.
  pose proof (execute_finish_idem payload settings u r (world c)) as [E En]. destruct (execute_finish _ _ _ _ _) as [w x]. cbn [fst] in E, En. cbn [snd].
  destruct (key_of r) as [k|] eqn:Ek.
  - destruct x as [e|body].
    + apply (once_ext _ _ n); [done|]. cbn [fst snd idem with_idem]. rewrite E.
      apply (once_calm (idem (world c)) _ _ _ i r (Sleeping until)); [done|apply calm_abandon|done|done].
    + destruct (leader_flight c i r until k Hf Hi Ek) as [h Hh].
      destruct (record_execution k (idem w)) as [s v] eqn:Er. cbn [fst snd idem with_idem].
      assert (s = (record_execution k (idem (world c))).1) as -> by by rewrite <- E, Er. rewrite En.
      apply (once_ext _ _ (λ k', if decide (k' = k) then S (n k') else n k')); [intros k'; repeat case_decide; congruence || lia|].
      by apply (once_execute _ _ _ i r until k _ body h).
  - apply (once_ext _ _ n); [by destruct x|]. cbn [fst snd]. rewrite E.
    apply (once_calm (idem (world c)) _ _ _ i r (Sleeping until)); [done|apply calm_refl|done|]. intros k Hk. congruence.
Qed.

Lemma calmly s rs n i r p p' : once s rs n -> rs !! i = Some (r, p) -> fits s r p' -> once s (<[i := (r, p')]> rs) n.
Proof using Type. intros Ho Hi Hp. by apply (once_calm s s rs n i r p p' Ho (calm_refl s)). Qed.

Lemma join_gives h s b : join h s = Some (inr b) -> gives b h (handles s).
Proof using Type.
  unfold join. destruct (handles s !! h) as [x|] eqn:Hx; [|done]. destruct (event x), (error x) eqn:Ex, (res x) eqn:Eb; try done.
  intros [= ->]. by exists x.
Qed.

Lemma cancel_once i r p c n : once (idem (world c)) (reqs c) n -> reqs c !! i = Some (r, p) ->
  let c' := advance i r c (handle_cancel r p (world c)) in once (idem (world c')) (reqs c') n.
Proof using Type.
  intros Ho Hi. unfold advance, handle_cancel. cbn [world reqs].
  destruct p as [|until|h|o]; try by apply (calmly _ _ _ i r _ _ Ho Hi).
  destruct (key_of r) as [k|]; [|by apply (calmly _ _ _ i r _ _ Ho Hi)].
  cbn [fst snd idem with_idem]. by apply (once_calm (idem (world c)) _ _ _ i r (Sleeping until) _ Ho (calm_abandon _ _ _)).
Qed.

(** An event in a run without [Reset] whose requests use the keys [ks]. *)
Definition keyed (a : action) : Prop :=
  match a with Send r => forall k, key_of r = Some k -> k ∈ ks | Reset => False | _ => True end.

Lemma event_once a c c' n : once (idem (world c)) (reqs c) n -> flight c -> keyed a ->
  (t0 <= now (world c) <= t0 + ttl)%Q -> do_event a c = Some c' ->
  once (idem (world c')) (reqs c') (λ k, (if decide (ran a c = Some k) then 1 else 0) + n k)%nat.
Proof using Type.
  intros Ho Hf Ha [H0 H1] E.
  destruct a as [r|i ur ul|i u|i|i|dt|e st ra se ex|e| | |]; cbn [do_event] in E;
    lazymatch goal with |- context [ran (Wake _ _) _] => idtac | _ => apply (once_ext _ _ n); [done|] end.
  - injection E as <-. by apply once_send.
  - destruct (reqs c !! i) as [[r []]|] eqn:Hi; try done. injection E as <-. by apply arrive_once.
  - destruct (reqs c !! i) as [[r [|until| |]]|] eqn:Hi; try done. destruct (Qle_bool _ _) eqn:Hu; [|done]. injection E as <-.
    by apply (wake_once i u r until).
  - destruct (reqs c !! i) as [[r [| |h|]]|] eqn:Hi; try done. destruct (join _ _) as [out|] eqn:Ej; [|done]. injection E as <-.
    apply (calmly _ _ _ i r (Waiting h) _ Ho Hi). intros k Hk. destruct out as [e|b]; [done|].
    apply (on_wait _ _ _ Ho i r h b k Hi Hk). by apply join_gives.
  - destruct (reqs c !! i) as [[r [|until|h|]]|] eqn:Hi; try done; injection E as <-;
      [by apply (cancel_once i r (Sleeping until))|by apply (cancel_once i r (Waiting h))].
  - destruct (Qle_bool _ _); [|done]. by injection E as <-.
  - by injection E as <-.
  - by injection E as <-.
  - by injection E as <-.
  - by injection E as <-.
  - done.
Qed.

(** No handler moves the clock. *)
Lemma start_now ur ul r (w : @server B) : now (handle_start repr settings ur ul r w).1 = now w.
Proof using Type.
  unfold handle_start. destruct (key_of r) as [k|].
  - destruct (get k _ _) as [s [body|]]; [done|]. destruct (begin k _) as [s1 [[] h]]; [|done].
    match goal with |- context [execute_start repr settings ur ul r ?w1] =>
      pose proof (execute_start_idem repr settings ur ul r w1) as [_ E]; destruct (execute_start repr settings ur ul r w1) as [w2 x] end.
    by destruct x.
  - match goal with |- context [execute_start repr settings ur ul r ?w1] =>
      pose proof (execute_start_idem repr settings ur ul r w1) as [_ E]; destruct (execute_start repr settings ur ul r w1) as [w2 x] end.
    by destruct x.
Qed.

Lemma wake_now u r (w : @server B) : now (handle_wake payload settings u r w).1 = now w.
Proof using Type.
  unfold handle_wake. pose proof (execute_finish_idem payload settings u r w) as [_ E]. destruct (execute_finish _ _ _ _ _) as [w1 x].
  by destruct (key_of r), x.
Qed.

Lemma event_time a c c' : do_event a c = Some c' -> (now (world c) <= now (world c'))%Q.
Proof using Type.
  intros E. destruct a as [r|i ur ul|i u|i|i|dt|e st ra se ex|e| | |]; cbn [do_event] in E.
  - injection E as <-. cbn. lra.
  - destruct (reqs c !! i) as [[r []]|] eqn:Hi; try done. injection E as <-. cbn [advance world]. rewrite start_now. lra.
  - destruct (reqs c !! i) as [[r [|until| |]]|] eqn:Hi; try done. destruct (Qle_bool _ _); [|done]. injection E as <-.
    cbn [advance world]. rewrite wake_now. lra.
  - destruct (reqs c !! i) as [[r [| |h|]]|] eqn:Hi; try done. destruct (join _ _); [|done]. injection E as <-. cbn. lra.
  - destruct (reqs c !! i) as [[r [|until|h|]]|] eqn:Hi; try done; injection E as <-; cbn [advance world]; [destruct (key_of r)|]; cbn; lra.
  - destruct (Qle_bool 0 dt) eqn:Hdt; [|done]. apply Qle_bool_iff in Hdt. injection E as <-. cbn. lra.
  - injection E as <-. cbn. lra.
  - injection E as <-. cbn. lra.
  - injection E as <-. cbn. lra.
  - injection E as <-. cbn. lra.
  - injection E as <-. cbn. lra.
Qed.

Lemma run_time es : forall c c', run_events es c = Some c' -> (now (world c) <= now (world c'))%Q.
Proof using Type.
  induction es as [|a es IH]; intros c c' E; cbn [run_events] in E; [injection E as <-; lra|].
  destruct (do_event a c) as [c1|] eqn:Ea; [|done]. pose proof (event_time a c c1 Ea). pose proof (IH c1 c' E). lra.
Qed.

Lemma run_once es : forall c c' n, once (idem (world c)) (reqs c) n -> flight c -> Forall keyed es ->
  (t0 <= now (world c))%Q -> (now (world c') <= t0 + ttl)%Q -> run_events es c = Some c' ->
  once (idem (world c')) (reqs c') (λ k, runs k es c + n k)%nat.
Proof using Type.
  induction es as [|a es IH]; intros c c' n Ho Hf Hk H0 H1 E; cbn [run_events runs] in *; [by injection E as <-|].
  apply Forall_cons in Hk as [Ha Hk]. destruct (do_event a c) as [c1|] eqn:Ea; [|done].
  pose proof (event_time a c c1 Ea) as Ht1. pose proof (run_time es c1 c' E) as Ht2.
  eapply (once_ext _ _ _); [|apply (IH c1 c'); [apply (event_once a c)|by apply (event_flight repr payload settings a c)|done|lra|lra|done]; try done; try lra].
  intros k. cbn. lia.
Qed.

Lemma start_once w : quiet w -> now w = t0 -> _ttl_s (idem w) = ttl -> (length ks <= _max_entries (idem w))%nat ->
  once (idem w) [] (λ _, 0%nat).
Proof using Type.
  intros (_ & _ & Ec & Ee & Ed & _) Ht Httl Hm.
  split; rewrite ?Ec, ?Ee; try done; split; [apply NoDup_nil_2|by intros k ?%elem_of_nil|apply NoDup_nil_2|by intros k ?%elem_of_nil].
Qed.
End once.

(** C32: the mock runs the model once per key.  As long as the responses of the keys in
    use are retained, over any interleaving of requests, cancellations, faults and the
    passing of time, the model completes at most once for a key, and exactly once if a
    request with it was answered; all answers for the key are the same, and the evidence
    of duplicate executions stays empty. *)
Theorem executes_once {B} (repr : Q -> string) (payload : string -> string -> Z -> B) settings ks w es c :
  quiet w -> run_events repr payload settings es (start w) = Some c -> Forall (keyed ks) es ->
  (length ks <= _max_entries (idem w))%nat -> (now (world c) <= now w + _ttl_s (idem w))%Q ->
  _duplicates (idem (world c)) = [] /\ forall k, (runs repr payload settings k es (start w) <= 1)%nat /\
    forall i r b, reqs c !! i = Some (r, Done (inr b)) -> key_of r = Some k ->
      runs repr payload settings k es (start w) = 1%nat /\
      forall j r' b', reqs c !! j = Some (r', Done (inr b')) -> key_of r' = Some k -> b' = b.
Proof.
  intros Hq E Hk Hm Ht. pose proof (start_once (now w) (_ttl_s (idem w)) ks w Hq eq_refl eq_refl Hm) as Ho.
  apply (run_once repr payload settings (now w) (_ttl_s (idem w)) ks es (start w) c) in Ho; [|by apply start_flight|done|cbn; lra|done|done].
  split; [apply (on_dup _ _ _ _ _ _ Ho)|]. intros k. pose proof (on_count _ _ _ _ _ _ Ho k) as Hn. cbn in Hn.
  rewrite Nat.add_0_r in Hn. rewrite Hn. split; [destruct (assoc_get k _); lia|].
  intros i r b Hi Hr. pose proof (on_done _ _ _ _ _ _ Ho i r b k Hi Hr) as Hb.
  split; [by destruct (assoc_get k _)|]. intros j r' b' Hj Hr'.
  pose proof (on_done _ _ _ _ _ _ Ho j r' b' k Hj Hr'). congruence.
Qed.

(** ** A run *)

Lemma demo_keyed : Forall (keyed ["j:0"]) demo_run.
Proof.
  unfold demo_run, demo_arrivals. cbn [app].
  do 7 (apply Forall_cons; split; [cbn; try done; intros k [= <-]; apply list_elem_of_here|]). apply Forall_nil_2.
Qed.

Lemma executes_once_witness :
  reqs (demo_config demo_run) = [(demo_request, Done (inr "layoutj0")); (demo_request, Done (inr "layoutj0"))] /\
  runs demo_repr demo_payload demo_settings "j:0" demo_run (start demo_server) = 1%nat.
Proof.
  split; [vm_compute; reflexivity|].
  destruct (executes_once demo_repr demo_payload demo_settings ["j:0"] demo_server demo_run (demo_config demo_run) demo_quiet
    ltac:(vm_compute; reflexivity) demo_keyed
    ltac:(vm_compute; lia) ltac:(vm_compute; discriminate)) as [_ H].
  destruct (H "j:0") as [_ H1]. by destruct (H1 0%nat demo_request "layoutj0" eq_refl eq_refl) as [-> _].
Defined.
