(* ===== verification/MockStats.v ===== *)
(** * The counters of the mock add up

    [mock_model/stats.py] is the mock's side of the cross-checks: of the requests an
    endpoint received, each was replayed, executed, refused with a 429, failed, is
    executing, or was cancelled while it was. *)

From Stdlib Require Import QArith.
From S2P Require Import Prelude Py Mock MockRuns.
#[local] Open Scope Z_scope.

Section accounts.
Context {B : Type} (repr : Q -> string) (payload : string -> string -> Z -> B) (settings : MockSettings).
#[local] Abbreviation config := (@config B).
#[local] Abbreviation do_event := (do_event repr payload settings).
#[local] Abbreviation run_events := (run_events repr payload settings).
Implicit Types (w : @server B) (rs : list (request * @phase B)) (c : @Mock.config B).
Context (e : string).

Definition stats_of (w : @server B) : EndpointStats := default no_stats (assoc_get e (stats w)).

(** Requests to the endpoint that came to an end, or joined another. *)
Definition settled (s : EndpointStats) : Z := replays s + executions s + rate_limited s + injected_failures s.

Definition executing (x : request * @phase B) : bool :=
  match x.2 with Sleeping _ => (endpoint x.1 =? e)%string | _ => false end.

(** What is neither settled nor executing. *)
Definition gap (c : config) : Z :=
  requests (stats_of (world c)) - settled (stats_of (world c)) - Z.of_nat (countb executing (reqs c)).

(** Whether an event cancels an executing request. *)
Definition aborts (a : action) (c : config) : Z :=
  match a with
  | Cancel i => match reqs c !! i with Some x => if executing x then 1 else 0 | None => 0 end
  | _ => 0
  end.

Fixpoint aborted (es : list action) (c : config) : Z :=
  match es with
  | [] => 0
  | a :: es' => aborts a c + match do_event a c with Some c' => aborted es' c' | None => 0 end
  end.

(** By how much a change of the counters moves the difference of received and settled. *)
Definition open_requests (w : @server B) : Z := requests (stats_of w) - settled (stats_of w).

Lemma count_open f r w d : (forall s, requests (f s) - settled (f s) = requests s - settled s + d) ->
  open_requests (count f r w) = open_requests w + if (endpoint r =? e)%string then d else 0.
Proof using Type.
  intros Hf. unfold open_requests, stats_of, count, bump. cbn [stats with_stats]. rewrite assoc_get_put.
  destruct (String.eqb_spec (endpoint r) e) as [E|E]; case_decide as Hd; try congruence; [|lia].
  cbn [from_option id]. rewrite Hf. by rewrite E.
Qed.

Lemma open_stats w w' : stats w' = stats w -> open_requests w' = open_requests w.
Proof using Type. intros E. unfold open_requests, stats_of. by rewrite E. Qed.

Lemma headers_open wait r w : open_requests (_rate_limit_headers repr wait r w).1 = open_requests w.
Proof using Type. apply open_stats. by apply (headers_idem repr wait r w). Qed.

(** One more or less for the endpoint. *)
Definition mine (r : request) : Z := if (endpoint r =? e)%string then 1 else 0.

Lemma count_one f r w d : (forall s, requests (f s) - settled (f s) = requests s - settled s + d) ->
  open_requests (count f r w) = open_requests w + d * mine r.
Proof using Type. intros Hf. rewrite (count_open f r w d Hf). unfold mine. destruct (_ =? _)%string; lia. Qed.

Lemma execute_start_open ur ul r w : let '(w', x) := execute_start repr settings ur ul r w in
  open_requests w' = open_requests w - match x with inl _ => mine r | inr _ => 0 end.
Proof using Type.
  unfold execute_start. destruct (active _ _ _) as [rs rule].
  destruct (match rule with None => (rs, None) | Some _ => roll (now w) ur (endpoint r) rs end) as [rs' faulted].
  destruct (match faulted with Some f => _ | None => None end) as [f|].
  - assert (open_requests (count count_rejection r (with_chaos rs' w)) = open_requests w) as Hr.
    { rewrite (count_one _ _ _ 0) by (intros s; unfold settled; cbn; lia). change (open_requests (with_chaos rs' w)) with (open_requests w). lia. }
    destruct (status f =? 429).
    + pose proof (headers_open 1 r (count count_limited r (count count_rejection r (with_chaos rs' w)))) as Hh.
      destruct (_rate_limit_headers _ _ _ _) as [w1 hs]. cbn [fst] in Hh. rewrite Hh, (count_one _ _ _ (-1)), Hr by (intros s; unfold settled; cbn; lia). lia.
    + rewrite (count_one _ _ _ (-1)), Hr by (intros s; unfold settled; cbn; lia). lia.
  - destruct (acquire _ _ _) as [b wait]. destruct (negb _); [|by rewrite Z.sub_0_r].
    match goal with |- context [_rate_limit_headers repr wait r ?w1] => pose proof (headers_open wait r w1) as Hh end.
    destruct (_rate_limit_headers _ _ _ _) as [w1 hs]. cbn [fst] in Hh. rewrite Hh, (count_one _ _ _ (-1)) by (intros s; unfold settled; cbn; lia).
    change (open_requests (with_buckets _ (with_chaos rs' w))) with (open_requests w). lia.
Qed.

Lemma execute_finish_open u r w : let '(w', x) := execute_finish payload settings u r w in open_requests w' = open_requests w - mine r.
Proof using Type. unfold execute_finish. destruct (negb _); rewrite (count_one _ _ _ (-1)) by (intros s; unfold settled; cbn; lia); lia. Qed.

Definition executes (r : request) (p : @phase B) : Z := if executing (r, p) then 1 else 0.

Lemma handle_start_open ur ul r w : let '(w', p) := handle_start repr settings ur ul r w in
  open_requests w' = open_requests w + executes r p.
Proof using Type.
  unfold handle_start.
  assert (open_requests (count count_request r w) = open_requests w + mine r) as Hq by (rewrite (count_one _ _ _ 1) by (intros s; unfold settled; cbn; lia); lia).
  destruct (key_of r) as [k|].
  - destruct (get k _ _) as [s [body|]].
    + rewrite (count_one _ _ _ (-1)) by (intros s'; unfold settled; cbn; lia).
      change (open_requests (with_idem s (count count_request r w))) with (open_requests (count count_request r w)). rewrite Hq. cbn. lia.
    + destruct (begin k _) as [s1 [[] h]].
      * match goal with |- context [execute_start repr settings ur ul r ?w1] =>
          pose proof (execute_start_open ur ul r w1) as He; change (open_requests w1) with (open_requests (count count_request r w)) in He;
          destruct (execute_start repr settings ur ul r w1) as [w2 x] end.
        rewrite Hq in He. destruct x as [x|until].
        -- change (open_requests (with_idem _ w2)) with (open_requests w2). rewrite He. cbn. lia.
        -- rewrite He. unfold executes, executing, mine. cbn [fst snd]. destruct (_ =? _)%string; lia.
      * rewrite (count_one _ _ _ (-1)) by (intros s'; unfold settled; cbn; lia).
        match goal with |- context [open_requests (with_idem s1 ?w1)] =>
          change (open_requests (with_idem s1 w1)) with (open_requests (count count_request r w)) end.
        rewrite Hq. cbn. lia.
  - match goal with |- context [execute_start repr settings ur ul r ?w1] =>
      pose proof (execute_start_open ur ul r w1) as He; destruct (execute_start repr settings ur ul r w1) as [w2 x] end.
    rewrite Hq in He. destruct x as [x|until]; rewrite He; unfold executes, executing, mine; cbn [fst snd]; [lia|destruct (_ =? _)%string; lia].
Qed.

Lemma handle_wake_open u r w : let '(w', p) := handle_wake payload settings u r w in
  open_requests w' = open_requests w - mine r /\ executes r p = 0.
Proof using Type.
  unfold handle_wake. pose proof (execute_finish_open u r w) as He. destruct (execute_finish _ _ _ _ _) as [w1 x].
  destruct (key_of r) as [k|]; [destruct x as [x|body]|]; by rewrite <- He.
Qed.

(** A request changes its phase. *)
Lemma countb_insert rs i r p p' : rs !! i = Some (r, p) ->
  Z.of_nat (countb executing (<[i := (r, p')]> rs)) = Z.of_nat (countb executing rs) - executes r p + executes r p'.
Proof using Type.
  intros Hi. rewrite (insert_take_drop rs i) by (by eapply lookup_lt_Some).
  assert (countb executing rs = countb executing (take i rs ++ (r, p) :: drop (S i) rs)) as -> by (by rewrite (take_drop_middle _ _ _ Hi)).
  rewrite !countb_app. cbn [countb]. unfold executes. destruct (executing (r, p)), (executing (r, p')); lia.
Qed.

Lemma gap_advance i r p c w' p' d : reqs c !! i = Some (r, p) -> open_requests w' = open_requests (world c) - executes r p + executes r p' + d ->
  gap (advance i r c (w', p')) = gap c + d.
Proof using Type.
  intros Hi Ho. unfold gap, advance. cbn [world reqs fst snd]. rewrite (countb_insert _ i r p) by done. unfold open_requests in Ho. lia.
Qed.

Lemma event_gap a c c' : a <> Reset -> do_event a c = Some c' -> gap c' = gap c + aborts a c.
Proof using Type.
  intros Ha E. destruct a as [r|i ur ul|i u|i|i|dt|e' st ra se ex|e'| | |]; cbn [do_event] in E; cbn [aborts].
  - injection E as <-. unfold gap. cbn [world reqs]. rewrite countb_app. cbn. lia.
  - destruct (reqs c !! i) as [[r []]|] eqn:Hi; try done. injection E as <-. pose proof (handle_start_open ur ul r (world c)) as Ho.
    destruct (handle_start _ _ _ _ _ _) as [w' p]. rewrite (gap_advance i r Fresh c w' p 0) by (try done; cbn; lia). lia.
  - destruct (reqs c !! i) as [[r [|until| |]]|] eqn:Hi; try done. destruct (Qle_bool _ _); [|done]. injection E as <-.
    pose proof (handle_wake_open u r (world c)) as Ho. destruct (handle_wake _ _ _ _ _) as [w' p]. destruct Ho as [Ho Hp].
    rewrite (gap_advance i r (Sleeping until) c w' p 0); [lia|done|]. rewrite Ho, Hp. unfold executes, executing, mine. cbn [fst snd]. destruct (_ =? _)%string; lia.
  - destruct (reqs c !! i) as [[r [| |h|]]|] eqn:Hi; try done. destruct (join _ _) as [o|]; [|done]. injection E as <-.
    rewrite (gap_advance i r (Waiting h) c (world c) (Done o) 0) by (try done; cbn; lia). lia.
  - destruct (reqs c !! i) as [[r [|until|h|]]|] eqn:Hi; try done; injection E as <-.
    + match goal with |- gap (advance i r c ?wp) = _ => destruct wp as [w' p'] eqn:Ew end.
      rewrite (gap_advance i r (Sleeping until) c w' p' (executes r (Sleeping until))); [done|done|].
      assert (open_requests w' = open_requests (world c) /\ executes r p' = 0) as [-> ->]; [|lia].
      destruct (key_of r); injection Ew as <- <-; done.
    + rewrite (gap_advance i r (Waiting h) c (world c) (Done (inl Cancelled)) 0) by (try done; unfold executes, executing; cbn [fst snd]; lia). done.
  - destruct (Qle_bool _ _); [|done]. injection E as <-. by rewrite Z.add_0_r.
  - injection E as <-. by rewrite Z.add_0_r.
  - injection E as <-. by rewrite Z.add_0_r.
  - injection E as <-. by rewrite Z.add_0_r.
  - injection E as <-. by rewrite Z.add_0_r.
  - done.
Qed.

Lemma run_gap es : forall c c', Reset ∉ es -> run_events es c = Some c' -> gap c' = gap c + aborted es c.
Proof using Type.
  induction es as [|a es IH]; intros c c' Hno E; cbn [run_events aborted] in *; [injection E as <-; lia|].
  rewrite not_elem_of_cons in Hno. destruct Hno as [Ha Hno]. destruct (do_event a c) as [c1|] eqn:Ea; [|done].
  rewrite (IH c1 c' Hno E), (event_gap a c c1) by (by try apply not_eq_sym). lia.
Qed.
End accounts.

(** the counters of the mock add up.  Over any run without a reset, whatever is
    cancelled or fails, the requests an endpoint received are those replayed, executed,
    refused and failed, with those executing now and those cancelled while they were. *)
Theorem requests_accounted {B} (repr : Q -> string) (payload : string -> string -> Z -> B) settings e w es c :
  quiet w -> Reset ∉ es -> run_events repr payload settings es (start w) = Some c ->
  let s := stats_of e (world c) in
  requests s = replays s + executions s + rate_limited s + injected_failures s +
    Z.of_nat (countb (executing e) (reqs c)) + aborted repr payload settings e es (start w).
Proof.
  intros (_ & _ & _ & _ & _ & Hs) Hno E. pose proof (run_gap repr payload settings e es (start w) c Hno E) as Hg.
  assert (gap e (start w) = 0) as H0 by (unfold gap, stats_of; cbn [start world reqs]; by rewrite Hs).
  rewrite H0 in Hg. unfold gap, settled in Hg. cbn zeta. lia.
Qed.

Lemma requests_accounted_witness :
  let c := demo_config (demo_arrivals ++ [Cancel 0; Resume 1]) in let s := stats_of LAYOUT (world c) in
  requests s = 2 /\ replays s = 1 /\
  aborted demo_repr demo_payload demo_settings LAYOUT (demo_arrivals ++ [Cancel 0; Resume 1]) (start demo_server) = 1 /\
  requests s = replays s + executions s + rate_limited s + injected_failures s + Z.of_nat (countb (executing LAYOUT) (reqs c)) +
    aborted demo_repr demo_payload demo_settings LAYOUT (demo_arrivals ++ [Cancel 0; Resume 1]) (start demo_server).
Proof.
  cbn zeta. split_and!; [by vm_compute..|].
  apply (requests_accounted demo_repr demo_payload demo_settings LAYOUT demo_server (demo_arrivals ++ [Cancel 0; Resume 1])); [apply demo_quiet| |by vm_compute].
  unfold demo_arrivals. cbn [app]. rewrite !not_elem_of_cons. repeat split; try done. by intros ?%elem_of_nil.
Defined.
