(* ===== verification/Trace.v ===== *)
(** * Trace context ([common/tracing.py], [common/middleware.py])

    The trace id of a request, from the header that brings it through the API, the page
    queue, the workers and the reaper to the model servers.  A header is bytes decoded
    as latin-1, so a character is a byte here and [lower] and [strip] have the latin-1
    part of their Python meaning.  [uuid4().hex] is a draw, an argument.  Headers of a
    response are Starlette's; what is used of them is a parameter with its law. *)

From S2P Require Import Prelude Py Redis Prog Streams.
#[local] Open Scope Z_scope.

(** ** [tracing.py] *)

(** The two context variables, as one task sees them. *)
Record ctx := { _trace_id : string; _span_id : string }.

Definition no_context : ctx := {| _trace_id := ""; _span_id := "" |}.

(** [uuid4().hex] and its first half. *)
Definition new_trace_id (uuid_hex : string) : string := uuid_hex.
Definition new_span_id (uuid_hex : string) : string := String.substring 0 16 uuid_hex.

(** [s or t] *)
Definition str_or (s t : string) : string := match s with EmptyString => t | _ => s end.

Definition set_trace_context (trace_id : string) (span_id : option string) (uuid_hex : string) : ctx :=
  {| _trace_id := trace_id; _span_id := str_or (default "" span_id) (new_span_id uuid_hex) |}.

Definition format_traceparent (c : ctx) (uuid1 uuid2 : string) : string :=
  "00-" +:+ str_or (_trace_id c) (new_trace_id uuid1) +:+ "-" +:+ str_or (_span_id c) (new_span_id uuid2) +:+ "-01".

(** [str.lower] and [str.isspace] on latin-1. *)
Definition lower_char (c : Ascii.ascii) : Ascii.ascii :=
  let n := ascii_code c in
  if (((65 <=? n) && (n <=? 90)) || ((192 <=? n) && (n <=? 222) && negb (n =? 215)))%N
  then Ascii.ascii_of_N (n + 32) else c.

Fixpoint lower (s : string) : string :=
  match s with
  | EmptyString => EmptyString
  | String c s' => String (lower_char c) (lower s')
  end.

Definition latin_space (c : Ascii.ascii) : bool := is_space c || (ascii_code c =? 133)%N || (ascii_code c =? 160)%N.

Fixpoint lstrip_latin (s : string) : string :=
  match s with
  | EmptyString => EmptyString
  | String c s' => if latin_space c then lstrip_latin s' else s
  end.

Fixpoint rstrip_latin (s : string) : string :=
  match s with
  | EmptyString => EmptyString
  | String c s' => match rstrip_latin s' with
                   | EmptyString => if latin_space c then EmptyString else String c EmptyString
                   | t => String c t
                   end
  end.

Definition strip_latin (s : string) : string := lstrip_latin (rstrip_latin s).

(** [[0-9a-f]] *)
Definition is_hex (c : Ascii.ascii) : bool := is_digit c || ((97 <=? ascii_code c) && (ascii_code c <=? 102))%N.

(** [[0-9a-f]{n}], and the rest. *)
Fixpoint hex_run (n : nat) (s : string) : option (string * string) :=
  match n, s with
  | O, _ => Some ("", s)
  | S n', String c s' =>
      if is_hex c then match hex_run n' s' with Some (h, rest) => Some (String c h, rest) | None => None end else None
  | S _, EmptyString => None
  end.

Fixpoint literal (p s : string) : option string :=
  match p, s with
  | EmptyString, _ => Some s
  | String a p', String c s' => if Ascii.eqb a c then literal p' s' else None
  | String _ _, EmptyString => None
  end.

(** [$] also matches before a final newline. *)
Definition at_end (s : string) : bool := (s =? "")%string || (s =? String (Ascii.ascii_of_N 10) "")%string.

(** [_TRACEPARENT_RE.match] *)
Definition match_traceparent (s : string) : option (string * string) :=
  s ← literal "00-" s;
  '(t, s) ← hex_run 32 s;
  s ← literal "-" s;
  '(p, s) ← hex_run 16 s;
  s ← literal "-" s;
  '(_, s) ← hex_run 2 s;
  if at_end s then Some (t, p) else None.

Definition parse_traceparent (header : option string) : option (string * string) :=
  match header with
  | None | Some EmptyString => None
  | Some h => match_traceparent (lower (strip_latin h))
  end.

(** ** [middleware.py] *)

(** [dict(scope["headers"])]: the last of equal names. *)
Definition dict_of (headers : list (string * string)) : list (string * string) :=
  fold_left (λ d kv, assoc_put kv.1 kv.2 d) headers [].

Definition incoming (headers : list (string * string)) : option string :=
  match assoc_get "traceparent" (dict_of headers) with Some EmptyString | None => None | h => h end.

(** What a request binds, for the draws of its ids. *)
Definition bind_request (headers : list (string * string)) (uuid_trace uuid_span : string) : ctx :=
  match parse_traceparent (incoming headers) with
  | Some (trace, _) => set_trace_context trace (Some (new_span_id uuid_span)) uuid_span
  | None => set_trace_context (new_trace_id uuid_trace) None uuid_span
  end.

Section middleware.
Context {H : Type} (set_header : string -> string -> H -> H).

Inductive message := ResponseStart (status : Z) (headers : H) | OtherMessage (type : string).

(** [send_wrapper] over the messages of the application: what is sent, and the status. *)
Fixpoint send_wrapper (trace : string) (status : Z) (ms : list message) : list message * Z :=
  match ms with
  | [] => ([], status)
  | ResponseStart st hs :: ms' =>
      let '(sent, status) := send_wrapper trace st ms' in
      (ResponseStart st (set_header "x-trace-id" trace hs) :: sent, status)
  | m :: ms' => let '(sent, status) := send_wrapper trace status ms' in (m :: sent, status)
  end.

(** What was sent, what the application raised and the status in the access log. *)
Record served := { sent : list message; raised : option exn; logged : option Z }.

(** An application is what it sends and how it ends, in the context it runs in. *)
Definition TraceMiddleware (type : string) (headers : list (string * string)) (app : ctx -> list message * option exn)
  (outer : ctx) (uuid_trace uuid_span : string) : served :=
  if (type =? "http")%string then
    let c := bind_request headers uuid_trace uuid_span in
    let '(ms, e) := app c in
    let '(out, status) := send_wrapper (_trace_id c) 500 ms in
    {| sent := out; raised := e; logged := Some status |}
  else let '(ms, e) := app outer in {| sent := ms; raised := e; logged := None |}.
End middleware.
Arguments message : clear implicits.
Arguments served : clear implicits.

(** ** The other hops *)

(** [Worker._handle_page] and [Reaper._recover] adopt the id of the task. *)
Definition bind_task (t : PageTask) (uuid_trace uuid_span : string) : ctx :=
  set_trace_context (str_or (trace_id t) (new_trace_id uuid_trace)) (Some (new_span_id uuid_span)) uuid_span.
Definition bind_orphan (t : PageTask) (uuid_span : string) : ctx :=
  set_trace_context (trace_id t) (Some (new_span_id uuid_span)) uuid_span.

(** [_add_trace_context] of the logs: the ids it adds to an event. *)
Definition _add_trace_context (c : ctx) (event : list (string * string)) : list (string * string) :=
  let event := match _trace_id c with EmptyString => event | t => assoc_put "trace_id" t event end in
  match _span_id c with EmptyString => event | s => assoc_put "span_id" s event end.

(** A page put back any number of times: where and when each replacement was parsed. *)
Fixpoint requeued (rs : list (string * eid * Z * Z)) (t : PageTask) : result PageTask :=
  match rs with
  | [] => inr t
  | (stream, i, now, a) :: rs' => let* t' := _parse stream i (requeue_fields t now a) in requeued rs' t'
  end.

(** ** Well-formed ids *)

Definition hex_id (n : nat) (s : string) : Prop := String.length s = n /\ str_forall is_hex s = true.

(** The ids bound: 32 and 16 lowercase hexadecimal digits. *)
Definition ids_ok (c : ctx) : Prop := hex_id 32 (_trace_id c) /\ hex_id 16 (_span_id c).

Lemma hex_run_spec n s h rest : hex_run n s = Some (h, rest) <-> s = h +:+ rest /\ hex_id n h.
Proof.
  revert s h rest. induction n as [|n IH]; intros s h rest; cbn [hex_run].
  - split; [intros [= <- <-]; by split|]. intros [-> [Hl _]]. by destruct h.
  - destruct s as [|c s].
    { split; [done|]. intros [E [Hl _]]. by destruct h. }
    destruct (is_hex c) eqn:Hc.
    + destruct (hex_run n s) as [[h1 r1]|] eqn:E.
      * apply IH in E as [-> [Hl Hf]]. split.
        -- intros [= <- <-]. split; [done|]. split; cbn; [by rewrite Hl|by rewrite Hc].
        -- destruct h as [|c' h]; [by intros [_ [? _]]|]. intros [[= <- E2] [Hl' Hf']]. cbn in Hl', Hf'. injection Hl' as Hl'.
           apply andb_true_iff in Hf' as [_ Hf'].
           assert (hex_run n (h1 +:+ r1) = Some (h, rest)) as E3 by (apply IH; by repeat split).
           assert (hex_run n (h1 +:+ r1) = Some (h1, r1)) as E4 by (apply IH; by repeat split). congruence.
      * split; [done|]. destruct h as [|c' h]; [by intros [_ [? _]]|]. intros [[= <- ->] [Hl' Hf']]. cbn in Hl', Hf'. injection Hl' as Hl'.
        apply andb_true_iff in Hf' as [_ Hf'].
        assert (hex_run n (h +:+ rest) = Some (h, rest)) as E3 by (apply IH; by repeat split). congruence.
    + split; [done|]. destruct h as [|c' h]; [by intros [_ [? _]]|]. intros [[= <- ->] [_ Hf']]. cbn in Hf'. by rewrite Hc in Hf'.
Qed.

Lemma literal_spec p s rest : literal p s = Some rest <-> s = p +:+ rest.
Proof.
  revert s. induction p as [|a p IH]; intros s; cbn [literal].
  - split; [by intros [= ->]|by intros ->].
  - destruct s as [|c s]; [by split|]. destruct (Ascii.eqb_spec a c) as [->|Hne].
    + rewrite IH. split; [by intros ->|by intros [= ->]].
    + split; [done|]. intros [= -> _]. done.
Qed.

Lemma match_traceparent_spec s t p : match_traceparent s = Some (t, p) <->
  exists f rest, s = "00-" +:+ t +:+ "-" +:+ p +:+ "-" +:+ f +:+ rest /\ hex_id 32 t /\ hex_id 16 p /\ hex_id 2 f /\ at_end rest = true.
Proof.
  unfold match_traceparent. split.
  - intros (s1 & E1 & H)%bind_Some. apply literal_spec in E1 as ->.
    apply bind_Some in H as ([t1 s2] & [-> Ht]%hex_run_spec & H). apply bind_Some in H as (s3 & ->%literal_spec & H).
    apply bind_Some in H as ([p1 s4] & [-> Hp]%hex_run_spec & H). apply bind_Some in H as (s5 & ->%literal_spec & H).
    apply bind_Some in H as ([f s6] & [-> Hf]%hex_run_spec & H). destruct (at_end s6) eqn:He; [|done]. injection H as <- <-.
    by exists f, s6.
  - intros (f & rest & -> & Ht & Hp & Hf & He). rewrite (proj2 (literal_spec _ _ _) eq_refl). cbn [mbind option_bind].
    rewrite (proj2 (hex_run_spec 32 _ t _) (conj eq_refl Ht)). cbn [mbind option_bind].
    rewrite (proj2 (literal_spec "-" _ _) eq_refl). cbn [mbind option_bind].
    rewrite (proj2 (hex_run_spec 16 _ p _) (conj eq_refl Hp)). cbn [mbind option_bind].
    rewrite (proj2 (literal_spec "-" _ _) eq_refl). cbn [mbind option_bind].
    rewrite (proj2 (hex_run_spec 2 _ f _) (conj eq_refl Hf)). cbn [mbind option_bind]. by rewrite He.
Qed.

(** ** Headers read back *)

(** The characters of a well-formed header. *)
Definition header_char (c : Ascii.ascii) : bool := is_hex c || Ascii.eqb c (Ascii.ascii_of_N 45).

Lemma header_char_plain c : header_char c = true -> latin_space c = false /\ lower_char c = c.
Proof. destruct c as [[] [] [] [] [] [] [] []]; vm_compute; done. Qed.

Lemma header_plain s : str_forall header_char s = true -> strip_latin s = s /\ lower s = s.
Proof.
  intros H. assert (rstrip_latin s = s /\ lower s = s) as [Er El].
  { induction s as [|c s IH]; [done|]. cbn in H. apply andb_true_iff in H as [Hc H]. destruct (IH H) as [E1 E2].
    destruct (header_char_plain c Hc) as [Hs Hl]. cbn [rstrip_latin lower]. rewrite E1, E2, Hl, Hs. split; [by destruct s|done]. }
  split; [|done]. unfold strip_latin. rewrite Er. destruct s as [|c s]; [done|]. cbn in H. apply andb_true_iff in H as [Hc _].
  cbn [lstrip_latin]. by destruct (header_char_plain c Hc) as [-> _].
Qed.

Lemma hex_plain n s : hex_id n s -> str_forall header_char s = true.
Proof.
  intros [_ H]. induction s as [|c s IH]; [done|]. cbn in H |- *. apply andb_true_iff in H as [Hc H].
  rewrite IH by done. unfold header_char. by rewrite Hc.
Qed.

Lemma hex_nonempty n s t : hex_id (S n) s -> str_or s t = s.
Proof. intros [H _]. by destruct s. Qed.

Lemma hex_span u : hex_id 32 u -> hex_id 16 (new_span_id u).
Proof.
  intros [Hl Hf]. unfold new_span_id. assert (forall n s, (n <= String.length s)%nat -> str_forall is_hex s = true ->
    hex_id n (String.substring 0 n s)) as H.
  { induction n as [|n IH]; intros s Hn Hs; [by destruct s|]. destruct s as [|c s]; [cbn in Hn; lia|].
    cbn in Hn, Hs. apply andb_true_iff in Hs as [Hc Hs]. destruct (IH s ltac:(lia) Hs) as [E1 E2].
    split; cbn; [by rewrite E1|by rewrite Hc]. }
  apply H; [lia|done].
Qed.

Lemma set_context_ok t span u : hex_id 32 t -> (forall s, span = Some s -> hex_id 16 s) -> hex_id 32 u ->
  ids_ok (set_trace_context t span u).
Proof.
  intros Ht Hs Hu. split; [done|]. cbn. destruct span as [s|]; cbn; [|by apply hex_span].
  rewrite (hex_nonempty 15); by apply Hs.
Qed.

Lemma parse_ids h t p : parse_traceparent h = Some (t, p) -> hex_id 32 t /\ hex_id 16 p.
Proof. destruct h as [[|c h]|]; [done| |done]. intros (f & rest & _ & Ht & Hp & _)%match_traceparent_spec. done. Qed.

Lemma format_parse c u1 u2 : ids_ok c -> parse_traceparent (Some (format_traceparent c u1 u2)) = Some (_trace_id c, _span_id c).
Proof.
  intros [Ht Hs]. unfold format_traceparent. rewrite (hex_nonempty 31), (hex_nonempty 15) by done.
  change (match_traceparent (lower (strip_latin ("00-" +:+ _trace_id c +:+ "-" +:+ _span_id c +:+ "-01"))) = Some (_trace_id c, _span_id c)).
  destruct (header_plain ("00-" +:+ _trace_id c +:+ "-" +:+ _span_id c +:+ "-01")) as [-> ->].
  { rewrite !str_forall_app, (hex_plain 32 (_trace_id c)), (hex_plain 16 (_span_id c)) by done. reflexivity. }
  apply match_traceparent_spec. exists "01", "". by split_and!.
Qed.

Lemma incoming_format c u1 u2 : incoming [("traceparent", format_traceparent c u1 u2)] = Some (format_traceparent c u1 u2).
Proof. done. Qed.

Lemma request_ids_ok headers u v : hex_id 32 u -> hex_id 32 v -> ids_ok (bind_request headers u v).
Proof.
  intros Hu Hv. unfold bind_request. destruct (parse_traceparent _) as [[t p]|] eqn:E.
  - apply parse_ids in E as [Ht _]. apply set_context_ok; [done| |done]. intros s [= <-]. by apply hex_span.
  - by apply set_context_ok.
Qed.

Lemma task_ids_ok t u v : hex_id 32 (trace_id t) -> hex_id 32 v -> ids_ok (bind_task t u v) /\ _trace_id (bind_task t u v) = trace_id t.
Proof.
  intros Ht Hv. assert (_trace_id (bind_task t u v) = trace_id t) as E by (cbn; by apply (hex_nonempty 31)).
  split; [|done]. split; [by rewrite E|]. cbn. rewrite (hex_nonempty 15); by apply hex_span.
Qed.

Lemma requeued_trace rs : forall t, exists t', requeued rs t = inr t' /\ trace_id t' = trace_id t.
Proof.
  induction rs as [|[[[stream i] now] a] rs IH]; intros t; [by exists t|]. cbn [requeued]. rewrite _parse_requeue. cbn [rbind].
  match goal with |- context [requeued rs ?t1] => destruct (IH t1) as (t' & -> & E) end. by exists t'.
Qed.

(** C24: one trace id follows a page through the system.  Whatever headers a request
    arrives with, the ids bound to it are well formed, the caller's trace id when its
    header carries one; and however often the page is put back, that trace id is bound
    where a worker handles it and where the reaper recovers it, and again behind the
    header the worker's model call sends, with a well-formed span at each hop. *)
Theorem trace_end_to_end headers u v stream i job index now rs u1 v1 v2 u3 v3 u4 v4 :
  Forall (hex_id 32) [u; v; v1; v2; u4; v4] ->
  let api := bind_request headers u v in
  ids_ok api /\
  (forall trace parent, parse_traceparent (incoming headers) = Some (trace, parent) -> _trace_id api = trace) /\
  exists t, (let* t0 := _parse stream i (enqueue_fields job index now (_trace_id api)) in requeued rs t0) = inr t /\
    let worker := bind_task t u1 v1 in let orphan := bind_orphan t v2 in
    let model := bind_request [("traceparent", format_traceparent worker u3 v3)] u4 v4 in
    (ids_ok worker /\ ids_ok orphan /\ ids_ok model) /\
    _trace_id worker = _trace_id api /\ _trace_id orphan = _trace_id api /\ _trace_id model = _trace_id api.
Proof.
  intros Hd. repeat (apply Forall_cons in Hd as [? Hd]). intros api.
  assert (ids_ok api) as Hapi by by apply request_ids_ok. split_and!; [done| |].
  - intros trace parent E. unfold api, bind_request. by rewrite E.
  - rewrite _parse_enqueue. cbn [rbind].
    match goal with |- context [requeued rs ?t1] => destruct (requeued_trace rs t1) as (t & -> & Et) end. cbn in Et.
    exists t. split; [done|]. destruct Hapi as [Ht Hs]. rewrite <- Et in *.
    destruct (task_ids_ok t u1 v1) as [Hw Ew]; [done..|]. cbn zeta. rewrite Ew. split_and!; try done.
    + split; [done|]. cbn. rewrite (hex_nonempty 15); by apply hex_span.
    + by apply request_ids_ok.
    + unfold bind_request. rewrite incoming_format, format_parse by done. exact Ew.
Qed.

Section served.
Context {H : Type} (get_header : string -> H -> option string) (put_header : string -> string -> H -> H).
Hypothesis header_law : forall k v h, get_header k (put_header k v h) = Some v.

Definition status_of (m : message H) : option Z := match m with ResponseStart st _ => Some st | OtherMessage _ => None end.
Definition echoes (trace : string) (m : message H) : Prop :=
  match m with ResponseStart _ hs => get_header "x-trace-id" hs = Some trace | OtherMessage _ => True end.

Lemma send_wrapper_spec trace ms : forall st0, let '(out, st) := send_wrapper put_header trace st0 ms in
  (status_of <$> out) = (status_of <$> ms) /\ Forall (echoes trace) out /\ st = default st0 (last (omap status_of ms)).
Proof using header_law.
  induction ms as [|[st hs|k] ms IH]; intros st0; cbn [send_wrapper]; [by split_and!| |].
  - specialize (IH st). destruct (send_wrapper put_header trace st ms) as [out st']. destruct IH as (E & Hf & ->).
    split_and!; [by rewrite !fmap_cons, E|constructor; [apply header_law|done]|]. cbn [omap list_omap status_of]. rewrite last_cons. by destruct (last _).
  - specialize (IH st0). destruct (send_wrapper put_header trace st0 ms) as [out st']. destruct IH as (E & Hf & ->).
    split_and!; [by rewrite !fmap_cons, E|by constructor|done].
Qed.

(** The middleware sends what the application sends, tells the client the trace id the
    application ran under, lets its exception through, and logs the status the client
    was sent last, 500 if none; anything but HTTP passes untouched. *)
Theorem middleware_transparent type headers app outer u v :
  let c := if (type =? "http")%string then bind_request headers u v else outer in
  let r := TraceMiddleware put_header type headers app outer u v in
  (status_of <$> sent r) = (status_of <$> (app c).1) /\ raised r = (app c).2 /\
  if (type =? "http")%string
  then Forall (echoes (_trace_id c)) (sent r) /\ logged r = Some (default 500 (last (omap status_of (app c).1)))
  else sent r = (app c).1 /\ logged r = None.
Proof using header_law.
  cbn zeta. unfold TraceMiddleware. destruct (type =? "http")%string; [|by destruct (app outer)].
  destruct (app (bind_request headers u v)) as [ms e]. pose proof (send_wrapper_spec (_trace_id (bind_request headers u v)) ms 500) as Hs.
  destruct (send_wrapper _ _ _ _) as [out st]. destruct Hs as (E & Hf & ->). by split_and!.
Qed.
End served.

(** ** Runs *)

Definition demo_id (c : string) : string := c +:+ "23456789abcdef0123456789abcdef1".
Definition demo_header : string := "  00-0AF7651916CD43DD8448EB211C80319C-B7AD6B7169203331-01 ".

Lemma demo_parse : parse_traceparent (incoming [("traceparent", demo_header)]) =
  Some ("0af7651916cd43dd8448eb211c80319c", "b7ad6b7169203331").
Proof. vm_compute. reflexivity. Qed.

Lemma trace_end_to_end_witness :
  exists t, (let* t0 := _parse "s" (1, 0)%N (enqueue_fields "j" 0 5 "0af7651916cd43dd8448eb211c80319c") in
             requeued [("s", (2, 0)%N, 9, 1)] t0) = inr t /\
  let worker := bind_task t (demo_id "a") (demo_id "b") in
  _trace_id (bind_request [("traceparent", format_traceparent worker "" "")] (demo_id "c") (demo_id "d")) =
    "0af7651916cd43dd8448eb211c80319c".
Proof.
  destruct (trace_end_to_end [("traceparent", demo_header)] (demo_id "0") (demo_id "1") "s" (1, 0)%N "j" 0 5
    [("s", (2, 0)%N, 9, 1)] (demo_id "a") (demo_id "b") (demo_id "e") "" "" (demo_id "c") (demo_id "d")) as (_ & Hp & t & Ht & _ & _ & _ & Hm).
  - repeat (apply Forall_cons; split; [by vm_compute|]). apply Forall_nil_2.
  - specialize (Hp _ _ demo_parse). rewrite Hp in *. by exists t.
Defined.
