(* ===== verification/Shutdown.v ===== *)
(** * Graceful shutdown of a worker ([app/worker/main.py])

    [request_stop] sets a flag; the dispatch loop of [Worker.run] then takes nothing new,
    waits for the pages it holds and ends.  The theorem is about [Worker.dispatch_round],
    one turn of that loop, among the handlers that finish pages meanwhile. *)

From S2P Require Import Prelude Py Redis Prog PageState Streams Config Splitter Pipeline Reaper Worker.
#[local] Open Scope Z_scope.

Section shutdown.
Context {W : Type} `{RedisLaws W} `{Clock W} `{Memory disk W} `{Memory worker_state W}.
Context (LW : MemoryLaws worker_state W).
(** What a process keeps of the documents and what it keeps of its tasks are apart. *)
Context (apart : forall (d : disk) (w : W), (mem (set_mem d w) : worker_state) = mem w).
Context (settings : Settings) (consumer : string) (sweep_interval_ms : Z).
Implicit Types w : W.
#[local] Abbreviation round := (dispatch_round settings consumer sweep_interval_ms).

Definition tasks_of (s : worker_state) : list PageTask := (wk_in_flight s).*1.

(** Stopping, with no task but those of [T]. *)
Definition winding_down (T : list PageTask) (w : W) : Prop :=
  wk_stopping (mem w) = true /\ tasks_of (mem w) ⊆ T.

Lemma winding_update T f w : (forall s, wk_stopping (f s) = wk_stopping s /\ tasks_of (f s) ⊆ tasks_of s) ->
  winding_down T w -> winding_down T (update f w).
Proof using LW.
  intros Hf [Hs Ht]. unfold winding_down, update. rewrite mem_set_mem. destruct (Hf (mem w)) as [-> Hsub]. split; [done|]. by transitivity (tasks_of (mem w)).
Qed.

Lemma awaited_tasks s : tasks_of (awaited s) ⊆ tasks_of s.
Proof using Type.
  unfold tasks_of, awaited. cbn. intros t (x & -> & [_ Hx]%list_elem_of_filter)%list_elem_of_fmap. by apply list_elem_of_fmap_2.
Qed.

Lemma delete_winding T dir job w : winding_down T w -> winding_down T (delete_document dir job w).1.
Proof using apart.
  intros Hw. unfold delete_document. destruct (pdf_path dir job) as [e|path]; [done|].
  destruct ((mem w : disk) !! path); [|done]. cbn [fst]. unfold winding_down. by rewrite apart.
Qed.

Section among.
Context (T : list PageTask) (rely : W -> W -> Prop) (fault : exn -> Prop).
Context (others : forall w w', rely w w' -> winding_down T w -> winding_down T w').
#[local] Abbreviation keeps := (keeps rely fault (winding_down T) (winding_down T)).

Lemma keeps_sweep : keeps (_sweep_orphan_documents settings).
Proof using apart others.
  apply keeps_bind; [by apply keeps_own|]. intros candidates. apply keeps_fold. intros job removed _.
  apply keeps_bind; [by apply keeps_call|]. intros live. destruct (negb _); [by apply keeps_ret|].
  apply keeps_bind; [apply keeps_own; intros w; by apply delete_winding|]. intros deleted. by apply keeps_ret.
Qed.

(** The sweep of a turn, if it is due. *)
Lemma keeps_tidy now s : keeps
  (if sweep_interval_ms <=? now - wk_last_sweep_ms s
   then do! note (update (swept now)) in
        catch (do! _sweep_orphan_documents settings in Ret tt) (λ e, if is_Exception e then Ret tt else Raise e)
   else Ret tt).
Proof using LW apart others.
  destruct (_ <=? _); [|by apply keeps_ret].
  apply keeps_bind; [apply keeps_note; intros w; by apply winding_update|]. intros [].
  apply keeps_catch; [apply keeps_bind; [apply keeps_sweep|intros ?; by apply keeps_ret]|].
  intros e. destruct (is_Exception e); [by apply keeps_ret|by apply keeps_raise].
Qed.

(** What remains to be waited for. *)
Definition drained (w : W) : Prop := wk_stopping (mem w) = true /\ wk_in_flight (mem w) = [].

Lemma wp_round w : winding_down T w ->
  wp rely fault (winding_down T) round (λ o w', winding_down T w' /\ (o = inr false -> drained w')) w.
Proof using LW apart others.
  intros Hw. unfold dispatch_round. cbn [sample own pbind wp fst snd].
  assert (wk_stopping (mem w) = true) as Hst by apply Hw. rewrite Hst. cbn [andb negb].
  destruct (bool_decide (wk_in_flight (mem w) = [])) eqn:E; [by bool_prop|]. rewrite andb_false_r. cbn [pbind for_each]. rewrite bool_decide_true by done. cbn [negb wp fst snd].
  apply wp_bind. eapply wp_mono; [|apply keeps_tidy; exact Hw]. intros [e|[]] w1 Hw1; [done|]. cbn [wp fst snd].
  destruct (bool_decide (wk_in_flight (mem w1) = [])) eqn:E1; cbn [negb].
  - cbn [wp]. bool_prop. split; [done|]. intros [= Hn]. split; [apply Hw1|done].
  - apply wp_bind. eapply wp_mono; [|apply (keeps_act rely fault (winding_down T) (winding_down T) others (λ _ x, x) (update awaited)); [|exact Hw1]].
    + intros [e|[]] w2 Hw2; done.
    + intros w2. apply winding_update. intros s. split; [done|apply awaited_tasks].
Qed.

End among.

(** ** It ends *)

(** The turn's state of the worker, by what its loop looks at. *)
Definition alike (w w' : W) : Prop :=
  wk_stopping (mem w') = wk_stopping (mem w) /\ wk_in_flight (mem w') = wk_in_flight (mem w).

Lemma run_sweep w : exists n w', run (_sweep_orphan_documents settings) w = (inr n, w') /\ alike w w'.
Proof using apart.
  unfold _sweep_orphan_documents. cbn [sample own pbind run]. generalize (orphan_candidates (data_dir settings) (orphan_sweep_age_s settings) w).
  intros l. generalize 0. revert w. induction l as [|job l IH]; intros w n; [by exists n, w|]. cbn [fold_prog pbind ask call step run of_result].
  destruct (bool_decide (get_job job w = ∅)); cbn [negb]; [|by apply IH].
  destruct (delete_document (data_dir settings) job w) as [w1 b] eqn:E. cbn [own pbind run]. rewrite E. cbn [pbind run].
  assert (alike w w1) as Halike.
  { apply (f_equal fst) in E. cbn in E. subst w1. unfold delete_document. destruct (pdf_path _ job); [done|].
    destruct ((mem w : disk) !! _); [|done]. cbn [fst]. unfold alike. by rewrite apart. }
  destruct (IH w1 (if b then n + 1 else n)) as (n' & w' & E0 & [E1 E2]). exists n', w'. split; [exact E0|].
  destruct Halike as [E3 E4]. split; congruence.
Qed.

Lemma run_tidy now s w : exists w', run
  (if sweep_interval_ms <=? now - wk_last_sweep_ms s
   then do! note (update (swept now)) in
        catch (do! _sweep_orphan_documents settings in Ret tt) (λ e, if is_Exception e then Ret tt else Raise e)
   else Ret tt) w = (inr tt, w') /\ alike w w'.
Proof using LW apart.
  destruct (_ <=? _); [|by exists w]. cbn [note own pbind run].
  destruct (run_sweep (update (swept now) w)) as (n & w' & E & [E1 E2]). exists w'.
  rewrite run_catch, run_bind, E. cbn. split; [done|]. unfold alike. rewrite E1, E2. unfold update. by rewrite mem_set_mem.
Qed.

Lemma run_drained w : drained w -> run round w = (inr false, w).
Proof using Type. intros [Hs Hf]. unfold dispatch_round. cbn [sample own pbind run]. by rewrite Hs, Hf. Qed.

Lemma run_last w : wk_stopping (mem w) = true -> wk_in_flight (mem w) <> [] ->
  (forall x, x ∈ wk_in_flight (mem w) -> x.2 = true) -> exists w', run round w = (inr true, w') /\ drained w'.
Proof using LW apart.
  intros Hs Hne Hall. unfold dispatch_round. cbn [sample own pbind run]. rewrite Hs, bool_decide_false by done. cbn [andb negb].
  rewrite andb_false_r. cbn [pbind for_each run]. rewrite bool_decide_true by done. cbn [negb sample own pbind run].
  rewrite run_bind. destruct (run_tidy (now_ms w) (mem w) w) as (w1 & -> & [E1 E2]). cbn [sample own pbind run].
  rewrite E2, bool_decide_false by done. cbn [negb]. exists (update awaited w1). split; [done|].
  unfold drained, update. rewrite mem_set_mem. split; [by rewrite <- Hs, <- E1|]. cbn. rewrite E2.
  destruct (filter _ (wk_in_flight (mem w))) as [|x l] eqn:Ef; [done|].
  assert (x ∈ filter (λ x, x.2 = false) (wk_in_flight (mem w))) as [Hx Hin]%list_elem_of_filter by (rewrite Ef; apply list_elem_of_here).
  specialize (Hall x Hin). congruence.
Qed.
End shutdown.


(** A worker told to stop with one page still running, then handled. *)
Definition demo_stopping (finished : bool) : demo_world :=
  ((demo_layout_done, ∅ : disk), no_stats, {| wk_in_flight := [(demo_task, finished)]; wk_lead := 0; wk_held := ∅;
     wk_stats := ∅; wk_last_sweep_ms := 0; wk_stopping := true |}).

