(* ===== verification/Environment.v ===== *)
(** * The environment of a process ([app/config.py])

    The rest of [Settings], in groups that follow the sections of the source, each
    with the constraints that [Field] puts on it as a decidable predicate and the
    values it has when nothing is set.  [Config.Settings] is the group the page
    pipeline reads; [environment] is all of them.  A value is what pydantic made
    of the variable's text; a float is its rational value, so the infinities,
    which [gt] lets through, are outside the model. *)

From Stdlib Require Import QArith.
From S2P Require Import Prelude Py Config.
#[local] Open Scope Z_scope.

(** ** The groups *)

Record connection_settings := {
  log_level : string; redis_url : string; redis_max_connections : Z; redis_pool_timeout : Q;
  mock_base_url : string;
  http_timeout_s : Q; http_connect_timeout_s : Q; http_max_connections : Z }.

Record rate_settings := {
  layout_rps : Q; layout_burst : Z; vlm_rps : Q; vlm_burst : Z;
  rate_limit_max_wait_s : Q; rate_limit_jitter_ms : Q; rate_limit_bucket_ttl_s : Z }.

Record retry_settings := { max_attempts : Z; backoff_base_ms : Z; backoff_max_ms : Z }.

Record aimd_settings := {
  adaptive_enabled : bool;
  aimd_min_rate : Q; aimd_decrease_factor : Q; aimd_increase_step : Q; aimd_increase_after : Z;
  aimd_refractory_ms : Q; vlm_latency_slo_ms : Q; layout_latency_slo_ms : Q;
  aimd_latency_samples : Z; aimd_latency_floor_fraction : Q; aimd_latency_min_samples : Z }.

Record breaker_settings := {
  breaker_window_s : Q; breaker_min_volume : Z; breaker_failure_ratio : Q;
  breaker_cooldown_s : Q; breaker_max_probes : Z; breaker_probe_successes : Z }.

Record maintenance_settings := {
  reaper_enabled : bool; reaper_interval_s : Q; lease_renew_interval_s : Q;
  orphan_sweep_interval_s : Q; metrics_flush_interval_s : Q }.

Record upload_settings := { max_pages : Z; max_upload_mb : Z; upload_chunk_bytes : Z }.

Record stream_settings := {
  result_stream_maxlen : Z; result_ttl_s : Z;
  sse_block_ms : Z; sse_batch : Z; sse_history_limit : Z; sse_retry_ms : Z;
  sse_max_subscribers : Z; sse_max_duration_s : Q }.

Record admission_settings := {
  queue_high_watermark : Z; queue_low_watermark_fraction : Q;
  retry_after_cap_s : Z; retry_after_jitter : Q }.

Record environment := {
  page :> Settings; connection : connection_settings; rates : rate_settings; retrying : retry_settings;
  adaptive : aimd_settings; breaking : breaker_settings; maintenance : maintenance_settings;
  uploads : upload_settings; streaming : stream_settings; admission : admission_settings }.

(** ** The constraints

    [gt=0], [ge=0], [ge=1], and the upper bounds. *)

Definition gt0 (q : Q) : bool := Qltb 0 q.
Definition ge0 (q : Q) : bool := Qle_bool 0 q.

Definition connection_valid (c : connection_settings) : bool :=
  (0 <? redis_max_connections c) && gt0 (redis_pool_timeout c) && gt0 (http_timeout_s c)
  && gt0 (http_connect_timeout_s c) && (0 <? http_max_connections c).

Definition rates_valid (r : rate_settings) : bool :=
  gt0 (layout_rps r) && (0 <? layout_burst r) && gt0 (vlm_rps r) && (0 <? vlm_burst r)
  && gt0 (rate_limit_max_wait_s r) && ge0 (rate_limit_jitter_ms r) && (0 <? rate_limit_bucket_ttl_s r).

Definition retry_valid (r : retry_settings) : bool :=
  (1 <=? max_attempts r) && (0 <? backoff_base_ms r) && (0 <? backoff_max_ms r).

Definition page_valid (s : Settings) : bool :=
  gt0 (page_deadline_s s) && gt0 (degrade_after_s s) && ge0 (saturation_pause_s s)
  && (1 <=? max_requeues s).

Definition aimd_valid (a : aimd_settings) : bool :=
  gt0 (aimd_min_rate a) && gt0 (aimd_decrease_factor a) && Qltb (aimd_decrease_factor a) 1
  && gt0 (aimd_increase_step a) && (1 <=? aimd_increase_after a) && ge0 (aimd_refractory_ms a)
  && ge0 (vlm_latency_slo_ms a) && ge0 (layout_latency_slo_ms a) && (1 <=? aimd_latency_samples a)
  && gt0 (aimd_latency_floor_fraction a) && Qle_bool (aimd_latency_floor_fraction a) 1
  && (1 <=? aimd_latency_min_samples a).

Definition breaker_valid (b : breaker_settings) : bool :=
  gt0 (breaker_window_s b) && (1 <=? breaker_min_volume b) && gt0 (breaker_failure_ratio b)
  && Qle_bool (breaker_failure_ratio b) 1 && gt0 (breaker_cooldown_s b)
  && (1 <=? breaker_max_probes b) && (1 <=? breaker_probe_successes b).

Definition worker_valid (s : Settings) : bool :=
  (0 <? worker_concurrency s) && (0 <? worker_prefetch s) && (0 <=? worker_lead_reserve s)
  && (0 <=? worker_lead_poll_ms s) && (0 <? worker_block_ms s).

Definition maintenance_valid (s : Settings) (m : maintenance_settings) : bool :=
  gt0 (reaper_interval_s m) && gt0 (reaper_min_idle_s s) && (0 <? reaper_batch s)
  && gt0 (lease_renew_interval_s m) && gt0 (orphan_sweep_interval_s m) && gt0 (orphan_sweep_age_s s)
  && gt0 (metrics_flush_interval_s m).

Definition uploads_valid (s : Settings) (u : upload_settings) : bool :=
  (0 <? max_pages u) && (0 <? max_upload_mb u) && (0 <? upload_chunk_bytes u)
  && (0 <=? pdf_text_sample_chars s).

Definition streaming_valid (s : stream_settings) : bool :=
  (0 <? result_stream_maxlen s) && (0 <? result_ttl_s s) && (0 <? sse_block_ms s) && (0 <? sse_batch s)
  && (0 <? sse_history_limit s) && (0 <? sse_retry_ms s) && (0 <? sse_max_subscribers s)
  && gt0 (sse_max_duration_s s).

Definition admission_valid (a : admission_settings) : bool :=
  (0 <? queue_high_watermark a) && gt0 (queue_low_watermark_fraction a)
  && Qltb (queue_low_watermark_fraction a) 1 && (0 <? retry_after_cap_s a) && ge0 (retry_after_jitter a).

Definition evaluation_valid (s : Settings) : bool :=
  (0 <? eval_max_nodes s) && gt0 (eval_ted_budget_ms s) && (0 <? eval_ted_work_per_ms s).

(** [Settings()] raises unless every field is as its [Field] says. *)
Definition valid (e : environment) : bool :=
  connection_valid (connection e) && rates_valid (rates e) && retry_valid (retrying e) && page_valid e
  && aimd_valid (adaptive e) && breaker_valid (breaking e) && worker_valid e
  && maintenance_valid e (maintenance e) && uploads_valid e (uploads e) && streaming_valid (streaming e)
  && admission_valid (admission e) && evaluation_valid e.

(** ** With nothing set *)

Definition default_environment : environment := {|
  page := default_settings;
  connection := {|
    log_level := "INFO"; redis_url := "redis://redis:6379/0"; redis_max_connections := 32;
    redis_pool_timeout := 10; mock_base_url := "http://mock-model:8001"; http_timeout_s := 10;
    http_connect_timeout_s := 2; http_max_connections := 64 |};
  rates := {|
    layout_rps := 100; layout_burst := 100; vlm_rps := 10; vlm_burst := 10;
    rate_limit_max_wait_s := 30; rate_limit_jitter_ms := 25; rate_limit_bucket_ttl_s := 300 |};
  retrying := {| max_attempts := 3; backoff_base_ms := 200; backoff_max_ms := 5000 |};
  adaptive := {|
    adaptive_enabled := true; aimd_min_rate := 1; aimd_decrease_factor := 7 # 10;
    aimd_increase_step := 1; aimd_increase_after := 20; aimd_refractory_ms := 1000;
    vlm_latency_slo_ms := 4500; layout_latency_slo_ms := 500; aimd_latency_samples := 100;
    aimd_latency_floor_fraction := 1 # 2; aimd_latency_min_samples := 20 |};
  breaking := {|
    breaker_window_s := 10; breaker_min_volume := 10; breaker_failure_ratio := 1 # 2;
    breaker_cooldown_s := 5; breaker_max_probes := 3; breaker_probe_successes := 2 |};
  maintenance := {|
    reaper_enabled := true; reaper_interval_s := 15; lease_renew_interval_s := 5;
    orphan_sweep_interval_s := 120; metrics_flush_interval_s := 5 |};
  uploads := {| max_pages := 100; max_upload_mb := 120; upload_chunk_bytes := 1048576 |};
  streaming := {|
    result_stream_maxlen := 256; result_ttl_s := 3600; sse_block_ms := 15000; sse_batch := 64;
    sse_history_limit := 512; sse_retry_ms := 2000; sse_max_subscribers := 64;
    sse_max_duration_s := 900 |};
  admission := {|
    queue_high_watermark := 5000; queue_low_watermark_fraction := 8 # 10; retry_after_cap_s := 300;
    retry_after_jitter := 2 # 10 |} |}.

Lemma default_environment_valid : valid default_environment = true.
Proof. reflexivity. Qed.

(** *** What the comments say of the fields together

    None of this is checked by [Settings]; the defaults satisfy it. *)

(** A job of [max_pages] pages writes two events a page and one at its end. *)
Definition job_events (u : upload_settings) : Z := 2 * max_pages u + 1.

Definition consistent (e : environment) : bool :=
  (job_events (uploads e) <=? result_stream_maxlen (streaming e))
  && (result_stream_maxlen (streaming e) <=? sse_history_limit (streaming e))
  && Qltb (lease_renew_interval_s (maintenance e)) (reaper_min_idle_s e)
  && Qltb (page_deadline_s e) (orphan_sweep_age_s e)
  && Qle_bool (degrade_after_s e) (page_deadline_s e).

Lemma default_environment_consistent : consistent default_environment = true.
Proof. reflexivity. Qed.

(** The constraints, as hypotheses. *)
Ltac valid_facts Hv :=
  unfold valid, connection_valid, rates_valid, retry_valid, page_valid, aimd_valid, breaker_valid,
    worker_valid, maintenance_valid, uploads_valid, streaming_valid, admission_valid, evaluation_valid,
    gt0, ge0 in Hv;
  repeat match goal with
    | H : _ && _ = true |- _ => apply andb_true_iff in H as [? ?]
    | H : Qltb _ _ = true |- _ => apply Qltb_true in H
    | H : Qle_bool _ _ = true |- _ => apply Qle_bool_iff in H
    | H : (_ <? _) = true |- _ => apply Z.ltb_lt in H
    | H : (_ <=? _) = true |- _ => apply Z.leb_le in H
    end.

Lemma valid_settings_ok e : valid e = true -> settings_ok e.
Proof. intros Hv. valid_facts Hv. by split. Qed.
