(* ===== verification/App.v ===== *)
(** * Connections and the life of a process ([app/core/redis_client.py], [app/main.py])

    The module's two clients and its script handles, and the startup and shutdown of the
    API and of a worker around them.  A client is the pool it owns, a pool its number.
    What the server and redis-py answer (a ping, the closing of a pool, the creation of
    the group) are arguments.  The theorems: a process that came up releases both pools
    however it ends; script handles always belong to the client in use; a blocking read
    is never taken for a dead server; and one that does not come up leaks its pools,
    against what [lifespan] says. *)

From Stdlib Require Import QArith Lqa.
From S2P Require Import Prelude Py.
#[local] Open Scope Z_scope.

(** ** State *)

(** The arguments of [BlockingConnectionPool.from_url] the code chooses, in seconds. *)
Record Pool := {
  max_connections : Z; timeout : Q; socket_timeout : Q; socket_connect_timeout : Q; health_check_interval : Z }.

(** The module's globals, and the pools that were created and not closed.  A handle is
    the client a script was registered on, with its source. *)
Record connections := {
  _client : option nat; _stream_client : option nat; _scripts : list (string * (nat * string));
  pools : list (nat * Pool); created : nat }.

Definition no_connections : connections :=
  {| _client := None; _stream_client := None; _scripts := []; pools := []; created := 0 |}.

(** A call: its value or exception, and the globals it leaves. *)
Definition call (A : Type) : Type := connections -> result A * connections.

Definition ret {A} (a : A) : call A := λ s, (inr a, s).
Definition bind {A B} (m : call A) (k : A -> call B) : call B := λ s,
  match m s with (inl e, s) => (inl e, s) | (inr a, s) => k a s end.
(** The result of something outside. *)
Definition outside {A} (r : result A) : call A := λ s, (r, s).
(** [try: m finally: f]: an exception of [f] replaces the one of [m]. *)
Definition finally {A} (m : call A) (f : call unit) : call A := λ s,
  let '(r, s) := m s in
  match f s with (inl e, s) => (inl e, s) | (inr _, s) => (r, s) end.

#[local] Notation "'do*' x := m 'in' k" := (bind m (λ x, k)) (at level 10, x pattern, m at level 100, k at level 200).

(** ** [redis_client.py] *)

Definition with_pool (p : Pool) (s : connections) : connections :=
  {| _client := _client s; _stream_client := _stream_client s; _scripts := _scripts s;
     pools := pools s ++ [(created s, p)]; created := S (created s) |}.
Definition with_client (c : option nat) (s : connections) : connections :=
  {| _client := c; _stream_client := _stream_client s; _scripts := _scripts s; pools := pools s; created := created s |}.
Definition with_stream (c : option nat) (s : connections) : connections :=
  {| _client := _client s; _stream_client := c; _scripts := _scripts s; pools := pools s; created := created s |}.
Definition with_scripts (m : list (string * (nat * string))) (s : connections) : connections :=
  {| _client := _client s; _stream_client := _stream_client s; _scripts := m; pools := pools s; created := created s |}.

(** [Redis.from_pool(BlockingConnectionPool.from_url(...))] *)
Definition new_client (p : Pool) : call nat := λ s, (inr (created s), with_pool p s).

Definition main_pool (max_connections : Z) (pool_timeout : Q) : Pool :=
  {| max_connections := max_connections; timeout := pool_timeout; socket_timeout := 5; socket_connect_timeout := 2;
     health_check_interval := 30 |}.

Definition init_redis (max_connections : Z) (pool_timeout : Q) (ping : result bool) : call nat :=
  do* c := new_client (main_pool max_connections pool_timeout) in
  do* _ := (λ s, (inr tt, with_client (Some c) s)) in
  do* _ := outside ping in
  ret c.

Definition stream_pool (max_connections block_ms : Z) (pool_timeout : Q) : Pool :=
  {| max_connections := max_connections; timeout := pool_timeout;
     socket_timeout := inject_Z block_ms / 1000 + 5; socket_connect_timeout := 2; health_check_interval := 0 |}.

Definition init_stream_redis (max_connections block_ms : Z) (pool_timeout : Q) (ping : result bool) : call nat :=
  do* c := new_client (stream_pool max_connections block_ms pool_timeout) in
  do* _ := (λ s, (inr tt, with_stream (Some c) s)) in
  do* _ := outside ping in
  ret c.

Definition get_redis : call nat := λ s,
  match _client s with
  | None => (inl (RuntimeError "Redis not initialised; init_redis() runs in lifespan"), s)
  | Some c => (inr c, s)
  end.

Definition get_stream_redis : call nat := λ s,
  match _stream_client s with Some c => (inr c, s) | None => get_redis s end.

(** [aclose]: the pool is gone when it returns. *)
Definition aclose (c : nat) (r : result unit) : call unit := λ s,
  match r with
  | inl e => (inl e, s)
  | inr _ => (inr tt, {| _client := _client s; _stream_client := _stream_client s; _scripts := _scripts s;
                         pools := filter (λ p, p.1 <> c) (pools s); created := created s |})
  end.

(** [close_redis], for how the closing of each pool goes. *)
Definition close_redis (stream main : result unit) : call unit :=
  do* _ := (λ s, match _stream_client s with
                 | None => ret tt s
                 | Some c => bind (aclose c stream) (λ _ s, (inr tt, with_stream None s)) s
                 end) in
  λ s, match _client s with
       | None => ret tt s
       | Some c => bind (aclose c main) (λ _ s, (inr tt, with_scripts [] (with_client None s))) s
       end.

Definition register_script (name source : string) : call (nat * string) := λ s,
  match assoc_get name (_scripts s) with
  | Some h => (inr h, s)
  | None => bind get_redis (λ c s, (inr (c, source), with_scripts (assoc_put name (c, source) (_scripts s)) s)) s
  end.

(** What the health check reports, for the answer of the ping. *)
Inductive redis_status := Ok | Unreachable | Error (e : exn).

Definition healthcheck (ping : result bool) : call redis_status := λ s,
  match bind get_redis (λ _, outside ping) s with
  | (inr pong, s) => (inr (if pong : bool then Ok else Unreachable), s)
  | (inl e, s) => if is_Exception e then (inr (Error e), s) else (inl e, s)
  end.

(** ** [main.py] *)

(** The endpoint's status code, and whether it says ok. *)
Definition health (ping : result bool) : call (Z * bool) :=
  do* deps := healthcheck ping in
  ret (match deps with Ok => (200, true) | _ => (503, false) end).

(** The settings that reach the pools. *)
Record pool_settings := {
  redis_max_connections : Z; redis_pool_timeout : Q; sse_max_subscribers : Z; sse_block_ms : Z }.

(** What a running process does with the module, and over many requests: an exception ends
    the request, not the process. *)
Inductive use := UseClient | UseStream | UseScript (name source : string) | UseHealth (ping : result bool).

Definition do_use (u : use) (s : connections) : connections :=
  match u with
  | UseClient => (get_redis s).2
  | UseStream => (get_stream_redis s).2
  | UseScript name source => (register_script name source s).2
  | UseHealth ping => (health ping s).2
  end.

(** How the steps of a process outside this module go: the pings, the construction of
    what lives in [app.state], the consumer group, the run, the closing of the pools. *)
Record fortune := {
  ping_main : result bool; ping_stream : result bool; construct : result unit; ensure_group : result unit;
  uses : list use; ended : result unit; close_stream : result unit; close_main : result unit }.

Definition startup (settings : pool_settings) (f : fortune) : call unit :=
  do* _ := init_redis (redis_max_connections settings) (redis_pool_timeout settings) (ping_main f) in
  do* _ := get_redis in
  do* _ := init_stream_redis (sse_max_subscribers settings + 8) (sse_block_ms settings) (redis_pool_timeout settings)
             (ping_stream f) in
  do* _ := get_stream_redis in
  do* _ := outside (construct f) in
  outside (ensure_group f).

(** [yield], or [worker.run()]. *)
Definition serve (f : fortune) : call unit := λ s, (ended f, fold_left (λ s u, do_use u s) (uses f) s).

Definition lifespan (settings : pool_settings) (f : fortune) : call unit :=
  do* _ := startup settings f in
  finally (serve f) (close_redis (close_stream f) (close_main f)).

(** [main] of a worker: no second pool, and everything built before the [try]. *)
Definition worker_main (settings : pool_settings) (f : fortune) : call unit :=
  do* _ := init_redis (redis_max_connections settings) (redis_pool_timeout settings) (ping_main f) in
  do* _ := get_redis in
  do* _ := outside (construct f) in
  finally (serve f) (close_redis (close_stream f) (close_main f)).

(** ** Handles and clients *)

(** Every handle is registered on the client in use, and what is in use is open. *)
Record wired (s : connections) : Prop := {
  wi_scripts : forall name h, (name, h) ∈ _scripts s -> _client s = Some h.1;
  wi_client : forall c, _client s = Some c -> c ∈ (pools s).*1;
  wi_stream : forall c, _stream_client s = Some c -> c ∈ (pools s).*1 /\ _client s <> Some c;
  wi_fresh : forall c, c ∈ (pools s).*1 -> (c < created s)%nat }.

Lemma assoc_put_elem {V} (k : string) (v : V) m x : x ∈ assoc_put k v m -> x = (k, v) \/ x ∈ m.
Proof.
  induction m as [|[k1 v1] m IH]; cbn [assoc_put].
  - intros ->%list_elem_of_singleton. by left.
  - case_decide as E; intros [->|H]%elem_of_cons; [by left|right; by apply list_elem_of_further|right; apply list_elem_of_here|].
    destruct (IH H) as [->|H2]; [by left|right; by apply list_elem_of_further].
Qed.

Lemma use_kept u s : pools (do_use u s) = pools s /\ _client (do_use u s) = _client s /\
  _stream_client (do_use u s) = _stream_client s /\ created (do_use u s) = created s.
Proof.
  destruct u as [| |name source|ping]; cbn [do_use].
  - unfold get_redis. by destruct (_client s) eqn:E.
  - unfold get_stream_redis, get_redis. by destruct (_stream_client s) eqn:E, (_client s) eqn:E'.
  - unfold register_script, bind, get_redis. destruct (assoc_get name (_scripts s)); [done|]. destruct (_client s) eqn:E; cbn; by rewrite E.
  - unfold health, healthcheck, bind, outside, ret, get_redis. destruct (_client s) eqn:E, ping as [e|]; cbn; try by rewrite E.
    destruct (is_Exception e); cbn; by rewrite E.
Qed.

Lemma use_wired u s : wired s -> wired (do_use u s).
Proof.
  intros [Hs Hc Hst Hf]. destruct (use_kept u s) as (Ep & Ec & Est & Ecr).
  split; rewrite ?Ep, ?Ec, ?Est, ?Ecr; try done. intros n h Hin.
  destruct u as [| |name source|ping]; cbn [do_use] in *.
  - apply (Hs n). revert Hin. unfold get_redis. by destruct (_client s).
  - apply (Hs n). revert Hin. unfold get_stream_redis, get_redis. by destruct (_stream_client s), (_client s).
  - revert Hin. unfold register_script, bind, get_redis. destruct (assoc_get name (_scripts s)); [by apply Hs|].
    destruct (_client s) as [c|] eqn:E; cbn; [|by apply Hs]. intros [[= -> ->]|H]%assoc_put_elem; [done|by apply (Hs n)].
  - apply (Hs n). revert Hin. unfold health, healthcheck, bind, outside, ret, get_redis.
    destruct (_client s), ping as [e|]; cbn; try done; by destruct (is_Exception e).
Qed.

Lemma uses_kept us : forall s, let s' := fold_left (λ s u, do_use u s) us s in
  pools s' = pools s /\ _client s' = _client s /\ _stream_client s' = _stream_client s /\ created s' = created s.
Proof.
  induction us as [|u us IH]; intros s; [done|]. cbn [fold_left]. destruct (IH (do_use u s)) as (-> & -> & -> & ->). apply use_kept.
Qed.

(** The operations of the module, over the life of a process. *)
Inductive operation :=
| Init (max_connections : Z) (pool_timeout : Q) (ping : result bool)
| InitStream (max_connections block_ms : Z) (pool_timeout : Q) (ping : result bool)
| Close (stream main : result unit)
| Use (u : use).

Definition do_operation (o : operation) (s : connections) : connections :=
  match o with
  | Init n t ping => (init_redis n t ping s).2
  | InitStream n b t ping => (init_stream_redis n b t ping s).2
  | Close stream main => (close_redis stream main s).2
  | Use u => do_use u s
  end.

Lemma init_state n t ping s : (init_redis n t ping s).2 = with_client (Some (created s)) (with_pool (main_pool n t) s).
Proof. unfold init_redis, bind, new_client, outside, ret. by destruct ping. Qed.

Lemma init_stream_state n b t ping s :
  (init_stream_redis n b t ping s).2 = with_stream (Some (created s)) (with_pool (stream_pool n b t) s).
Proof. unfold init_stream_redis, bind, new_client, outside, ret. by destruct ping. Qed.

Lemma new_pool_elem (s : connections) p c : c ∈ (pools s ++ [(created s, p)]).*1 <-> c ∈ (pools s).*1 \/ c = created s.
Proof. rewrite fmap_app, elem_of_app. cbn [fmap list_fmap fst]. by rewrite list_elem_of_singleton. Qed.

Lemma closed_elem (l : list (nat * Pool)) c c' : c' ∈ (filter (λ p, p.1 <> c) l).*1 <-> c' <> c /\ c' ∈ l.*1.
Proof.
  rewrite !list_elem_of_fmap. split.
  - intros ([k p] & -> & [Hne Hin]%list_elem_of_filter). split; [done|]. by exists (k, p).
  - intros (Hne & [k p] & -> & Hin). exists (k, p). split; [done|]. by apply list_elem_of_filter.
Qed.

(** Each half of [close_redis]. *)
Definition closed_stream (r : result unit) (s : connections) : result unit * connections :=
  match _stream_client s with
  | None => ret tt s
  | Some c => bind (aclose c r) (λ _ s, (inr tt, with_stream None s)) s
  end.
Definition closed_main (r : result unit) (s : connections) : result unit * connections :=
  match _client s with
  | None => ret tt s
  | Some c => bind (aclose c r) (λ _ s, (inr tt, with_scripts [] (with_client None s))) s
  end.

Lemma close_halves stream main s : close_redis stream main s =
  match closed_stream stream s with (inl e, s1) => (inl e, s1) | (inr _, s1) => closed_main main s1 end.
Proof. done. Qed.

Lemma closed_stream_wired r s : wired s -> wired (closed_stream r s).2.
Proof.
  intros Hw. unfold closed_stream. destruct (_stream_client s) as [c|] eqn:E; [|done]. destruct r as [e|]; [done|].
  destruct Hw as [Hs Hc Hst Hf]. split; cbn; [done| |done|].
  - intros c' H. apply closed_elem. split; [|by apply Hc]. intros ->. by destruct (Hst c E).
  - intros c' [_ H]%closed_elem. by apply Hf.
Qed.

Lemma closed_main_wired r s : wired s -> wired (closed_main r s).2.
Proof.
  intros Hw. unfold closed_main. destruct (_client s) as [c|] eqn:E; [|done]. destruct r as [e|]; [done|].
  destruct Hw as [Hs Hc Hst Hf]. split; cbn; [by intros n h ?%elem_of_nil|done| |].
  - intros c' H. destruct (Hst c' H) as [H1 H2]. split; [|done]. apply closed_elem. split; [congruence|done].
  - intros c' [_ H]%closed_elem. by apply Hf.
Qed.

Lemma close_wired stream main s : wired s -> wired (close_redis stream main s).2.
Proof.
  intros Hw. rewrite close_halves. pose proof (closed_stream_wired stream s Hw) as Hw1.
  destruct (closed_stream stream s) as [[e|] s1]; [done|]. by apply closed_main_wired.
Qed.

(** A client is created only where there is none, and the second pool after the first. *)
Definition allowed (o : operation) (s : connections) : Prop :=
  match o with Init _ _ _ => _client s = None | _ => True end.

Lemma operation_wired o s : wired s -> allowed o s -> wired (do_operation o s).
Proof.
  intros Hw Ha. destruct o as [n t ping|n b t ping|r1 r2|u]; cbn [do_operation].
  - rewrite init_state. destruct Hw as [Hs Hc Hst Hf]. cbn in Ha. split; cbn.
    + intros name h H. specialize (Hs name h H). congruence.
    + intros c [= <-]. apply new_pool_elem. by right.
    + intros c H. destruct (Hst c H) as [H1 _]. split; [apply new_pool_elem; by left|]. intros E; injection E as E; specialize (Hf _ H1); lia.
    + intros c [H| ->]%new_pool_elem; [specialize (Hf c H)|]; lia.
  - rewrite init_stream_state. destruct Hw as [Hs Hc Hst Hf]. split; cbn; [done| | |].
    + intros c H. apply new_pool_elem. left. by apply Hc.
    + intros c [= <-]. split; [apply new_pool_elem; by right|]. intros H. specialize (Hf _ (Hc _ H)). lia.
    + intros c [H| ->]%new_pool_elem; [specialize (Hf c H)|]; lia.
  - by apply close_wired.
  - by apply use_wired.
Qed.

Fixpoint run_operations (os : list operation) (s : connections) : connections :=
  match os with [] => s | o :: os' => run_operations os' (do_operation o s) end.
Fixpoint all_allowed (os : list operation) (s : connections) : Prop :=
  match os with [] => True | o :: os' => allowed o s /\ all_allowed os' (do_operation o s) end.

(** a script handle is always usable.  Over any history of the module in which a
    client is created only where there is none, whatever pings and closings fail, every
    handle that [register_script] returns belongs to the client in use, whose pool is
    open, and the second client is a different open one. *)
Theorem handles_current os name source : all_allowed os no_connections ->
  let s := run_operations os no_connections in
  wired s /\ forall h s', register_script name source s = (inr h, s') -> _client s' = Some h.1 /\ h.1 ∈ (pools s').*1.
Proof.
  intros Ha. assert (wired no_connections) as Hw.
  { split; cbn; [by intros ? ? ?%elem_of_nil|done|done|by intros ? ?%elem_of_nil]. }
  revert Ha Hw. generalize no_connections. induction os as [|o os IH]; intros s0 Ha Hw; cbn [run_operations].
  2:{ destruct Ha as [Ha Hos]. apply IH; [done|by apply operation_wired]. }
  split; [done|]. intros h s' E. pose proof (use_wired (UseScript name source) s0 Hw) as Hw'. cbn [do_use] in Hw'. rewrite E in Hw'. cbn in Hw'.
  assert (_client s' = Some h.1) as Hc; [|split; [done|by apply (wi_client _ Hw')]].
  revert E. unfold register_script, bind, get_redis. destruct (assoc_get name (_scripts s0)) as [h'|] eqn:Eg.
  - intros [= <- <-]. apply assoc_get_in in Eg. by apply (wi_scripts _ Hw name).
  - destruct (_client s0) as [c|] eqn:Ec; [|done]. by intros [= <- <-].
Qed.

(** C40: what a process leaves behind.  One that came up ends with what it ends with and
    with no pool open and nothing cached, whatever its requests did; one whose startup
    fails raises the failure and leaves pools open, since [lifespan] enters its [try]
    only around the run. *)
Theorem lifespan_releases settings f : close_stream f = inr tt -> close_main f = inr tt ->
  let '(r, s) := lifespan settings f no_connections in
  match (startup settings f no_connections).1 with
  | inr _ => r = ended f /\ pools s = [] /\ _client s = None /\ _stream_client s = None /\ _scripts s = []
  | inl e => r = inl e /\ pools s <> []
  end.
Proof.
  intros H1 H2. unfold lifespan, bind at 1. unfold startup, init_redis, init_stream_redis, bind, new_client, outside, ret.
  destruct (ping_main f); cbn; [done|]. destruct (ping_stream f); cbn; [done|]. destruct (construct f); cbn; [done|].
  destruct (ensure_group f); cbn; [done|]. unfold finally, serve.
  match goal with |- context [fold_left _ _ ?s1] => destruct (uses_kept (uses f) s1) as (Ep & Ec & Es & _);
    set (s2 := fold_left (λ s u, do_use u s) (uses f) s1) in * end.
  rewrite close_halves. unfold closed_stream, closed_main. rewrite Es, H1, H2. cbn. rewrite Ec. cbn. rewrite Ep. by split_and!.
Qed.

(** The same of a worker, which has no second pool. *)
Lemma worker_releases settings f : close_main f = inr tt ->
  let '(r, s) := worker_main settings f no_connections in
  match ping_main f, construct f with
  | inr _, inr _ => r = ended f /\ pools s = [] /\ _client s = None /\ _scripts s = []
  | _, _ => (exists e, r = inl e) /\ pools s <> []
  end.
Proof.
  intros H1. unfold worker_main, bind at 1. unfold init_redis, bind, new_client, outside, ret.
  destruct (ping_main f); cbn; [split; [by eexists|done]|]. destruct (construct f); cbn; [split; [by eexists|done]|].
  unfold finally, serve.
  match goal with |- context [fold_left _ _ ?s1] => destruct (uses_kept (uses f) s1) as (Ep & Ec & Es & _);
    set (s2 := fold_left (λ s u, do_use u s) (uses f) s1) in * end.
  rewrite close_halves. unfold closed_stream, closed_main. rewrite Es. cbn. rewrite Ec, H1. cbn. rewrite Ep. by split_and!.
Qed.

(** A read that blocks for [block_ms] ends before the second pool gives up on it, and not
    before the first one does from five seconds on. *)
Lemma block_within_timeout n block_ms t : (inject_Z block_ms / 1000 < socket_timeout (stream_pool n block_ms t))%Q /\
  (5000 <= block_ms -> (socket_timeout (main_pool n t) <= inject_Z block_ms / 1000)%Q).
Proof.
  cbn. split; [lra|]. intros H. apply Qle_shift_div_l; [done|]. change (5 * 1000)%Q with (inject_Z 5000). by rewrite <- Zle_Qle.
Qed.

(** The health endpoint answers whatever exception the server's client raises. *)
Lemma health_answers ping s : (forall e, ping = inl e -> is_Exception e = true) ->
  exists st ok, (health ping s).1 = inr (st, ok) /\ (st = 200 <-> ping = inr true /\ _client s <> None) /\ (ok = true <-> st = 200).
Proof.
  intros Hp. unfold health, healthcheck, bind, outside, ret, get_redis. destruct (_client s) as [c|].
  - destruct ping as [e|[]]; cbn; [rewrite (Hp e eq_refl); cbn| |]; eexists _, _; split_and!; try done; intuition congruence.
  - cbn. eexists _, _; split_and!; try done. split; [done|]. by intros [_ ?].
Qed.

Definition demo_pools : pool_settings :=
  {| redis_max_connections := 32; redis_pool_timeout := 10; sse_max_subscribers := 64; sse_block_ms := 15000 |}.
Definition demo_fortune : fortune :=
  {| ping_main := inr true; ping_stream := inr true; construct := inr tt; ensure_group := inr tt;
     uses := [UseScript "aimd" "..."; UseHealth (inl TimeoutException)]; ended := inl TransportError;
     close_stream := inr tt; close_main := inr tt |}.

Lemma lifespan_releases_witness : pools (lifespan demo_pools demo_fortune no_connections).2 = [] /\
  (lifespan demo_pools demo_fortune no_connections).1 = inl TransportError.
Proof.
  pose proof (lifespan_releases demo_pools demo_fortune eq_refl eq_refl) as H.
  destruct (lifespan demo_pools demo_fortune no_connections) as [r s]. cbn in H |- *. by destruct H as (-> & -> & _).
Defined.

Lemma handles_current_witness :
  _client (run_operations [Init 32 10 (inr true); Use (UseScript "aimd" "..."); Close (inr tt) (inr tt); Init 32 10 (inr true)]
    no_connections) = Some 1%nat /\
  (forall h s', register_script "aimd" "..." (run_operations
     [Init 32 10 (inr true); Use (UseScript "aimd" "..."); Close (inr tt) (inr tt); Init 32 10 (inr true)] no_connections) = (inr h, s') ->
   _client s' = Some h.1).
Proof.
  split; [reflexivity|]. intros h s' E.
  by destruct (proj2 (handles_current [Init 32 10 (inr true); Use (UseScript "aimd" "..."); Close (inr tt) (inr tt); Init 32 10 (inr true)]
    "aimd" "..." ltac:(by repeat split)) h s' E).
Defined.

(** Creating a client over another one leaves the handles on the first. *)
Example reinit_stale_handle :
  let s := run_operations [Init 32 10 (inr true); Use (UseScript "aimd" "..."); Init 32 10 (inr true)] no_connections in
  (register_script "aimd" "..." s).1 = inr (0%nat, "...") /\ _client s = Some 1%nat.
Proof. by split. Qed.
