(* ===== verification/Wiring.v ===== *)
(** * From the settings to the parts ([app/worker/main.py: main], [app/main.py: lifespan])

    What a worker and an API process construct from an [environment], constructor
    by constructor, in the source's order, with the arguments the source passes.
    The theorems: when valid settings let a process start, and when they do not;
    that the parts meet what the theorems about each of them ask for; that the
    limiter and the controller a worker builds together respect the published rate
    of their endpoint; and that settings every worker accepts can keep the API
    from starting, since it builds its controllers with arguments of its own. *)

From Stdlib Require Import QArith Qround Lqa.
From S2P Require Import Prelude Py Config TokenBucket Breaker Adaptive Client Pipeline Admission Sse Jobs App Environment.
#[local] Open Scope Z_scope.

Definition ENDPOINTS : list string := [LAYOUT; VLM].

(** The published rate, burst and latency target of an endpoint. *)
Definition rps (e : environment) (endpoint : string) : Q :=
  if String.eqb endpoint VLM then vlm_rps (rates e) else layout_rps (rates e).
Definition burst (e : environment) (endpoint : string) : Z :=
  if String.eqb endpoint VLM then vlm_burst (rates e) else layout_burst (rates e).
Definition slo_ms (e : environment) (endpoint : string) : Q :=
  if String.eqb endpoint VLM then vlm_latency_slo_ms (adaptive e) else layout_latency_slo_ms (adaptive e).

(** [{endpoint: make(endpoint) for endpoint in ...}] *)
Fixpoint build {A} (make : string -> result A) (endpoints : list string) : result (list (string * A)) :=
  match endpoints with
  | [] => inr []
  | x :: rest =>
      let* a := make x in
      let* l := build make rest in
      inr ((x, a) :: l)
  end.

(** ** A worker *)

Definition worker_limiter (e : environment) (endpoint : string) : result limiter :=
  make_limiter endpoint (rps e endpoint) (inject_Z (burst e endpoint))
    (inject_Z (rate_limit_bucket_ttl_s (rates e))) (rate_limit_jitter_ms (rates e)).

Definition worker_breaker (e : environment) (_ : string) : result breaker_args :=
  let b := breaking e in
  make_breaker (breaker_window_s b) (breaker_min_volume b) (breaker_failure_ratio b)
    (breaker_cooldown_s b) (breaker_max_probes b) (breaker_probe_successes b).

Definition worker_controller (e : environment) (endpoint : string) : result aimd_args :=
  let a := adaptive e in
  make_adaptive (rps e endpoint) (aimd_min_rate a) (aimd_decrease_factor a) (aimd_increase_step a)
    (aimd_increase_after a) (aimd_refractory_ms a) (slo_ms e endpoint)
    (Some (rps e endpoint * aimd_latency_floor_fraction a)%Q)
    (Z.to_nat (aimd_latency_samples a)) (aimd_latency_min_samples a).

Record worker_parts := {
  wp_pipeline : pipeline_config;
  wp_limiters : list (string * limiter);
  wp_breakers : list (string * breaker_args);
  wp_controllers : list (string * aimd_args);
  wp_gauge_ttl_s : Q; wp_prefetch_limit : Z;
  wp_client : client }.

Definition has {A} (l : list (string * A)) (endpoint : string) : bool :=
  match assoc_get endpoint l with Some _ => true | None => false end.

(** What the worker is given, around them. *)
Definition worker_of (e : environment) (limiters : list (string * limiter))
  (breakers : list (string * breaker_args)) (controllers : list (string * aimd_args)) : worker_parts :=
  {| wp_pipeline := {| pc_ttl_s := result_ttl_s (streaming e); pc_publishes := true;
                       pc_maxlen := result_stream_maxlen (streaming e);
                       pc_result_ttl_s := result_ttl_s (streaming e) |};
     wp_limiters := limiters; wp_breakers := breakers; wp_controllers := controllers;
     wp_gauge_ttl_s := metrics_flush_interval_s (maintenance e) * 3;
     wp_prefetch_limit := worker_concurrency e;
     wp_client := {| cl_has_breaker := has breakers; cl_has_controller := has controllers;
                     cl_has_limiter := has limiters;
                     cl_max_wait_s := rate_limit_max_wait_s (rates e);
                     cl_max_attempts := Z.to_nat (max_attempts (retrying e));
                     cl_backoff_base_ms := inject_Z (backoff_base_ms (retrying e));
                     cl_backoff_max_ms := inject_Z (backoff_max_ms (retrying e)) |} |}.

Definition build_worker (e : environment) : result worker_parts :=
  let* limiters := build (worker_limiter e) ENDPOINTS in
  let* breakers := build (worker_breaker e) ENDPOINTS in
  let* controllers := if adaptive_enabled (adaptive e) then build (worker_controller e) ENDPOINTS
                      else inr [] in
  inr (worker_of e limiters breakers controllers).

(** ** The API *)

(** [AdaptiveRate(redis, endpoint, max_rate=...)]: the constructor's own defaults. *)
Definition api_controller (e : environment) (endpoint : string) : result aimd_args :=
  make_adaptive (rps e endpoint) 1 (7 # 10) 1 20 1000 0 None 100 20.

(** Without [max_probes] and [probe_successes]. *)
Definition api_breaker (e : environment) (_ : string) : result breaker_args :=
  let b := breaking e in
  make_breaker (breaker_window_s b) (breaker_min_volume b) (breaker_failure_ratio b)
    (breaker_cooldown_s b) 3 2.

Definition api_admission (e : environment) : result admission_controller :=
  let a := admission e in
  let* controller := if adaptive_enabled (adaptive e)
                     then (let* c := api_controller e VLM in inr (Some c)) else inr None in
  make_admission (queue_high_watermark a) (queue_low_watermark_fraction a) (vlm_rps (rates e)) controller
    (retry_after_cap_s a) (retry_after_jitter a) (result_ttl_s (streaming e)) "admission".

Record api_parts := {
  ap_slots : SubscriberSlots;
  ap_admission : admission_controller;
  ap_breakers : list (string * breaker_args);
  ap_limiters : list (string * aimd_args) }.

Definition build_api (e : environment) : result api_parts :=
  let slots := {| limit := sse_max_subscribers (streaming e); active := 0; refused := 0; peak := 0 |} in
  let* adm := api_admission e in
  let* breakers := build (api_breaker e) ENDPOINTS in
  let* limiters := if adaptive_enabled (adaptive e) then build (api_controller e) ENDPOINTS
                   else inr [] in
  inr {| ap_slots := slots; ap_admission := adm; ap_breakers := breakers; ap_limiters := limiters |}.

(** What the routes read of the settings. *)
Definition sse_config_of (e : environment) : sse_config :=
  {| Sse.sse_retry_ms := sse_retry_ms (streaming e);
     Sse.sse_history_limit := Z.to_nat (sse_history_limit (streaming e));
     Sse.sse_batch := Z.to_nat (sse_batch (streaming e));
     Sse.sse_max_duration_s := sse_max_duration_s (streaming e) |}.

Definition jobs_config_of (e : environment) : jobs_config :=
  {| jc_data_dir := data_dir e; Jobs.max_pages := max_pages (uploads e);
     Jobs.max_upload_mb := max_upload_mb (uploads e);
     Jobs.upload_chunk_bytes := upload_chunk_bytes (uploads e);
     jc_ttl_s := result_ttl_s (streaming e) |}.

Definition pool_settings_of (e : environment) : pool_settings :=
  {| App.redis_max_connections := redis_max_connections (connection e);
     App.redis_pool_timeout := redis_pool_timeout (connection e);
     App.sse_max_subscribers := sse_max_subscribers (streaming e);
     App.sse_block_ms := sse_block_ms (streaming e) |}.

(** ** What the constructors do with valid arguments *)

Lemma has_get {A} (l : list (string * A)) x : has l x = true <-> exists a, assoc_get x l = Some a.
Proof. unfold has. destruct (assoc_get x l); split; [eauto|done|done|by intros []]. Qed.

Lemma build_cases {A} (make : string -> result A) eps :
  match build make eps with
  | inr l => (forall x a, assoc_get x l = Some a -> x ∈ eps /\ make x = inr a) /\
             forall x, x ∈ eps -> has l x = true /\ exists a, make x = inr a
  | inl err => exists x, x ∈ eps /\ make x = inl err
  end.
Proof.
  induction eps as [|y eps IH]; cbn [build].
  - split; [done|by intros x ?%elem_of_nil].
  - destruct (make y) as [err|b] eqn:Ey; cbn [rbind].
    { exists y. split; [apply list_elem_of_here|done]. }
    destruct (build make eps) as [err|l]; cbn [rbind].
    { destruct IH as (x & Hx & E). exists x. split; [by apply list_elem_of_further|done]. }
    destruct IH as [IH1 IH2]. unfold has. cbn [assoc_get]. split.
    + intros x a. destruct (decide (x = y)) as [->|]; [intros [= <-]; split; [apply list_elem_of_here|done]|].
      intros [Hx E]%IH1. split; [by apply list_elem_of_further|done].
    + intros x. destruct (decide (x = y)) as [->|Hne]; [intros _; split; [done|eauto]|].
      intros [|Hx]%elem_of_cons; [done|]. by apply IH2.
Qed.

Lemma limiter_made ep rate b ttl jitter : (0 < rate)%Q -> (0 < b)%Q ->
  make_limiter ep rate b ttl jitter =
  inr {| l_endpoint := ep; l_rate := rate; l_burst := b; l_ttl_ms := ttl * 1000; l_jitter_ms := jitter |}.
Proof.
  intros Hr Hb. unfold make_limiter.
  by rewrite (proj2 (Qle_bool_false rate 0) Hr), (proj2 (Qle_bool_false b 0) Hb).
Qed.

Lemma breaker_made window volume ratio cooldown probes successes :
  (0 < ratio)%Q -> (ratio <= 1)%Q -> 1 <= volume -> 1 <= probes -> 1 <= successes ->
  exists b, make_breaker window volume ratio cooldown probes successes = inr b /\ Breaker.args_ok b.
Proof.
  intros Hr0 Hr1 Hv Hp Hs. unfold make_breaker.
  rewrite (proj2 (Qltb_true 0 ratio) Hr0), (proj2 (Qle_bool_iff ratio 1) Hr1).
  rewrite !(proj2 (Z.ltb_ge _ _)) by done. eexists. split; [done|]. by split.
Qed.

(** The only argument a valid setting can get wrong is the floor. *)
Lemma adaptive_made top low factor step after refractory slo fl samples min_samples :
  (0 < top)%Q -> (0 < low)%Q -> (0 < factor)%Q -> (factor < 1)%Q -> (0 < step)%Q -> 1 <= after ->
  (0 <= refractory)%Q -> (default (top * (1 # 2)) fl <= top)%Q ->
  match make_adaptive top low factor step after refractory slo fl samples min_samples with
  | inr a => (low <= default (top * (1 # 2)) fl)%Q /\ Adaptive.args_ok a /\
             max_rate a = top /\ min_rate a = low
  | inl x => (default (top * (1 # 2)) fl < low)%Q /\ exists m, x = ValueError m
  end.
Proof.
  intros Ht Hl Hf0 Hf1 Hs Ha Hr Hfl. unfold make_adaptive. set (floor := default _ fl) in *.
  rewrite (proj2 (Qle_bool_false top 0) Ht), (proj2 (Qle_bool_false low 0) Hl). cbn [orb].
  destruct (Qltb top low) eqn:E1; [apply Qltb_true in E1; split; [lra|by eexists]|].
  rewrite (proj2 (Qltb_true 0 factor) Hf0), (proj2 (Qltb_true factor 1) Hf1).
  rewrite (proj2 (Qle_bool_false step 0) Hs), (proj2 (Z.ltb_ge after 1) Ha). cbn [andb negb orb].
  rewrite (proj2 (Qle_bool_iff floor top) Hfl), andb_true_r.
  destruct (Qle_bool low floor) eqn:E2; cbn [negb].
  - apply Qle_bool_iff in E2. split_and!; [done|by split|done|done].
  - apply Qle_bool_false in E2. split; [lra|by eexists].
Qed.

Lemma elem_of_ENDPOINTS ep : ep ∈ ENDPOINTS <-> ep = LAYOUT \/ ep = VLM.
Proof. unfold ENDPOINTS. rewrite !elem_of_cons, elem_of_nil. tauto. Qed.

Lemma rps_pos e ep : valid e = true -> (0 < rps e ep)%Q.
Proof. intros Hv. valid_facts Hv. unfold rps. by destruct (ep =? VLM)%string. Qed.

Lemma burst_pos e ep : valid e = true -> (0 < inject_Z (burst e ep))%Q.
Proof.
  intros Hv. valid_facts Hv. change 0%Q with (inject_Z 0). rewrite <- Zlt_Qlt. unfold burst.
  by destruct (ep =? VLM)%string.
Qed.

(** The floor of the latency signal, which the controller of the endpoint needs at
    or above [aimd_min_rate]. *)
Definition latency_floor_of (e : environment) (endpoint : string) : Q :=
  rps e endpoint * aimd_latency_floor_fraction (adaptive e).

Definition floor_ok (e : environment) (endpoint : string) : Prop :=
  (aimd_min_rate (adaptive e) <= latency_floor_of e endpoint)%Q.

Lemma worker_controller_cases e ep : valid e = true ->
  match worker_controller e ep with
  | inr a => floor_ok e ep /\ Adaptive.args_ok a /\ max_rate a = rps e ep /\
             min_rate a = aimd_min_rate (adaptive e)
  | inl x => ~ floor_ok e ep /\ exists m, x = ValueError m
  end.
Proof.
  intros Hv. pose proof (rps_pos e ep Hv) as Hr. valid_facts Hv. unfold worker_controller, floor_ok, latency_floor_of.
  pose proof (adaptive_made (rps e ep) (aimd_min_rate (adaptive e)) (aimd_decrease_factor (adaptive e))
    (aimd_increase_step (adaptive e)) (aimd_increase_after (adaptive e)) (aimd_refractory_ms (adaptive e))
    (slo_ms e ep) (Some (rps e ep * aimd_latency_floor_fraction (adaptive e))%Q)
    (Z.to_nat (aimd_latency_samples (adaptive e))) (aimd_latency_min_samples (adaptive e))) as Hc.
  cbn [default from_option id] in Hc.
  destruct (make_adaptive _ _ _ _ _ _ _ _ _ _); [|apply Hc; try done; nra].
  destruct Hc as [Hlt Hm]; [done..|nra|]. split; [lra|done].
Qed.

(** The parts of a worker, as the theorems about each of them ask for them. *)
Record worker_ok (e : environment) (p : worker_parts) : Prop := {
  wo_limiters ep l : assoc_get ep (wp_limiters p) = Some l ->
    ep ∈ ENDPOINTS /\ l_endpoint l = ep /\ l_rate l = rps e ep /\ (0 < l_rate l)%Q /\
    l_burst l = inject_Z (burst e ep) /\ (0 < l_burst l)%Q;
  wo_breakers ep b : assoc_get ep (wp_breakers p) = Some b -> Breaker.args_ok b;
  wo_controllers ep a : assoc_get ep (wp_controllers p) = Some a ->
    Adaptive.args_ok a /\ max_rate a = rps e ep /\ min_rate a = aimd_min_rate (adaptive e);
  wo_gates ep : ep ∈ ENDPOINTS ->
    cl_has_limiter (wp_client p) ep = true /\ cl_has_breaker (wp_client p) ep = true /\
    cl_has_controller (wp_client p) ep = adaptive_enabled (adaptive e);
  wo_wait : (0 < cl_max_wait_s (wp_client p))%Q;
  wo_attempts : (0 < cl_max_attempts (wp_client p))%nat;
  wo_backoff : (0 < cl_backoff_base_ms (wp_client p))%Q /\ (0 < cl_backoff_max_ms (wp_client p))%Q;
  wo_streams : 0 < pc_ttl_s (wp_pipeline p) /\ 0 < pc_maxlen (wp_pipeline p) /\
    0 < pc_result_ttl_s (wp_pipeline p) }.

Lemma worker_limiter_made e ep : valid e = true ->
  worker_limiter e ep =
  inr {| l_endpoint := ep; l_rate := rps e ep; l_burst := inject_Z (burst e ep);
         l_ttl_ms := inject_Z (rate_limit_bucket_ttl_s (rates e)) * 1000;
         l_jitter_ms := rate_limit_jitter_ms (rates e) |}.
Proof. intros Hv. by apply limiter_made; [apply rps_pos|apply burst_pos]. Qed.

Lemma worker_breaker_made e ep : valid e = true ->
  exists b, worker_breaker e ep = inr b /\ Breaker.args_ok b.
Proof. intros Hv. valid_facts Hv. by apply breaker_made. Qed.

Lemma worker_of_ok e limiters breakers controllers : valid e = true ->
  build (worker_limiter e) ENDPOINTS = inr limiters -> build (worker_breaker e) ENDPOINTS = inr breakers ->
  (forall ep a, assoc_get ep controllers = Some a ->
     Adaptive.args_ok a /\ max_rate a = rps e ep /\ min_rate a = aimd_min_rate (adaptive e)) ->
  (forall ep, ep ∈ ENDPOINTS -> has controllers ep = adaptive_enabled (adaptive e)) ->
  worker_ok e (worker_of e limiters breakers controllers).
Proof.
  intros Hv El Eb Hc Hh.
  pose proof (build_cases (worker_limiter e) ENDPOINTS) as Hl. rewrite El in Hl. destruct Hl as [Hl1 Hl2].
  pose proof (build_cases (worker_breaker e) ENDPOINTS) as Hb. rewrite Eb in Hb. destruct Hb as [Hb1 Hb2].
  pose proof (λ ep, rps_pos e ep Hv) as Hrps. pose proof (λ ep, burst_pos e ep Hv) as Hburst.
  assert (forall ep b, worker_breaker e ep = inr b -> Breaker.args_ok b) as Hbo.
  { intros ep b E. destruct (worker_breaker_made e ep Hv) as (b' & E' & Hb'). congruence. }
  pose proof (λ ep, worker_limiter_made e ep Hv) as Hlm. valid_facts Hv.
  split; cbn -[has ENDPOINTS].
  - intros ep l [Hin E]%Hl1. rewrite Hlm in E. injection E as <-. cbn -[ENDPOINTS]. split_and!; auto.
  - intros ep b [_ E]%Hb1. by apply (Hbo ep).
  - done.
  - intros ep Hin. split_and!; [by apply Hl2|by apply Hb2|by apply Hh].
  - done.
  - lia.
  - split; change 0%Q with (inject_Z 0); by rewrite <- Zlt_Qlt.
  - done.
Qed.

Lemma build_worker_cases e : valid e = true ->
  match build_worker e with
  | inr p => worker_ok e p /\ (adaptive_enabled (adaptive e) = true -> forall ep, ep ∈ ENDPOINTS -> floor_ok e ep)
  | inl x => adaptive_enabled (adaptive e) = true /\
             exists ep m, ep ∈ ENDPOINTS /\ ~ floor_ok e ep /\ x = ValueError m
  end.
Proof.
  intros Hv. unfold build_worker.
  pose proof (build_cases (worker_limiter e) ENDPOINTS) as Hl.
  destruct (build (worker_limiter e) _) as [x|limiters] eqn:El; cbn [rbind].
  { destruct Hl as (ep & _ & E). by rewrite worker_limiter_made in E. }
  pose proof (build_cases (worker_breaker e) ENDPOINTS) as Hb.
  destruct (build (worker_breaker e) _) as [x|breakers] eqn:Eb; cbn [rbind].
  { destruct Hb as (ep & _ & E). destruct (worker_breaker_made e ep Hv) as (b & E' & _). congruence. }
  destruct (adaptive_enabled (adaptive e)) eqn:Ea; [|cbn [rbind]; split; [by apply worker_of_ok; rewrite ?Ea|done]].
  pose proof (build_cases (worker_controller e) ENDPOINTS) as Hc.
  destruct (build (worker_controller e) _) as [x|controllers]; cbn [rbind].
  - destruct Hc as (ep & Hin & E). pose proof (worker_controller_cases e ep Hv) as Hx. rewrite E in Hx.
    destruct Hx as [Hf [m ->]]. split; [done|]. by exists ep, m.
  - destruct Hc as [Hc1 Hc2]. split.
    + apply worker_of_ok; [done..| |rewrite Ea; intros ep Hin; by apply Hc2].
      intros ep a [Hin E]%Hc1. pose proof (worker_controller_cases e ep Hv) as Hx. rewrite E in Hx. apply Hx.
    + intros _ ep Hin. destruct (Hc2 ep Hin) as (_ & a & E).
      pose proof (worker_controller_cases e ep Hv) as Hx. rewrite E in Hx. apply Hx.
Qed.

Lemma api_controller_cases e ep : valid e = true ->
  match api_controller e ep with
  | inr a => (2 <= rps e ep)%Q /\ Adaptive.args_ok a /\ max_rate a = rps e ep
  | inl x => (rps e ep < 2)%Q /\ exists m, x = ValueError m
  end.
Proof.
  intros Hv. pose proof (rps_pos e ep Hv) as Hr. unfold api_controller.
  pose proof (adaptive_made (rps e ep) 1 (7 # 10) 1 20 1000 0 None 100 20) as Hc.
  cbn [default from_option] in Hc.
  destruct (make_adaptive _ _ _ _ _ _ _ _ _ _) as [x|a].
  - destruct Hc as [Hlt Hm]; [done..|lra|]. split; [lra|done].
  - destruct Hc as (Hle & Ha & Hm & _); [done..|lra|]. split_and!; [lra|done..].
Qed.

(** The parts of the API, as the theorems about each of them ask for them. *)
Record api_ok (e : environment) (p : api_parts) : Prop := {
  po_slots : active (ap_slots p) = 0 /\ 0 < limit (ap_slots p);
  po_marks : 1 <= low_watermark (ap_admission p) <= high_watermark (ap_admission p) /\
    high_watermark (ap_admission p) = queue_high_watermark (admission e);
  po_drain : (0 < drain_rate (ap_admission p))%Q;
  po_breakers ep b : assoc_get ep (ap_breakers p) = Some b -> Breaker.args_ok b;
  po_limiters ep a : assoc_get ep (ap_limiters p) = Some a ->
    Adaptive.args_ok a /\ max_rate a = rps e ep }.

Lemma low_mark_range high fraction : 0 < high -> (0 < fraction)%Q -> (fraction < 1)%Q ->
  1 <= Z.max 1 (int_of_float (inject_Z high * fraction)) <= high.
Proof.
  intros Hh Hf0 Hf1. assert (0 < inject_Z high)%Q as Hq by (change 0%Q with (inject_Z 0); by rewrite <- Zlt_Qlt).
  rewrite int_of_float_nonneg by nra.
  assert (Qfloor (inject_Z high * fraction) <= high); [|lia].
  rewrite <- (Qfloor_Z high) at 2. apply Qfloor_resp_le. nra.
Qed.

Lemma api_admission_cases e : valid e = true ->
  match api_admission e with
  | inr a => 1 <= low_watermark a <= high_watermark a /\
             high_watermark a = queue_high_watermark (admission e) /\ (0 < drain_rate a)%Q
  | inl x => adaptive_enabled (adaptive e) = true /\ (rps e VLM < 2)%Q /\ exists m, x = ValueError m
  end.
Proof.
  intros Hv. unfold api_admission.
  assert (forall controller, exists a,
    make_admission (queue_high_watermark (admission e)) (queue_low_watermark_fraction (admission e))
      (vlm_rps (rates e)) controller (retry_after_cap_s (admission e)) (retry_after_jitter (admission e))
      (result_ttl_s (streaming e)) "admission" = inr a /\
    1 <= low_watermark a <= high_watermark a /\
    high_watermark a = queue_high_watermark (admission e) /\ (0 < drain_rate a)%Q) as Hm.
  { intros controller. pose proof (rps_pos e VLM Hv) as Hr. valid_facts Hv. unfold make_admission.
    rewrite (proj2 (Z.ltb_ge _ 1)) by lia. rewrite !(proj2 (Qle_bool_false _ _)) by done.
    cbn [negb andb]. eexists. split; [done|]. cbn. split_and!; try done; by apply low_mark_range. }
  destruct (adaptive_enabled (adaptive e)); cbn [rbind].
  - pose proof (api_controller_cases e VLM Hv) as Hc.
    destruct (api_controller e VLM) as [x|c]; cbn [rbind]; [done|].
    destruct (Hm (Some c)) as (a & -> & Ha). done.
  - destruct (Hm None) as (a & -> & Ha). done.
Qed.

Lemma api_breaker_made e ep : valid e = true -> exists b, api_breaker e ep = inr b /\ Breaker.args_ok b.
Proof. intros Hv. valid_facts Hv. by apply breaker_made. Qed.

Lemma build_api_cases e : valid e = true ->
  match build_api e with
  | inr p => api_ok e p /\
             (adaptive_enabled (adaptive e) = true -> forall ep, ep ∈ ENDPOINTS -> (2 <= rps e ep)%Q)
  | inl x => adaptive_enabled (adaptive e) = true /\
             exists ep m, ep ∈ ENDPOINTS /\ ~ (2 <= rps e ep)%Q /\ x = ValueError m
  end.
Proof.
  intros Hv. unfold build_api. pose proof (api_admission_cases e Hv) as Hadm.
  destruct (api_admission e) as [x|adm]; cbn [rbind].
  { destruct Hadm as (Ha & Hr & m & ->). split; [done|]. exists VLM, m.
    split_and!; [apply elem_of_ENDPOINTS; auto|lra|done]. }
  destruct Hadm as (Hlow & Hhigh & Hdrain).
  pose proof (build_cases (api_breaker e) ENDPOINTS) as Hb.
  destruct (build (api_breaker e) _) as [x|breakers]; cbn [rbind].
  { destruct Hb as (ep & _ & E). destruct (api_breaker_made e ep Hv) as (b & E' & _). congruence. }
  assert (forall controllers,
    (forall ep a, assoc_get ep controllers = Some a -> Adaptive.args_ok a /\ max_rate a = rps e ep) ->
    api_ok e {| ap_slots := {| limit := sse_max_subscribers (streaming e); active := 0; refused := 0; peak := 0 |};
                ap_admission := adm; ap_breakers := breakers; ap_limiters := controllers |}) as Hok.
  { intros controllers Hc. split; cbn; [|done..|idtac|done].
    - valid_facts Hv. by split.
    - intros ep b [_ E]%Hb. destruct (api_breaker_made e ep Hv) as (b' & E' & Hb'). congruence. }
  destruct (adaptive_enabled (adaptive e)) eqn:Ea; [|cbn [rbind]; split; [by apply Hok|done]].
  pose proof (build_cases (api_controller e) ENDPOINTS) as Hc.
  destruct (build (api_controller e) _) as [x|controllers]; cbn [rbind].
  - destruct Hc as (ep & Hin & E). pose proof (api_controller_cases e ep Hv) as Hx. rewrite E in Hx.
    destruct Hx as [Hf [m ->]]. split; [done|]. exists ep, m. split_and!; [done|lra|done].
  - destruct Hc as [Hc1 Hc2]. split.
    + apply Hok. intros ep a [Hin E]%Hc1.
      pose proof (api_controller_cases e ep Hv) as Hx. rewrite E in Hx. apply Hx.
    + intros _ ep Hin. destruct (Hc2 ep Hin) as (_ & a & E).
      pose proof (api_controller_cases e ep Hv) as Hx. rewrite E in Hx. apply Hx.
Qed.

(** ** The rate an endpoint sees *)

(** A rate the worker's client drives the bucket of the endpoint at: the setpoint
    of its controller, after any history, or the limiter's own rate without one. *)
Definition setpoint_of (p : worker_parts) (endpoint : string) (r : Q) : Prop :=
  match assoc_get endpoint (wp_controllers p) with
  | Some a => exists ops now, r = (current a now (run_aimd a ops {| ctl := None; ring := [] |})).2
  | None => exists l, assoc_get endpoint (wp_limiters p) = Some l /\ r = l_rate l
  end.

Lemma run_aimd_bounded a ops : Adaptive.args_ok a -> forall st,
  rate_bounded a (the_rate a st) -> rate_bounded a (the_rate a (run_aimd a ops st)).
Proof.
  intros Ha. induction ops as [|[op now] ops IH]; intros st Hst; cbn [run_aimd]; [done|].
  apply IH. by apply lua_bounded.
Qed.

(** The script answers in thousandths. *)
Lemma current_near a now st : exists k, (current a now st).2 = (inject_Z k / 1000)%Q /\
  (inject_Z k - (1 # 2) <= the_rate a st * 1000)%Q /\ (the_rate a st * 1000 < inject_Z k + (1 # 2))%Q.
Proof.
  unfold current, aimd_lua, the_rate. cbn. set (r := c_rate (load a st)).
  exists (Qfloor (r * 1000 + (1 # 2))). split; [done|].
  pose proof (Qfloor_le (r * 1000 + (1 # 2))) as H1. pose proof (Qlt_floor (r * 1000 + (1 # 2))) as H2.
  rewrite inject_Z_plus in H2. change (inject_Z 1) with 1%Q in H2. split; lra.
Qed.

Lemma setpoint_range e p ep r : worker_ok e p -> (1 # 2000 < aimd_min_rate (adaptive e))%Q ->
  setpoint_of p ep r -> (0 < r)%Q /\ (r <= rps e ep + (1 # 2000))%Q.
Proof.
  intros Hok Hmin. unfold setpoint_of. destruct (assoc_get ep (wp_controllers p)) as [a|] eqn:Ea.
  - intros (ops & now & ->). destruct (wo_controllers e p Hok ep a Ea) as (Ha & Hmax & Hlow).
    assert (rate_bounded a (the_rate a {| ctl := None; ring := [] |})) as Hr.
    { destruct Ha. unfold rate_bounded, the_rate, Adaptive.load. cbn. lra. }
    apply (run_aimd_bounded a ops Ha) in Hr. destruct Hr as [Hr1 Hr2].
    destruct (current_near a now (run_aimd a ops {| ctl := None; ring := [] |})) as (k & -> & Hk1 & Hk2).
    set (rate := the_rate a _) in *.
    rewrite Hmax in Hr2. rewrite Hlow in Hr1.
    assert (0 < inject_Z k)%Q as Hk.
    { assert (0 < k); [|change 0%Q with (inject_Z 0); by rewrite <- Zlt_Qlt].
      apply Z.lt_nge. intros Hle. assert (inject_Z k <= 0)%Q by (change 0%Q with (inject_Z 0); by rewrite <- Zle_Qle).
      lra. }
    assert (inject_Z k / 1000 == inject_Z k * (1 # 1000))%Q as Ed by field. rewrite Ed. split; lra.
  - intros (l & El & ->). destruct (wo_limiters e p Hok ep l El) as (_ & _ & -> & Hl & _).
    split; lra.
Qed.

(** Calls of one endpoint's bucket, by any number of workers with these settings,
    in the order the server runs them. *)
Fixpoint driven (p : worker_parts) (endpoint : string) (from : Q) (cs : list bucket_call) : Prop :=
  match cs with
  | [] => True
  | c :: cs => (from <= c_now c)%Q /\ setpoint_of p endpoint (TokenBucket.c_rate c) /\ (0 <= c_cost c)%Q /\
               driven p endpoint (c_now c) cs
  end.

Lemma driven_calls_ok e p ep cs : worker_ok e p -> (1 # 2000 < aimd_min_rate (adaptive e))%Q -> forall from,
  driven p ep from cs -> calls_ok (rps e ep + (1 # 2000)) from cs.
Proof.
  intros Hok Hmin. induction cs as [|c cs IH]; intros from; cbn [driven calls_ok]; [done|].
  intros (Hf & Hs & Hc & Hcs). split_and!; [done| |done|by apply IH].
  by apply (setpoint_range e p ep).
Qed.

(** ** Properties *)

(** C39: what starts from valid settings.  A worker starts, with every limiter,
    breaker, controller and client as the theorems about them ask, exactly when
    control is off or no endpoint's latency floor is below [aimd_min_rate]; the
    API exactly when control is off or both published rates are at least two
    requests a second.  A process that does not start raises ValueError. *)
Theorem starts_from_settings e : valid e = true ->
  match build_worker e with
  | inr p => worker_ok e p /\ (adaptive_enabled (adaptive e) = true -> forall ep, ep ∈ ENDPOINTS -> floor_ok e ep)
  | inl x => adaptive_enabled (adaptive e) = true /\
             exists ep m, ep ∈ ENDPOINTS /\ ~ floor_ok e ep /\ x = ValueError m
  end /\
  match build_api e with
  | inr p => api_ok e p /\
             (adaptive_enabled (adaptive e) = true -> forall ep, ep ∈ ENDPOINTS -> (2 <= rps e ep)%Q)
  | inl x => adaptive_enabled (adaptive e) = true /\
             exists ep m, ep ∈ ENDPOINTS /\ ~ (2 <= rps e ep)%Q /\ x = ValueError m
  end.
Proof. intros Hv. split; [by apply build_worker_cases|by apply build_api_cases]. Qed.


(** ** Starting the API *)

(** [lifespan], with what it constructs: how the rest of the process goes is as in
    [f]. *)
Definition api_process (e : environment) (f : fortune) : call unit :=
  App.lifespan (pool_settings_of e)
    {| ping_main := ping_main f; ping_stream := ping_stream f;
       construct := (let* _ := build_api e in inr tt); ensure_group := ensure_group f;
       uses := uses f; ended := ended f; close_stream := close_stream f; close_main := close_main f |}.

(** A slow model, and a floor to go with it. *)
Definition slow_environment : environment :=
  {| page := default_settings; connection := connection default_environment;
     rates := {| layout_rps := 100; layout_burst := 100; vlm_rps := 3 # 2; vlm_burst := 10;
                 rate_limit_max_wait_s := 30; rate_limit_jitter_ms := 25; rate_limit_bucket_ttl_s := 300 |};
     retrying := retrying default_environment;
     adaptive := {| adaptive_enabled := true; aimd_min_rate := 1 # 2; aimd_decrease_factor := 7 # 10;
                    aimd_increase_step := 1; aimd_increase_after := 20; aimd_refractory_ms := 1000;
                    vlm_latency_slo_ms := 4500; layout_latency_slo_ms := 500; aimd_latency_samples := 100;
                    aimd_latency_floor_fraction := 1 # 2; aimd_latency_min_samples := 20 |};
     breaking := breaking default_environment; maintenance := maintenance default_environment;
     uploads := uploads default_environment; streaming := streaming default_environment;
     admission := admission default_environment |}.

Lemma slow_environment_valid : valid slow_environment = true.
Proof. reflexivity. Qed.

(** the API cannot follow its workers below two requests a second.  With the
    published rate of the VLM at 1.5 and the floor set to match, the settings are
    valid and every worker starts; the API builds its controllers with the
    constructor's own floor of 1, whose half-rate latency floor is below it, raises
    ValueError before it serves anything, and leaves its pools open. *)
Theorem api_cannot_follow f : ping_main f = inr true -> ping_stream f = inr true ->
  valid slow_environment = true /\
  (exists p, build_worker slow_environment = inr p /\ worker_ok slow_environment p) /\
  let '(r, s) := api_process slow_environment f no_connections in
  (exists m, r = inl (ValueError m)) /\ pools s <> [].
Proof.
  intros Hm Hs. split; [done|]. split.
  - pose proof (build_worker_cases slow_environment slow_environment_valid) as Hw.
    destruct (build_worker slow_environment) as [x|p] eqn:E; [by vm_compute in E|].
    exists p. by split; [|apply Hw].
  - assert (exists m, build_api slow_environment = inl (ValueError m)) as [m E] by (by eexists).
    unfold api_process. rewrite E. cbn [rbind].
    unfold App.lifespan, App.bind at 1, App.startup, App.init_redis, App.init_stream_redis, App.bind,
      App.new_client, App.outside, App.ret. cbn. rewrite Hm. cbn. rewrite Hs. cbn. split; [by eexists|done].
Qed.

(** Any floor above zero is valid, but the script answers in thousandths: below
    one half of one the setpoint it lets the rate sink to is 0, the value at which
    no token is ever granted. *)
Definition tiny_floor : aimd_args :=
  {| min_rate := 1 # 4000; max_rate := 1 # 1000; decrease_factor := 7 # 10; increase_step := 1;
     increase_after := 20; refractory_ms := 1000; latency_slo_ms := 0; ring_size := 100;
     min_samples := 20; latency_floor := 1 # 2000 |}.

Example tiny_floor_setpoint :
  make_adaptive (1 # 1000) (1 # 4000) (7 # 10) 1 20 1000 0 None 100 20 = inr tiny_floor /\
  (current tiny_floor 9000
     (run_aimd tiny_floor ((λ t, (aimd_congestion, t)) <$> [1000; 2000; 3000; 4000; 5000]%Q)
        {| ctl := None; ring := [] |})).2 == 0.
Proof. split; reflexivity. Qed.

(** ** Witnesses *)

Example starts_from_settings_witness :
  (exists p, build_worker default_environment = inr p /\ worker_ok default_environment p) /\
  (exists p, build_api default_environment = inr p /\ api_ok default_environment p).
Proof.
  destruct (starts_from_settings default_environment default_environment_valid) as [Hw Ha].
  split.
  - destruct (build_worker default_environment) as [x|p]; [|exists p; split; [reflexivity|apply Hw]].
    exfalso. destruct Hw as (_ & ep & m & Hin & Hf & _). apply Hf. revert Hin.
    rewrite elem_of_ENDPOINTS. intros [-> | ->]; vm_compute; discriminate.
  - destruct (build_api default_environment) as [x|p]; [|exists p; split; [reflexivity|apply Ha]].
    exfalso. destruct Ha as (_ & ep & m & Hin & Hf & _). apply Hf. revert Hin.
    rewrite elem_of_ENDPOINTS. intros [-> | ->]; vm_compute; discriminate.
Defined.

Example api_cannot_follow_witness :
  let f := {| ping_main := inr true; ping_stream := inr true; construct := inr tt; ensure_group := inr tt;
              uses := []; ended := inr tt; close_stream := inr tt; close_main := inr tt |} in
  exists m, (api_process slow_environment f no_connections).1 = inl (ValueError m).
Proof.
  intros f. pose proof (api_cannot_follow f eq_refl eq_refl) as (_ & _ & Ha).
  destruct (api_process slow_environment f no_connections) as [r s]. apply Ha.
Defined.

Definition default_worker : worker_parts :=
  worker_of default_environment
    ((λ ep, (ep, {| l_endpoint := ep; l_rate := rps default_environment ep;
                    l_burst := inject_Z (burst default_environment ep);
                    l_ttl_ms := inject_Z 300 * 1000; l_jitter_ms := 25 |})) <$> ENDPOINTS)
    match build (worker_breaker default_environment) ENDPOINTS with inr l => l | inl _ => [] end
    match build (worker_controller default_environment) ENDPOINTS with inr l => l | inl _ => [] end.

Lemma default_worker_built : build_worker default_environment = inr default_worker.
Proof. reflexivity. Qed.

(** Two calls at the VLM's full rate, a second apart. *)
Definition vlm_call_at (now : Q) : bucket_call :=
  {| c_now := now; TokenBucket.c_rate := inject_Z 10000 / 1000; c_cost := 1 |}.

Lemma vlm_calls_driven : driven default_worker VLM 0 [vlm_call_at 0; vlm_call_at 1000].
Proof.
  assert (setpoint_of default_worker VLM (inject_Z 10000 / 1000)) as Hs by (by exists [], 0%Q).
  cbn [driven]. by split_and!.
Qed.

