(* ===== verification/Bench.v ===== *)
(** * The benchmark ([bench/benchmark.py])

    The client that reads the event streams of the API, and the tally that grades a
    run.  Text arrives in chunks cut anywhere; the client joins them, takes the frames
    off and counts the page events.  Characters are bytes: the streams are ASCII.  The
    clock's readings are left out of the client's state except for whether one was
    taken.  The rest of the benchmark is in [Grading.v].  Theorems: whatever the chunks, the client counts exactly the events of the
    frames it read; the peak reported is one moment's total and no sampled one exceeds
    it; a percentile is the value at a rank; and the tally is exact if no stream fails, and not otherwise. *)

From Stdlib Require Import QArith Qround Lqa Ascii.
From stdpp Require Import sorting.
From S2P Require Import Prelude Py Json Redis Results Sse.
#[local] Open Scope Z_scope.

(** ** The stream *)

(** [buffer.split("\n\n", 1)], if it is there. *)
Definition is_lf (c : ascii) : bool := Ascii.eqb c "010".

Fixpoint split_blank (s : string) : option (string * string) :=
  match s with
  | String c (String d rest as s') =>
      if is_lf c && is_lf d then Some ("", rest)
      else match split_blank s' with Some (raw, rest) => Some (String c raw, rest) | None => None end
  | _ => None
  end.

(** The characters [str.splitlines] splits at, in ASCII. *)
Definition line_break (c : ascii) : bool :=
  let n := ascii_code c in (((10 <=? n) && (n <=? 13)) || ((28 <=? n) && (n <=? 30)))%N.

(** [splitlines]: a break ends a line, a return and a line feed are one break. *)
Fixpoint splitlines (s : string) : list string :=
  match s with
  | EmptyString => []
  | String c s' =>
      if line_break c then
        match s' with
        | String d s'' => if Ascii.eqb c "013" && is_lf d then "" :: splitlines s'' else "" :: splitlines s'
        | EmptyString => [""]
        end
      else match splitlines s', s' with
           | x :: l, String _ _ => String c x :: l
           | _, _ => [String c ""]
           end
  end.

(** [line[7:]] of a line that starts with ["event: "]. *)
Definition event_line (line : string) : option string := Json.strip_prefix "event: " line.

(** The event of a frame: the last such line's. *)
Definition event_of (raw : string) : string :=
  fold_left (λ event line, default event (event_line line)) (splitlines raw) "".

(** [JobResult]; times by whether they were taken. *)
Record JobResult := {
  job_id : string; pages : Z; first_event : string; got_first_page : bool;
  partials : Z; finals : Z; complete : bool; error : string }.

Definition new_result (pages : Z) : JobResult :=
  {| job_id := ""; pages := pages; first_event := ""; got_first_page := false; partials := 0; finals := 0;
     complete := false; error := "" |}.

Definition with_error (e : string) (r : JobResult) : JobResult :=
  {| job_id := job_id r; pages := pages r; first_event := first_event r; got_first_page := got_first_page r;
     partials := partials r; finals := finals r; complete := complete r; error := e |}.
Definition with_job (id : string) (r : JobResult) : JobResult :=
  {| job_id := id; pages := pages r; first_event := first_event r; got_first_page := got_first_page r;
     partials := partials r; finals := finals r; complete := complete r; error := error r |}.

Definition PARTIAL : string := "page.partial".
Definition FINAL : string := "page.final".
Definition COMPLETE : string := "job.complete".

(** One frame's event. *)
Definition note (r : JobResult) (event : string) : JobResult :=
  {| job_id := job_id r; pages := pages r; error := error r;
     first_event := if (first_event r =? "")%string && negb (event =? "")%string then event else first_event r;
     got_first_page := got_first_page r || ((event =? PARTIAL)%string || (event =? FINAL)%string);
     partials := if (event =? PARTIAL)%string then partials r + 1 else partials r;
     finals := if (event =? FINAL)%string then finals r + 1 else finals r;
     complete := complete r || (event =? COMPLETE)%string |}.

(** [while "\n\n" in buffer]; a round shortens the buffer. *)
Fixpoint drain (fuel : nat) (buffer : string) (r : JobResult) : string * JobResult :=
  match fuel with
  | O => (buffer, r)
  | S fuel =>
      match split_blank buffer with
      | None => (buffer, r)
      | Some (raw, buffer) => drain fuel buffer (note r (event_of raw))
      end
  end.

Definition take_chunk (chunk buffer : string) (r : JobResult) : string * JobResult :=
  let buffer := buffer +:+ chunk in drain (String.length buffer) buffer r.

(** [async for chunk in stream.aiter_text()], to its break or its end. *)
Fixpoint read_stream (chunks : list string) (buffer : string) (r : JobResult) : JobResult :=
  match chunks with
  | [] => r
  | chunk :: chunks' =>
      let '(buffer, r) := take_chunk chunk buffer r in
      if complete r then r else read_stream chunks' buffer r
  end.

(** [run_job], for what the request gives: the status or the exception of the post, the
    id or the exception of reading it, the chunks of the stream and what ends it, if it
    is not its end. *)
Definition run_job (pages : Z) (post : string + Z) (body : string + string) (chunks : list string)
  (broken : option string) : JobResult :=
  let r := new_result pages in
  match post with
  | inl name => with_error ("submit: " +:+ name) r
  | inr status =>
      if status =? 503 then with_error "shed" r
      else match body with
           | inl name => with_error ("submit: " +:+ name) r
           | inr id =>
               let r := read_stream chunks "" (with_job id r) in
               match broken with
               | Some name => if complete r then r else with_error ("stream: " +:+ name) r
               | None => r
               end
           end
  end.

(** ** The sampler *)

Definition sample : Type := list (string * Q).

Definition sum_of (s : sample) : Q := fold_left (λ t kv, t + kv.2)%Q s 0%Q.
(** [max] of a list, and of a new reading and the one kept. *)
Definition max_of (l : list Q) : Q := match l with [] => 0 | x :: l => fold_left Qmax_py l x end.

Definition keep_peak (peaks : sample) (kv : string * Q) : sample :=
  assoc_put kv.1 (Qmax_py (default 0%Q (assoc_get kv.1 peaks)) kv.2) peaks.

Definition per_container (samples : list sample) : sample := fold_left (λ p s, fold_left keep_peak s p) samples [].

(** [peak_total_mb] of the report. *)
Definition peak_total (samples : list sample) : Q := match samples with [] => 0 | _ => max_of (sum_of <$> samples) end.

(** ** Grading *)

(** [percentile]: the value at a rank, rounded to even. *)
Definition percentile (values : list Q) (fraction : Q) : Q :=
  match values with
  | [] => 0
  | _ =>
      let ordered := merge_sort Qle values in
      let index := Z.min (Z.of_nat (length ordered) - 1) (Z.max 0 (round_half_even (fraction * inject_Z (Z.of_nat (length ordered) - 1)))) in
      nth (Z.to_nat index) ordered 0%Q
  end.

(** The tally of the pages: the results and what [GET /jobs/{id}] says is done of each. *)
Definition admitted_pages (results : list JobResult) : Z :=
  fold_left (λ t r, t + if (error r =? "")%string then pages r else 0) results 0.
Definition server_done (done : string -> Z) (results : list JobResult) : Z :=
  fold_left (λ t r, t + if (job_id r =? "")%string then 0 else done (job_id r)) results 0.
Definition unhandled (done : string -> Z) (results : list JobResult) : Z := admitted_pages results - server_done done results.

(** [GRADED], on the figures as they are rounded for display. *)
Definition graded (peak_rss_mb : Q) (unhandled_pages : Z) (solo_ttfp_p95_ms : Q) : bool :=
  negb (Qle_bool 500 peak_rss_mb) && (unhandled_pages =? 0) && negb (Qle_bool 200 solo_ttfp_p95_ms).

(** ** Frames off a text *)

(** [Cut s l rest]: the frames [l] come off [s] and leave [rest], which holds none. *)
Inductive Cut : string -> list string -> string -> Prop :=
| Cut_none s : split_blank s = None -> Cut s [] s
| Cut_frame s raw s' l rest : split_blank s = Some (raw, s') -> Cut s' l rest -> Cut s (raw :: l) rest.

Lemma string_app_nil_r (s : string) : s +:+ "" = s.
Proof. induction s as [|c s IH]; [done|]. change (String c s +:+ "") with (String c (s +:+ "")). by rewrite IH. Qed.

Lemma split_blank_app a b raw rest : split_blank a = Some (raw, rest) -> split_blank (a +:+ b) = Some (raw, rest +:+ b).
Proof.
  revert raw rest. induction a as [|c [|d a] IH]; intros raw rest; [done..|].
  change (String c (String d a) +:+ b) with (String c (String d a +:+ b)).
  change (String d a +:+ b) with (String d (a +:+ b)) in *. cbn [split_blank] in *.
  destruct (is_lf c && is_lf d); [by intros [= <- <-]|].
  destruct (match a with EmptyString => _ | String _ _ => _ end) as [[raw0 rest0]|]; [|done].
  intros [= <- <-]. by rewrite (IH raw0 rest0 eq_refl).
Qed.

Lemma split_blank_length s raw rest : split_blank s = Some (raw, rest) -> (String.length rest < String.length s)%nat.
Proof.
  revert raw rest. induction s as [|c [|d s] IH]; intros raw rest; [done..|]. cbn [split_blank String.length] in *.
  destruct (is_lf c && is_lf d); [intros [= <- <-]; lia|].
  destruct (match s with EmptyString => _ | String _ _ => _ end) as [[raw0 rest0]|]; [|done].
  intros [= <- <-]. specialize (IH raw0 rest0 eq_refl). lia.
Qed.

Lemma cut_unique s l rest l' rest' : Cut s l rest -> Cut s l' rest' -> l = l' /\ rest = rest'.
Proof.
  intros H. revert l' rest'. induction H as [s H|s raw s' l rest H _ IH]; intros l' rest' H'; destruct H' as [s0 H0|s0 raw0 s1 l0 rest0 H0 H1]; simplify_eq; [done..|].
  destruct (IH _ _ H1) as [-> ->]. done.
Qed.

Lemma cut_app a b l rest l' rest' : Cut a l rest -> Cut (rest +:+ b) l' rest' -> Cut (a +:+ b) (l ++ l') rest'.
Proof.
  intros H H'. induction H as [s H|s raw s' l rest H _ IH]; [done|]. apply (Cut_frame _ raw (s' +:+ b)); [by apply split_blank_app|].
  by apply IH.
Qed.

Lemma drain_cut fuel : forall s r, (String.length s <= fuel)%nat -> exists l rest, Cut s l rest /\
  split_blank rest = None /\ drain fuel s r = (rest, fold_left note (event_of <$> l) r).
Proof.
  induction fuel as [|fuel IH]; intros s r Hl; cbn [drain].
  - exists [], s. destruct s; [|cbn in Hl; lia]. split_and!; [by constructor|done|done].
  - destruct (split_blank s) as [[raw s']|] eqn:E.
    + apply split_blank_length in E as Hs. destruct (IH s' (note r (event_of raw)) ltac:(lia)) as (l & rest & Hc & Hr & ->).
      exists (raw :: l), rest. split_and!; [by apply (Cut_frame _ raw s')|done|done].
    + exists [], s. split_and!; [by constructor|done|done].
Qed.

Definition joined (l : list string) : string := foldr String.append "" l.

Lemma joined_app l1 l2 : joined (l1 ++ l2) = joined l1 +:+ joined l2.
Proof. unfold joined. induction l1 as [|x l1 IH]; [done|]. cbn. by rewrite IH, string_app_assoc. Qed.

(** What was read is the frames of some of the chunks: all, unless one completed the job. *)
Lemma read_stream_cut chunks : forall buffer r, complete r = false -> split_blank buffer = None ->
  exists k l rest, Cut (buffer +:+ joined (take k chunks)) l rest /\ split_blank rest = None /\
    read_stream chunks buffer r = fold_left note (event_of <$> l) r /\
    (complete (read_stream chunks buffer r) = false -> k = length chunks).
Proof.
  induction chunks as [|chunk chunks IH]; intros buffer r Hr Hb; cbn [read_stream].
  - exists 0%nat, [], buffer. split_and!; [|done|done|done]. cbn. rewrite string_app_nil_r. by constructor.
  - unfold take_chunk. destruct (drain_cut (String.length (buffer +:+ chunk)) (buffer +:+ chunk) r) as (l & rest & Hc & Hrest & ->); [done|].
    destruct (complete (fold_left note (event_of <$> l) r)) eqn:Ec.
    + exists 1%nat, l, rest. split_and!; [|done|done|congruence]. cbn. by rewrite string_app_nil_r.
    + destruct (IH rest _ Ec Hrest) as (k & l' & rest' & Hc' & Hr' & -> & Hk). exists (S k), (l ++ l'), rest'. split_and!; [|done| |].
      * cbn [take joined foldr]. rewrite <- string_app_assoc. by apply (cut_app _ _ l rest).
      * by rewrite fmap_app, fold_left_app.
      * intros H. cbn. by rewrite Hk.
Qed.

(** ** The frames of the server *)

(** What [app/api/stream.py] writes: an event of the stream, a frame of its own, a
    heartbeat, the reconnect delay. *)
Inductive wire := Event (e : ResultEvent) | Own (event : string) (payload : list (string * json)) | Beat (now : Z) | Retry (ms : Z).

Definition written (w : wire) : string :=
  match w with
  | Event e => sse e
  | Own event payload => _frame event payload
  | Beat now => _heartbeat now
  | Retry ms => "retry: " +:+ py_str ms +:+ LF +:+ LF
  end.

Definition wire_event (w : wire) : string :=
  match w with Event e => ev_event e | Own event _ => event | Beat _ | Retry _ => "" end.

(** Ids and event names are printable, payloads are JSON. *)
Definition wire_ok (w : wire) : Prop :=
  match w with
  | Event e => str_forall printable (ev_entry_id e) = true /\ str_forall printable (ev_event e) = true /\ json_ok (JObj (ev_data e))
  | Own event payload => str_forall printable event = true /\ json_ok (JObj payload)
  | Beat _ | Retry _ => True
  end.

Lemma printable_plain c : printable c = true -> is_lf c = false /\ line_break c = false.
Proof. destruct c as [[] [] [] [] [] [] [] []]; vm_compute; done. Qed.

Lemma split_blank_cons c s : is_lf c = false ->
  split_blank (String c s) = match split_blank s with Some (raw, rest) => Some (String c raw, rest) | None => None end.
Proof. intros Hc. destruct s as [|d s]; [done|]. cbn [split_blank]. by rewrite Hc. Qed.

(** A line comes off a text. *)
Lemma split_blank_line p s : str_forall printable p = true ->
  split_blank (p +:+ LF +:+ s) =
  match s with
  | String c rest => if is_lf c then Some (p, rest)
                     else match split_blank s with Some (raw, rest) => Some (p +:+ LF +:+ raw, rest) | None => None end
  | EmptyString => None
  end.
Proof.
  induction p as [|c p IH]; intros Hp; [by destruct s|]. cbn in Hp. apply andb_true_iff in Hp as [Hc Hp].
  destruct (printable_plain c Hc) as [Hl _]. change (String c p +:+ LF +:+ s) with (String c (p +:+ LF +:+ s)).
  rewrite split_blank_cons, (IH Hp) by done. destruct s as [|d s]; [done|]. destruct (is_lf d); [done|].
  by destruct (split_blank (String d s)) as [[? ?]|].
Qed.

Lemma splitlines_line p s : str_forall printable p = true -> splitlines (p +:+ LF +:+ s) = p :: splitlines s.
Proof.
  induction p as [|c p IH]; intros Hp.
  - change ("" +:+ LF +:+ s) with (String "010" s). by destruct s.
  - cbn in Hp. apply andb_true_iff in Hp as [Hc Hp]. destruct (printable_plain c Hc) as [_ Hl].
    change (String c p +:+ LF +:+ s) with (String c (p +:+ LF +:+ s)). cbn [splitlines]. rewrite Hl, (IH Hp). by destruct p.
Qed.

Lemma splitlines_last p : str_forall printable p = true -> p <> "" -> splitlines p = [p].
Proof.
  induction p as [|c p IH]; intros Hp Hne; [done|]. cbn in Hp. apply andb_true_iff in Hp as [Hc Hp].
  destruct (printable_plain c Hc) as [_ Hl]. cbn [splitlines]. rewrite Hl. destruct p as [|d p]; [done|]. by rewrite (IH Hp).
Qed.

(** A text that is one frame. *)
Definition framed (s event : string) : Prop :=
  exists raw, (forall t, split_blank (s +:+ t) = Some (raw, t)) /\ event_of raw = event.

Lemma framed_lines l last event : Forall (λ p, str_forall printable p = true /\ p <> "") (l ++ [last]) ->
  fold_left (λ e p, default e (event_line p)) (l ++ [last]) "" = event ->
  framed (foldr (λ p s, p +:+ LF +:+ s) (last +:+ LF +:+ LF) l) event.
Proof.
  intros Hl He. exists (foldr (λ p s, p +:+ LF +:+ s) last l). split.
  - intros t. clear He. induction l as [|p l IH]; cbn [app foldr] in *.
    + apply Forall_singleton in Hl as [Hp Hne]. rewrite !string_app_assoc. rewrite split_blank_line by done. reflexivity.
    + apply Forall_cons in Hl as [[Hp Hne] Hl]. rewrite !string_app_assoc. rewrite split_blank_line by done.
      specialize (IH Hl). set (s := foldr _ _ _ +:+ t) in *.
      assert (match s with String c _ => is_lf c = false | EmptyString => True end) as Hs.
      { unfold s. clear -Hl. destruct l as [|q l]; cbn in *.
        - apply Forall_singleton in Hl as [Hq Hn]. destruct last as [|c q]; [done|]. cbn in *. by apply andb_true_iff in Hq as [[? _]%printable_plain _].
        - apply Forall_cons in Hl as [[Hq Hn] _]. destruct q as [|c q]; [done|]. cbn in *. by apply andb_true_iff in Hq as [[? _]%printable_plain _]. }
      destruct s as [|c s]; [done|]. rewrite Hs, IH. done.
  - rewrite <- He. unfold event_of. f_equal. clear He. induction l as [|p l IH]; cbn [app foldr] in *.
    + apply Forall_singleton in Hl as [Hp Hne]. by apply splitlines_last.
    + apply Forall_cons in Hl as [[Hp Hne] Hl]. by rewrite splitlines_line, IH.
Qed.

Lemma digits_printable n : str_forall printable (py_str n) = true.
Proof. apply (dumps_printable (JNum (py_str n))), num_ok_str. Qed.

Lemma prefix_line p s : str_forall printable p = true -> p <> "" -> str_forall printable s = true ->
  str_forall printable (p +:+ s) = true /\ p +:+ s <> "".
Proof. intros Hp Hne Hs. rewrite str_forall_app, Hp, Hs. split; [done|]. by destruct p. Qed.

Lemma written_framed w : wire_ok w -> framed (written w) (wire_event w).
Proof.
  destruct w as [e|event payload|now|ms]; cbn [wire_ok written wire_event].
  - intros (Hi & He & Hd).
    assert (json_ok (JObj (merge (ev_data e) [("seq", JNum (py_str (ev_seq e))); ("stream_id", JStr (ev_entry_id e))]))) as Hm.
    { apply merge_ok; [done|]. constructor; [apply num_ok_str|]. by repeat constructor. }
    pose proof (framed_lines ["id: " +:+ ev_entry_id e; "event: " +:+ ev_event e] ("data: " +:+ sse_body e) (ev_event e)) as H.
    cbn [foldr] in H. unfold sse. rewrite !string_app_assoc in H. apply H; [|reflexivity].
    repeat apply Forall_cons_2; [by apply prefix_line..| |apply Forall_nil_2]. apply prefix_line; [done..|]. by apply dumps_printable.
  - intros [He Hd]. pose proof (framed_lines ["event: " +:+ event] ("data: " +:+ dumps (JObj payload)) event) as H.
    cbn [foldr] in H. unfold _frame. rewrite !string_app_assoc in H. apply H; [|reflexivity].
    repeat apply Forall_cons_2; [by apply prefix_line| |apply Forall_nil_2]. apply prefix_line; [done..|]. by apply dumps_printable.
  - intros _. pose proof (framed_lines [] (": heartbeat " +:+ py_str now) "") as H. cbn [foldr] in H. unfold _heartbeat.
    rewrite !string_app_assoc in H. apply H; [|reflexivity]. apply Forall_singleton, prefix_line; [done..|apply digits_printable].
  - intros _. pose proof (framed_lines [] ("retry: " +:+ py_str ms) "") as H. cbn [foldr] in H.
    rewrite !string_app_assoc in H. apply H; [|reflexivity]. apply Forall_singleton, prefix_line; [done..|apply digits_printable].
Qed.

Lemma cut_written ws : Forall wire_ok ws -> exists l, Cut (joined (written <$> ws)) l "" /\ event_of <$> l = wire_event <$> ws.
Proof.
  induction 1 as [|w ws Hw _ (l & Hc & He)]; [exists []; split; [by constructor|done]|].
  destruct (written_framed w Hw) as (raw & Hs & Ee). exists (raw :: l). split; [|by rewrite !fmap_cons, He, Ee].
  apply (Cut_frame _ raw (joined (written <$> ws))); [apply Hs|done].
Qed.

(** How often an event was read. *)
Definition times (event : string) (l : list string) : Z := Z.of_nat (countb (λ e, (e =? event)%string) l).

Lemma noted l : forall r, let r' := fold_left note l r in
  partials r' = partials r + times PARTIAL l /\ finals r' = finals r + times FINAL l /\
  complete r' = complete r || existsb (λ e, (e =? COMPLETE)%string) l /\
  first_event r' = (if (first_event r =? "")%string then default "" (head (filter (λ e, e <> "") l)) else first_event r) /\
  got_first_page r' = got_first_page r || existsb (λ e, (e =? PARTIAL)%string || (e =? FINAL)%string) l /\
  (job_id r', pages r', error r') = (job_id r, pages r, error r).
Proof.
  induction l as [|e l IH]; intros r; cbn [fold_left].
  - unfold times. cbn. rewrite !orb_false_r. split_and!; try lia; try done. destruct (String.eqb_spec (first_event r) ""); done.
  - destruct (IH (note r e)) as (-> & -> & -> & -> & -> & ->). unfold times, note. cbn [countb existsb partials finals complete first_event got_first_page job_id pages error].
    rewrite !orb_assoc. split_and!; try done.
    + destruct (e =? PARTIAL)%string; cbn; lia.
    + destruct (e =? FINAL)%string; cbn; lia.
    + destruct (String.eqb_spec (first_event r) "") as [E|E]; cbn [andb].
      * destruct (String.eqb_spec e "") as [->|He]; cbn [negb].
        -- rewrite filter_cons_False by (intros H; by apply H). by rewrite E.
        -- rewrite filter_cons_True by done. by destruct (String.eqb_spec e "").
      * by destruct (String.eqb_spec (first_event r) "").
Qed.

(** C25: the client counts what the server wrote, however the network cuts it.  For any
    frames the stream endpoint writes and any division of their text into chunks, the
    benchmark's client has read the first of them, all unless one completed the job:
    its partial and final pages are theirs, and the job is complete exactly when they
    say so. *)
Theorem client_counts_events ws chunks id n : Forall wire_ok ws -> joined chunks = joined (written <$> ws) ->
  let r := read_stream chunks "" (with_job id (new_result n)) in
  exists read, read `prefix_of` (wire_event <$> ws) /\ (COMPLETE ∉ read -> read = wire_event <$> ws) /\
    partials r = times PARTIAL read /\ finals r = times FINAL read /\ (complete r = true <-> COMPLETE ∈ read) /\
    first_event r = default "" (head (filter (λ e, e <> "") read)) /\ (job_id r, pages r, error r) = (id, n, "").
Proof.
  intros Hok E r. destruct (cut_written ws Hok) as (l & Hc & Hl).
  destruct (read_stream_cut chunks "" (with_job id (new_result n)) eq_refl eq_refl) as (k & l1 & rest & Hc1 & Hrest & Er & Hk). fold r in Er, Hk.
  destruct (noted (event_of <$> l1) (with_job id (new_result n))) as (Hp & Hf & Hcm & Hfe & _ & Hid). rewrite <- Er in *.
  assert (exists l2 rest2, Cut (rest +:+ joined (drop k chunks)) l2 rest2) as (l2 & rest2 & Hc2).
  { destruct (drain_cut (String.length (rest +:+ joined (drop k chunks))) (rest +:+ joined (drop k chunks)) r) as (l2 & rest2 & H & _); [done|by exists l2, rest2]. }
  pose proof (cut_app _ (joined (drop k chunks)) _ _ _ _ Hc1 Hc2) as Hall.
  change ("" +:+ joined (take k chunks)) with (joined (take k chunks)) in Hall. rewrite <- joined_app, take_drop, E in Hall. destruct (cut_unique _ _ _ _ _ Hc Hall) as [-> <-].
  assert (complete r = true <-> COMPLETE ∈ event_of <$> l1) as Hiff.
  { rewrite Hcm. cbn [orb complete with_job new_result]. rewrite existsb_exists. split.
    - intros (x & Hx & ->%String.eqb_eq). by apply list_elem_of_In.
    - intros H. exists COMPLETE. split; [by apply list_elem_of_In|done]. }
  exists (event_of <$> l1). split_and!; try done.
  - rewrite <- Hl, fmap_app. by apply prefix_app_r.
  - intros Hno. assert (complete r = false) as Hcf by (apply not_true_is_false; by rewrite Hiff). specialize (Hk Hcf).
    rewrite <- Hl. subst k. rewrite drop_all in Hc2. rewrite string_app_nil_r in Hc2.
    destruct (cut_unique _ _ _ _ _ Hc2 (Cut_none rest Hrest)) as [-> _]. by rewrite app_nil_r.
Qed.

(** ** The tally *)

Definition missing (done : string -> Z) (results : list JobResult) : Z :=
  fold_left (λ t r, t + if (error r =? "")%string then pages r - done (job_id r) else 0) results 0.

Lemma fold_sum {A} (f : A -> Z) l : forall t, fold_left (λ t x, t + f x) l t = t + fold_left (λ t x, t + f x) l 0.
Proof. induction l as [|x l IH]; intros t; cbn [fold_left]; [lia|]. rewrite IH, (IH (0 + f x)). lia. Qed.

(** A run whose streams all ended by themselves: a result has an error exactly when its
    job got no id. *)
Definition unbroken (r : JobResult) : Prop := error r = "" <-> job_id r <> "".

Lemma run_job_unbroken n post body chunks : (forall id, body = inr id -> id <> "") -> unbroken (run_job n post body chunks None).
Proof.
  intros Hid. unfold run_job, unbroken. destruct post as [name|st]; [by split|]. destruct (st =? 503); [by split|].
  destruct body as [name|id]; [by split|].
  destruct (read_stream_cut chunks "" (with_job id (new_result n)) eq_refl eq_refl) as (k & l & rest & _ & _ & -> & _).
  destruct (noted (event_of <$> l) (with_job id (new_result n))) as (_ & _ & _ & _ & _ & [= -> _ ->]).
  cbn. split; [|done]. intros _. by apply Hid.
Qed.

(** the benchmark's count of unhandled pages is the pages of the admitted jobs the
    server has not finished, if no stream breaks. *)
Theorem unhandled_exact done results : Forall unbroken results -> unhandled done results = missing done results.
Proof.
  intros Hu. unfold unhandled, admitted_pages, server_done, missing.
  induction Hu as [|r l Hr Hu IH]; [done|]. cbn [fold_left].
  rewrite (fold_sum (λ r, if (error r =? "")%string then pages r else 0)),
    (fold_sum (λ r, if (job_id r =? "")%string then 0 else done (job_id r))),
    (fold_sum (λ r, if (error r =? "")%string then pages r - done (job_id r) else 0)).
  unfold unbroken in Hr. destruct (String.eqb_spec (error r) ""), (String.eqb_spec (job_id r) ""); try lia; tauto.
Qed.

(** One broken stream hides a loss: two pages were lost, and none is reported. *)
Example broken_stream_hides_loss :
  let lost := run_job 2 (inr 202) (inr "a") ["event: job.complete" +:+ LF +:+ LF] None in
  let broken := run_job 2 (inr 202) (inr "b") [] (Some "ReadError") in
  let done id := if (id =? "b")%string then 2 else 0 in
  error lost = "" /\ pages lost - done (job_id lost) = 2 /\ unhandled done [lost; broken] = 0.
Proof. by vm_compute. Qed.

(** ** Percentiles *)

(** The value at the rank the fraction names, whose rank is never out of range. *)
Lemma percentile_rank values fraction : values <> [] -> (0 <= fraction <= 1)%Q ->
  exists i, (i < length values)%nat /\ Z.of_nat i = round_half_even (fraction * inject_Z (Z.of_nat (length values) - 1)) /\
    merge_sort Qle values !! i = Some (percentile values fraction).
Proof.
  intros Hne [H0 H1]. unfold percentile. destruct values as [|v values]; [done|]. set (l := v :: values).
  assert (length (merge_sort Qle l) = length l) as Hl by apply Permutation_length, merge_sort_Permutation. rewrite Hl.
  set (x := (fraction * inject_Z (Z.of_nat (length l) - 1))%Q). assert (0 < Z.of_nat (length l)) as Hp by (cbn; lia).
  assert (0 <= inject_Z (Z.of_nat (length l) - 1))%Q as Hn by (change 0%Q with (inject_Z 0); rewrite <- Zle_Qle; lia).
  assert (0 <= round_half_even x <= Z.of_nat (length l) - 1) as Hr.
  { apply round_between. unfold x. split; [by apply Qmult_le_0_compat|]. rewrite <- (Qmult_1_l (inject_Z (Z.of_nat (length l) - 1))) at 2. by apply Qmult_le_compat_r. }
  exists (Z.to_nat (round_half_even x)). split_and!; [lia|lia|].
  rewrite Z.max_r, Z.min_r by lia. destruct (lookup_lt_is_Some_2 (merge_sort Qle l) (Z.to_nat (round_half_even x))) as [y Hy]; [lia|].
  rewrite Hy. f_equal. symmetry. rewrite nth_lookup, Hy. done.
Qed.

(** ** Peaks *)

Lemma max_fold l : forall x, (x <= fold_left Qmax_py l x)%Q /\ (forall y, y ∈ l -> y <= fold_left Qmax_py l x)%Q /\
  (fold_left Qmax_py l x = x \/ fold_left Qmax_py l x ∈ l).
Proof.
  induction l as [|a l IH]; intros x; cbn [fold_left]; [split_and!; [lra|by intros y ?%elem_of_nil|by left]|].
  destruct (IH (Qmax_py x a)) as (H1 & H2 & H3).
  assert (x <= Qmax_py x a /\ a <= Qmax_py x a)%Q as [Hx Ha].
  { unfold Qmax_py. destruct (Qle_bool a x) eqn:E; [apply Qle_bool_iff in E|apply Qle_bool_false in E]; lra. }
  split_and!; [lra| |].
  - intros y [->|Hy]%elem_of_cons; [lra|by apply H2].
  - destruct H3 as [->|H3]; [|right; by apply list_elem_of_further]. unfold Qmax_py.
    destruct (Qle_bool a x); [by left|right; apply list_elem_of_here].
Qed.

(** The peak reported is the total of one moment, and no sampled moment exceeded it. *)
Lemma peak_of_sums samples : samples <> [] ->
  (exists s, s ∈ samples /\ peak_total samples = sum_of s) /\ forall s, s ∈ samples -> (sum_of s <= peak_total samples)%Q.
Proof.
  destruct samples as [|s0 samples]; [done|]. intros _. unfold peak_total, max_of. cbn [fmap list_fmap].
  destruct (max_fold (sum_of <$> samples) (sum_of s0)) as (H1 & H2 & H3). split.
  - destruct H3 as [H3|(s & E & Hs)%list_elem_of_fmap]; [exists s0; split; [apply list_elem_of_here|done]|].
    exists s. split; [by apply list_elem_of_further|done].
  - intros s [->|Hs]%elem_of_cons; [done|]. apply H2. by apply (list_elem_of_fmap_2 sum_of).
Qed.

(** ** A run *)

Definition demo_event : ResultEvent := {| ev_entry_id := "1-0"; ev_seq := 1; ev_event := FINAL; ev_data := [("text", JStr ("a" +:+ LF +:+ LF +:+ "b"))] |}.
Definition demo_wires : list wire := [Retry 2000; Event demo_event; Beat 5; Own COMPLETE [("job_id", JStr "j")]].
Definition demo_text : string := joined (written <$> demo_wires).
Definition demo_chunks : list string :=
  [String.substring 0 20 demo_text; String.substring 20 40 demo_text; String.substring 60 500 demo_text].

Lemma client_counts_events_witness :
  let r := read_stream demo_chunks "" (with_job "j" (new_result 1)) in
  exists read, read `prefix_of` [""; FINAL; ""; COMPLETE] /\ finals r = times FINAL read /\ COMPLETE ∈ read.
Proof.
  cbn zeta. assert (Forall wire_ok demo_wires) as Hok.
  { repeat apply Forall_cons_2; try apply Forall_nil_2; cbn; repeat split; try done; apply NoDup_singleton. }
  destruct (client_counts_events demo_wires demo_chunks "j" 1 Hok ltac:(vm_compute; reflexivity)) as (l & Hl & _ & _ & Hf & Hc & _).
  exists l. split_and!; [exact Hl|exact Hf|]. apply Hc. by vm_compute.
Defined.

Lemma unhandled_exact_witness :
  unhandled (λ _, 1) [run_job 2 (inr 202) (inr "a") demo_chunks None; run_job 2 (inr 503) (inr "") [] None] = 1.
Proof.
  rewrite unhandled_exact; [by vm_compute|]. repeat apply Forall_cons_2; try apply Forall_nil_2; by vm_compute.
Defined.
