(* ===== verification/Grading.v ===== *)
(** * How a benchmark run is graded ([bench/benchmark.py])

    The rest of the benchmark: the memory readings of [docker stats], the counters it
    reads off [/metrics], the summary and the exit code.  The streams of the clients are
    in [Bench.v].  [float()] is a parameter; what is printed is left out.  Theorems: a
    counter is read as the scrape shows it; a size is read in its unit; a run that passes
    meets every target, and a run that measured nothing passes. *)

From Stdlib Require Import QArith Qround Lqa Ascii.
From stdpp Require Import sorting.
From S2P Require Import Prelude Py Json Redis Results Sse Bench Metrics Scrape Fleet.
#[local] Open Scope Z_scope.

(** ** Sizes *)

(** [s[: -len(suffix)]] when [s.endswith(suffix)]. *)
Fixpoint strip_suffix (suffix s : string) : option string :=
  if (s =? suffix)%string then Some ""
  else match s with
       | EmptyString => None
       | String c s' => String c <$> strip_suffix suffix s'
       end.

Definition _MIB_FACTORS : list (string * Q) :=
  [("GiB", 1024); ("MiB", 1); ("KiB", 1 / 1024);
   ("GB", 1000 * 1000 * 1000 / (1024 * 1024)); ("MB", 1000 * 1000 / (1024 * 1024));
   ("kB", 1000 / (1024 * 1024)); ("B", 1 / (1024 * 1024))]%Q.

Section reading.
(** [float] of a text. *)
Context (float : string -> result Q).

Fixpoint by_suffix (raw : string) (factors : list (string * Q)) : result Q :=
  match factors with
  | [] => inl (ValueError raw)
  | (suffix, factor) :: factors =>
      match strip_suffix suffix raw with
      | Some number => let* x := float (strip number) in inr (x * factor)%Q
      | None => by_suffix raw factors
      end
  end.

Definition _to_mib (raw : string) : result Q := by_suffix (strip raw) _MIB_FACTORS.

(** [text.split(sep, 1)]; [None]: the character is not there. *)
Fixpoint split_at (sep : ascii) (s : string) : option (string * string) :=
  match s with
  | EmptyString => None
  | String c s' =>
      if Ascii.eqb c sep then Some ("", s')
      else '(a, b) ← split_at sep s'; Some (String c a, b)
  end.

(** [text.split(sep)[0]]. *)
Definition before (sep : ascii) (s : string) : string :=
  match split_at sep s with Some (a, _) => a | None => s end.

(** One line of [docker stats]. *)
Definition reading (usage : sample) (line : string) : sample :=
  match split_at "009" line with
  | None => usage
  | Some (name, mem) =>
      match _to_mib (strip (before "/" mem)) with
      | inr mib => assoc_put name mib usage
      | inl _ => usage
      end
  end.

(** [_snapshot], for the output of the command; [None]: it failed. *)
Definition _snapshot (stdout : option string) : sample :=
  match stdout with
  | None => []
  | Some out => fold_left reading (splitlines out) []
  end.

(** [RssSampler.run]: what is kept of the snapshots. *)
Definition keep_samples (snapshots : list (option string)) : list sample :=
  filter (λ s, s <> []) (_snapshot <$> snapshots).

(** ** Counters *)

(** [line.rsplit(" ", 1)[1]]. *)
Fixpoint after_last_space (s : string) : option string :=
  match s with
  | EmptyString => None
  | String c s' =>
      match after_last_space s' with
      | Some v => Some v
      | None => if Ascii.eqb c " " then Some s' else None
      end
  end.

Definition line_value (line : string) : Q :=
  match after_last_space line with
  | Some v => match float v with inr q => q | inl _ => 0 end
  | None => 0
  end.

Fixpoint first_value (lines : list string) (needle : string) : Q :=
  match lines with
  | [] => 0
  | line :: lines =>
      match Json.strip_prefix needle line with
      | Some _ => line_value line
      | None => first_value lines needle
      end
  end.

Definition metric_value (text needle : string) : Q := first_value (splitlines text) needle.

(** ** The report *)

(** [RssSampler.report]. *)
Definition report (samples : list sample) : sample :=
  match samples with
  | [] => [("peak_total_mb", 0%Q); ("samples", 0%Q)]
  | _ =>
      fold_left (λ d kv, assoc_put ("peak_" +:+ kv.1 +:+ "_mb") kv.2 d)
        (merge_sort key_le (per_container samples))
        [("peak_total_mb", peak_total samples);
         ("mean_total_mb", (fold_left Qplus (sum_of <$> samples) 0 / inject_Z (Z.of_nat (length samples)))%Q);
         ("samples", inject_Z (Z.of_nat (length samples)))]
  end.

(** A result with the times [run_job] took. *)
Record timed := {
  outcome : JobResult; post_ms : Q; connect_ms : Q; first_byte_ms : Q; ttfp_ms : Q; page_latencies_ms : list Q }.

(** What [main] measures: the sequential jobs, the burst, the two scrapes, what
    [GET /jobs/{id}] answers, the samples and the clocks. *)
Record measured := {
  jobs : Z; pages_per_job : Z; solo : list timed; burst : list timed; metrics_before : string;
  metrics_after : string; done_of : string -> Z; rss_samples : list sample; wall_s : Q; cpu_s : Q }.

Definition results (m : measured) : list JobResult := outcome <$> burst m.

(** [[x for x in l if x > 0]], and [if x]. *)
Definition above_zero (l : list Q) : list Q := filter (λ x, Qle_bool x 0 = false) l.
Definition nonzero (l : list Q) : list Q := filter (λ x, Qeq_bool x 0 = false) l.

Definition solo_ttfps (m : measured) : list Q := above_zero (ttfp_ms <$> solo m).
Definition solo_first_bytes (m : measured) : list Q := above_zero (first_byte_ms <$> solo m).
Definition ttfps (m : measured) : list Q := above_zero (ttfp_ms <$> burst m).
Definition page_latencies (m : measured) : list Q := burst m ≫= page_latencies_ms.

Record Summary := {
  s_jobs : Z; s_pages_per_job : Z; total_pages : Z; s_admitted_pages : Z; shed_jobs : Z; errored_jobs : Z;
  s_wall_s : Q; pages_per_sec : Q; peak_rss_mb : Q; solo_ttfp_p50_ms : Q; solo_ttfp_p95_ms : Q;
  solo_samples : Z; solo_first_byte_p95_ms : Q; ttfp_p50_ms : Q; ttfp_p95_ms : Q; ttfp_p99_ms : Q;
  page_p50_ms : Q; page_p95_ms : Q; page_p99_ms : Q; post_p95_ms : Q; connect_p95_ms : Q; sse_finals : Z;
  s_server_done : Z; metrics_success : Z; metrics_failed : Z; unhandled_pages : Z; client_cpu_s : Q;
  client_cpu_ratio : Q; rss : sample }.

Definition needle (result : string) : string :=
  "orch_pages_terminal_total{result=" +:+ String QUOTE (result +:+ String QUOTE "}").

(** The tally and the summary. *)
Definition summarise (m : measured) : Summary :=
  let value text result := metric_value text (needle result) in
  let rss := report (rss_samples m) in
  let tenth l fraction := round_to 10 (percentile l fraction) in
  {| s_jobs := jobs m; s_pages_per_job := pages_per_job m;
     total_pages := jobs m * pages_per_job m;
     s_admitted_pages := admitted_pages (results m);
     shed_jobs := Z.of_nat (length (filter (λ r, error r = "shed") (results m)));
     errored_jobs := Z.of_nat (length (filter (λ r, error r <> "" /\ error r <> "shed") (results m)));
     s_wall_s := round_to 100 (wall_s m);
     pages_per_sec :=
       if Qeq_bool (wall_s m) 0 then 0 else round_to 100 (inject_Z (server_done (done_of m) (results m)) / wall_s m);
     peak_rss_mb := round_to 10 (default 0%Q (assoc_get "peak_total_mb" rss));
     solo_ttfp_p50_ms := tenth (solo_ttfps m) (1 # 2);
     solo_ttfp_p95_ms := tenth (solo_ttfps m) (95 # 100);
     solo_samples := Z.of_nat (length (solo_ttfps m));
     solo_first_byte_p95_ms := tenth (nonzero (solo_first_bytes m)) (95 # 100);
     ttfp_p50_ms := tenth (ttfps m) (1 # 2);
     ttfp_p95_ms := tenth (ttfps m) (95 # 100);
     ttfp_p99_ms := tenth (ttfps m) (99 # 100);
     page_p50_ms := tenth (page_latencies m) (1 # 2);
     page_p95_ms := tenth (page_latencies m) (95 # 100);
     page_p99_ms := tenth (page_latencies m) (99 # 100);
     post_p95_ms := tenth (post_ms <$> burst m) (95 # 100);
     connect_p95_ms := tenth (nonzero (connect_ms <$> burst m)) (95 # 100);
     sse_finals := fold_left (λ t r, t + finals r) (results m) 0;
     s_server_done := server_done (done_of m) (results m);
     metrics_success := int_of_float (value (metrics_after m) "success" - value (metrics_before m) "success");
     metrics_failed := int_of_float (value (metrics_after m) "failed" - value (metrics_before m) "failed");
     unhandled_pages := unhandled (done_of m) (results m);
     client_cpu_s := round_to 100 (cpu_s m);
     client_cpu_ratio := if Qeq_bool (wall_s m) 0 then 0 else round_to 1000 (cpu_s m / wall_s m);
     rss := (λ kv, (kv.1, round_to 10 kv.2)) <$> rss |}.

Definition targets_met (s : Summary) : bool :=
  graded (peak_rss_mb s) (unhandled_pages s) (solo_ttfp_p95_ms s).

(** [main]'s exit code; [None]: the API could not be reached. *)
Definition exit_code (m : option measured) : Z :=
  match m with
  | None => 2
  | Some m => if targets_met (summarise m) then 0 else 1
  end.
End reading.

(** ** Counters as the scrape shows them *)

Section counters.
Context (repr : Q -> string) (float : string -> result Q).
(** A number is written without blanks and read back. *)
Context (Hfloat : forall q, exists q', float (_format_value repr (Num q)) = inr q' /\ (q' == q)%Q).
Context (Hblank : forall q, str_forall (λ c, negb (Ascii.eqb c " ")) (_format_value repr (Num q)) = true).

(** The needle of a series. *)
Definition series_needle (name : string) (key : labels) : string :=
  name +:+ "{" +:+ join_with "," (render_label <$> key) +:+ "}".

Lemma needle_series r : str_forall is_name_char r = true ->
  needle r = series_needle "orch_pages_terminal_total" [("result", r)].
Proof using Type.
  intros Hr. unfold needle, series_needle, render_label. cbn [fmap list_fmap join_with fst snd].
  assert (_escape_label r = r) as ->.
  { induction r as [|c r IH]; [done|]. cbn [str_forall] in Hr. apply andb_prop in Hr as [Hc Hr].
    rewrite escape_label_cons, (IH Hr). destruct c as [[] [] [] [] [] [] [] []]; done. }
  assert ((r +:+ String QUOTE "") +:+ "}" = r +:+ String QUOTE "}") as <- by by rewrite string_app_assoc.
  reflexivity.
Qed.

Lemma after_last_space_app a b : str_forall (λ c, negb (Ascii.eqb c " ")) b = true ->
  after_last_space (a +:+ " " +:+ b) = Some b.
Proof using Type.
  intros Hb. assert (after_last_space b = None) as Hn.
  { induction b as [|c b IH]; [done|]. cbn [str_forall] in Hb. apply andb_prop in Hb as [Hc Hb].
    cbn [after_last_space]. rewrite (IH Hb). by destruct (Ascii.eqb c " "). }
  induction a as [|c a IH].
  - change ("" +:+ " " +:+ b) with (String " " b). cbn [after_last_space]. by rewrite Hn.
  - rewrite append_cons. cbn [after_last_space]. by rewrite IH.
Qed.

(** What a scrape exposes. *)
Record tidy (fams : list MetricFamily) : Prop := {
  td_lines : Forall (λ l, str_forall printable l = true) (fams ≫= family_lines repr);
  td_samples : Forall (λ s, str_forall is_name_char (s_name s) = true /\ sorted_labels (s_labels s) = s_labels s /\
    Forall (λ kv, str_forall is_name_char kv.1 = true) (s_labels s)) (fams ≫= f_samples) }.

(** A sample's line starts with the needle of its own series only. *)
Lemma render_needle s name key : str_forall is_name_char (s_name s) = true ->
  sorted_labels (s_labels s) = s_labels s -> Forall (λ kv, str_forall is_name_char kv.1 = true) (s_labels s) ->
  str_forall is_name_char name = true -> key <> [] -> Forall (λ kv, str_forall is_name_char kv.1 = true) key ->
  match Json.strip_prefix (series_needle name key) (_render_sample repr s) with
  | Some r => s_name s = name /\ s_labels s = key
  | None => ~ (s_name s = name /\ s_labels s = key)
  end.
Proof using Type.
  intros Hs Hsort Hl Hn Hk Hkey.
  destruct (Json.strip_prefix _ _) as [r|] eqn:E.
  - apply strip_prefix_Some in E. unfold _render_sample in E. apply (f_equal read_name) in E.
    unfold series_needle in E. rewrite !string_app_assoc in E.
    revert Hsort Hl E. destruct (s_labels s) as [|kv l]; intros Hsort Hl E.
    + change (" " +:+ ?x) with (String " " x) in E. change ("{" +:+ ?x) with (String "{" x) in E.
      rewrite !read_name_stop in E by done. done.
    + change ("{" +:+ ?x) with (String "{" x) in E. rewrite !read_name_stop in E by done.
      injection E as -> E. split; [done|].
      set (n := (length (kv :: l) + length key)%nat). apply (f_equal (read_labels n)) in E.
      change ("} " +:+ ?x) with (String "}" (String " " x)) in E. change ("}" +:+ ?x) with (String "}" x) in E.
      rewrite Hsort, !read_labels_join in E by (done || (unfold n; simpl; lia)). by injection E.
  - intros [<- Ek]. unfold _render_sample in E. rewrite Ek in E, Hsort.
    destruct key as [|kv key]; [done|]. rewrite Hsort in E.
    unfold series_needle in E.
    assert (forall v, s_name s +:+ "{" +:+ join_with "," (render_label <$> kv :: key) +:+ "} " +:+ v =
      (s_name s +:+ "{" +:+ join_with "," (render_label <$> kv :: key) +:+ "}") +:+ String " " v) as Hv
      by (intros v; by rewrite !string_app_assoc).
    rewrite Hv, strip_prefix_app in E. done.
Qed.

(** A line that is no sample starts with a hash. *)
Lemma comment_needle l name key : name <> "" -> str_forall is_name_char name = true ->
  Json.strip_prefix (series_needle name key) (String "#" l) = None.
Proof using Type.
  intros Hne Hn. destruct name as [|c name]; [done|]. cbn [str_forall] in Hn. apply andb_prop in Hn as [Hc _].
  unfold series_needle. rewrite append_cons.
  cbn [Json.strip_prefix]. by destruct (Ascii.eqb_spec c "#"%char) as [->|].
Qed.

Lemma lines_read l ls : Forall (λ l, str_forall printable l = true) (l :: ls) ->
  splitlines (join_with LF (l :: ls) +:+ LF) = l :: ls.
Proof using Type.
  revert l. induction ls as [|l' ls IH]; intros l Hl; apply Forall_cons in Hl as [Hl Hls].
  - cbn [join_with]. by rewrite <- (string_app_nil_r LF), splitlines_line.
  - rewrite join_with_cons, !string_app_assoc, splitlines_line by done. by rewrite IH.
Qed.

(** The first line of a series among the lines of a scrape. *)
Lemma first_value_samples name key ss rest : name <> "" -> str_forall is_name_char name = true ->
  key <> [] -> Forall (λ kv, str_forall is_name_char kv.1 = true) key ->
  Forall (λ s, str_forall is_name_char (s_name s) = true /\ sorted_labels (s_labels s) = s_labels s /\
    Forall (λ kv, str_forall is_name_char kv.1 = true) (s_labels s)) ss ->
  first_value float ((_render_sample repr <$> ss) ++ rest) (series_needle name key) =
  match head (filter (λ s, s_name s = name /\ s_labels s = key) ss) with
  | Some s => line_value float (_render_sample repr s)
  | None => first_value float rest (series_needle name key)
  end.
Proof using Type.
  intros Hne Hn Hk Hkey. induction 1 as [|s ss (H1 & H2 & H3) _ IH]; [done|].
  rewrite fmap_cons, filter_cons. cbn [app first_value].
  pose proof (render_needle s name key H1 H2 H3 Hn Hk Hkey) as Hs.
  destruct (Json.strip_prefix _ _); [by rewrite decide_True|]. by rewrite decide_False, IH.
Qed.

Lemma first_value_families name key fams : name <> "" -> str_forall is_name_char name = true ->
  key <> [] -> Forall (λ kv, str_forall is_name_char kv.1 = true) key -> tidy fams ->
  first_value float (fams ≫= family_lines repr) (series_needle name key) =
  match head (filter (λ s, s_name s = name /\ s_labels s = key) (fams ≫= f_samples)) with
  | Some s => line_value float (_render_sample repr s)
  | None => 0%Q
  end.
Proof using Type.
  intros Hne Hn Hk Hkey [_ Ht]. induction fams as [|f fams IH]; [done|].
  change ((f :: fams) ≫= f_samples) with (f_samples f ++ (fams ≫= f_samples)) in *.
  apply Forall_app in Ht as [Hf Ht].
  change ((f :: fams) ≫= family_lines repr) with (family_lines repr f ++ (fams ≫= family_lines repr)).
  unfold family_lines at 1. rewrite <- app_assoc. cbn [app first_value].
  change ("# HELP " +:+ ?x) with (String "#" (" HELP " +:+ x)).
  change ("# TYPE " +:+ ?x) with (String "#" (" TYPE " +:+ x)).
  rewrite !comment_needle by done. rewrite (first_value_samples name key _ _ Hne Hn Hk Hkey Hf), (IH Ht), filter_app.
  by destruct (filter _ (f_samples f)).
Qed.

Lemma line_value_read s q : s_value s = Num q -> (line_value float (_render_sample repr s) == q)%Q.
Proof using Hfloat Hblank.
  intros Hv. unfold line_value.
  assert (exists a, _render_sample repr s = a +:+ " " +:+ _format_value repr (Num q)) as [a ->].
  { unfold _render_sample. rewrite Hv. destruct (s_labels s) as [|kv l]; [by eexists|].
    exists (s_name s +:+ "{" +:+ join_with "," (render_label <$> sorted_labels (kv :: l)) +:+ "}").
    by rewrite !string_app_assoc. }
  rewrite after_last_space_app by apply Hblank. destruct (Hfloat q) as (q' & -> & E). done.
Qed.

(** the benchmark reads a counter as the scrape shows it: off the text of the
    exposition, behind a series' name and labels, it gets the number of that series - and
    zero when the series is not there - whatever other families, series and label values
    the text has. *)
Theorem counter_read name key fams : name <> "" -> str_forall is_name_char name = true ->
  key <> [] -> Forall (λ kv, str_forall is_name_char kv.1 = true) key -> tidy fams ->
  (forall f s, f ∈ fams -> s ∈ f_samples f -> s_name s = name ->
     f_kind f = "counter" /\ f_name f = name /\ exists q, s_value s = Num q) ->
  (metric_value float (render repr fams) (series_needle name key) == count_shown name key fams)%Q.
Proof using Hfloat Hblank.
  intros Hne Hn Hk Hkey Ht Hown. unfold metric_value, render.
  assert (filter (λ s, s_name s = name /\ s_labels s = key) (exposed "counter" name fams) =
          filter (λ s, s_name s = name /\ s_labels s = key) (fams ≫= f_samples)) as Hfilter.
  { clear Ht. unfold exposed. induction fams as [|f fams IH]; [done|].
    change ((f :: fams) ≫= f_samples) with (f_samples f ++ (fams ≫= f_samples)). rewrite filter_cons.
    assert (forall f s, f ∈ fams -> s ∈ f_samples f -> s_name s = name ->
      f_kind f = "counter" /\ f_name f = name /\ exists q, s_value s = Num q) as Hrest
      by (intros; eapply Hown; [by apply list_elem_of_further|done..]).
    rewrite filter_app, <- (IH Hrest). destruct (decide (f_kind f = "counter" /\ f_name f = name)) as [Hf|Hf].
    - change ((f :: ?l) ≫= f_samples) with (f_samples f ++ (l ≫= f_samples)). by rewrite filter_app.
    - assert (filter (λ s, s_name s = name /\ s_labels s = key) (f_samples f) = []) as ->; [|done].
      apply elem_of_nil_inv. intros s [[Hs _] Hin]%list_elem_of_filter. apply Hf.
      destruct (Hown f s (list_elem_of_here _ _) Hin Hs) as (? & ? & _). done. }
  assert (first_value float (splitlines (join_with LF (fams ≫= family_lines repr) +:+ LF)) (series_needle name key) =
          first_value float (fams ≫= family_lines repr) (series_needle name key)) as ->.
  { destruct (fams ≫= family_lines repr) as [|l ls] eqn:El.
    - destruct name as [|c name]; [done|]. done.
    - rewrite lines_read; [done|]. rewrite <- El. apply Ht. }
  rewrite first_value_families by done. unfold count_shown, shown. rewrite Hfilter.
  destruct (filter _ (fams ≫= f_samples)) as [|s l] eqn:E; [done|]. cbn.
  assert (s ∈ filter (λ s, s_name s = name /\ s_labels s = key) (fams ≫= f_samples)) as Hs
    by (rewrite E; apply list_elem_of_here).
  apply list_elem_of_filter in Hs as [[Hs _] (f & Hin & Hf)%list_elem_of_bind].
  destruct (Hown f s Hf Hin Hs) as (_ & _ & q & Hq). rewrite Hq. by apply line_value_read.
Qed.
End counters.

(** ** Sizes in their units *)

Section sizes.
Context (float : string -> result Q).

Lemma strip_suffix_app a suffix : strip_suffix suffix (a +:+ suffix) = Some a.
Proof using Type.
  induction a as [|c a IH].
  - change ("" +:+ suffix) with suffix. destruct suffix as [|c s]; [done|].
    cbn [strip_suffix]. by rewrite String.eqb_refl.
  - rewrite append_cons. cbn [strip_suffix].
    destruct (String.eqb_spec (String c (a +:+ suffix)) suffix) as [E|_]; [|by rewrite IH].
    apply (f_equal String.length) in E. cbn [String.length] in E. rewrite string_app_length in E. lia.
Qed.

Lemma strip_suffix_spec suffix s a : strip_suffix suffix s = Some a -> s = a +:+ suffix.
Proof using Type.
  revert a. induction s as [|c s IH]; intros a; cbn [strip_suffix].
  { destruct (String.eqb_spec "" suffix) as [<-|_]; [by intros [= <-]|done]. }
  destruct (String.eqb_spec (String c s) suffix) as [<-|_]; [by intros [= <-]|].
  destruct (strip_suffix suffix s) as [b|]; [|done]. intros [= <-]. by rewrite append_cons, <- (IH b eq_refl).
Qed.

Lemma string_rev a b : rev (String.list_ascii_of_string (a +:+ b)) =
  rev (String.list_ascii_of_string b) ++ rev (String.list_ascii_of_string a).
Proof using Type.
  rewrite <- rev_app_distr. f_equal. induction a as [|c a IH]; [done|]. exact (f_equal (cons c) IH).
Qed.

(** The last characters tell the suffix. *)
Lemma suffix_chars v s : take (length (String.list_ascii_of_string v)) (rev (String.list_ascii_of_string s))
    <> rev (String.list_ascii_of_string v) -> strip_suffix v s = None.
Proof using Type.
  intros Hne. destruct (strip_suffix v s) as [a|] eqn:E; [|done]. exfalso. apply Hne.
  apply strip_suffix_spec in E as ->. rewrite string_rev, <- length_rev. apply take_app_length.
Qed.

Lemma strip_plain s : str_forall (λ c, negb (is_space c)) s = true -> strip s = s.
Proof using Type.
  intros Hs. assert (rstrip s = s) as Hr.
  { induction s as [|c s IH]; [done|]. cbn [str_forall] in Hs. apply andb_prop in Hs as [Hc Hs].
    cbn [rstrip]. rewrite (IH Hs). destruct s; [|done]. by destruct (is_space c). }
  unfold strip. rewrite Hr. destruct s as [|c s]; [done|]. cbn [str_forall] in Hs. apply andb_prop in Hs as [Hc _].
  cbn [lstrip]. by destruct (is_space c).
Qed.

Lemma by_suffix_skip v f factors raw : strip_suffix v raw = None ->
  by_suffix float raw ((v, f) :: factors) = by_suffix float raw factors.
Proof using Type. cbn [by_suffix]. by intros ->. Qed.

(** A number that ends in a digit, before a unit, ends in no unit tried before. *)
Ltac other_unit Hc :=
  rewrite by_suffix_skip by (apply suffix_chars; rewrite string_rev; cbn; intros [=]; subst; discriminate Hc).

(** the size of a container is read in its unit, whichever of the seven it is. *)
Theorem size_in_its_unit digits c x unit factor :
  str_forall (λ c, negb (is_space c)) digits = true -> is_digit c = true ->
  float (digits +:+ String c "") = inr x -> (unit, factor) ∈ _MIB_FACTORS ->
  _to_mib float (digits +:+ String c unit) = inr (x * factor)%Q.
Proof using Type.
  intros Hd Hc Hf Hu. unfold _to_mib.
  assert (is_space c = false) as Hs by (destruct c as [[] [] [] [] [] [] [] []]; done).
  assert (str_forall (λ c, negb (is_space c)) (digits +:+ String c "") = true) as Hplain
    by (rewrite str_forall_app, Hd; cbn [str_forall]; by rewrite Hs).
  assert (str_forall (λ c, negb (is_space c)) (digits +:+ String c unit) = true) as Hall.
  { rewrite str_forall_app, Hd. cbn [str_forall]. rewrite Hs. cbn.
    clear - Hu. unfold _MIB_FACTORS in Hu. rewrite !elem_of_cons, elem_of_nil in Hu.
    by destruct Hu as [[= -> ->]|[[= -> ->]|[[= -> ->]|[[= -> ->]|[[= -> ->]|[[= -> ->]|[[= -> ->]|[]]]]]]]]. }
  rewrite (strip_plain _ Hall). clear Hall.
  assert (strip_suffix unit (digits +:+ String c unit) = Some (digits +:+ String c "")) as Hown.
  { assert (digits +:+ String c unit = (digits +:+ String c "") +:+ unit) as ->
      by by rewrite string_app_assoc.
    apply strip_suffix_app. }
  unfold _MIB_FACTORS in Hu. rewrite !elem_of_cons, elem_of_nil in Hu.
  assert (forall f factors, by_suffix float (digits +:+ String c unit) ((unit, f) :: factors) = inr (x * f)%Q) as Hhit.
  { intros f factors. cbn [by_suffix]. rewrite Hown, (strip_plain _ Hplain), Hf. done. }
  destruct Hu as [[= -> ->]|[[= -> ->]|[[= -> ->]|[[= -> ->]|[[= -> ->]|[[= -> ->]|[[= -> ->]|[]]]]]]]];
    unfold _MIB_FACTORS; repeat (apply Hhit || other_unit Hc).
Qed.
End sizes.

(** ** The grade *)

Lemma round_to_lower (s : positive) (a : Z) (x : Q) : ((a # s) <= x)%Q -> ((a # s) <= round_to s x)%Q.
Proof.
  intros Ha. unfold round_to.
  assert (inject_Z a <= x * inject_Z (Z.pos s))%Q as H.
  { destruct x as [p q]. unfold Qle, Qmult, inject_Z in *. simpl in *. nia. }
  apply Qfloor_resp_le in H. rewrite Qfloor_Z in H.
  assert (Qfloor (x * inject_Z (Z.pos s)) <= round_half_even (x * inject_Z (Z.pos s))) as Hr.
  { unfold round_half_even. destruct (_ ?= _)%Q; [destruct (Z.even _)|..]; lia. }
  unfold Qle. simpl. nia.
Qed.

Lemma keep_peak_keys s : forall p k, k ∈ (fold_left keep_peak s p).*1 -> k ∈ p.*1 \/ k ∈ s.*1.
Proof.
  induction s as [|[n v] s IH]; intros p k Hk; [by left|]. cbn [fold_left] in Hk.
  destruct (IH _ k Hk) as [H|H]; [|right; rewrite fmap_cons; by apply list_elem_of_further].
  assert (forall m : sample, k ∈ (assoc_put n (Qmax_py (default 0%Q (assoc_get n p)) v) m).*1 -> k ∈ m.*1 \/ k = n) as Hput.
  { induction m as [|[n' v'] m IHm]; cbn [assoc_put].
    - rewrite fmap_cons, elem_of_cons. intros [->|Hnil]; [by right|by apply elem_of_nil in Hnil].
    - destruct (decide (n = n')) as [->|]; rewrite !fmap_cons, !elem_of_cons; [intros [->|]; tauto|].
      intros [->|Hm]; [by left; left|]. destruct (IHm Hm); [left; by right|by right]. }
  destruct (Hput _ H) as [H0| ->]; [by left|right]. rewrite fmap_cons. apply list_elem_of_here.
Qed.

Lemma per_container_keys samples : forall p k, k ∈ (fold_left (λ p s, fold_left keep_peak s p) samples p).*1 ->
  k ∈ p.*1 \/ exists s, s ∈ samples /\ k ∈ s.*1.
Proof.
  induction samples as [|s samples IH]; intros p k Hk; [by left|].
  destruct (IH _ k Hk) as [H|(s' & Hs & H)]; [|right; exists s'; split; [by apply list_elem_of_further|done]].
  destruct (keep_peak_keys s p k H); [by left|right; exists s; split; [apply list_elem_of_here|done]].
Qed.

(** The peak of the sum is reported unless a container is called [total]. *)
Lemma report_peak samples : (forall s, s ∈ samples -> "total" ∉ s.*1) ->
  assoc_get "peak_total_mb" (report samples) = Some (peak_total samples).
Proof.
  intros Hno. unfold report. destruct samples as [|s0 samples0]; [done|]. set (samples := s0 :: samples0) in *.
  assert (forall kv, kv ∈ merge_sort Scrape.key_le (per_container samples) -> kv.1 <> "total") as Hkeys.
  { intros kv Hin E. rewrite merge_sort_Permutation in Hin.
    destruct (per_container_keys samples [] kv.1) as [Hnil|(s & Hs & Hk)];
      [by apply (list_elem_of_fmap_2 fst)|by apply elem_of_nil in Hnil|].
    rewrite E in Hk. by apply (Hno s). }
  revert Hkeys. generalize (merge_sort Scrape.key_le (per_container samples)). intros l Hkeys.
  assert (forall d, assoc_get "peak_total_mb" (fold_left (λ d kv, assoc_put ("peak_" +:+ kv.1 +:+ "_mb") kv.2 d) l d) =
    assoc_get "peak_total_mb" d) as ->; [|done].
  induction l as [|[n v] l IH]; intros d; [done|]. cbn [fold_left fst snd].
  rewrite IH by (intros; apply Hkeys; by apply list_elem_of_further).
  rewrite assoc_get_put, decide_False; [done|]. intros E.
  apply (Hkeys (n, v)); [apply list_elem_of_here|]. cbn [fst].
  change "peak_total_mb" with ("peak_" +:+ "total" +:+ "_mb") in E.
  assert (forall a b c : string, a +:+ b = a +:+ c -> b = c) as Hinj
    by (induction a as [|x a IHa]; intros b c Hb; [done|]; injection Hb as Hb; by apply IHa).
  apply Hinj in E. pose proof (strip_suffix_app "total" "_mb") as H1.
  rewrite E in H1. rewrite strip_suffix_app in H1. by injection H1.
Qed.

(** a run that passes met its targets, on the figures as they were measured and not
    only as they are rounded: no page of an admitted job unhandled, the sampled peak below
    500 MB, the 95th percentile of the time to the first page below 200 ms. *)
Theorem pass_is_sound float m : (forall s, s ∈ rss_samples m -> "total" ∉ s.*1) ->
  exit_code float (Some m) = 0 ->
  unhandled (done_of m) (results m) = 0 /\ (peak_total (rss_samples m) < 500)%Q /\
  (percentile (solo_ttfps m) (95 # 100) < 200)%Q.
Proof.
  intros Hno. cbn [exit_code]. destruct (targets_met _) eqn:E; [|done]. intros _.
  unfold targets_met, graded in E. cbn in E. rewrite report_peak in E by done. cbn [default] in E. unfold id in E.
  rewrite !andb_true_iff, !negb_true_iff, !Qle_bool_false, Z.eqb_eq in E. destruct E as [[E1 E2] E3].
  split; [exact E2|]. split; apply Qnot_le_lt; intros Hle.
  - pose proof (round_to_lower 10 5000 (peak_total (rss_samples m)) ltac:(lra)). lra.
  - pose proof (round_to_lower 10 2000 (percentile (solo_ttfps m) (95 # 100)) ltac:(lra)). lra.
Qed.

Lemma no_first_page m : Forall (λ t, ttfp_ms t == 0)%Q (solo m) -> solo_ttfps m = [].
Proof.
  unfold solo_ttfps, above_zero. induction 1 as [|t l Ht _ IH]; [done|]. rewrite fmap_cons, filter_cons, decide_False; [done|].
  assert (Qle_bool (ttfp_ms t) 0 = true) as -> by (apply Qle_bool_iff; lra). done.
Qed.

(** a run in which every job was shed, no sequential job reached its first page and
    no memory reading was taken meets every target. *)
Theorem nothing_measured_passes float m n pages : Forall (λ t, ttfp_ms t == 0)%Q (solo m) -> rss_samples m = [] ->
  results m = replicate n (run_job pages (inr 503) (inl "unread") [] None) ->
  exit_code float (Some m) = 0.
Proof.
  intros Hs%no_first_page Hr Hres. cbn [exit_code]. unfold targets_met, summarise. cbn. rewrite Hs, Hr, Hres. cbn.
  assert (unhandled (done_of m) (replicate n (with_error "shed" (new_result pages))) = 0) as Hu.
  { unfold unhandled, admitted_pages, server_done.
    assert (forall (f : Z -> JobResult -> Z) x t, (forall t, f t x = t) -> fold_left f (replicate n x) t = t) as Hfold.
    { clear. intros f x t Hf. revert t. induction n as [|n IH]; intros t; [done|]. cbn. by rewrite Hf, IH. }
    rewrite !Hfold; [done|intros t; cbn; lia..]. }
  unfold run_job. cbn. rewrite Hu. done.
Qed.

(** ** Witnesses *)

(** A way to write numbers that are not whole, and to read all. *)
Definition tagged (q : Q) : string := String "q" (show_code q).
Definition untagged (s : string) : result Q :=
  match s with
  | String "q" s' => float_code s'
  | _ => match py_int s with Some z => inr (inject_Z z) | None => inl (ValueError s) end
  end.

Lemma py_str_chars z : str_forall (λ c, is_digit c || Ascii.eqb c "-") (py_str z) = true.
Proof.
  assert (forall n : N, str_forall (λ c, is_digit c || Ascii.eqb c "-") (pretty n) = true) as Hn.
  { intros n. eapply str_forall_impl; [|apply pretty_N_digits]. by intros c ->. }
  unfold py_str. destruct z as [|p|p]; [done|exact (Hn (N.pos p))|].
  change (pretty (Z.neg p)) with (String "-"%char (pretty (N.pos p))). exact (Hn (N.pos p)).
Qed.

Lemma untagged_reads q : exists q', untagged (_format_value tagged (Num q)) = inr q' /\ (q' == q)%Q.
Proof.
  unfold _format_value. destruct (is_integer q && _) eqn:E; [|exists q; split; [apply float_show_code|done]].
  apply andb_prop in E as [E _]. unfold is_integer in E. apply Pos.eqb_eq in E.
  exists (inject_Z (Qnum (Qred q))). split.
  - pose proof (py_str_chars (Qnum (Qred q))) as Hc. pose proof (py_int_str (Qnum (Qred q))) as Hi.
    unfold untagged. destruct (py_str (Qnum (Qred q))) as [|c s]; [done|].
    cbn [str_forall] in Hc. apply andb_prop in Hc as [Hc _].
    destruct c as [[] [] [] [] [] [] [] []]; try discriminate Hc; by rewrite Hi.
  - rewrite <- (Qred_correct q) at 2. unfold inject_Z. destruct (Qred q) as [n d]. cbn in E |- *. by subst d.
Qed.

Lemma tagged_plain q : str_forall (λ c, negb (Ascii.eqb c " ")) (_format_value tagged (Num q)) = true.
Proof.
  assert (forall z, str_forall (λ c, negb (Ascii.eqb c " ")) (py_str z) = true) as Hz.
  { intros z. eapply str_forall_impl; [|apply py_str_chars]. by intros [[] [] [] [] [] [] [] []]. }
  unfold _format_value. destruct (_ && _); [apply Hz|]. exact (Hz _).
Qed.

Definition sample_family : MetricFamily :=
  {| f_name := "orch_pages_terminal_total"; f_kind := "counter"; f_help := "Pages";
     f_samples := [{| s_name := "orch_pages_terminal_total"; s_labels := [("result", "failed")]; s_value := Num 2 |};
                   {| s_name := "orch_pages_terminal_total"; s_labels := [("result", "success")]; s_value := Num (11 # 2) |}] |}.

Example counter_read_witness :
  (metric_value untagged (render tagged [sample_family]) (needle "success") == 11 # 2)%Q.
Proof.
  rewrite needle_series by done.
  rewrite (counter_read tagged untagged untagged_reads tagged_plain "orch_pages_terminal_total"
    [("result", "success")] [sample_family]); [done|done|done|done|by repeat constructor| |].
  - split; [|repeat constructor]. vm_compute. by repeat constructor.
  - intros f s ->%list_elem_of_singleton Hs _. split; [done|]. split; [done|].
    apply elem_of_cons in Hs as [->|Hs]; [by eexists|]. apply list_elem_of_singleton in Hs as ->. by eexists.
Defined.

Definition sample_run : measured :=
  let stream := ["event: page.final" +:+ LF +:+ LF; "event: job.complete" +:+ LF +:+ LF] in
  let ran (ttfp : Q) := {| outcome := run_job 1 (inr 202%Z) (inr "a") stream None; post_ms := 20; connect_ms := 5;
                     first_byte_ms := 30; ttfp_ms := ttfp; page_latencies_ms := [ttfp] |}%Q in
  {| jobs := 1; pages_per_job := 1; solo := [ran 150; ran 199]%Q; burst := [ran 900%Q]; metrics_before := "";
     metrics_after := ""; done_of := λ _, 1; rss_samples := [[("api", 120%Q); ("redis", 30%Q)]];
     wall_s := 2; cpu_s := 1 |}.

Example pass_is_sound_witness :
  exit_code untagged (Some sample_run) = 0 /\ (peak_total (rss_samples sample_run) < 500)%Q.
Proof.
  assert (exit_code untagged (Some sample_run) = 0) as E by (vm_compute; reflexivity). split; [exact E|].
  apply (pass_is_sound untagged sample_run); [|exact E].
  intros s ->%list_elem_of_singleton. apply (bool_decide_unpack _). vm_compute. exact I.
Defined.

(** A container's 1.95GiB is 1996.8 MiB. *)
Example size_in_its_unit_witness : _to_mib (λ _, inr (195 # 100)%Q) "1.95GiB" = inr ((195 # 100) * 1024)%Q.
Proof. apply (size_in_its_unit _ "1.9" "5"); [done..|]. apply list_elem_of_here. Defined.
